(* ===== verification/_CoqProject ===== *)
-Q . S2P
Prelude.v
Id.v
Errors.v
Annotations.v
Models.v
GoStrings.v
Base64.v
Resource.v
Evictor.v
Stats.v
Call.v
StateTrackers.v
Slots.v
SlotKey.v
Placer.v
Sync.v
IoUtils.v
DataAccess.v
HttpTrigger.v
Workflow.v
Datastore.v
ApiHandlers.v
HotSlot.v
RunnerProtocol.v
RunnerStream.v
RunnerClient.v
HotContainer.v
ImageName.v
ImageCache.v
ImagePuller.v
DockerPool.v
Cookie.v
RunnerStatus.v
LbAgent.v
LbBuffers.v
Sql.v
SqlStore.v
SqlRefine.v
SqlTexts.v
SqlOps.v
