(* ===== verification/Prelude.v ===== *)
(** * The Fn server: a verification library

    This development models the core of the Fn function server (src/api): the
    models and their validation, the agent that decides which container runs a
    call, the placement of calls on runners, and the HTTP front end with its
    workflows.  Definitions follow the Go code function by function and keep its
    names; they are executable, so that every theorem is also run on an example.

    ** How the program is put together

    A client calls a function by HTTP, directly or through a trigger
    (src/api/server).  The front end looks the function up through a cached
    access to the datastore, builds a [call] from the application, the function
    and the request, and submits it to an agent.  A load-balancing agent picks
    runners with a placer until one takes the call; the agent of a runner queues
    the call on the slot queue of its function.  A launcher starts containers
    when requests outnumber the containers that could take them: it asks the
    resource tracker for memory and CPU and, when there is none, the evictor for
    idle containers of other functions.  Request and container states are
    mirrored in counters of the slot queue, which drive the launcher.  The end
    of a call records its status and a bounded list of statistics.

    ** What is in which file

    - [Prelude]: outcomes of Go functions (value, error, panic), machine
      integers, slices, byte strings, maps and their unspecified iteration order
      (class [MapRange]); shared lemmas, [word_lia], hint databases.
    - [Id] (src/api/id/id.go): unique ids, their 16-byte and text forms.
    - [Errors] (src/api/models/error.go, server/error_response.go): error values
      and the response each gives.
    - [Annotations] (models/annotations.go, config.go), [Models] (models/app.go,
      fn.go, trigger.go): the data, patches and validation.
    - [GoStrings], [Base64]: the parts of strings, strconv, encoding/base64 and
      encoding/hex the other files need.
    - [Resource] (agent/resource.go): memory and CPU tokens, blocking and not;
      the sizing of the tracker from the machine.
    - [Evictor] (agent/evictor.go): tokens of evictable containers.
    - [Stats] (agent/drivers/stats/stats.go): averaging and down-sampling.
    - [Call] (models/call.go, agent/call.go): building, starting and ending.
    - [StateTrackers] (agent/state_trackers.go, slots.go): the state machines of
      requests and containers and the counters that mirror them, over the class
      [StateCounters].
    - [Slots], [SlotKey] (agent/slots.go): the queue of idle containers, and the
      key that decides which calls may share one.
    - [Placer] (runnerpool): consistent hashing, the two placers.
    - [Sync] (common/wait_utils.go, backoff.go): sessions and retry delays.
    - [IoUtils] (common/io_utils.go, agent/func_logger.go): limits, lines and
      hop headers, over the classes [Writer] and [Reader].
    - [DataAccess] (agent/data_access.go): the class [ReadDataAccess] and its
      cached implementation over the class [GoCache].
    - [HttpTrigger] (server/runner_httptrigger.go, runner_fninvoke.go): request
      and response headers, invocation, over the class [ResponseWriter].
    - [Workflow] (models/state_machine.go, server/runner_httptrigger.go): the
      interpreter of state machines, over the class [JSON].
    - [Datastore] (datastore/mock.go, datastoreutil/validator.go,
      fnext/datastore.go): the class [Datastore], the in-memory store, the
      checks and the listeners around any store, and [ds_spec], what a store
      promises in terms of maps.
    - [Sql] (datastore/sql/dbhelper, mysql, postgres, sqlite): the part of SQL that
      the store uses, and the class [Engine] of databases; [SqlStore]
      (datastore/sql/sql.go, models/config.go, annotations.go, common/time.go): the
      tables, statements and transactions of the store; [SqlRefine]: what it does in
      terms of maps, one table, transactions; [SqlTexts]: its statements read and
      the rows they write; [SqlOps]: its operations one by one.
    - [ApiHandlers] (server/apps_*.go, fns_*.go, trigger_*.go): the fifteen
      routes of the resource API over any datastore, on gin's response writer.
    - [HotSlot] (agent/agent.go): a call in its slot, from [submit] to the end:
      the request to the function, its answer, the verdict on the container.
    - [HotContainer] (agent/agent.go): launchers, containers and callers as one
      transition system over [Resource], [Evictor], [Slots] and [Sync].
    - [RunnerProtocol] (agent/pure_runner.go): the messages of a runner stream,
      the call handle and the five goroutines that serve it, over the class
      [RunnerLib]; [RunnerStream]: what such an engagement sends.
    - [RunnerClient] (agent/runner_client.go): the other end of the stream, and
      both ends put together.
    - [LbAgent] (agent/lb_agent.go): the load balancer, and a call from its client
      through a placer and the streams to the runners and back; [LbBuffers]: the
      body buffers that its submissions share.
    - [RunnerStatus] (agent/runner_status.go): the status call of a runner and the
      tracker that shares and caches it.
    - [ImageName] (agent/drivers/driver.go, docker/registry.go): names of images
      and the credentials of their registries.
    - [ImageCache], [ImagePuller], [DockerPool] (agent/drivers/docker): idle and
      used images, shared pulls, networks and the pool of prepared containers.
    - [Cookie] (docker/cookie.go, docker.go): the options of a container, and the
      cookies of a driver with its image cleaner as one transition system.

    ** How code is modelled

    Sequential code is a function that returns an [outcome]; [Err] is a Go
    error, [Panic] a panic.  Code that several goroutines run under a lock is a
    step per critical section, and an inductive relation interleaves the steps
    ([Resource.rt_step], [Slots.sq_step], [Evictor.ev_step],
    [StateTrackers.tr_step], [Sync.wg_step], [RunnerProtocol.step],
    [ImagePuller.pull_step], [DockerPool.pool_step], [Cookie.drv_step],
    [RunnerStatus.st_step], [LbBuffers.buf_step], and [HotContainer.step], which
    composes the agent's parts); invariants are proved by induction over the
    reachable states.  Objects that are shared and mutated live in a
    heap of the state, so that aliasing is visible ([Slots], [Evictor]; the
    header map of a response in [HttpTrigger]).  Integers are [Z] with the
    wrap-around of their width written out.  The clock, random numbers, the
    answers of runners, of functions and of the datastore are arguments.
    Third-party code is a parameter with its documented behaviour as the laws of
    a class; each class has an instance, which the examples use.

    ** Fuel

    [Stats.Decimate] gets [2 * max] rounds (proved enough, and proved that no
    fuel is enough for too short a time span); [Placer.jumpConsistentHash] 33
    rounds, since every round doubles the bucket; [GoStrings.FormatUint] 20
    digits; [IoUtils.dispense] the length of the buffer; [Workflow.run_states]
    one unit per state on a path, with a theorem on which machines end.

    ** What the theorems show

    Of the agent as a whole: what is in use is what its containers asked for, a
    container serves one call at a time, no goroutine panics, and after shutdown
    nothing runs; for one call: what the client gets, when its container
    survives, and how every ending is reported.  Of the two ends of a runner
    stream: a call reported as a success succeeded and all its output arrived, a
    refused call did nothing, the function reads the body that was sent, and no
    goroutine is left behind.  Of the docker driver: an image in use is never
    removed, networks are counted, pulls are shared and answered, a prepared
    container belongs to one call, and which privileges and limits a container
    gets.  Of the balancer: success means that exactly one runner ran the call and
    that the client has its whole answer, busy that nothing happened, and which
    returns of a submission let the bodies of two clients mix.  Of the status of a
    runner: how fresh it is, and that one call serves all who ask.  Of the parts: accounting and
    progress of resources; no slot lost or given out twice;
    exact counters; who is evicted; a call runs on at most one runner; what a
    call is built from and how it ends; which calls share a container; ids are
    unique, ordered as their text and read back; the stores refine maps, the one
    over a database that may fail at any statement too, and the checked store keeps
    its constraints and lists everything; a refused request changes nothing and
    lists carry every address; patches and validation; what
    clients and functions see of each other's headers and bodies; workflows run
    each step once and end unless their states form a cycle; cached answers are
    at most five seconds old; limits, logs, retries and sessions.

    ** What is not modelled, and the plan

    Pure input and output (the calls of the docker API, gRPC transport, metrics,
    logging, configuration, TLS) and generated or vendored code, gin's response
    writer excepted.  Of the SQL store, how it is opened; its transactions are modelled
    one at a time.  A listener of the datastore may rewrite the resource it is
    told of; here it only answers. *)

From stdpp Require Export base list strings gmap option sorting.
From Stdlib Require Export ZArith Lia.

#[export] Set Default Goal Selector "!".

(** ** Outcomes of a Go call

    A Go function that returns [(T, error)] either returns a value, returns an
    error, or panics (nil dereference, index out of range, division by zero,
    close of a closed channel).  The three ends are kept apart. *)
Inductive outcome (E A : Type) : Type :=
| Ok (a : A)
| Err (e : E)
| Panic.
Arguments Ok {E A} a.
Arguments Err {E A} e.
Arguments Panic {E A}.

Definition obind {E A B : Type} (m : outcome E A) (k : A -> outcome E B) : outcome E B :=
  match m with
  | Ok a => k a
  | Err e => Err e
  | Panic => Panic
  end.

Definition omap_ok {E A B : Type} (f : A -> B) (m : outcome E A) : outcome E B :=
  obind m (fun a => Ok (f a)).

Definition is_ok {E A : Type} (m : outcome E A) : bool :=
  match m with Ok _ => true | _ => false end.

Declare Scope go_scope.
Delimit Scope go_scope with go.
Notation "'let!' x ':=' m 'in' k" := (obind m (fun x => k))
  (at level 10, x pattern, m at level 100, k at level 200,
   format "'let!'  x  ':='  m  'in' '//' k") : go_scope.
Notation "'guard!' b 'else' e 'in' k" := (if b then k else Err e)
  (at level 10, b at level 100, e at level 100, k at level 200,
   format "'guard!'  b  'else'  e  'in' '//' k") : go_scope.
#[global] Open Scope go_scope.
#[global] Open Scope Z_scope.

Lemma obind_Ok {E A B} (m : outcome E A) (k : A -> outcome E B) b :
  obind m k = Ok b <-> exists a, m = Ok a /\ k a = Ok b.
Proof.
  destruct m; simpl; split; try naive_solver.
Qed.

Lemma obind_Err {E A B} (m : outcome E A) (k : A -> outcome E B) e :
  obind m k = Err e <-> m = Err e \/ exists a, m = Ok a /\ k a = Err e.
Proof. destruct m; simpl; naive_solver. Qed.

Lemma guard_Ok {E A} (b : bool) (e : E) (k : outcome E A) a :
  (guard! b else e in k) = Ok a <-> b = true /\ k = Ok a.
Proof. destruct b; naive_solver. Qed.

(** ** Machine integers

    Every machine integer is a [Z] together with the wrap-around of its
    width; the arithmetic of the code is written with these. *)
Definition w8 : Z := 256.
Definition w32 : Z := 4294967296.
Definition w63 : Z := 9223372036854775808.
Definition w64 : Z := 18446744073709551616.

Definition u8 (x : Z) : Z := x mod w8.
Definition u32 (x : Z) : Z := x mod w32.
Definition u64 (x : Z) : Z := x mod w64.
(** Conversion to a signed 64-bit integer: two's complement. *)
Definition i64 (x : Z) : Z := (x + w63) mod w64 - w63.
Definition i32 (x : Z) : Z := (x + 2147483648) mod w32 - 2147483648.

Definition maxU64 : Z := 18446744073709551615.
Definition maxI64 : Z := 9223372036854775807.

Definition is_u8 (x : Z) : Prop := 0 <= x < w8.
Definition is_u32 (x : Z) : Prop := 0 <= x < w32.
Definition is_u64 (x : Z) : Prop := 0 <= x < w64.
Definition is_i64 (x : Z) : Prop := - w63 <= x < w63.

(** Unfold the widths and decide linear goals. *)
Ltac word_lia :=
  unfold is_u8, is_u32, is_u64, is_i64, w8, w32, w63, w64, maxU64, maxI64 in *; lia.

Lemma u64_range x : is_u64 (u64 x).
Proof. unfold u64, is_u64. apply Z.mod_pos_bound. word_lia. Qed.
Lemma u32_range x : is_u32 (u32 x).
Proof. unfold u32, is_u32. apply Z.mod_pos_bound. word_lia. Qed.
Lemma u8_range x : is_u8 (u8 x).
Proof. unfold u8, is_u8. apply Z.mod_pos_bound. word_lia. Qed.

Lemma u64_small x : is_u64 x -> u64 x = x.
Proof. intros H. unfold u64. apply Z.mod_small. word_lia. Qed.
Lemma u32_small x : is_u32 x -> u32 x = x.
Proof. intros H. unfold u32. apply Z.mod_small. word_lia. Qed.
Lemma u8_small x : is_u8 x -> u8 x = x.
Proof. intros H. unfold u8. apply Z.mod_small. word_lia. Qed.
Lemma i64_small x : is_i64 x -> i64 x = x.
Proof. intros H. unfold i64. rewrite Z.mod_small; word_lia. Qed.

Lemma u64_idemp x : u64 (u64 x) = u64 x.
Proof. apply u64_small, u64_range. Qed.
Lemma u64_add_l x y : u64 (u64 x + y) = u64 (x + y).
Proof. unfold u64. apply Z.add_mod_idemp_l. word_lia. Qed.
Lemma u64_add_r x y : u64 (x + u64 y) = u64 (x + y).
Proof. unfold u64. apply Z.add_mod_idemp_r. word_lia. Qed.
Lemma u64_sub_l x y : u64 (u64 x - y) = u64 (x - y).
Proof. unfold u64. apply Zminus_mod_idemp_l. Qed.
Lemma u64_sub_r x y : u64 (x - u64 y) = u64 (x - y).
Proof. unfold u64. apply Zminus_mod_idemp_r. Qed.

Create HintDb word.
Create Rewrite HintDb word.
Lemma i32_add_l x y : i32 (i32 x + y) = i32 (x + y).
Proof.
  unfold i32. f_equal.
  replace ((x + 2147483648) mod w32 - 2147483648 + y + 2147483648) with ((x + 2147483648) mod w32 + y) by lia.
  rewrite Zplus_mod_idemp_l. f_equal. lia.
Qed.

#[export] Hint Resolve u64_range u32_range u8_range : word.
#[export] Hint Rewrite u64_idemp u64_add_l u64_add_r u64_sub_l u64_sub_r : word.

(** ** Go slices

    The loops "find the first element that satisfies [p] and cut it out"
    ([append(l[:i], l[i+1:]...)]) and "find it and overwrite it" recur in the
    slot queue, the evictor and the in-memory datastore. *)
Fixpoint remove_first {A} (p : A -> bool) (l : list A) : list A :=
  match l with
  | [] => []
  | x :: l => if p x then l else x :: remove_first p l
  end.

Fixpoint update_first {A} (p : A -> bool) (f : A -> A) (l : list A) : list A :=
  match l with
  | [] => []
  | x :: l => if p x then f x :: l else x :: update_first p f l
  end.

Fixpoint find_first {A} (p : A -> bool) (l : list A) : option A :=
  match l with
  | [] => None
  | x :: l => if p x then Some x else find_first p l
  end.

Fixpoint sumZ (l : list Z) : Z :=
  match l with
  | [] => 0
  | x :: l => x + sumZ l
  end.

(** Number of elements of [l] on which [p] holds. *)
Fixpoint countZ {A} (p : A -> bool) (l : list A) : Z :=
  match l with
  | [] => 0
  | x :: l => (if p x then 1 else 0) + countZ p l
  end.

Section Slices.
Context {A : Type}.
Implicit Types (p : A -> bool) (l : list A).

Lemma find_first_Some p l x : find_first p l = Some x -> x ∈ l /\ p x = true.
Proof.
  induction l as [|y l IH]; simpl; [done|].
  destruct (p y) eqn:E; intros H.
  - simplify_eq. split; [left|done].
  - destruct (IH H). split; [by right|done].
Qed.

Lemma find_first_None p l : find_first p l = None <-> forall x, x ∈ l -> p x = false.
Proof.
  induction l as [|y l IH]; simpl.
  { split; [intros _ x Hx; by apply not_elem_of_nil in Hx|done]. }
  destruct (p y) eqn:E.
  - split; [done|]. intros H. specialize (H y ltac:(left)). congruence.
  - rewrite IH. split; intros H x.
    + intros [->|Hx]%elem_of_cons; auto.
    + intros Hx. apply H. by right.
Qed.

Lemma remove_first_None p l : find_first p l = None -> remove_first p l = l.
Proof.
  induction l as [|y l IH]; simpl; [done|].
  destruct (p y); [done|]. intros H. by rewrite IH.
Qed.

Lemma remove_first_Permutation p l x :
  find_first p l = Some x -> l ≡ₚ x :: remove_first p l.
Proof.
  induction l as [|y l IH]; simpl; [done|].
  destruct (p y); intros H; [by simplify_eq|].
  rewrite (IH H) at 1. apply Permutation_swap.
Qed.

Lemma remove_first_sublist p l : sublist (remove_first p l) l.
Proof.
  induction l as [|y l IH]; simpl; [constructor|].
  destruct (p y); by constructor.
Qed.

Lemma remove_first_elem_of p l x : x ∈ remove_first p l -> x ∈ l.
Proof.
  intros H. eapply elem_of_submseteq; [exact H|].
  apply sublist_submseteq, remove_first_sublist.
Qed.

Lemma remove_first_length p l :
  length (remove_first p l) =
  (match find_first p l with Some _ => pred (length l) | None => length l end).
Proof.
  induction l as [|y l IH]; simpl; [done|].
  destruct (p y); [done|]. simpl. rewrite IH.
  destruct (find_first p l) eqn:E; [|done].
  destruct l; simpl in *; [done|lia].
Qed.

Lemma update_first_length p f l : length (update_first p f l) = length l.
Proof. induction l as [|y l IH]; simpl; [done|]. destruct (p y); simpl; lia. Qed.

Lemma update_first_None p f l : find_first p l = None -> update_first p f l = l.
Proof.
  induction l as [|y l IH]; simpl; [done|].
  destruct (p y); [done|]. intros H. by rewrite IH.
Qed.

(** Cutting the first match commutes with a key function. *)
Lemma fmap_remove_first_in {K} (key : A -> K) (p : A -> bool) (q : K -> bool) l :
  (forall x, x ∈ l -> p x = q (key x)) -> key <$> remove_first p l = remove_first q (key <$> l).
Proof.
  induction l as [|y l IH]; intros H; [done|]. rewrite fmap_cons. cbn [remove_first].
  rewrite <- (H y ltac:(left)). destruct (p y); [done|]. rewrite fmap_cons, IH; [done|].
  intros x Hx. apply H. by right.
Qed.

Lemma fmap_remove_first {K} (key : A -> K) (p : A -> bool) (q : K -> bool) l :
  (forall x, p x = q (key x)) -> key <$> remove_first p l = remove_first q (key <$> l).
Proof. intros H. by apply fmap_remove_first_in. Qed.

(** Without duplicates the cut removes the key altogether. *)
Lemma remove_first_NoDup_gone {K} `{EqDecision K} (k : K) (ks : list K) :
  NoDup ks -> k ∉ remove_first (fun k' => bool_decide (k' = k)) ks.
Proof.
  induction ks as [|y ks IH]; intros Hn; inversion Hn; subst; simpl.
  { by apply not_elem_of_nil. }
  case_bool_decide; [by subst|]. rewrite not_elem_of_cons. split; [congruence|auto].
Qed.

Lemma remove_first_NoDup p l : NoDup l -> NoDup (remove_first p l).
Proof. intros H. eapply sublist_NoDup; [exact H|apply remove_first_sublist]. Qed.

Lemma elem_of_remove_first_ne p l x : x ∈ l -> p x = false -> x ∈ remove_first p l.
Proof.
  induction l as [|y l IH]; intros Hx Hp; [by apply not_elem_of_nil in Hx|].
  simpl. apply elem_of_cons in Hx as [->|Hx].
  - rewrite Hp. left.
  - destruct (p y); [done|]. right. auto.
Qed.
End Slices.

Lemma find_first_unique {A} (p : A -> bool) l x :
  x ∈ l -> p x = true -> (forall y, y ∈ l -> p y = true -> y = x) -> find_first p l = Some x.
Proof.
  intros Hx Hp Hu. destruct (find_first p l) as [y|] eqn:E.
  - apply find_first_Some in E as [Hy Hpy]. by rewrite (Hu y Hy Hpy).
  - rewrite find_first_None in E. by rewrite (E x Hx) in Hp.
Qed.

Lemma NoDup_fmap_same {A B} (f : A -> B) l x y : NoDup (f <$> l) -> x ∈ l -> y ∈ l -> f x = f y -> x = y.
Proof.
  intros Hn Hx Hy Hf. apply list_elem_of_lookup in Hx as [i Hi]. apply list_elem_of_lookup in Hy as [j Hj].
  assert (i = j) as ->; [|by simplify_eq].
  eapply NoDup_lookup; [exact Hn| |]; rewrite list_lookup_fmap; [by rewrite Hi|by rewrite Hj, Hf].
Qed.

Lemma sublist_Forall {A} (P : A -> Prop) l k : sublist l k -> Forall P k -> Forall P l.
Proof.
  intros Hs. rewrite !Forall_forall. intros H x Hx. eapply H, elem_of_submseteq; [exact Hx|by apply sublist_submseteq].
Qed.

Lemma prefix_elem {A} (l k : list A) x : x ∈ l -> l `prefix_of` k -> x ∈ k.
Proof. intros H [r ->]. apply elem_of_app. by left. Qed.
Lemma prefix_snoc_inv {A} (l k : list A) x : l `prefix_of` k ++ [x] -> l = k ++ [x] \/ l `prefix_of` k.
Proof.
  intros [r E]. destruct r as [|y r _] using rev_ind; [left; by rewrite app_nil_r in E|right].
  rewrite app_assoc in E. apply app_inj_2 in E as [-> _]; [by apply prefix_app_r|done].
Qed.


Lemma NoDup_snoc {A} (l : list A) x : x ∉ l -> NoDup l -> NoDup (l ++ [x]).
Proof.
  intros Hx Hn. apply NoDup_app. split; [done|]. split; [|apply NoDup_singleton].
  intros y Hy ->%list_elem_of_singleton. done.
Qed.

(** Reading a slice after one of its elements was overwritten. *)
Lemma insert_lookup {A} (l : list A) p q x y : l !! p = Some x ->
  <[p := y]> l !! q = if decide (q = p) then Some y else l !! q.
Proof.
  intros Hp. destruct (decide (q = p)) as [->|]; [|by rewrite list_lookup_insert_ne].
  apply list_lookup_insert_eq. by eapply lookup_lt_Some.
Qed.

(** Overwriting an element by one with the same image. *)
Lemma insert_fmap_id {A B} (f : A -> B) (l : list A) p x y : l !! p = Some x -> f y = f x ->
  f <$> <[p := y]> l = f <$> l.
Proof.
  intros Hp Hf. rewrite list_fmap_insert. apply list_insert_id. by rewrite list_lookup_fmap, Hp, Hf.
Qed.

(** ** Sums and counts *)
Lemma sumZ_app l k : sumZ (l ++ k) = sumZ l + sumZ k.
Proof. induction l; simpl; lia. Qed.

#[export] Instance sumZ_Permutation : Proper ((≡ₚ) ==> (=)) sumZ.
Proof. induction 1; simpl; lia. Qed.

Lemma sumZ_nonneg l : Forall (fun x => 0 <= x) l -> 0 <= sumZ l.
Proof. induction 1; simpl; lia. Qed.

Lemma sumZ_submseteq l k : Forall (fun x => 0 <= x) k -> l ⊆+ k -> sumZ l <= sumZ k.
Proof.
  intros Hk [r E]%submseteq_Permutation. rewrite E in Hk |- *. rewrite sumZ_app. apply Forall_app in Hk as [_ Hr].
  apply sumZ_nonneg in Hr. lia.
Qed.

Lemma sumZ_elem_le l x : Forall (fun x => 0 <= x) l -> x ∈ l -> x <= sumZ l.
Proof.
  intros H Hx. apply elem_of_Permutation in Hx as [k Hk].
  rewrite Hk in H |- *. inversion_clear H as [|?? _ Hr].
  apply sumZ_nonneg in Hr. simpl. lia.
Qed.

Lemma sumZ_insert (l : list Z) i x y :
  l !! i = Some x -> sumZ (<[i := y]> l) = sumZ l - x + y.
Proof.
  revert i. induction l as [|z l IH]; intros [|i] H; simplify_eq/=; [lia|].
  rewrite (IH _ H). lia.
Qed.

Lemma countZ_app {A} (p : A -> bool) l k : countZ p (l ++ k) = countZ p l + countZ p k.
Proof. induction l; simpl; lia. Qed.

Lemma countZ_nonneg {A} (p : A -> bool) l : 0 <= countZ p l.
Proof. induction l as [|x l]; simpl; [lia|]. destruct (p x); lia. Qed.

Lemma countZ_length {A} (p : A -> bool) l : countZ p l <= Z.of_nat (length l).
Proof. induction l as [|x l]; simpl; [lia|]. destruct (p x); lia. Qed.

#[export] Instance countZ_Permutation {A} (p : A -> bool) :
  Proper ((≡ₚ) ==> (=)) (countZ p).
Proof. induction 1; simpl; lia. Qed.

(** A sum of ranks after one element has changed. *)
Lemma sum_fmap_insert {A} (f : A -> nat) (l : list A) i x y :
  l !! i = Some x -> (sum_list (f <$> <[i := y]> l) + f x = sum_list (f <$> l) + f y)%nat.
Proof. revert i. induction l as [|z l IH]; intros [|i] H; simplify_eq/=; [lia|]. specialize (IH i H). lia. Qed.


Lemma countZ_insert {A} (p : A -> bool) (l : list A) i x y :
  l !! i = Some x ->
  countZ p (<[i := y]> l) =
  countZ p l - (if p x then 1 else 0) + (if p y then 1 else 0).
Proof.
  revert i. induction l as [|z l IH]; intros [|i] H; simplify_eq/=; [lia|].
  rewrite (IH _ H). lia.
Qed.

Lemma countZ_elem_pos {A} (p : A -> bool) l x : x ∈ l -> p x = true -> 0 < countZ p l.
Proof.
  induction l as [|y l IH]; intros Hx Hp; [by apply not_elem_of_nil in Hx|].
  simpl. pose proof (countZ_nonneg p l).
  apply elem_of_cons in Hx as [->|Hx]; [rewrite Hp; lia|].
  specialize (IH Hx Hp). destruct (p y); lia.
Qed.

Lemma countZ_zero {A} (p : A -> bool) l : countZ p l = 0 <-> forall x, x ∈ l -> p x = false.
Proof.
  split.
  - intros H x Hx. destruct (p x) eqn:E; [|done]. pose proof (countZ_elem_pos p l x Hx E). lia.
  - induction l as [|y l IH]; intros H; [done|]. simpl. rewrite (H y) by left.
    rewrite IH; [done|]. intros x Hx. apply H. by right.
Qed.

Create HintDb go.
Create Rewrite HintDb go.
#[export] Hint Resolve sumZ_nonneg countZ_nonneg remove_first_elem_of remove_first_NoDup : go.
#[export] Hint Rewrite sumZ_app @countZ_app @update_first_length : go.

(** ** Byte strings

    Where the code works on the bytes of a string, a string is the list of its
    bytes, each a [Z] below 256. *)
Definition byte_of_ascii (c : Ascii.ascii) : Z := Z.of_nat (Ascii.nat_of_ascii c).
Definition bytes_of_string (s : string) : list Z :=
  byte_of_ascii <$> String.list_ascii_of_string s.

(** Go compares strings byte by byte ([strings.Compare]). *)
Fixpoint lexcmp (a b : list Z) : comparison :=
  match a, b with
  | [], [] => Eq
  | [], _ :: _ => Lt
  | _ :: _, [] => Gt
  | x :: a, y :: b => match Z.compare x y with Eq => lexcmp a b | c => c end
  end.

(** The number a big-endian digit list denotes in base [B]. *)
Fixpoint be_val (B : Z) (l : list Z) : Z :=
  match l with
  | [] => 0
  | d :: l => d * B ^ Z.of_nat (length l) + be_val B l
  end.

Definition digits (B : Z) (l : list Z) : Prop := Forall (fun d => 0 <= d < B) l.

Lemma lexcmp_refl a : lexcmp a a = Eq.
Proof. induction a; simpl; [done|]. by rewrite Z.compare_refl. Qed.

Lemma lexcmp_eq a b : lexcmp a b = Eq -> a = b.
Proof.
  revert b. induction a as [|x a IH]; intros [|y b]; simpl; try done.
  destruct (Z.compare_spec x y); try done. intros H'. subst. f_equal. auto.
Qed.

Lemma be_val_app B l k : be_val B (l ++ k) = be_val B l * B ^ Z.of_nat (length k) + be_val B k.
Proof.
  induction l as [|d l IH]; simpl; [lia|].
  rewrite IH, length_app, Nat2Z.inj_add, Z.pow_add_r by lia. lia.
Qed.

Lemma be_val_bound B l : 0 < B -> digits B l -> 0 <= be_val B l < B ^ Z.of_nat (length l).
Proof.
  intros HB. induction 1 as [|d l Hd Hl IH]; cbn [be_val length]; [done|].
  rewrite Nat2Z.inj_succ, Z.pow_succ_r by lia. nia.
Qed.

Lemma lexcmp_be_val B a b :
  0 < B -> length a = length b -> digits B a -> digits B b ->
  lexcmp a b = Z.compare (be_val B a) (be_val B b).
Proof.
  intros HB. revert b. induction a as [|x a IH]; intros [|y b] Hl Ha Hb; try done.
  inversion_clear Ha as [|?? Hx Ha']. inversion_clear Hb as [|?? Hy Hb'].
  cbn [lexcmp be_val]. injection Hl as Hl. rewrite (IH b Hl Ha' Hb'), Hl.
  pose proof (be_val_bound B a HB Ha') as Ba. pose proof (be_val_bound B b HB Hb') as Bb.
  rewrite Hl in Ba.
  destruct (Z.compare_spec x y) as [->|Hlt|Hgt]; symmetry.
  - destruct (Z.compare_spec (be_val B a) (be_val B b)); [apply Z.compare_eq_iff|
      apply Z.compare_lt_iff | apply Z.compare_gt_iff]; lia.
  - apply Z.compare_lt_iff. nia.
  - apply Z.compare_gt_iff. nia.
Qed.

Lemma lexcmp_app a1 a2 b1 b2 :
  length a1 = length b1 ->
  lexcmp (a1 ++ a2) (b1 ++ b2) =
  match lexcmp a1 b1 with Eq => lexcmp a2 b2 | c => c end.
Proof.
  revert b1. induction a1 as [|x a1 IH]; intros [|y b1] H; try done.
  cbn [app lexcmp]. injection H as H. rewrite (IH _ H). by destruct (Z.compare x y).
Qed.

(** A strictly monotone re-encoding of the digits keeps the order; a strictly
    antitone one reverses it. *)
Lemma lexcmp_map_mono (P : Z -> Prop) (f : Z -> Z) a b :
  (forall x y, P x -> P y -> Z.compare (f x) (f y) = Z.compare x y) ->
  Forall P a -> Forall P b -> lexcmp (f <$> a) (f <$> b) = lexcmp a b.
Proof.
  intros Hf Ha. revert b. induction Ha as [|x a Hx Ha IH]; intros b Hb;
    destruct Hb as [|y b Hy Hb]; try done.
  rewrite !fmap_cons. cbn [lexcmp]. rewrite Hf by done. by rewrite IH.
Qed.

Lemma lexcmp_map_anti (P : Z -> Prop) (f : Z -> Z) a b :
  (forall x y, P x -> P y -> Z.compare (f x) (f y) = Z.compare y x) ->
  length a = length b ->
  Forall P a -> Forall P b -> lexcmp (f <$> a) (f <$> b) = lexcmp b a.
Proof.
  intros Hf Hl Ha. revert b Hl. induction Ha as [|x a Hx Ha IH]; intros b Hl Hb;
    destruct Hb as [|y b Hy Hb]; try done.
  rewrite !fmap_cons. cbn [lexcmp]. rewrite Hf by done.
  injection Hl as Hl. by rewrite IH.
Qed.

Definition strcmp (s t : string) : comparison := lexcmp (bytes_of_string s) (bytes_of_string t).

Lemma lexcmp_opp a b : lexcmp b a = CompOpp (lexcmp a b).
Proof.
  revert b. induction a as [|x a IH]; intros [|y b]; try done. cbn [lexcmp].
  rewrite (Z.compare_antisym x y). destruct (Z.compare x y); simpl; auto.
Qed.

Lemma lexcmp_trans a b c : lexcmp a b <> Gt -> lexcmp b c <> Gt -> lexcmp a c <> Gt.
Proof.
  revert b c. induction a as [|x a IH]; intros [|y b] [|z c]; try done. cbn [lexcmp].
  destruct (Z.compare_spec x y), (Z.compare_spec y z), (Z.compare_spec x z); try done; try lia.
  apply IH.
Qed.

Lemma bytes_of_string_inj s t : bytes_of_string s = bytes_of_string t -> s = t.
Proof.
  intros H. rewrite <- (String.string_of_list_ascii_of_string s), <- (String.string_of_list_ascii_of_string t).
  f_equal. revert H. unfold bytes_of_string. apply list_fmap_eq_inj.
  intros x y Hxy. unfold byte_of_ascii in Hxy. apply Nat2Z.inj in Hxy.
  rewrite <- (Ascii.ascii_nat_embedding x), <- (Ascii.ascii_nat_embedding y). by rewrite Hxy.
Qed.

Lemma list_ascii_app a b :
  String.list_ascii_of_string (a ++ b) = String.list_ascii_of_string a ++ String.list_ascii_of_string b.
Proof. induction a as [|x a IH]; [done|]. simpl. by f_equal. Qed.

Lemma list_ascii_inj a b : String.list_ascii_of_string a = String.list_ascii_of_string b -> a = b.
Proof.
  intros H. rewrite <- (String.string_of_list_ascii_of_string a), <- (String.string_of_list_ascii_of_string b).
  by rewrite H.
Qed.

(** Two texts that end at their first separator. *)
Lemma cut_at_inj {A} (x : A) (a b r s : list A) :
  x ∉ a -> x ∉ b -> a ++ x :: r = b ++ x :: s -> a = b /\ r = s.
Proof.
  revert b. induction a as [|y a IH]; intros [|z b] Ha Hb E; simpl in E.
  - by injection E.
  - injection E as -> _. destruct Hb. left.
  - injection E as -> _. destruct Ha. left.
  - injection E as -> E. destruct (IH b) as [-> ->]; [by intros ?; apply Ha; right|by intros ?; apply Hb; right|done|done].
Qed.

(** [==] on strings. *)
Definition streq (a b : string) : bool := bool_decide (a = b).
Lemma streq_spec a b : streq a b = true <-> a = b.
Proof. apply bool_decide_eq_true. Qed.
Lemma streq_refl a : streq a a = true.
Proof. by apply streq_spec. Qed.

Definition str_le (s t : string) : Prop := strcmp s t <> Gt.

#[export] Instance str_le_trans : Transitive str_le.
Proof. intros x y z. apply lexcmp_trans. Qed.
#[export] Instance str_le_antisym : AntiSymm (=) str_le.
Proof.
  intros x y H1 H2. apply bytes_of_string_inj, lexcmp_eq. unfold str_le, strcmp in *.
  rewrite (lexcmp_opp (bytes_of_string x)) in H2.
  by destruct (lexcmp (bytes_of_string x) (bytes_of_string y)).
Qed.

Definition strlt (s t : string) : bool := match strcmp s t with Lt => true | _ => false end.

Lemma str_le_lt s t : str_le s t -> s <> t -> strlt s t = true.
Proof.
  unfold str_le, strlt, strcmp. intros H Hne. destruct (lexcmp _ _) eqn:E; [|done|done].
  apply lexcmp_eq, bytes_of_string_inj in E. done.
Qed.

Lemma strlt_str_le s t : strlt s t = true -> str_le s t /\ s <> t.
Proof.
  unfold str_le, strlt. destruct (strcmp s t) eqn:E; try done. intros _. split; [done|]. intros ->.
  unfold strcmp in E. by rewrite lexcmp_refl in E.
Qed.

Lemma strlt_trans s t u : strlt s t = true -> strlt t u = true -> strlt s u = true.
Proof.
  intros [H1 N1]%strlt_str_le [H2 N2]%strlt_str_le. apply str_le_lt; [by etransitivity|].
  intros ->. apply N1. by apply (anti_symm str_le).
Qed.

Lemma strlt_irrefl s : strlt s s = false.
Proof. unfold strlt, strcmp. by rewrite lexcmp_refl. Qed.

Lemma strlt_empty s : s <> ""%string -> strlt "" s = true.
Proof. by destruct s. Qed.

(** Facts about one or two bytes, decided by enumeration. *)
Lemma byte_forall (P : Z -> bool) :
  forallb P (seqZ 0 256) = true -> forall a, is_u8 a -> P a = true.
Proof.
  intros H a Ha. rewrite forallb_forall in H. apply H.
  apply list_elem_of_In, elem_of_seqZ. word_lia.
Qed.

Lemma byte_forall2 (P : Z -> Z -> bool) :
  forallb (fun a => forallb (P a) (seqZ 0 256)) (seqZ 0 256) = true ->
  forall a b, is_u8 a -> is_u8 b -> P a b = true.
Proof.
  intros H a b Ha Hb. apply byte_forall; [|done].
  by apply (byte_forall (fun a => forallb (P a) (seqZ 0 256))).
Qed.

(** ** Go maps

    A Go map is a [gmap]; a nil map is not an empty one, so a map variable is
    an [option].  Reading, deleting from and ranging over a nil map is as for
    the empty one.  The order of [range] is unspecified: the code that ranges
    over a map is written against this interface, and a theorem about it holds
    for every order. *)
Abbreviation gomap V := (option (gmap string V)).

Definition entries {V} (m : gomap V) : gmap string V := default ∅ m.
Definition map_len {V} (m : gomap V) : Z := Z.of_nat (size (entries m)).
(** [m[k] = v] after [if m == nil { m = make(..) }]. *)
Definition map_set {V} (k : string) (v : V) (m : gomap V) : gomap V :=
  Some (<[k := v]> (entries m)).
(** [delete(m, k)]: nothing on a nil map. *)
Definition map_del {V} (k : string) (m : gomap V) : gomap V := base.delete k <$> m.

Class MapRange := {
  range : forall {V : Type}, gmap string V -> list (string * V);
  range_perm : forall {V : Type} (m : gmap string V), range m ≡ₚ map_to_list m
}.

(** One order, to run the definitions with. *)
Definition canonical_range : MapRange :=
  {| range := fun V m => map_to_list m; range_perm := fun V m => Permutation_refl _ |}.

Section MapRange.
Context {MR : MapRange} {V : Type}.
Implicit Types (m : gmap string V).

Lemma elem_of_range m k v : (k, v) ∈ range m <-> m !! k = Some v.
Proof. rewrite range_perm. apply elem_of_map_to_list. Qed.

Lemma NoDup_range m : NoDup (range m).*1.
Proof. rewrite range_perm. apply NoDup_fst_map_to_list. Qed.

Lemma range_list_to_map m : list_to_map (range m) = m.
Proof.
  rewrite <- (list_to_map_to_list m) at 2.
  apply list_to_map_proper; [apply NoDup_range|apply range_perm].
Qed.

(** A test on every entry does not depend on the order. *)
Lemma forallb_range (p : string * V -> bool) m :
  forallb p (range m) = true <-> forall k v, m !! k = Some v -> p (k, v) = true.
Proof.
  rewrite forallb_forall. split.
  - intros Hp k v Hk. apply Hp, list_elem_of_In, elem_of_range, Hk.
  - intros Hp [k v] Hk. apply Hp, elem_of_range, list_elem_of_In, Hk.
Qed.

Lemma range_empty m : range m = [] -> m = ∅.
Proof. intros E. rewrite <- (range_list_to_map m), E. done. Qed.

(** A loop that applies an update to each entry: what key [k] holds after it. *)
Lemma foldl_lookup {S : Type} (get : S -> string -> option V) (step : S -> string * V -> S)
    (upd : V -> option V -> option V) (l : list (string * V)) (s : S) k :
  (forall s k v k', get (step s (k, v)) k' = if decide (k = k') then upd v (get s k') else get s k') ->
  NoDup l.*1 ->
  get (foldl step s l) k =
    match (list_to_map l : gmap string V) !! k with
    | Some v => upd v (get s k)
    | None => get s k
    end.
Proof.
  intros Hstep. revert s. induction l as [|[k' v] l IH]; intros s Hn; [done|].
  apply NoDup_cons in Hn as [Hk Hn]. cbn [foldl list_to_map foldr curry uncurry fst snd].
  rewrite IH, Hstep by done. destruct (decide (k' = k)) as [->|].
  - rewrite lookup_insert_eq. by rewrite not_elem_of_list_to_map_1.
  - by rewrite lookup_insert_ne.
Qed.
End MapRange.
