(* ===== verification/Id.v ===== *)
(** * Identifiers (src/api/id/id.go)

    The 128-bit ids of apps, functions, triggers and calls: their generation
    from a clock, a machine id and a shared counter, their base-32 text form,
    the binary form, and the descending encoding.  An id is its 16 bytes, a
    text is the list of its bytes.  The theorems: the text form decodes to the
    id it came from, orders like the bytes, the generator does not repeat
    within 2^32 calls, and the descending encoding reverses the order. *)
From S2P Require Import Prelude.

(** ** Generation *)

(** The package variables [machineID] and [counter]. *)
Record idgen := IdGen { machineID : Z; counter : Z }.

Definition SetMachineId (ID : Z) (g : idgen) : idgen :=
  {| machineID := ID; counter := counter g |}.

(** [addr[0..3]]: indexing a shorter address panics. *)
Definition SetMachineIdHost (addr : list Z) (port : Z) (g : idgen) : outcome unit idgen :=
  match addr with
  | a0 :: a1 :: a2 :: a3 :: _ =>
      Ok (SetMachineId
        (Z.lor (Z.lor (Z.lor (Z.lor (Z.shiftl a0 40) (Z.shiftl a1 32))
           (Z.shiftl a2 24)) (Z.shiftl a3 16)) port) g)
  | _ => Panic
  end.

Definition newID (ms machineID count : Z) : list Z :=
  [u8 (Z.shiftr ms 40); u8 (Z.shiftr ms 32); u8 (Z.shiftr ms 24);
   u8 (Z.shiftr ms 16); u8 (Z.shiftr ms 8); u8 ms;
   u8 (Z.shiftr machineID 40); u8 (Z.shiftr machineID 32); u8 (Z.shiftr machineID 24);
   u8 (Z.shiftr machineID 16); u8 (Z.shiftr machineID 8); u8 machineID;
   u8 (Z.shiftr count 24); u8 (Z.shiftr count 16); u8 (Z.shiftr count 8); u8 count].

(** The argument is the clock: seconds since the epoch and the nanoseconds
    within the second. *)
Definition NewWithTime (t : Z * Z) (g : idgen) : list Z * idgen :=
  let ms := u64 (u64 (u64 (t.1) * 1000) + u64 (t.2 / 1000000)) in
  let count := u32 (counter g + 1) in
  (newID ms (machineID g) count, {| machineID := machineID g; counter := count |}).

(** [New]: the clock is read at each call; a run of calls is a list of clock
    readings. *)
Fixpoint New_run (ts : list (Z * Z)) (g : idgen) : list (list Z) * idgen :=
  match ts with
  | [] => ([], g)
  | t :: ts =>
      let (x, g) := NewWithTime t g in
      let (xs, g) := New_run ts g in (x :: xs, g)
  end.

(** ** Text form *)

Definition Encoding : list Z := bytes_of_string "0123456789ABCDEFGHJKMNPQRSTVWXYZ".
Definition enc (i : Z) : Z := nth (Z.to_nat i) Encoding 0.

Definition EncodedSize : nat := 26.

(** Byte to index table, 255 for a byte outside the alphabet. *)
Definition dec_table : list Z := [
  255; 255; 255; 255; 255; 255; 255; 255; 255; 255; 255; 255; 255; 255; 255; 255;
  255; 255; 255; 255; 255; 255; 255; 255; 255; 255; 255; 255; 255; 255; 255; 255;
  255; 255; 255; 255; 255; 255; 255; 255; 255; 255; 255; 255; 255; 255; 255; 255;
  0; 1; 2; 3; 4; 5; 6; 7; 8; 9; 255; 255; 255; 255; 255; 255;
  255; 10; 11; 12; 13; 14; 15; 16; 17; 255; 18; 19; 255; 20; 21; 255;
  22; 23; 24; 25; 26; 255; 27; 28; 29; 30; 31; 255; 255; 255; 255; 255;
  255; 10; 11; 12; 13; 14; 15; 16; 17; 255; 18; 19; 255; 20; 21; 255;
  22; 23; 24; 25; 26; 255; 27; 28; 29; 30; 31; 255; 255; 255; 255; 255;
  255; 255; 255; 255; 255; 255; 255; 255; 255; 255; 255; 255; 255; 255; 255; 255;
  255; 255; 255; 255; 255; 255; 255; 255; 255; 255; 255; 255; 255; 255; 255; 255;
  255; 255; 255; 255; 255; 255; 255; 255; 255; 255; 255; 255; 255; 255; 255; 255;
  255; 255; 255; 255; 255; 255; 255; 255; 255; 255; 255; 255; 255; 255; 255; 255;
  255; 255; 255; 255; 255; 255; 255; 255; 255; 255; 255; 255; 255; 255; 255; 255;
  255; 255; 255; 255; 255; 255; 255; 255; 255; 255; 255; 255; 255; 255; 255; 255;
  255; 255; 255; 255; 255; 255; 255; 255; 255; 255; 255; 255; 255; 255; 255; 255;
  255; 255; 255; 255; 255; 255; 255; 255; 255; 255; 255; 255; 255; 255; 255; 255].
Definition dec (c : Z) : Z := nth (Z.to_nat c) dec_table 255.

Definition byte_at (l : list Z) (i : nat) : Z := nth i l 0.
Definition dec_at (v : list Z) (i : nat) : Z := dec (byte_at v i).

Definition hi_bits (x mask shift : Z) : Z := Z.shiftr (Z.land x mask) shift.

(** The 26 indices into [Encoding], one line per [dst[i]]. *)
Definition text_digits (id : list Z) : list Z :=
  [ hi_bits (byte_at id 0) 224 5;
    Z.land (byte_at id 0) 31;
    hi_bits (byte_at id 1) 248 3;
    Z.lor (u8 (Z.shiftl (Z.land (byte_at id 1) 7) 2)) (hi_bits (byte_at id 2) 192 6);
    hi_bits (byte_at id 2) 62 1;
    Z.lor (u8 (Z.shiftl (Z.land (byte_at id 2) 1) 4)) (hi_bits (byte_at id 3) 240 4);
    Z.lor (u8 (Z.shiftl (Z.land (byte_at id 3) 15) 1)) (hi_bits (byte_at id 4) 128 7);
    hi_bits (byte_at id 4) 124 2;
    Z.lor (u8 (Z.shiftl (Z.land (byte_at id 4) 3) 3)) (hi_bits (byte_at id 5) 224 5);
    Z.land (byte_at id 5) 31;
    hi_bits (byte_at id 6) 248 3;
    Z.lor (u8 (Z.shiftl (Z.land (byte_at id 6) 7) 2)) (hi_bits (byte_at id 7) 192 6);
    hi_bits (byte_at id 7) 62 1;
    Z.lor (u8 (Z.shiftl (Z.land (byte_at id 7) 1) 4)) (hi_bits (byte_at id 8) 240 4);
    Z.lor (u8 (Z.shiftl (Z.land (byte_at id 8) 15) 1)) (hi_bits (byte_at id 9) 128 7);
    hi_bits (byte_at id 9) 124 2;
    Z.lor (u8 (Z.shiftl (Z.land (byte_at id 9) 3) 3)) (hi_bits (byte_at id 10) 224 5);
    Z.land (byte_at id 10) 31;
    hi_bits (byte_at id 11) 248 3;
    Z.lor (u8 (Z.shiftl (Z.land (byte_at id 11) 7) 2)) (hi_bits (byte_at id 12) 192 6);
    hi_bits (byte_at id 12) 62 1;
    Z.lor (u8 (Z.shiftl (Z.land (byte_at id 12) 1) 4)) (hi_bits (byte_at id 13) 240 4);
    Z.lor (u8 (Z.shiftl (Z.land (byte_at id 13) 15) 1)) (hi_bits (byte_at id 14) 128 7);
    hi_bits (byte_at id 14) 124 2;
    Z.lor (u8 (Z.shiftl (Z.land (byte_at id 14) 3) 3)) (hi_bits (byte_at id 15) 224 5);
    Z.land (byte_at id 15) 31].

(** [MarshalTextTo]: [n] is the length of the buffer written to. *)
Definition MarshalTextTo (id : list Z) (n : nat) : outcome string (list Z) :=
  if negb (n =? EncodedSize)%nat then Err "not enough bytes to marshal id to"%string
  else Ok (enc <$> text_digits id).

Definition MarshalText (id : list Z) : outcome string (list Z) :=
  MarshalTextTo id EncodedSize.

(** [String]: the error of [MarshalTextTo] is dropped; on an error the buffer
    would still be zero. *)
Definition String_ (id : list Z) : list Z :=
  match MarshalTextTo id EncodedSize with
  | Ok t => t
  | _ => repeat 0 EncodedSize
  end.

Definition ValidateText (v : list Z) : bool :=
  (length v =? EncodedSize)%nat && forallb (fun c => negb (dec c =? 255)) v.

Definition UnmarshalText (v : list Z) : outcome string (list Z) :=
  if negb (length v =? EncodedSize)%nat then Err "id to unmarshal is of unexpected size"%string
  else
  Ok [
    Z.lor (u8 (Z.shiftl (dec_at v 0) 5)) (dec_at v 1);
    Z.lor (u8 (Z.shiftl (dec_at v 2) 3)) (Z.shiftr (dec_at v 3) 2);
    Z.lor (Z.lor (u8 (Z.shiftl (dec_at v 3) 6)) (u8 (Z.shiftl (dec_at v 4) 1))) (Z.shiftr (dec_at v 5) 4);
    Z.lor (u8 (Z.shiftl (dec_at v 5) 4)) (Z.shiftr (dec_at v 6) 1);
    Z.lor (Z.lor (u8 (Z.shiftl (dec_at v 6) 7)) (u8 (Z.shiftl (dec_at v 7) 2))) (Z.shiftr (dec_at v 8) 3);
    Z.lor (u8 (Z.shiftl (dec_at v 8) 5)) (dec_at v 9);
    Z.lor (u8 (Z.shiftl (dec_at v 10) 3)) (Z.shiftr (dec_at v 11) 2);
    Z.lor (Z.lor (u8 (Z.shiftl (dec_at v 11) 6)) (u8 (Z.shiftl (dec_at v 12) 1))) (Z.shiftr (dec_at v 13) 4);
    Z.lor (u8 (Z.shiftl (dec_at v 13) 4)) (Z.shiftr (dec_at v 14) 1);
    Z.lor (Z.lor (u8 (Z.shiftl (dec_at v 14) 7)) (u8 (Z.shiftl (dec_at v 15) 2))) (Z.shiftr (dec_at v 16) 3);
    Z.lor (u8 (Z.shiftl (dec_at v 16) 5)) (dec_at v 17);
    Z.lor (u8 (Z.shiftl (dec_at v 18) 3)) (Z.shiftr (dec_at v 19) 2);
    Z.lor (Z.lor (u8 (Z.shiftl (dec_at v 19) 6)) (u8 (Z.shiftl (dec_at v 20) 1))) (Z.shiftr (dec_at v 21) 4);
    Z.lor (u8 (Z.shiftl (dec_at v 21) 4)) (Z.shiftr (dec_at v 22) 1);
    Z.lor (Z.lor (u8 (Z.shiftl (dec_at v 22) 7)) (u8 (Z.shiftl (dec_at v 23) 2))) (Z.shiftr (dec_at v 24) 3);
    Z.lor (u8 (Z.shiftl (dec_at v 24) 5)) (dec_at v 25)].

(** ** Binary form *)

Definition MarshalBinaryTo (id : list Z) (n : nat) : outcome string (list Z) :=
  if negb (n =? length id)%nat then Err "provided buffer not large enough to marshal id"%string
  else Ok id.

(** The buffer handed over is [[EncodedSize]byte]. *)
Definition MarshalBinary (id : list Z) : outcome string (list Z) :=
  MarshalBinaryTo id EncodedSize.

Definition UnmarshalBinary (data : list Z) : outcome string (list Z) :=
  if negb (length data =? 16)%nat then Err "can't unmarshal id from unexpected byte slice size"%string
  else Ok data.

(** ** Descending encoding *)

(** The in-place loop [rune[i], rune[n-1-i] = rune[n-1-i], rune[i]] for
    [i < n/2]; [input] is the list of code points. *)
Definition swap (i j : nat) (l : list Z) : list Z :=
  <[i := byte_at l j]> (<[j := byte_at l i]> l).
Fixpoint swap_loop (k i : nat) (l : list Z) : list Z :=
  match k with
  | O => l
  | S k => swap_loop k (S i) (swap i (length l - 1 - i) l)
  end.
Definition reverseString (input : list Z) : list Z :=
  swap_loop (length input / 2) 0 input.
Definition rEncoding : list Z := reverseString Encoding.

(** [strings.Index(Encoding, string(s))] for a byte [s]: -1 when absent. *)
Fixpoint index_from (i : Z) (l : list Z) (s : Z) : Z :=
  match l with
  | [] => -1
  | c :: l => if c =? s then i else index_from (i + 1) l s
  end.
Definition encoding_index (s : Z) : Z := index_from 0 Encoding s.

(** [rEncoding[j]]: a negative index panics. *)
Definition rEncoding_at (j : Z) : outcome string Z :=
  if (j <? 0)%Z then Panic
  else match rEncoding !! Z.to_nat j with Some c => Ok c | None => Panic end.

Fixpoint encode_desc_bytes (l : list Z) : outcome string (list Z) :=
  match l with
  | [] => Ok []
  | s :: l => let! c := rEncoding_at (encoding_index s) in
              let! r := encode_desc_bytes l in Ok (c :: r)
  end.

(** [buf[:len(src)]] panics when [src] is longer than the 26-byte buffer. *)
Definition EncodeDescending (src : list Z) : outcome string (list Z) :=
  if (EncodedSize <? length src)%nat then Panic else encode_desc_bytes src.

(** ** Lemmas *)

Definition id_wf (id : list Z) : Prop := length id = 16%nat /\ Forall is_u8 id.

Lemma rEncoding_spec : rEncoding = rev Encoding.
Proof. reflexivity. Qed.

(** The indices in arithmetic form: what the masks and shifts compute. *)

Lemma hi_224_5 a : is_u8 a -> hi_bits a 224 5 = a / 32.
Proof. intros. apply Z.eqb_eq. apply (byte_forall (fun a => hi_bits a 224 5 =? a / 32)); [by vm_compute|done]. Qed.
Lemma land_31 a : is_u8 a -> Z.land a 31 = a mod 32.
Proof. intros. apply Z.eqb_eq. apply (byte_forall (fun a => Z.land a 31 =? a mod 32)); [by vm_compute|done]. Qed.
Lemma hi_248_3 a : is_u8 a -> hi_bits a 248 3 = a / 8.
Proof. intros. apply Z.eqb_eq. apply (byte_forall (fun a => hi_bits a 248 3 =? a / 8)); [by vm_compute|done]. Qed.
Lemma hi_62_1 a : is_u8 a -> hi_bits a 62 1 = a / 2 mod 32.
Proof. intros. apply Z.eqb_eq. apply (byte_forall (fun a => hi_bits a 62 1 =? a / 2 mod 32)); [by vm_compute|done]. Qed.
Lemma hi_124_2 a : is_u8 a -> hi_bits a 124 2 = a / 4 mod 32.
Proof. intros. apply Z.eqb_eq. apply (byte_forall (fun a => hi_bits a 124 2 =? a / 4 mod 32)); [by vm_compute|done]. Qed.

(** [((a&m)<<s) | ((c&m')>>s')] joins the low bits of [a] and the high bits of [c]. *)
Definition join (a m s c m' s' : Z) : Z := Z.lor (u8 (Z.shiftl (Z.land a m) s)) (hi_bits c m' s').

Lemma join_2 a c : is_u8 a -> is_u8 c -> join a 7 2 c 192 6 = a mod 8 * 4 + c / 64.
Proof. intros. apply Z.eqb_eq. apply (byte_forall2 (fun a c => join a 7 2 c 192 6 =? a mod 8 * 4 + c / 64)); [by vm_compute|done|done]. Qed.
Lemma join_4 a c : is_u8 a -> is_u8 c -> join a 1 4 c 240 4 = a mod 2 * 16 + c / 16.
Proof. intros. apply Z.eqb_eq. apply (byte_forall2 (fun a c => join a 1 4 c 240 4 =? a mod 2 * 16 + c / 16)); [by vm_compute|done|done]. Qed.
Lemma join_1 a c : is_u8 a -> is_u8 c -> join a 15 1 c 128 7 = a mod 16 * 2 + c / 128.
Proof. intros. apply Z.eqb_eq. apply (byte_forall2 (fun a c => join a 15 1 c 128 7 =? a mod 16 * 2 + c / 128)); [by vm_compute|done|done]. Qed.
Lemma join_3 a c : is_u8 a -> is_u8 c -> join a 3 3 c 224 5 = a mod 4 * 8 + c / 32.
Proof. intros. apply Z.eqb_eq. apply (byte_forall2 (fun a c => join a 3 3 c 224 5 =? a mod 4 * 8 + c / 32)); [by vm_compute|done|done]. Qed.

(** Five bytes are eight symbols, six bytes (the timestamp) are ten. *)
Definition sym5 (a b c d e : Z) : list Z :=
  [a / 8; a mod 8 * 4 + b / 64; b / 2 mod 32; b mod 2 * 16 + c / 16;
   c mod 16 * 2 + d / 128; d / 4 mod 32; d mod 4 * 8 + e / 32; e mod 32].
Definition sym6 (t a b c d e : Z) : list Z := t / 32 :: t mod 32 :: sym5 a b c d e.

Lemma id_wf_inv id : id_wf id ->
  exists b0 b1 b2 b3 b4 b5 b6 b7 b8 b9 b10 b11 b12 b13 b14 b15,
    id = [b0; b1; b2; b3; b4; b5; b6; b7; b8; b9; b10; b11; b12; b13; b14; b15] /\
    (is_u8 b0 /\ is_u8 b1 /\ is_u8 b2 /\ is_u8 b3 /\ is_u8 b4 /\ is_u8 b5) /\
    (is_u8 b6 /\ is_u8 b7 /\ is_u8 b8 /\ is_u8 b9 /\ is_u8 b10) /\
    (is_u8 b11 /\ is_u8 b12 /\ is_u8 b13 /\ is_u8 b14 /\ is_u8 b15).
Proof.
  intros [Hl Hf].
  do 16 (destruct id as [|? id]; [done|]). destruct id; [|done].
  rewrite !Forall_cons in Hf. destruct_and! Hf.
  do 16 eexists. split; [reflexivity|]. by repeat split_and.
Qed.

Lemma text_digits_sym b0 b1 b2 b3 b4 b5 b6 b7 b8 b9 b10 b11 b12 b13 b14 b15 :
  (is_u8 b0 /\ is_u8 b1 /\ is_u8 b2 /\ is_u8 b3 /\ is_u8 b4 /\ is_u8 b5) ->
  (is_u8 b6 /\ is_u8 b7 /\ is_u8 b8 /\ is_u8 b9 /\ is_u8 b10) ->
  (is_u8 b11 /\ is_u8 b12 /\ is_u8 b13 /\ is_u8 b14 /\ is_u8 b15) ->
  text_digits [b0; b1; b2; b3; b4; b5; b6; b7; b8; b9; b10; b11; b12; b13; b14; b15] =
  sym6 b0 b1 b2 b3 b4 b5 ++ sym5 b6 b7 b8 b9 b10 ++ sym5 b11 b12 b13 b14 b15.
Proof.
  intros H1 H2 H3. destruct_and! H1. destruct_and! H2. destruct_and! H3.
  unfold text_digits, byte_at. cbn [nth]. fold (join b1 7 2 b2 192 6).
  repeat match goal with
    |- context [Z.lor (u8 (Z.shiftl (Z.land ?a ?m) ?s)) (hi_bits ?c ?m' ?s')] =>
      change (Z.lor (u8 (Z.shiftl (Z.land a m) s)) (hi_bits c m' s')) with (join a m s c m' s')
  end.
  rewrite !hi_224_5, !land_31, !hi_248_3, !hi_62_1, !hi_124_2, !join_2, !join_4,
    !join_1, !join_3 by done.
  reflexivity.
Qed.

Ltac zdm := Z.to_euclidean_division_equations; unfold is_u8, w8 in *; lia.

Lemma sym5_digits a b c d e :
  is_u8 a -> is_u8 b -> is_u8 c -> is_u8 d -> is_u8 e -> digits 32 (sym5 a b c d e).
Proof.
  intros Ha Hb Hc Hd He. unfold digits, sym5.
  repeat (apply Forall_cons_2; [zdm|]). apply Forall_nil_2.
Qed.

Lemma sym6_digits t a b c d e :
  is_u8 t -> is_u8 a -> is_u8 b -> is_u8 c -> is_u8 d -> is_u8 e ->
  digits 32 (sym6 t a b c d e).
Proof.
  intros Ht Ha Hb Hc Hd He. unfold sym6.
  do 2 (apply Forall_cons_2; [zdm|]). by apply sym5_digits.
Qed.

Lemma sym5_val a b c d e : be_val 32 (sym5 a b c d e) = be_val 256 [a; b; c; d; e].
Proof.
  cbn. rewrite (Z.div_mod a 8), (Z.div_mod b 64), (Z.div_mod c 16), (Z.div_mod d 128),
    (Z.div_mod e 32) at 2 by lia. zdm.
Qed.

Lemma sym6_val t a b c d e : be_val 32 (sym6 t a b c d e) = be_val 256 [t; a; b; c; d; e].
Proof.
  unfold sym6. cbn [be_val length]. rewrite sym5_val.
  cbn. rewrite (Z.div_mod t 32) at 3 by lia. lia.
Qed.

Lemma sym5_cmp a b c d e a' b' c' d' e' :
  (is_u8 a /\ is_u8 b /\ is_u8 c /\ is_u8 d /\ is_u8 e) ->
  (is_u8 a' /\ is_u8 b' /\ is_u8 c' /\ is_u8 d' /\ is_u8 e') ->
  lexcmp (sym5 a b c d e) (sym5 a' b' c' d' e') = lexcmp [a; b; c; d; e] [a'; b'; c'; d'; e'].
Proof.
  intros H H'. destruct_and! H. destruct_and! H'.
  rewrite (lexcmp_be_val 32), !sym5_val by (done || by apply sym5_digits).
  symmetry. apply lexcmp_be_val; [done|done|..];
    unfold digits; repeat (apply Forall_cons_2; [done|]); apply Forall_nil_2.
Qed.

Lemma sym6_cmp t a b c d e t' a' b' c' d' e' :
  (is_u8 t /\ is_u8 a /\ is_u8 b /\ is_u8 c /\ is_u8 d /\ is_u8 e) ->
  (is_u8 t' /\ is_u8 a' /\ is_u8 b' /\ is_u8 c' /\ is_u8 d' /\ is_u8 e') ->
  lexcmp (sym6 t a b c d e) (sym6 t' a' b' c' d' e') =
  lexcmp [t; a; b; c; d; e] [t'; a'; b'; c'; d'; e'].
Proof.
  intros H H'. destruct_and! H. destruct_and! H'.
  rewrite (lexcmp_be_val 32), !sym6_val by (done || by apply sym6_digits).
  symmetry. apply lexcmp_be_val; [done|done|..];
    unfold digits; repeat (apply Forall_cons_2; [done|]); apply Forall_nil_2.
Qed.

Definition is_digit32 (x : Z) : Prop := 0 <= x < 32.

Lemma digit_forall (P : Z -> bool) :
  forallb P (seqZ 0 32) = true -> forall a, is_digit32 a -> P a = true.
Proof.
  intros H a Ha. rewrite forallb_forall in H. apply H.
  apply list_elem_of_In, elem_of_seqZ. unfold is_digit32 in Ha. lia.
Qed.

Lemma digit_forall2 (P : Z -> Z -> bool) :
  forallb (fun a => forallb (P a) (seqZ 0 32)) (seqZ 0 32) = true ->
  forall a b, is_digit32 a -> is_digit32 b -> P a b = true.
Proof.
  intros H a b Ha Hb. apply digit_forall; [|done].
  by apply (digit_forall (fun a => forallb (P a) (seqZ 0 32))).
Qed.

Lemma digit_forall3 (P : Z -> Z -> Z -> bool) :
  forallb (fun a => forallb (fun b => forallb (P a b) (seqZ 0 32)) (seqZ 0 32)) (seqZ 0 32) = true ->
  forall a b c, is_digit32 a -> is_digit32 b -> is_digit32 c -> P a b c = true.
Proof.
  intros H a b c Ha Hb Hc. apply digit_forall; [|done].
  by apply (digit_forall2 (fun a b => forallb (P a b) (seqZ 0 32))).
Qed.

Lemma enc_mono x y : is_digit32 x -> is_digit32 y -> Z.compare (enc x) (enc y) = Z.compare x y.
Proof.
  intros Hx Hy.
  pose proof (digit_forall2 (fun x y => bool_decide (Z.compare (enc x) (enc y) = Z.compare x y))
    ltac:(by vm_compute) x y Hx Hy) as H.
  by apply bool_decide_eq_true in H.
Qed.

Lemma enc_anti x y : is_digit32 x -> is_digit32 y ->
  Z.compare (enc (31 - x)) (enc (31 - y)) = Z.compare y x.
Proof.
  intros Hx Hy. rewrite enc_mono by (unfold is_digit32 in *; lia).
  destruct (Z.compare_spec y x), (Z.compare_spec (31 - x) (31 - y)); (done || lia).
Qed.

Lemma dec_enc x : is_digit32 x -> dec (enc x) = x.
Proof.
  intros Hx. apply Z.eqb_eq.
  by apply (digit_forall (fun x => dec (enc x) =? x) ltac:(by vm_compute) x Hx).
Qed.

Lemma text_digits_wf id : id_wf id -> Forall is_digit32 (text_digits id) /\ length (text_digits id) = 26%nat.
Proof.
  intros Hid. destruct (id_wf_inv id Hid) as
    (b0&b1&b2&b3&b4&b5&b6&b7&b8&b9&b10&b11&b12&b13&b14&b15&->&H1&H2&H3).
  split; [|done]. rewrite (text_digits_sym _ _ _ _ _ _ _ _ _ _ _ _ _ _ _ _ H1 H2 H3).
  destruct_and! H1. destruct_and! H2. destruct_and! H3.
  apply Forall_app. split; [by apply sym6_digits|].
  apply Forall_app. split; by apply sym5_digits.
Qed.

Lemma String_digits id : String_ id = enc <$> text_digits id.
Proof. reflexivity. Qed.

Lemma text_digits_cmp x y : id_wf x -> id_wf y ->
  lexcmp (text_digits x) (text_digits y) = lexcmp x y.
Proof.
  intros Hx Hy.
  destruct (id_wf_inv x Hx) as (b0&b1&b2&b3&b4&b5&b6&b7&b8&b9&b10&b11&b12&b13&b14&b15&->&H1&H2&H3).
  destruct (id_wf_inv y Hy) as (c0&c1&c2&c3&c4&c5&c6&c7&c8&c9&c10&c11&c12&c13&c14&c15&->&J1&J2&J3).
  rewrite (text_digits_sym _ _ _ _ _ _ _ _ _ _ _ _ _ _ _ _ H1 H2 H3).
  rewrite (text_digits_sym _ _ _ _ _ _ _ _ _ _ _ _ _ _ _ _ J1 J2 J3).
  rewrite (lexcmp_app (sym6 _ _ _ _ _ _)), (lexcmp_app (sym5 _ _ _ _ _)) by done.
  rewrite sym6_cmp, !sym5_cmp by done.
  rewrite <- (lexcmp_app [b6; b7; b8; b9; b10]) by done.
  by rewrite <- (lexcmp_app [b0; b1; b2; b3; b4; b5]) by done.
Qed.

(** The decoder's shifts, in arithmetic form. *)
Ltac by_digits lem P := intros; apply Z.eqb_eq; apply (lem P); [by vm_compute|done..].

Lemma un_5 d0 d1 : is_digit32 d0 -> is_digit32 d1 ->
  Z.lor (u8 (Z.shiftl d0 5)) d1 = d0 mod 8 * 32 + d1.
Proof. by_digits digit_forall2 (fun d0 d1 => Z.lor (u8 (Z.shiftl d0 5)) d1 =? d0 mod 8 * 32 + d1). Qed.
Lemma un_3 d0 d1 : is_digit32 d0 -> is_digit32 d1 ->
  Z.lor (u8 (Z.shiftl d0 3)) (Z.shiftr d1 2) = d0 * 8 + d1 / 4.
Proof. by_digits digit_forall2 (fun d0 d1 => Z.lor (u8 (Z.shiftl d0 3)) (Z.shiftr d1 2) =? d0 * 8 + d1 / 4). Qed.
Lemma un_6 d0 d1 d2 : is_digit32 d0 -> is_digit32 d1 -> is_digit32 d2 ->
  Z.lor (Z.lor (u8 (Z.shiftl d0 6)) (u8 (Z.shiftl d1 1))) (Z.shiftr d2 4) = d0 mod 4 * 64 + d1 * 2 + d2 / 16.
Proof. by_digits digit_forall3 (fun d0 d1 d2 =>
  Z.lor (Z.lor (u8 (Z.shiftl d0 6)) (u8 (Z.shiftl d1 1))) (Z.shiftr d2 4) =? d0 mod 4 * 64 + d1 * 2 + d2 / 16). Qed.
Lemma un_4 d0 d1 : is_digit32 d0 -> is_digit32 d1 ->
  Z.lor (u8 (Z.shiftl d0 4)) (Z.shiftr d1 1) = d0 mod 16 * 16 + d1 / 2.
Proof. by_digits digit_forall2 (fun d0 d1 => Z.lor (u8 (Z.shiftl d0 4)) (Z.shiftr d1 1) =? d0 mod 16 * 16 + d1 / 2). Qed.
Lemma un_7 d0 d1 d2 : is_digit32 d0 -> is_digit32 d1 -> is_digit32 d2 ->
  Z.lor (Z.lor (u8 (Z.shiftl d0 7)) (u8 (Z.shiftl d1 2))) (Z.shiftr d2 3) = d0 mod 2 * 128 + d1 * 4 + d2 / 8.
Proof. by_digits digit_forall3 (fun d0 d1 d2 =>
  Z.lor (Z.lor (u8 (Z.shiftl d0 7)) (u8 (Z.shiftl d1 2))) (Z.shiftr d2 3) =? d0 mod 2 * 128 + d1 * 4 + d2 / 8). Qed.

(** Eight symbols back to five bytes, ten symbols back to six. *)
Definition unsym5 (l : list Z) : list Z :=
  match l with
  | [d0; d1; d2; d3; d4; d5; d6; d7] =>
      [d0 * 8 + d1 / 4; d1 mod 4 * 64 + d2 * 2 + d3 / 16; d3 mod 16 * 16 + d4 / 2;
       d4 mod 2 * 128 + d5 * 4 + d6 / 8; d6 mod 8 * 32 + d7]
  | _ => []
  end.

Lemma unsym5_sym5 a b c d e :
  is_u8 a -> is_u8 b -> is_u8 c -> is_u8 d -> is_u8 e -> unsym5 (sym5 a b c d e) = [a; b; c; d; e].
Proof. intros. unfold unsym5, sym5. repeat f_equal; zdm. Qed.

Lemma dec_at_enc (l : list Z) k : Forall is_digit32 l -> (k < length l)%nat ->
  dec_at (enc <$> l) k = byte_at l k.
Proof.
  intros Hf Hk. unfold dec_at, byte_at.
  destruct (lookup_lt_is_Some_2 l k Hk) as [x Hx].
  rewrite (nth_lookup_Some l k 0 x) by done.
  rewrite (nth_lookup_Some (enc <$> l) k 0 (enc x)) by (by rewrite list_lookup_fmap, Hx).
  apply dec_enc. by eapply Forall_lookup_1 in Hf.
Qed.

(** For 26 digits the decoder computes the time byte pair and the packed rest. *)
Lemma UnmarshalText_digits (l : list Z) :
  Forall is_digit32 l -> length l = 26%nat ->
  UnmarshalText (enc <$> l) =
  Ok (byte_at l 0 mod 8 * 32 + byte_at l 1 ::
      unsym5 (take 8 (drop 2 l)) ++ unsym5 (take 8 (drop 10 l)) ++ unsym5 (drop 18 l)).
Proof.
  intros Hf Hl. unfold UnmarshalText. rewrite length_fmap, Hl.
  change (negb (26 =? EncodedSize)%nat) with false. cbv iota.
  rewrite !dec_at_enc by (done || (rewrite Hl; lia)).
  do 26 (destruct l as [|? l]; [done|]). destruct l; [|done].
  rewrite !Forall_cons in Hf. destruct_and! Hf. unfold byte_at. cbn [nth].
  rewrite !un_5, !un_3, !un_6, !un_4, !un_7 by done.
  reflexivity.
Qed.

(** C39: an id survives the trip through its text form: for the 16 bytes of any id
    [UnmarshalText] applied to [String] gives back exactly those bytes. *)
Theorem UnmarshalText_String id : id_wf id -> UnmarshalText (String_ id) = Ok id.
Proof.
  intros Hid. destruct (text_digits_wf id Hid) as [Hd Hl].
  rewrite String_digits, UnmarshalText_digits by done.
  destruct (id_wf_inv id Hid) as (b0&b1&b2&b3&b4&b5&b6&b7&b8&b9&b10&b11&b12&b13&b14&b15&->&H1&H2&H3).
  rewrite (text_digits_sym _ _ _ _ _ _ _ _ _ _ _ _ _ _ _ _ H1 H2 H3).
  destruct_and! H1. destruct_and! H2. destruct_and! H3.
  change (drop 18 (sym6 b0 b1 b2 b3 b4 b5 ++ sym5 b6 b7 b8 b9 b10 ++ sym5 b11 b12 b13 b14 b15))
    with (sym5 b11 b12 b13 b14 b15).
  change (take 8 (drop 10 (sym6 b0 b1 b2 b3 b4 b5 ++ sym5 b6 b7 b8 b9 b10 ++ sym5 b11 b12 b13 b14 b15)))
    with (sym5 b6 b7 b8 b9 b10).
  change (take 8 (drop 2 (sym6 b0 b1 b2 b3 b4 b5 ++ sym5 b6 b7 b8 b9 b10 ++ sym5 b11 b12 b13 b14 b15)))
    with (sym5 b1 b2 b3 b4 b5).
  rewrite !unsym5_sym5 by done. unfold byte_at, sym6. cbn [nth app].
  do 2 f_equal. zdm.
Qed.

Lemma UnmarshalText_String_witness :
  id_wf [1; 2; 255; 0; 7; 128; 10; 9; 8; 7; 6; 5; 4; 3; 2; 251] /\
  UnmarshalText (String_ [1; 2; 255; 0; 7; 128; 10; 9; 8; 7; 6; 5; 4; 3; 2; 251]) =
  Ok [1; 2; 255; 0; 7; 128; 10; 9; 8; 7; 6; 5; 4; 3; 2; 251].
Proof.
  assert (id_wf [1; 2; 255; 0; 7; 128; 10; 9; 8; 7; 6; 5; 4; 3; 2; 251]) as H.
  { split; [done|]. repeat (apply Forall_cons_2; [unfold is_u8, w8; lia|]). apply Forall_nil_2. }
  split; [exact H|]. apply (UnmarshalText_String _ H).
Defined.

(** Text ids sort like the ids: comparing the strings of two ids gives the
    comparison of their 16 bytes, so ids sort by time, then machine, then
    counter. *)
Theorem String_lexicographic x y : id_wf x -> id_wf y ->
  lexcmp (String_ x) (String_ y) = lexcmp x y.
Proof.
  intros Hx Hy. destruct (text_digits_wf x Hx), (text_digits_wf y Hy).
  rewrite !String_digits, (lexcmp_map_mono is_digit32 enc) by (done || apply enc_mono).
  by apply text_digits_cmp.
Qed.

Lemma String_lexicographic_witness :
  lexcmp (String_ [1; 2; 255; 0; 7; 128; 10; 9; 8; 7; 6; 5; 4; 3; 2; 251])
         (String_ [1; 2; 255; 0; 7; 128; 10; 9; 8; 7; 6; 5; 4; 3; 3; 0]) = Lt.
Proof.
  rewrite String_lexicographic; [vm_compute; reflexivity|split; [done|]..];
    repeat (apply Forall_cons_2; [unfold is_u8, w8; lia|]); apply Forall_nil_2.
Defined.

(** *** The generator *)

(** The last four bytes of an id are the counter, big endian. *)
Lemma newID_counter ms m c : is_u32 c -> be_val 256 (drop 12 (newID ms m c)) = c.
Proof.
  intros Hc. unfold newID, u8, w8. rewrite !Z.shiftr_div_pow2 by lia.
  change (be_val 256 [c / 2 ^ 24 mod 256; c / 2 ^ 16 mod 256; c / 2 ^ 8 mod 256; c mod 256] = c).
  cbn -[Z.div Z.modulo].
  change (Z.pow_pos 256 3) with 16777216. change (Z.pow_pos 256 2) with 65536.
  change (Z.pow_pos 256 1) with 256. change (Z.pow_pos 2 24) with 16777216.
  change (Z.pow_pos 2 16) with 65536. change (Z.pow_pos 2 8) with 256.
  unfold is_u32, w32 in Hc. Z.to_euclidean_division_equations. lia.
Qed.

(** The clock part of [NewWithTime]. *)
Definition New_ms (t : Z * Z) : Z := u64 (u64 (u64 (t.1) * 1000) + u64 (t.2 / 1000000)).

Lemma New_run_lookup ts g i x :
  (New_run ts g).1 !! i = Some x ->
  exists t, ts !! i = Some t /\
    x = newID (New_ms t) (machineID g) (u32 (counter g + 1 + Z.of_nat i)).
Proof.
  revert g i. induction ts as [|t ts IH]; intros g i H; [done|].
  cbn [New_run NewWithTime] in H.
  destruct (New_run ts _) as [xs g'] eqn:E. destruct i as [|i]; simpl in H.
  - simplify_eq. exists t. split; [done|]. f_equal. f_equal. lia.
  - specialize (IH {| machineID := machineID g; counter := u32 (counter g + 1) |} i).
    rewrite E in IH. destruct (IH H) as (t' & ? & ->). exists t'. split; [done|].
    cbn [machineID counter]. f_equal. unfold u32.
    rewrite <- Z.add_assoc, Z.add_mod_idemp_l by done. f_equal. lia.
Qed.

Lemma u32_shift_inj a i j : 0 <= i < w32 -> 0 <= j < w32 -> u32 (a + i) = u32 (a + j) -> i = j.
Proof.
  unfold u32, w32. intros Hi Hj H.
  Z.to_euclidean_division_equations. lia.
Qed.

(** The generator does not repeat itself: in a run of at most 2^32 calls of
    [New] in one process, whatever the clock shows at each call, all the ids are
    different. *)
Theorem New_run_NoDup ts g :
  Z.of_nat (length ts) <= w32 -> NoDup (New_run ts g).1.
Proof.
  intros Hl. apply NoDup_alt. intros i j x Hi Hj.
  apply New_run_lookup in Hi as (t & Ht & ->). apply New_run_lookup in Hj as (t' & Ht' & H).
  apply lookup_lt_Some in Ht, Ht'.
  apply (f_equal (fun l => be_val 256 (drop 12 l))) in H.
  rewrite !newID_counter in H by apply u32_range.
  apply u32_shift_inj in H; lia.
Qed.

Lemma New_run_NoDup_witness :
  NoDup (New_run [(1700000000, 5); (1700000000, 7); (1700000000, 7)]
    {| machineID := 77; counter := 4294967294 |}).1.
Proof. apply New_run_NoDup. simpl. unfold w32. lia. Defined.

(** *** The descending encoding *)

Lemma rEncoding_digit x : is_digit32 x -> rEncoding_at (encoding_index (enc x)) = Ok (enc (31 - x)).
Proof.
  intros Hx.
  pose proof (digit_forall (fun x =>
    match rEncoding_at (encoding_index (enc x)) with Ok c => c =? enc (31 - x) | _ => false end)
    ltac:(by vm_compute) x Hx) as H.
  simpl in H. destruct (rEncoding_at _); try done. f_equal. by apply Z.eqb_eq.
Qed.

Lemma encode_desc_digits l :
  Forall is_digit32 l -> encode_desc_bytes (enc <$> l) = Ok ((fun x => enc (31 - x)) <$> l).
Proof.
  induction 1 as [|x l Hx Hl IH]; [done|].
  rewrite !fmap_cons. cbn [encode_desc_bytes]. rewrite rEncoding_digit by done.
  cbn [obind]. by rewrite IH.
Qed.

Lemma EncodeDescending_digits l :
  Forall is_digit32 l -> (length l <= 26)%nat ->
  EncodeDescending (enc <$> l) = Ok ((fun x => enc (31 - x)) <$> l).
Proof.
  intros Hf Hl. unfold EncodeDescending, EncodedSize. rewrite length_fmap.
  destruct (Nat.ltb_spec 26 (length l)); [lia|]. by apply encode_desc_digits.
Qed.

Lemma EncodeDescending_String id : id_wf id ->
  EncodeDescending (String_ id) = Ok ((fun x => enc (31 - x)) <$> text_digits id).
Proof.
  intros Hid. destruct (text_digits_wf id Hid). rewrite String_digits.
  apply EncodeDescending_digits; [done|lia].
Qed.

(** The order used by the descending listing of an id. *)
Definition desc_cmp (x y : list Z) : outcome string comparison :=
  let! a := EncodeDescending (String_ x) in
  let! b := EncodeDescending (String_ y) in Ok (lexcmp a b).

(** Reversal: the descending encoding of ids never panics and reverses their order; applied
    twice it is the identity. *)
Theorem EncodeDescending_reverses x y : id_wf x -> id_wf y ->
  desc_cmp x y = Ok (lexcmp y x) /\
  (let! a := EncodeDescending (String_ x) in EncodeDescending a) = Ok (String_ x).
Proof.
  intros Hx Hy. destruct (text_digits_wf x Hx) as [Dx Lx], (text_digits_wf y Hy) as [Dy Ly].
  unfold desc_cmp. rewrite !EncodeDescending_String by done. cbn [obind]. split.
  - f_equal. rewrite (lexcmp_map_anti is_digit32 (fun x => enc (31 - x)))
      by (done || apply enc_anti || congruence).
    by apply text_digits_cmp.
  - assert ((fun x : Z => enc (31 - x)) <$> text_digits x = enc <$> (Z.sub 31 <$> text_digits x)) as ->.
    { by rewrite <- list_fmap_compose. }
    rewrite EncodeDescending_digits, <- list_fmap_compose, String_digits.
    + f_equal. apply list_fmap_ext. intros _ d _. unfold compose. f_equal. lia.
    + apply Forall_fmap. eapply Forall_impl; [exact Dx|].
      intros d. unfold is_digit32, compose. lia.
    + rewrite length_fmap. lia.
Qed.

Lemma EncodeDescending_reverses_witness :
  desc_cmp (newID 5 6 7) (newID 5 6 8) = Ok Gt.
Proof.
  rewrite (proj1 (EncodeDescending_reverses (newID 5 6 7) (newID 5 6 8)
    ltac:(split; [reflexivity | repeat constructor; apply u8_range])
    ltac:(split; [reflexivity | repeat constructor; apply u8_range]))).
  vm_compute; reflexivity.
Defined.

(** What [EncodeDescending] does outside the alphabet: the index is -1, so the
    call panics (its comment announces 0xFF bytes instead). *)
Lemma EncodeDescending_panics : EncodeDescending (bytes_of_string "U") = Panic.
Proof. reflexivity. Qed.

(** The buffer of [MarshalBinary] is 26 bytes long, an id is 16. *)
Lemma MarshalBinary_fails id : id_wf id ->
  MarshalBinary id = Err "provided buffer not large enough to marshal id"%string.
Proof. intros [Hl _]. unfold MarshalBinary, MarshalBinaryTo. by rewrite Hl. Qed.
