(* ===== verification/Errors.v ===== *)
(** * Errors (src/api/models/error.go, src/api/server/error_response.go)

    The error values of the API: the package variables of the models with
    their HTTP codes and messages, the classification into API errors and
    function errors, wrapping, and the handler that turns an error into a
    response.  The messages with a limit in them are those of the limits the
    packages start with ([fmt.Errorf] runs at package initialisation). *)
From S2P Require Import Prelude.

(** The error variables of models/error.go, app.go, fn.go and trigger.go. *)
Inductive errvar : Type :=
(* models/error.go *)
| ErrMethodNotAllowed | ErrInvalidJSON | ErrClientCancel | ErrCallTimeoutServerBusy |
ErrUnsupportedMediaType | ErrMissingID | ErrMissingAppID | ErrMissingFnID | ErrMissingName |
ErrCreatedAtProvided | ErrUpdatedAtProvided | ErrDatastoreEmptyApp | ErrDatastoreEmptyCallID |
ErrDatastoreEmptyFn | ErrDatastoreEmptyFnID | ErrInvalidPayload | ErrFoundDynamicURL |
ErrPathMalformed | ErrInvalidToTime | ErrInvalidFromTime | ErrInvalidMemory |
ErrCallResourceTooBig | ErrCallNotFound | ErrInvalidCPUs | ErrCallLogNotFound | ErrPathNotFound
| ErrInvalidAnnotationKey | ErrInvalidAnnotationKeyLength | ErrInvalidAnnotationValue |
ErrInvalidAnnotationValueLength | ErrTooManyAnnotationKeys | ErrTooManyRequests |
ErrAsyncUnsupported | ErrDetachUnsupported | ErrCallHandlerNotFound |
ErrServiceReservationFailure | ErrDockerPullTimeout | ErrFunctionResponseTooBig |
ErrFunctionResponseHdrTooBig | ErrFunctionResponse | ErrFunctionFailed |
ErrFunctionInvalidResponse | ErrFunctionPrematureWrite | ErrFunctionWriteRequest |
ErrRequestContentTooBig | ErrCallTimeout | ErrContainerInitFail | ErrContainerInitTimeout |
ErrSyslogUnavailable | ErrRequestLimitExceeded
(* models/app.go *)
| ErrAppsMissingID | ErrAppIDProvided | ErrAppsIDMismatch | ErrAppsMissingName |
ErrAppsTooLongName | ErrAppsInvalidName | ErrAppsAlreadyExists | ErrAppsMissingNew |
ErrAppsNameImmutable | ErrAppsNotFound
(* models/fn.go *)
| ErrFnsIDMismatch | ErrFnsIDProvided | ErrFnsMissingID | ErrFnsMissingName | ErrFnsInvalidName
| ErrFnsTooLongName | ErrFnsMissingAppID | ErrFnsMissingImage | ErrFnsInvalidImage |
ErrFnsInvalidTimeout | ErrFnsInvalidIdleTimeout | ErrFnsNotFound | ErrFnsExists
(* models/trigger.go *)
| ErrTriggerIDProvided | ErrTriggerIDMismatch | ErrTriggerMissingName | ErrTriggerTooLongName |
ErrTriggerInvalidName | ErrTriggerMissingAppID | ErrTriggerMissingFnID |
ErrTriggerFnIDNotSameApp | ErrTriggerTypeUnknown | ErrTriggerMissingSource |
ErrTriggerMissingSourcePrefix | ErrTriggerNotFound | ErrTriggerExists | ErrTriggerSourceExists.

#[export] Instance errvar_eq_dec : EqDecision errvar.
Proof. solve_decision. Defined.

(** [Code()]: the status of each variable. *)
Definition var_code (v : errvar) : Z :=
  match v with
  | ErrCallNotFound | ErrCallLogNotFound | ErrPathNotFound | ErrAppsNotFound | ErrFnsNotFound |
  ErrTriggerNotFound => 404
  | ErrMethodNotAllowed => 405
  | ErrAppsAlreadyExists | ErrAppsNameImmutable | ErrFnsExists | ErrTriggerExists |
  ErrTriggerSourceExists => 409
  | ErrRequestContentTooBig => 413
  | ErrUnsupportedMediaType => 415
  | ErrTooManyRequests | ErrRequestLimitExceeded => 429
  | ErrClientCancel => 444
  | ErrCallHandlerNotFound | ErrServiceReservationFailure | ErrSyslogUnavailable => 500
  | ErrDetachUnsupported => 501
  | ErrFunctionResponseTooBig | ErrFunctionResponseHdrTooBig | ErrFunctionResponse |
  ErrFunctionFailed | ErrFunctionInvalidResponse | ErrFunctionPrematureWrite |
  ErrFunctionWriteRequest | ErrContainerInitFail => 502
  | ErrCallTimeoutServerBusy => 503
  | ErrDockerPullTimeout | ErrCallTimeout | ErrContainerInitTimeout => 504
  | _ => 400
  end.

(** The variables of type [ferr]: errors that are the function's fault. *)
Definition var_func (v : errvar) : bool :=
  match v with
  | ErrDockerPullTimeout | ErrFunctionResponseTooBig | ErrFunctionResponseHdrTooBig |
  ErrFunctionResponse | ErrFunctionFailed | ErrFunctionInvalidResponse |
  ErrFunctionPrematureWrite | ErrFunctionWriteRequest | ErrRequestContentTooBig | ErrCallTimeout
  | ErrContainerInitFail | ErrContainerInitTimeout | ErrSyslogUnavailable |
  ErrRequestLimitExceeded => true
  | _ => false
  end.

(** [Error()]. *)
Definition var_msg (v : errvar) : string :=
  match v with
  | ErrMethodNotAllowed => "Method not allowed"
  | ErrInvalidJSON => "Invalid JSON"
  | ErrClientCancel => "Client cancelled context"
  | ErrCallTimeoutServerBusy => "Timed out - server too busy"
  | ErrUnsupportedMediaType => "Content Type not supported"
  | ErrMissingID => "Missing ID"
  | ErrMissingAppID => "Missing App ID"
  | ErrMissingFnID => "Missing Fn ID"
  | ErrMissingName => "Missing Name"
  | ErrCreatedAtProvided => "Trigger Created At Provided for Create"
  | ErrUpdatedAtProvided => "Trigger ID Provided for Create"
  | ErrDatastoreEmptyApp => "Missing app"
  | ErrDatastoreEmptyCallID => "Missing call ID"
  | ErrDatastoreEmptyFn => "Missing Fn"
  | ErrDatastoreEmptyFnID => "Missing Fn ID"
  | ErrInvalidPayload => "Invalid payload"
  | ErrFoundDynamicURL => "Dynamic URL is not allowed"
  | ErrPathMalformed => "Path malformed"
  | ErrInvalidToTime => "to_time is not an epoch time"
  | ErrInvalidFromTime => "from_time is not an epoch time"
  | ErrInvalidMemory =>
      "memory value is out of range. It should be between 0 and 8192"
  | ErrCallResourceTooBig => "Requested CPU/Memory cannot be allocated"
  | ErrCallNotFound => "Call not found"
  | ErrInvalidCPUs =>
      "Cpus is invalid. Value should be either between [0.000 and 1024.000] or [0m and 1024000m] milliCPU units"
  | ErrCallLogNotFound => "Call log not found"
  | ErrPathNotFound => "Path not found"
  | ErrInvalidAnnotationKey =>
      "Invalid annotation key, annotation keys must be non-empty ascii strings excluding whitespace"
  | ErrInvalidAnnotationKeyLength =>
      "Invalid annotation key length, annotation keys may not be larger than 128 bytes"
  | ErrInvalidAnnotationValue =>
      "Invalid annotation value, annotation values may only be non-empty strings, numbers, objects, or arrays"
  | ErrInvalidAnnotationValueLength =>
      "Invalid annotation value length, annotation values may not be larger than 512 bytes when serialized as JSON"
  | ErrTooManyAnnotationKeys =>
      "Invalid annotation change, new key(s) exceed maximum permitted number of annotations keys (100)"
  | ErrTooManyRequests => "Too many requests submitted"
  | ErrAsyncUnsupported => "Async functions are not supported on this server"
  | ErrDetachUnsupported =>
      "Detach call functions are not supported on this server"
  | ErrCallHandlerNotFound => "Unable to find the call handle"
  | ErrServiceReservationFailure =>
      "Unable to service the request for the reservation period"
  | ErrDockerPullTimeout => "Image pull timed out"
  | ErrFunctionResponseTooBig => "function response body too large"
  | ErrFunctionResponseHdrTooBig => "function response header too large"
  | ErrFunctionResponse => "error receiving function response"
  | ErrFunctionFailed => "function failed"
  | ErrFunctionInvalidResponse => "invalid function response"
  | ErrFunctionPrematureWrite =>
      "function invoked write before receiving entire request"
  | ErrFunctionWriteRequest => "function closed pipe while receiving request"
  | ErrRequestContentTooBig => "Request content too large"
  | ErrCallTimeout => "Timed out"
  | ErrContainerInitFail =>
      "Container failed to initialize, please ensure you are using the latest fdk and check the logs"
  | ErrContainerInitTimeout =>
      "Container initialization timed out, please ensure you are using the latest fdk and check the logs"
  | ErrSyslogUnavailable => "Syslog Unavailable"
  | ErrRequestLimitExceeded => "Request capacity for user exceeded"
  | ErrAppsMissingID => "Missing app ID"
  | ErrAppIDProvided => "App ID cannot be supplied on create"
  | ErrAppsIDMismatch => "App ID in path does not match ID in body"
  | ErrAppsMissingName => "Missing app name"
  | ErrAppsTooLongName => "App name must be 255 characters or less"
  | ErrAppsInvalidName => "Invalid app name"
  | ErrAppsAlreadyExists => "App already exists"
  | ErrAppsMissingNew => "Missing new application"
  | ErrAppsNameImmutable => "Could not update - name is immutable"
  | ErrAppsNotFound => "App not found"
  | ErrFnsIDMismatch => "Fn ID in path does not match that in body"
  | ErrFnsIDProvided => "ID cannot be provided for Fn creation"
  | ErrFnsMissingID => "Missing Fn ID"
  | ErrFnsMissingName => "Missing Fn name"
  | ErrFnsInvalidName => "name must be a valid string"
  | ErrFnsTooLongName => "Fn name must be 255 characters or less"
  | ErrFnsMissingAppID => "Missing AppID on Fn"
  | ErrFnsMissingImage => "Missing image on Fn"
  | ErrFnsInvalidImage => "Invalid Fn image"
  | ErrFnsInvalidTimeout =>
      "timeout value is out of range, must be between 0 and 300"
  | ErrFnsInvalidIdleTimeout =>
      "idle_timeout value is out of range, must be between 0 and 3600"
  | ErrFnsNotFound => "Fn not found"
  | ErrFnsExists => "Fn with specified name already exists"
  | ErrTriggerIDProvided => "ID cannot be provided for Trigger creation"
  | ErrTriggerIDMismatch => "ID in path does not match ID in body"
  | ErrTriggerMissingName => "Missing name on Trigger"
  | ErrTriggerTooLongName => "Trigger name must be 255 characters or less"
  | ErrTriggerInvalidName => "Invalid name for Trigger"
  | ErrTriggerMissingAppID => "Missing App ID on Trigger"
  | ErrTriggerMissingFnID => "Missing Fn ID on Trigger"
  | ErrTriggerFnIDNotSameApp => "Invalid Fn ID - not owned by specified app"
  | ErrTriggerTypeUnknown => "Trigger Type Not Supported"
  | ErrTriggerMissingSource => "Missing Trigger Source"
  | ErrTriggerMissingSourcePrefix => "Missing Trigger Source Prefix '/'"
  | ErrTriggerNotFound => "Trigger not found"
  | ErrTriggerExists => "Trigger already exists"
  | ErrTriggerSourceExists =>
      "Trigger with the same type and source exists on this app"
  end.

(** An [error] value.  [EVar] is a package variable, [EApi] the result of
    [NewAPIError], [EFunc] of [NewFuncError], [EWrap] of [NewAPIErrorWrapper];
    [EGRPC] is an error with a gRPC status, the others are errors of the
    standard library or of [errors.New] and [fmt.Errorf]. *)
Inductive gerr : Type :=
| EVar (v : errvar)
| EApi (code : Z) (msg : string)
| EFunc (inner : gerr)
| EInvalidSyslog (msg : string)
| EWrap (api root : gerr)
| EGRPC (code : Z) (msg : string)
| ECanceled
| EDeadlineExceeded
| EEOF
| EPlain (msg : string).

#[export] Instance gerr_eq_dec : EqDecision gerr.
Proof. solve_decision. Defined.

(** The type assertion [e.(APIError)] together with [Code()]. *)
Fixpoint as_api (e : gerr) : option Z :=
  match e with
  | EVar v => Some (var_code v)
  | EApi c _ => Some c
  | EFunc e => as_api e
  | EInvalidSyslog _ => Some 400
  | EWrap a _ => as_api a
  | EGRPC _ _ | ECanceled | EDeadlineExceeded | EEOF | EPlain _ => None
  end.

Fixpoint error_msg (e : gerr) : string :=
  match e with
  | EVar v => var_msg v
  | EApi _ m => m
  | EFunc e => error_msg e
  | EInvalidSyslog m => m
  | EWrap a _ => error_msg a
  | EGRPC _ m => m
  | ECanceled => "context canceled"
  | EDeadlineExceeded => "context deadline exceeded"
  | EEOF => "EOF"
  | EPlain m => m
  end.

Definition IsAPIError (e : gerr) : bool :=
  match as_api e with Some _ => true | None => false end.

Definition GetAPIErrorCode (e : gerr) : Z :=
  match as_api e with Some c => c | None => 0 end.

(** Only the type [ferr] implements [FuncError]; a wrapper embeds the
    interface [APIError] and so hides it. *)
Definition IsFuncError (e : gerr) : bool :=
  match e with
  | EVar v => var_func v
  | EFunc _ => true
  | _ => false
  end.

Definition NewAPIError (code : Z) (e : string) : gerr := EApi code e.
(** [NewFuncError] takes an [APIError]. *)
Definition NewFuncError (e : gerr) : gerr := EFunc e.
Definition NewAPIErrorWrapper (apiErr rootErr : gerr) : gerr := EWrap apiErr rootErr.
Definition RootError (e : gerr) : option gerr :=
  match e with EWrap _ r => Some r | _ => None end.

(** ** The error handler of the HTTP server *)

(** What is written: the status handed to [WriteHeader], the two headers and
    the message of the JSON body. *)
Record response := Response {
  rs_status : Z;
  rs_content_type : option string;
  rs_retry_after : option string;
  rs_body : option string
}.

Definition isGRPCError (e : gerr) : bool :=
  match e with EGRPC _ _ => true | _ => false end.

Definition ErrInternalServerError : gerr := EPlain "internal server error".

Definition WriteError (statuscode : Z) (e : gerr) (retry : option string) : response :=
  {| rs_status := statuscode;
     rs_content_type := Some "application/json; charset=utf-8"%string;
     rs_retry_after := retry;
     rs_body := Some (error_msg e) |}.

(** [canceled] is [ctx.Err() == context.Canceled]. *)
Definition HandleErrorResponse (canceled : bool) (e : gerr) : response :=
  if canceled then
    {| rs_status := var_code ErrClientCancel; rs_content_type := None;
       rs_retry_after := None; rs_body := None |}
  else
    match as_api e with
    | Some code =>
        let retry := if bool_decide (e = EVar ErrCallTimeoutServerBusy) then Some "15"%string else None in
        WriteError code e retry
    | None =>
        if isGRPCError e then WriteError 500 ErrInternalServerError None
        else WriteError 500 ErrInternalServerError None
    end.

(** ** Lemmas *)

Lemma var_code_range v : 400 <= var_code v <= 599.
Proof. by destruct v. Qed.

Lemma IsFuncError_API e : (forall i, e = EFunc i -> IsAPIError i = true) ->
  IsFuncError e = true -> IsAPIError e = true.
Proof. destruct e; simpl; try done. intros H _. apply (H _ eq_refl). Qed.

(** What the client of the HTTP API sees of an error: with a cancelled
    context a bare 444; an API error gives its own code and message; every
    other error gives status 500 with the fixed text, so that no internal
    message is disclosed; and [Retry-After] is set exactly for the
    server-busy error. *)
Theorem HandleErrorResponse_spec canceled e :
  rs_status (HandleErrorResponse canceled e) =
    (if canceled then 444 else match as_api e with Some c => c | None => 500 end) /\
  rs_body (HandleErrorResponse canceled e) =
    (if canceled then None
     else Some (if IsAPIError e then error_msg e else "internal server error"%string)) /\
  (is_Some (rs_retry_after (HandleErrorResponse canceled e)) <->
     canceled = false /\ e = EVar ErrCallTimeoutServerBusy).
Proof.
  unfold HandleErrorResponse, IsAPIError.
  destruct canceled; [by split_and!; [..|split; [intros []|intros []]]|].
  destruct (as_api e) eqn:E; simpl.
  - split_and!; [done|done|]. case_bool_decide; [|split; [intros []|]]; naive_solver.
  - assert (e <> EVar ErrCallTimeoutServerBusy) by (intros ->; done).
    destruct (isGRPCError e); (split_and!; [done|done|split; [intros []|]; naive_solver]).
Qed.

(** A wrapper shows the code and text of its API error and keeps the root
    error for the log, but hides that the API error was a function's fault. *)
Lemma NewAPIErrorWrapper_spec a r :
  as_api (NewAPIErrorWrapper a r) = as_api a /\
  error_msg (NewAPIErrorWrapper a r) = error_msg a /\
  RootError (NewAPIErrorWrapper a r) = Some r /\
  IsFuncError (NewAPIErrorWrapper a r) = false.
Proof. done. Qed.
