(* ===== verification/Annotations.v ===== *)
(** * Annotations and configuration maps (src/api/models/annotations.go, config.go)

    The annotation map of an app, function or trigger - its validation, the
    merge of a change that can delete keys, its comparison - and the [Config]
    and [Headers] maps.  A value is the compacted JSON text it is stored as;
    the map holds pointers to values, and a pointer may be nil (a JSON
    [null] decodes to one), in which case the code that dereferences it
    panics.  The encoding and decoding of JSON itself is a parameter. *)
From S2P Require Import Prelude Errors.

(** [*annotationValue]: [None] is the nil pointer. *)
Abbreviation avalue := (option string).
Definition Annotations : Type := gomap avalue.

Definition maxAnnotationValueBytes : Z := 512.
Definition maxAnnotationKeyBytes : Z := 128.
Definition maxAnnotationsKeys : Z := 100.

Definition EmptyAnnotations : Annotations := None.

Definition quote : string := String (Ascii.ascii_of_nat 34) EmptyString.
Definition isEmptyValue (sval : string) : bool :=
  bool_decide (sval = (quote ++ quote)%string) || bool_decide (sval = "null"%string).

Definition deref {E} (v : avalue) : outcome E string :=
  match v with Some s => Ok s | None => Panic end.

(** [len] of a string: its bytes. *)
Definition strlen (s : string) : Z := Z.of_nat (String.length s).

(** [^[!-~]+$] *)
Definition validKey (key : string) : bool :=
  let bs := bytes_of_string key in
  match bs with [] => false | _ => forallb (fun c => (33 <=? c) && (c <=? 126)) bs end.

Definition validateField (key value : string) : outcome gerr unit :=
  guard! validKey key else EVar ErrInvalidAnnotationKey in
  guard! negb (maxAnnotationKeyBytes <? strlen key) else EVar ErrInvalidAnnotationKeyLength in
  guard! negb (isEmptyValue value) else EVar ErrInvalidAnnotationValue in
  guard! negb (maxAnnotationValueBytes <? strlen value) else EVar ErrInvalidAnnotationValueLength in
  Ok tt.

Section Annotations.
Context {MR : MapRange}.

(** The loop of [Subset] over the receiver's entries. *)
Fixpoint Subset_loop (other : Annotations) (l : list (string * avalue)) : outcome gerr bool :=
  match l with
  | [] => Ok true
  | (k1, v1) :: l =>
      match entries other !! k1 with
      | None | Some None => Ok false
      | Some (Some v2) =>
          let! s1 := deref v1 in
          if bool_decide (s1 = v2) then Subset_loop other l else Ok false
      end
  end.

Definition Annotations_Subset (m other : Annotations) : outcome gerr bool :=
  Subset_loop other (range (entries m)).

Definition Annotations_Equals (m other : Annotations) : outcome gerr bool :=
  if negb (map_len m =? map_len other) then Ok false else Annotations_Subset m other.

Fixpoint Validate_loop (l : list (string * avalue)) : outcome gerr unit :=
  match l with
  | [] => Ok tt
  | (k, v) :: l => let! s := deref v in let! _ := validateField k s in Validate_loop l
  end.

Definition Annotations_Validate (m : Annotations) : outcome gerr unit :=
  let! _ := Validate_loop (range (entries m)) in
  guard! negb (maxAnnotationsKeys <? map_len m) else EVar ErrTooManyAnnotationKeys in
  Ok tt.

Definition Annotations_clone (m : Annotations) : Annotations :=
  match m with
  | None => None
  | Some g => Some (foldl (fun newMd '(k, v) => <[k := v]> newMd) ∅ (range g))
  end.

Definition Annotations_Get (m : Annotations) (key : string) : outcome gerr (option string) :=
  match entries m !! key with
  | Some v => let! s := deref v in Ok (Some s)
  | None => Ok None
  end.

Definition Annotations_Without (m : Annotations) (key : string) : Annotations :=
  map_del key (Annotations_clone m).

(** [With]: the data is nil, the empty string, or something [json.Marshal]
    turns into bytes or an error; the parameter is that result. *)
Definition Annotations_With (m : Annotations) (key : string) (is_empty_data : bool)
    (jsonBytes : outcome gerr string) : outcome gerr Annotations :=
  guard! negb is_empty_data else EPlain "empty annotation value" in
  let! newVal := jsonBytes in
  let! _ := validateField key newVal in
  Ok (map_set key (Some newVal) (Annotations_clone m)).

Definition MergeChange_step (newMd : Annotations) (kv : string * avalue) : outcome gerr Annotations :=
  let! s := deref kv.2 in
  if isEmptyValue s then Ok (map_del kv.1 newMd)
  else Ok (map_set kv.1 kv.2 newMd).

Fixpoint MergeChange_loop (newMd : Annotations) (l : list (string * avalue)) : outcome gerr Annotations :=
  match l with
  | [] => Ok newMd
  | kv :: l => let! newMd := MergeChange_step newMd kv in MergeChange_loop newMd l
  end.

Definition MergeChange (m newVs : Annotations) : outcome gerr Annotations :=
  let! newMd := MergeChange_loop (Annotations_clone m) (range (entries newVs)) in
  if map_len newMd =? 0 then Ok EmptyAnnotations else Ok newMd.
End Annotations.

(** ** Config and Headers *)

Definition Config : Type := gomap string.
Definition Headers : Type := gomap (list string).

Section Config.
Context {MR : MapRange}.

(** [v2, ok := c2[k1]; !ok || v1 != v2] *)
Definition Config_Equals (c1 c2 : Config) : bool :=
  if negb (map_len c1 =? map_len c2) then false
  else forallb (fun '(k1, v1) =>
    match entries c2 !! k1 with Some v2 => bool_decide (v1 = v2) | None => false end)
    (range (entries c1)).

(** [v2s, _ := h2[k1]]: the empty slice when absent. *)
Definition Headers_Equals (h1 h2 : Headers) : bool :=
  if negb (map_len h1 =? map_len h2) then false
  else forallb (fun '(k1, v1s) =>
    let v2s := default [] (entries h2 !! k1) in
    (length v2s =? length v1s)%nat &&
    forallb (fun '(v1, v2) => bool_decide (v2 = v1)) (zip v1s v2s))
    (range (entries h1)).

(** The copy made by the [Clone] methods. *)
Definition Config_clone (c : Config) : Config :=
  match c with
  | None => None
  | Some g => Some (foldl (fun newMd '(k, v) => <[k := v]> newMd) ∅ (range g))
  end.

(** The loop of the [Update] methods: an empty value deletes the key. *)
Definition Config_update_step (c : Config) (kv : string * string) : Config :=
  if bool_decide (kv.2 = "")%string then map_del kv.1 c
  else map_set kv.1 kv.2 c.

Definition Config_update (c patch : Config) : Config :=
  match patch with
  | None => c
  | Some g =>
      foldl Config_update_step (match c with None => Some ∅ | Some _ => c end) (range g)
  end.
End Config.

(** ** Lemmas *)

Lemma entries_map_set {V} (k : string) (v : V) (m : gomap V) k' :
  entries (map_set k v m) !! k' = if decide (k = k') then Some v else entries m !! k'.
Proof. cbn. apply lookup_insert. Qed.

Lemma entries_map_del {V} (k : string) (m : gomap V) k' :
  entries (map_del k m) !! k' = if decide (k = k') then None else entries m !! k'.
Proof.
  unfold map_del. destruct m as [g|]; simpl; [apply lookup_delete|].
  rewrite lookup_empty. by destruct (decide (k = k')).
Qed.

Lemma map_len_zero {V} (m : gomap V) : (map_len m =? 0) = true <-> entries m = ∅.
Proof.
  unfold map_len. rewrite Z.eqb_eq. split; intros E.
  - apply map_size_empty_inv. lia.
  - by rewrite E, map_size_empty.
Qed.

#[export] Hint Rewrite @entries_map_set @entries_map_del : go.

Section AnnotationLemmas.
Context {MR : MapRange}.

Lemma range_clone {V} (g : gmap string V) :
  foldl (fun newMd '(k, v) => <[k := v]> newMd) ∅ (range g) = g.
Proof.
  apply map_eq. intros k.
  rewrite (foldl_lookup (fun (s : gmap string V) k => s !! k) _ (fun v _ => Some v)).
  - rewrite range_list_to_map. by destruct (g !! k).
  - intros s k' v k''. apply lookup_insert.
  - apply NoDup_range.
Qed.

Lemma Annotations_clone_eq m : Annotations_clone m = m.
Proof. destruct m; [|done]. simpl. by rewrite range_clone. Qed.

Lemma Config_clone_eq c : Config_clone c = c.
Proof. destruct c; [|done]. simpl. by rewrite range_clone. Qed.

(** No nil pointers. *)
Definition no_nil (m : Annotations) : Prop :=
  forall k v, entries m !! k = Some v -> is_Some v.

(** The update of one key by a change. *)
Definition merged (v : avalue) (old : option avalue) : option avalue :=
  match v with
  | Some s => if isEmptyValue s then None else Some v
  | None => old
  end.

Definition MergeChange_pure (newMd : Annotations) (kv : string * avalue) : Annotations :=
  match kv.2 with
  | Some s => if isEmptyValue s then map_del kv.1 newMd else map_set kv.1 kv.2 newMd
  | None => newMd
  end.

Lemma MergeChange_loop_ok l m :
  Forall (fun kv => is_Some kv.2) l -> MergeChange_loop m l = Ok (foldl MergeChange_pure m l).
Proof.
  intros Hl. revert m. induction Hl as [|[k v] l [s Hs] Hl IH]; intros m; [done|].
  simpl in Hs. subst v. cbn [MergeChange_loop foldl].
  assert (MergeChange_step m (k, Some s) = Ok (MergeChange_pure m (k, Some s))) as ->.
  { unfold MergeChange_step, MergeChange_pure. simpl. by destruct (isEmptyValue s). }
  apply IH.
Qed.

Lemma MergeChange_loop_panic l m :
  ~ Forall (fun kv => is_Some kv.2) l -> MergeChange_loop m l = Panic.
Proof.
  revert m. induction l as [|[k [s|]] l IH]; intros m Hl; [by destruct Hl|..]; [|done].
  cbn. unfold MergeChange_step. simpl.
  assert (~ Forall (fun kv : string * avalue => is_Some kv.2) l).
  { intros ?. apply Hl. constructor; [by eexists|done]. }
  by destruct (isEmptyValue s); simpl; apply IH.
Qed.

Lemma no_nil_range m : no_nil m <-> Forall (fun kv : string * avalue => is_Some kv.2) (range (entries m)).
Proof.
  rewrite Forall_forall. split.
  - intros Hm [k v] Hk. by eapply Hm, elem_of_range.
  - intros Hm k v Hk. by apply (Hm (k, v)), elem_of_range.
Qed.

Lemma MergeChange_pure_lookup m newVs k :
  entries (foldl MergeChange_pure m (range (entries newVs))) !! k =
  match entries newVs !! k with
  | Some v => merged v (entries m !! k)
  | None => entries m !! k
  end.
Proof.
  rewrite (foldl_lookup (fun (s : Annotations) k => entries s !! k) _ merged).
  - by rewrite range_list_to_map.
  - intros s k' v k''. unfold MergeChange_pure, merged. simpl.
    destruct v as [v|]; [|by destruct (decide (k' = k''))].
    destruct (isEmptyValue v); autorewrite with go; done.
  - apply NoDup_range.
Qed.

Lemma MergeChange_ok m newVs :
  no_nil newVs ->
  MergeChange m newVs =
    Ok (let r := foldl MergeChange_pure m (range (entries newVs)) in
        if map_len r =? 0 then EmptyAnnotations else r).
Proof.
  intros Hn. unfold MergeChange.
  rewrite MergeChange_loop_ok by (by apply no_nil_range). cbn [obind].
  rewrite Annotations_clone_eq. by destruct (map_len _ =? 0).
Qed.

Lemma MergeChange_lookup m newVs r k :
  MergeChange m newVs = Ok r ->
  entries r !! k =
  match entries newVs !! k with
  | Some (Some s) => if isEmptyValue s then None else Some (Some s)
  | _ => entries m !! k
  end.
Proof.
  intros Hr. destruct (decide (Forall (fun kv : string * avalue => is_Some kv.2) (range (entries newVs)))) as [Hf|Hf].
  - rewrite MergeChange_ok in Hr by (by apply no_nil_range).
    assert (entries r = entries (foldl MergeChange_pure m (range (entries newVs)))) as ->.
    { injection Hr as <-. destruct (map_len _ =? 0) eqn:E; [|done].
      apply map_len_zero in E. by rewrite E. }
    rewrite MergeChange_pure_lookup. by destruct (entries newVs !! k) as [[s|]|].
  - unfold MergeChange in Hr. by rewrite MergeChange_loop_panic in Hr.
Qed.
End AnnotationLemmas.

(** Merging a change into annotations: a key of the change with an empty
    value is deleted, one with a value is set, every other key keeps its
    value; an empty result is the nil map; and the merge panics exactly when
    the change holds a nil value (a JSON null).  This holds for every
    iteration order of the change. *)
Theorem MergeChange_spec {MR : MapRange} m newVs :
  (no_nil newVs -> exists r, MergeChange m newVs = Ok r /\
     (forall k, entries r !! k =
        match entries newVs !! k with
        | Some (Some s) => if isEmptyValue s then None else Some (Some s)
        | _ => entries m !! k
        end) /\
     (entries r = ∅ -> r = None)) /\
  (~ no_nil newVs -> MergeChange m newVs = Panic).
Proof.
  split.
  - intros Hn. pose proof (MergeChange_ok m newVs Hn) as E.
    eexists. split; [exact E|]. split; [intros k; by apply MergeChange_lookup|].
    simpl. destruct (map_len _ =? 0) eqn:Z0; [done|].
    intros E0. apply map_len_zero in E0. congruence.
  - intros Hn. unfold MergeChange. rewrite MergeChange_loop_panic; [done|].
    by rewrite <- no_nil_range.
Qed.

Lemma MergeChange_spec_witness :
  exists r, MergeChange (MR := canonical_range)
      (Some {[ "a"%string := Some "1"%string; "b"%string := Some "2"%string ]})
      (Some {[ "a"%string := Some "null"%string; "c"%string := Some "3"%string ]}) = Ok r.
Proof.
  destruct (MergeChange_spec (MR := canonical_range)
    (Some {[ "a"%string := Some "1"%string; "b"%string := Some "2"%string ]})
    (Some {[ "a"%string := Some "null"%string; "c"%string := Some "3"%string ]})) as [Hok _].
  destruct Hok as (r & Hr & _); [|by exists r].
  intros k v Hk. apply (elem_of_map_to_list (M := gmap string)) in Hk. revert Hk.
  vm_compute. intros Hk. repeat (apply elem_of_cons in Hk as [Hk|Hk]; [injection Hk as -> ->; eauto|]).
  by apply not_elem_of_nil in Hk.
Defined.

Section Comparison.
Context {MR : MapRange}.

(** Equal length and containment make two maps equal. *)
Lemma map_len_subseteq_eq {V} (m1 m2 : gomap V) :
  map_len m1 = map_len m2 -> entries m1 ⊆ entries m2 -> entries m1 = entries m2.
Proof.
  unfold map_len. intros Hl Hs. apply map_subseteq_size_eq; [done|lia].
Qed.

Lemma Config_Equals_spec c1 c2 : Config_Equals c1 c2 = true <-> entries c1 = entries c2.
Proof.
  unfold Config_Equals. destruct (map_len c1 =? map_len c2) eqn:El; simpl.
  - apply Z.eqb_eq in El. rewrite forallb_range. split.
    + intros Hp. apply map_len_subseteq_eq; [done|].
      apply map_subseteq_spec. intros k v Hk. specialize (Hp k v Hk). simpl in Hp.
      destruct (entries c2 !! k); [|done]. apply bool_decide_eq_true in Hp. by subst.
    + intros E k v Hk. simpl. rewrite <- E, Hk. by apply bool_decide_eq_true.
  - split; [done|]. intros E. unfold map_len in El. rewrite E in El.
    by rewrite Z.eqb_refl in El.
Qed.

Lemma Subset_loop_spec other l :
  Forall (fun kv : string * avalue => is_Some kv.2) l ->
  exists b, Subset_loop other l = Ok b /\
    (b = true <-> forall k v, (k, v) ∈ l -> entries other !! k = Some v).
Proof.
  induction 1 as [|[k v] l [s Hs] Hl IH]; cbn [Subset_loop].
  { exists true. split; [done|]. split; [|done]. intros _ k v Hk. by apply not_elem_of_nil in Hk. }
  simpl in Hs. subst v. destruct IH as (b & Hb & Hb').
  destruct (entries other !! k) as [[s2|]|] eqn:Ek; cbn [deref obind].
  2,3: exists false; split; [done|]; split; [done|];
    intros Hall; specialize (Hall k (Some s) ltac:(left)); congruence.
  case_bool_decide as Hs.
  - subst. exists b. split; [done|]. rewrite Hb'. split.
    + intros Hall k' v [E|Hk]%elem_of_cons; [by simplify_eq|auto].
    + intros Hall k' v Hk. apply Hall. by right.
  - exists false. split; [done|]. split; [done|].
    intros Hall. specialize (Hall k (Some s) ltac:(left)). congruence.
Qed.

Lemma Annotations_Equals_spec m other :
  no_nil m -> exists b, Annotations_Equals m other = Ok b /\ (b = true <-> entries m = entries other).
Proof.
  intros Hn. unfold Annotations_Equals. destruct (map_len m =? map_len other) eqn:El; simpl.
  - apply Z.eqb_eq in El. unfold Annotations_Subset.
    destruct (Subset_loop_spec other (range (entries m)) (proj1 (no_nil_range m) Hn)) as (b & Hb & Hb').
    exists b. split; [done|]. rewrite Hb'. split.
    + intros Hall. apply map_len_subseteq_eq; [done|]. apply map_subseteq_spec.
      intros k v Hk. by apply Hall, elem_of_range.
    + intros E k v Hk%elem_of_range. by rewrite <- E.
  - exists false. split; [done|]. split; [done|]. intros E. unfold map_len in El.
    by rewrite E, Z.eqb_refl in El.
Qed.

Lemma Config_update_lookup c g k :
  entries (Config_update c (Some g)) !! k =
  match g !! k with
  | Some v => if bool_decide (v = ""%string) then None else Some v
  | None => entries c !! k
  end.
Proof.
  unfold Config_update.
  rewrite (foldl_lookup (fun (s : Config) k => entries s !! k) _
    (fun v _ => if bool_decide (v = ""%string) then None else Some v)).
  - rewrite range_list_to_map. destruct c; done.
  - intros s k' v k''. unfold Config_update_step. simpl.
    case_bool_decide; autorewrite with go; done.
  - apply NoDup_range.
Qed.

(** *** Validation *)

Definition field_valid (k : string) (s : string) : bool :=
  validKey k && (strlen k <=? maxAnnotationKeyBytes) &&
  negb (isEmptyValue s) && (strlen s <=? maxAnnotationValueBytes).

Lemma validateField_ok k s : is_ok (validateField k s) = field_valid k s.
Proof.
  unfold validateField, field_valid. rewrite !Z.leb_antisym.
  destruct (validKey k), (maxAnnotationKeyBytes <? strlen k), (isEmptyValue s),
    (maxAnnotationValueBytes <? strlen s); done.
Qed.

Lemma validateField_no_panic k s : validateField k s <> Panic.
Proof.
  unfold validateField. by repeat case_match.
Qed.

Lemma Validate_loop_ok l :
  Forall (fun kv : string * avalue => is_Some kv.2) l ->
  Validate_loop l <> Panic /\
  (Validate_loop l = Ok tt <->
   forall k s, (k, Some s) ∈ l -> field_valid k s = true).
Proof.
  induction 1 as [|[k v] l [s Hs] Hl [IHp IH]]; cbn [Validate_loop].
  { split; [done|]. split; [|done]. intros _ k s Hk. by apply not_elem_of_nil in Hk. }
  simpl in Hs. subst v. cbn [deref obind].
  pose proof (validateField_ok k s) as Hok. pose proof (validateField_no_panic k s) as Hnp.
  destruct (validateField k s) as [[]|e|]; [..|done]; cbn [obind is_ok] in *.
  - split; [done|]. rewrite IH. split.
    + intros Hall k' s' [E|Hk]%elem_of_cons; [by simplify_eq|auto].
    + intros Hall k' s' Hk. apply Hall. by right.
  - split; [done|]. split; [done|]. intros Hall. specialize (Hall k s ltac:(left)). congruence.
Qed.
End Comparison.

Lemma Annotations_Validate_spec_ok {MR : MapRange} m :
  no_nil m ->
  Annotations_Validate m <> Panic /\
  (Annotations_Validate m = Ok tt <->
    map_len m <= maxAnnotationsKeys /\
    forall k s, entries m !! k = Some (Some s) -> field_valid k s = true).
Proof.
  intros Hn. unfold Annotations_Validate.
  destruct (Validate_loop_ok (range (entries m)) (proj1 (no_nil_range m) Hn)) as [Hp Hok].
  setoid_rewrite elem_of_range in Hok.
  destruct (Validate_loop _) as [[]|e|]; [..|done]; cbn [obind].
  - destruct (Z.ltb_spec maxAnnotationsKeys (map_len m)); simpl; (split; [done|]).
    + split; [done|lia].
    + split; [|done]. intros _. split; [lia|by apply Hok].
  - split; [done|]. split; [done|]. intros [_ Hall]. by apply Hok in Hall.
Qed.

(** Validation of annotations without nil values never panics, and accepts them
    exactly when there are at most 100 keys, each a non-empty text of at most
    128 printable ASCII bytes with a value that is not the empty string or
    null and at most 512 bytes long, in whatever order the map is visited. *)
Theorem Annotations_Validate_spec {MR : MapRange} m :
  no_nil m ->
  Annotations_Validate m <> Panic /\
  (Annotations_Validate m = Ok tt <->
    map_len m <= maxAnnotationsKeys /\
    forall k s, entries m !! k = Some (Some s) -> field_valid k s = true).
Proof. apply Annotations_Validate_spec_ok. Qed.

Lemma Annotations_Validate_spec_witness :
  Annotations_Validate (MR := canonical_range) (Some {[ "a key"%string := Some "1"%string ]}) <> Ok tt.
Proof.
  intros H. apply (Annotations_Validate_spec (MR := canonical_range)) in H.
  - destruct H as [_ H].
    specialize (H "a key"%string "1"%string ltac:(vm_compute; reflexivity)).
    vm_compute in H. discriminate.
  - intros k v. cbn. intros Hk. apply lookup_singleton_Some in Hk as [_ <-]. by eexists.
Defined.
