(* ===== verification/Models.v ===== *)
(** * Apps, functions and triggers (src/api/models/app.go, fn.go, trigger.go)

    The resources of the API with their validation, comparison and the
    [Update] methods that apply a patch.  A time is a number of nanoseconds,
    0 the zero time; [now] is the reading of the clock.  [SyslogURL] is a
    pointer: it is compared by address. *)
From S2P Require Import Prelude Errors Annotations.

(** ** Text: runes, letters, escaping *)

(** [for _, c := range s]: the code points of a byte string, U+FFFD for each
    byte that does not start a well-formed sequence. *)
Definition cont (lo hi c : Z) : bool := (lo <=? c) && (c <=? hi).
Definition rune_error : Z := 65533.

(** Decode one rune: the code point and the bytes it takes. *)
Definition decode_rune (l : list Z) : Z * nat :=
  match l with
  | [] => (rune_error, 0%nat)
  | b0 :: r =>
      if b0 <? 128 then (b0, 1%nat)
      else if cont 194 223 b0 then
        match r with
        | b1 :: _ => if cont 128 191 b1 then ((b0 - 192) * 64 + (b1 - 128), 2%nat) else (rune_error, 1%nat)
        | [] => (rune_error, 1%nat)
        end
      else if cont 224 239 b0 then
        match r with
        | b1 :: b2 :: _ =>
            if cont (if b0 =? 224 then 160 else 128) (if b0 =? 237 then 159 else 191) b1 && cont 128 191 b2
            then ((b0 - 224) * 4096 + (b1 - 128) * 64 + (b2 - 128), 3%nat) else (rune_error, 1%nat)
        | _ => (rune_error, 1%nat)
        end
      else if cont 240 244 b0 then
        match r with
        | b1 :: b2 :: b3 :: _ =>
            if cont (if b0 =? 240 then 144 else 128) (if b0 =? 244 then 143 else 191) b1 &&
               cont 128 191 b2 && cont 128 191 b3
            then ((b0 - 240) * 262144 + (b1 - 128) * 4096 + (b2 - 128) * 64 + (b3 - 128), 4%nat)
            else (rune_error, 1%nat)
        | _ => (rune_error, 1%nat)
        end
      else (rune_error, 1%nat)
  end.

(** A rune takes at least one byte: the length is enough fuel. *)
Fixpoint decode_runes (fuel : nat) (l : list Z) : list Z :=
  match fuel, l with
  | S fuel, _ :: _ => let (r, n) := decode_rune l in r :: decode_runes fuel (drop n l)
  | _, _ => []
  end.
Definition runes (s : string) : list Z :=
  let bs := bytes_of_string s in decode_runes (length bs) bs.

(** [unicode.IsLetter] and [unicode.IsNumber]: the Latin-1 range in full; the
    tables above it are parameters. *)
Class UnicodeTables := { letter_table : Z -> bool; number_table : Z -> bool }.

Definition in_range (lo hi c : Z) : bool := (lo <=? c) && (c <=? hi).

Section Unicode.
Context {U : UnicodeTables}.

Definition IsLetter (c : Z) : bool :=
  if c <=? 255 then
    in_range 65 90 c || in_range 97 122 c || (c =? 170) || (c =? 181) || (c =? 186) ||
    in_range 192 214 c || in_range 216 246 c || in_range 248 255 c
  else letter_table c.

Definition IsNumber (c : Z) : bool :=
  if c <=? 255 then
    in_range 48 57 c || (c =? 178) || (c =? 179) || (c =? 185) || in_range 188 190 c
  else number_table c.

(** [unicode.IsLetter(c) || unicode.IsNumber(c) || c == '_' || c == '-'] *)
Definition name_rune (c : Z) : bool := IsLetter c || IsNumber c || (c =? 95) || (c =? 45).
End Unicode.

(** [url.PathEscape]: what a path segment may hold unescaped. *)
Definition path_unescaped (c : Z) : bool :=
  in_range 48 57 c || in_range 65 90 c || in_range 97 122 c ||
  (c =? 45) || (c =? 95) || (c =? 46) || (c =? 126) ||
  (c =? 36) || (c =? 38) || (c =? 43) || (c =? 58) || (c =? 61) || (c =? 64).

Definition upperhex (d : Z) : Z := if d <? 10 then 48 + d else 55 + d.
Fixpoint PathEscape (l : list Z) : list Z :=
  match l with
  | [] => []
  | c :: l =>
      if path_unescaped c then c :: PathEscape l
      else 37 :: upperhex (c / 16) :: upperhex (c mod 16) :: PathEscape l
  end.

(** ** Data *)

(** A pointer to an immutable string: its address and what it points to. *)
Definition strptr : Type := nat * string.
Definition strptr_eq (p q : option strptr) : bool :=
  match p, q with
  | None, None => true
  | Some p, Some q => (p.1 =? q.1)%nat
  | _, _ => false
  end.

Record App := MkApp {
  app_ID : string;
  app_Name : string;
  app_Config : Config;
  app_Annotations : Annotations;
  app_SyslogURL : option strptr;
  app_CreatedAt : Z;
  app_UpdatedAt : Z
}.

Record Fn := MkFn {
  fn_ID : string;
  fn_Name : string;
  fn_AppID : string;
  fn_Image : string;
  fn_Memory : Z;        (* uint64, MB *)
  fn_Timeout : Z;       (* int32, seconds *)
  fn_IdleTimeout : Z;   (* int32, seconds *)
  fn_Config : Config;
  fn_Annotations : Annotations;
  fn_CreatedAt : Z;
  fn_UpdatedAt : Z
}.

Record Trigger := MkTrigger {
  tr_ID : string;
  tr_Name : string;
  tr_AppID : string;
  tr_FnID : string;
  tr_CreatedAt : Z;
  tr_UpdatedAt : Z;
  tr_Type : string;
  tr_Source : string;
  tr_Annotations : Annotations
}.

Definition MaxLengthAppName : Z := 255.
Definition MaxLengthFnName : Z := 255.
Definition MaxLengthTriggerName : Z := 255.
Definition DefaultTimeout : Z := 30.
Definition DefaultIdleTimeout : Z := 30.
Definition DefaultMemory : Z := 128.

(** The limits are variables of the package. *)
Record Limits := MkLimits { MaxMemory : Z; MaxTimeout : Z; MaxIdleTimeout : Z }.
Definition default_limits : Limits :=
  {| MaxMemory := 8192; MaxTimeout := 300; MaxIdleTimeout := 3600 |}.

Definition TriggerTypeHTTP : string := "http".
Definition triggerTypes : list string := [TriggerTypeHTTP].
Definition ValidTriggerType (a : string) : bool :=
  existsb (fun b => bool_decide (b = a)) triggerTypes.


(** ** Apps *)
Section Resources.
Context {MR : MapRange} {U : UnicodeTables}.
(** [url.Parse(strings.TrimSpace(s))]: the scheme, or the text of the error. *)
Context (url_scheme : string -> outcome string string).
Context (lim : Limits).

(** The rune loop of the [ValidateName] methods of apps and triggers. *)
Definition name_runes_ok (name : string) : bool := forallb name_rune (runes name).

Definition App_ValidateName (a : App) : outcome gerr unit :=
  guard! negb (streq (app_Name a) "") else EVar ErrMissingName in
  guard! negb (MaxLengthAppName <? strlen (app_Name a)) else EVar ErrAppsTooLongName in
  guard! name_runes_ok (app_Name a) else EVar ErrAppsInvalidName in
  Ok tt.

Definition syslog_schemes : list string := ["udp"; "tcp"; "unix"; "unixgram"; "tcp+tls"]%string.

(** The error text of the syslog check, [None] when the URL is accepted. *)
Definition syslog_err (u : string) : option string :=
  match url_scheme u with
  | Ok sch =>
      if existsb (streq sch) syslog_schemes then None
      else Some "invalid scheme, only [tcp, udp, unix, unixgram, tcp+tls] are supported"%string
  | Err e => Some e
  | Panic => None
  end.

Definition App_Validate (a : App) : outcome gerr unit :=
  let! _ := App_ValidateName a in
  let! _ := Annotations_Validate (app_Annotations a) in
  match app_SyslogURL a with
  | Some p =>
      if streq p.2 "" then Ok tt
      else match syslog_err p.2 with
           | Some e =>
               Err (EInvalidSyslog ("invalid syslog url: " ++ quote ++ p.2 ++ quote ++ " " ++ e)%string)
           | None => Ok tt
           end
  | None => Ok tt
  end.

Definition App_Clone (a : App) : App :=
  {| app_ID := app_ID a; app_Name := app_Name a; app_Config := Config_clone (app_Config a);
     app_Annotations := app_Annotations a; app_SyslogURL := app_SyslogURL a;
     app_CreatedAt := app_CreatedAt a; app_UpdatedAt := app_UpdatedAt a |}.

Definition App_Equals (a1 a2 : App) : outcome gerr bool :=
  if streq (app_ID a1) (app_ID a2) && streq (app_Name a1) (app_Name a2) &&
     Config_Equals (app_Config a1) (app_Config a2) &&
     strptr_eq (app_SyslogURL a1) (app_SyslogURL a2)
  then Annotations_Equals (app_Annotations a1) (app_Annotations a2)
  else Ok false.

Definition App_EqualsWithAnnotationSubset (a1 a2 : App) : outcome gerr bool :=
  if streq (app_ID a1) (app_ID a2) && streq (app_Name a1) (app_Name a2) &&
     Config_Equals (app_Config a1) (app_Config a2) &&
     strptr_eq (app_SyslogURL a1) (app_SyslogURL a2)
  then Annotations_Subset (app_Annotations a1) (app_Annotations a2)
  else Ok false.

Definition App_Update (a patch : App) (now : Z) : outcome gerr App :=
  let original := App_Clone a in
  let cfg := Config_update (app_Config a) (app_Config patch) in
  let syslog := match app_SyslogURL patch with
                | Some p => if streq p.2 "" then None else Some p
                | None => app_SyslogURL a
                end in
  let! ann := MergeChange (app_Annotations a) (app_Annotations patch) in
  let a' := {| app_ID := app_ID a; app_Name := app_Name a; app_Config := cfg;
               app_Annotations := ann; app_SyslogURL := syslog;
               app_CreatedAt := app_CreatedAt a; app_UpdatedAt := app_UpdatedAt a |} in
  let! eq := App_Equals a' original in
  if negb eq
  then Ok {| app_ID := app_ID a'; app_Name := app_Name a'; app_Config := app_Config a';
             app_Annotations := app_Annotations a'; app_SyslogURL := app_SyslogURL a';
             app_CreatedAt := app_CreatedAt a'; app_UpdatedAt := now |}
  else Ok a'.

(** ** Functions *)

Definition Fn_ValidateName (f : Fn) : outcome gerr unit :=
  guard! negb (streq (fn_Name f) "") else EVar ErrFnsMissingName in
  guard! negb (MaxLengthFnName <? strlen (fn_Name f)) else EVar ErrFnsTooLongName in
  guard! bool_decide (PathEscape (bytes_of_string (fn_Name f)) = bytes_of_string (fn_Name f))
    else EVar ErrFnsInvalidName in
  Ok tt.

Definition Fn_Validate (f : Fn) : outcome gerr unit :=
  let! _ := Fn_ValidateName f in
  guard! negb (streq (fn_AppID f) "") else EVar ErrFnsMissingAppID in
  guard! negb (streq (fn_Image f) "") else EVar ErrFnsMissingImage in
  guard! negb ((fn_Timeout f <=? 0) || (MaxTimeout lim <? fn_Timeout f)) else EVar ErrFnsInvalidTimeout in
  guard! negb ((fn_IdleTimeout f <=? 0) || (MaxIdleTimeout lim <? fn_IdleTimeout f))
    else EVar ErrFnsInvalidIdleTimeout in
  guard! negb ((fn_Memory f <? 1) || (MaxMemory lim <? fn_Memory f)) else EVar ErrInvalidMemory in
  Annotations_Validate (fn_Annotations f).

Definition Fn_SetDefaults (f : Fn) (now : Z) : Fn :=
  {| fn_ID := fn_ID f; fn_Name := fn_Name f; fn_AppID := fn_AppID f; fn_Image := fn_Image f;
     fn_Memory := if fn_Memory f =? 0 then DefaultMemory else fn_Memory f;
     fn_Timeout := if fn_Timeout f =? 0 then DefaultTimeout else fn_Timeout f;
     fn_IdleTimeout := if fn_IdleTimeout f =? 0 then DefaultIdleTimeout else fn_IdleTimeout f;
     fn_Config := match fn_Config f with None => Some ∅ | c => c end;
     fn_Annotations := fn_Annotations f;
     fn_CreatedAt := if fn_CreatedAt f =? 0 then now else fn_CreatedAt f;
     fn_UpdatedAt := if fn_UpdatedAt f =? 0 then now else fn_UpdatedAt f |}.

Definition Fn_Clone (f : Fn) : Fn :=
  {| fn_ID := fn_ID f; fn_Name := fn_Name f; fn_AppID := fn_AppID f; fn_Image := fn_Image f;
     fn_Memory := fn_Memory f; fn_Timeout := fn_Timeout f; fn_IdleTimeout := fn_IdleTimeout f;
     fn_Config := Config_clone (fn_Config f);
     fn_Annotations := Annotations_clone (fn_Annotations f);
     fn_CreatedAt := fn_CreatedAt f; fn_UpdatedAt := fn_UpdatedAt f |}.

(** The scalar fields compared before the maps. *)
Definition Fn_Equals_fields (f1 f2 : Fn) : bool :=
  streq (fn_ID f1) (fn_ID f2) && streq (fn_Name f1) (fn_Name f2) &&
  streq (fn_AppID f1) (fn_AppID f2) && streq (fn_Image f1) (fn_Image f2) &&
  (fn_Memory f1 =? fn_Memory f2) && (fn_Timeout f1 =? fn_Timeout f2) &&
  (fn_IdleTimeout f1 =? fn_IdleTimeout f2) && Config_Equals (fn_Config f1) (fn_Config f2).

Definition Fn_Equals (f1 f2 : Fn) : outcome gerr bool :=
  if Fn_Equals_fields f1 f2
  then Annotations_Equals (fn_Annotations f1) (fn_Annotations f2)
  else Ok false.

Definition Fn_EqualsWithAnnotationSubset (f1 f2 : Fn) : outcome gerr bool :=
  if Fn_Equals_fields f1 f2
  then Annotations_Subset (fn_Annotations f1) (fn_Annotations f2)
  else Ok false.

Definition Fn_set_UpdatedAt (f : Fn) (now : Z) : Fn :=
  {| fn_ID := fn_ID f; fn_Name := fn_Name f; fn_AppID := fn_AppID f; fn_Image := fn_Image f;
     fn_Memory := fn_Memory f; fn_Timeout := fn_Timeout f; fn_IdleTimeout := fn_IdleTimeout f;
     fn_Config := fn_Config f; fn_Annotations := fn_Annotations f;
     fn_CreatedAt := fn_CreatedAt f; fn_UpdatedAt := now |}.

Definition Fn_Update (f patch : Fn) (now : Z) : outcome gerr Fn :=
  let original := Fn_Clone f in
  let! ann := MergeChange (fn_Annotations f) (fn_Annotations patch) in
  let f' :=
    {| fn_ID := fn_ID f; fn_Name := fn_Name f; fn_AppID := fn_AppID f;
       fn_Image := if streq (fn_Image patch) "" then fn_Image f else fn_Image patch;
       fn_Memory := if fn_Memory patch =? 0 then fn_Memory f else fn_Memory patch;
       fn_Timeout := if fn_Timeout patch =? 0 then fn_Timeout f else fn_Timeout patch;
       fn_IdleTimeout := if fn_IdleTimeout patch =? 0 then fn_IdleTimeout f else fn_IdleTimeout patch;
       fn_Config := Config_update (fn_Config f) (fn_Config patch);
       fn_Annotations := ann;
       fn_CreatedAt := fn_CreatedAt f; fn_UpdatedAt := fn_UpdatedAt f |} in
  let! eq := Fn_Equals f' original in
  Ok (if negb eq then Fn_set_UpdatedAt f' now else f').

(** ** Triggers *)

Definition Trigger_ValidateName (t : Trigger) : outcome gerr unit :=
  guard! negb (streq (tr_Name t) "") else EVar ErrTriggerMissingName in
  guard! negb (MaxLengthTriggerName <? strlen (tr_Name t)) else EVar ErrTriggerTooLongName in
  guard! name_runes_ok (tr_Name t) else EVar ErrTriggerInvalidName in
  Ok tt.

Definition Trigger_Validate (t : Trigger) : outcome gerr unit :=
  guard! negb (streq (tr_AppID t) "") else EVar ErrTriggerMissingAppID in
  let! _ := Trigger_ValidateName t in
  guard! negb (streq (tr_FnID t) "") else EVar ErrTriggerMissingFnID in
  guard! ValidTriggerType (tr_Type t) else EVar ErrTriggerTypeUnknown in
  guard! negb (streq (tr_Source t) "") else EVar ErrTriggerMissingSource in
  guard! String.prefix "/" (tr_Source t) else EVar ErrTriggerMissingSourcePrefix in
  Annotations_Validate (tr_Annotations t).

Definition Trigger_Clone (t : Trigger) : Trigger := t.

Definition Trigger_Equals_fields (t t2 : Trigger) : bool :=
  streq (tr_ID t) (tr_ID t2) && streq (tr_Name t) (tr_Name t2) &&
  streq (tr_AppID t) (tr_AppID t2) && streq (tr_FnID t) (tr_FnID t2) &&
  streq (tr_Type t) (tr_Type t2) && streq (tr_Source t) (tr_Source t2).

Definition Trigger_Equals (t t2 : Trigger) : outcome gerr bool :=
  if Trigger_Equals_fields t t2
  then Annotations_Equals (tr_Annotations t) (tr_Annotations t2)
  else Ok false.

Definition Trigger_EqualsWithAnnotationSubset (t t2 : Trigger) : outcome gerr bool :=
  if Trigger_Equals_fields t t2
  then Annotations_Subset (tr_Annotations t) (tr_Annotations t2)
  else Ok false.

Definition pick (patch old : string) : string := if streq patch "" then old else patch.

Definition Trigger_Update (t patch : Trigger) (now : Z) : outcome gerr Trigger :=
  let original := Trigger_Clone t in
  let! ann := MergeChange (tr_Annotations t) (tr_Annotations patch) in
  let t' :=
    {| tr_ID := tr_ID t; tr_Name := pick (tr_Name patch) (tr_Name t);
       tr_AppID := pick (tr_AppID patch) (tr_AppID t); tr_FnID := pick (tr_FnID patch) (tr_FnID t);
       tr_CreatedAt := tr_CreatedAt t; tr_UpdatedAt := tr_UpdatedAt t;
       tr_Type := tr_Type t; tr_Source := pick (tr_Source patch) (tr_Source t);
       tr_Annotations := ann |} in
  let! eq := Trigger_Equals t' original in
  Ok (if negb eq then
    {| tr_ID := tr_ID t'; tr_Name := tr_Name t'; tr_AppID := tr_AppID t'; tr_FnID := tr_FnID t';
       tr_CreatedAt := tr_CreatedAt t'; tr_UpdatedAt := now; tr_Type := tr_Type t';
       tr_Source := tr_Source t'; tr_Annotations := tr_Annotations t' |}
  else t').
End Resources.

(** ** Lemmas *)

Lemma strptr_eq_refl p : strptr_eq p p = true.
Proof. destruct p; [apply Nat.eqb_refl|done]. Qed.
#[export] Hint Rewrite streq_refl strptr_eq_refl : go.

Lemma PathEscape_length l : (length l <= length (PathEscape l))%nat /\
  (length (PathEscape l) = length l -> forallb path_unescaped l = true).
Proof.
  induction l as [|c l [IH1 IH2]]; simpl; [done|].
  destruct (path_unescaped c); simpl; split; try lia. intros H. apply IH2. lia.
Qed.

Lemma PathEscape_id l : PathEscape l = l <-> forallb path_unescaped l = true.
Proof.
  split.
  - intros H. apply PathEscape_length. by rewrite H.
  - induction l as [|c l IH]; simpl; [done|]. destruct (path_unescaped c); simpl; [|done].
    intros H. by rewrite IH.
Qed.

(** On ASCII text the runes are the bytes. *)
Lemma decode_runes_ascii fuel l :
  forallb (fun c => c <? 128) l = true -> (length l <= fuel)%nat -> decode_runes fuel l = l.
Proof.
  revert l. induction fuel as [|fuel IH]; intros [|c l] Ha Hl; simpl in *; try (done || lia).
  apply andb_prop in Ha as [Hc Ha]. rewrite Hc. simpl. f_equal. apply IH; [done|lia].
Qed.

Lemma runes_ascii s :
  forallb (fun c => c <? 128) (bytes_of_string s) = true -> runes s = bytes_of_string s.
Proof. intros H. unfold runes. by apply decode_runes_ascii. Qed.

(** The ASCII letters, digits, underscore and dash. *)
Definition ascii_name_char (c : Z) : bool :=
  in_range 65 90 c || in_range 97 122 c || in_range 48 57 c || (c =? 95) || (c =? 45).

Lemma name_rune_ascii {U : UnicodeTables} c : is_u8 c -> c < 128 -> name_rune c = ascii_name_char c.
Proof.
  intros Hc Hlt. unfold name_rune, IsLetter, IsNumber, ascii_name_char, in_range.
  assert ((c <=? 255) = true) as -> by lia.
  assert ((c =? 170) = false) as -> by lia. assert ((c =? 181) = false) as -> by lia.
  assert ((c =? 186) = false) as -> by lia. assert ((192 <=? c) = false) as -> by lia.
  assert ((216 <=? c) = false) as -> by lia. assert ((248 <=? c) = false) as -> by lia.
  assert ((c =? 178) = false) as -> by lia. assert ((c =? 179) = false) as -> by lia.
  assert ((c =? 185) = false) as -> by lia. assert ((188 <=? c) = false) as -> by lia.
  simpl. rewrite !orb_false_r. done.
Qed.

Lemma byte_of_ascii_range c : is_u8 (byte_of_ascii c).
Proof.
  unfold byte_of_ascii, is_u8, w8. pose proof (Ascii.nat_ascii_bounded c). lia.
Qed.

Lemma bytes_of_string_range s : Forall is_u8 (bytes_of_string s).
Proof.
  apply Forall_fmap, Forall_true. intros c. apply byte_of_ascii_range.
Qed.

Lemma name_runes_ok_ascii {U : UnicodeTables} s :
  forallb (fun c => c <? 128) (bytes_of_string s) = true ->
  name_runes_ok s = forallb ascii_name_char (bytes_of_string s).
Proof.
  intros Ha. unfold name_runes_ok. rewrite runes_ascii by done.
  pose proof (bytes_of_string_range s) as Hb.
  induction (bytes_of_string s) as [|c l IH]; [done|].
  simpl in *. apply andb_prop in Ha as [Hc Ha]. inversion_clear Hb.
  rewrite name_rune_ascii, IH by (done || lia). done.
Qed.

Lemma if_negb {A} (b : bool) (x y : A) : (if negb b then x else y) = if b then y else x.
Proof. by destruct b. Qed.

Section ResourceLemmas.
Context {MR : MapRange} {U : UnicodeTables} (lim : Limits).

Lemma MergeChange_total m newVs : no_nil newVs -> exists r, MergeChange m newVs = Ok r.
Proof. intros Hn. eexists. by apply MergeChange_ok. Qed.

Lemma MergeChange_no_nil m newVs r :
  no_nil m -> no_nil newVs -> MergeChange m newVs = Ok r -> no_nil r.
Proof.
  intros Hm Hn Hr k v. rewrite (MergeChange_lookup _ _ _ _ Hr).
  destruct (entries newVs !! k) as [[s|]|] eqn:E; [|by apply Hm|by apply Hm].
  destruct (isEmptyValue s); [done|]. intros. simplify_eq. by eexists.
Qed.

(** Same user-visible contents: the timestamps are left out, and a nil map
    counts as an empty one. *)
Definition fn_same (f g : Fn) : Prop :=
  fn_ID f = fn_ID g /\ fn_Name f = fn_Name g /\ fn_AppID f = fn_AppID g /\
  fn_Image f = fn_Image g /\ fn_Memory f = fn_Memory g /\ fn_Timeout f = fn_Timeout g /\
  fn_IdleTimeout f = fn_IdleTimeout g /\ entries (fn_Config f) = entries (fn_Config g) /\
  entries (fn_Annotations f) = entries (fn_Annotations g).

Lemma Fn_Equals_spec f g : no_nil (fn_Annotations f) ->
  exists b, Fn_Equals f g = Ok b /\ (b = true <-> fn_same f g).
Proof.
  intros Hn. unfold Fn_Equals, fn_same.
  destruct (Fn_Equals_fields f g) eqn:E; unfold Fn_Equals_fields in E.
  - rewrite !andb_true_iff, !streq_spec, !Z.eqb_eq, Config_Equals_spec in E.
    destruct (Annotations_Equals_spec (fn_Annotations f) (fn_Annotations g) Hn) as (b & Hb & Hb').
    exists b. rewrite Hb'. naive_solver.
  - exists false. split; [done|]. split; [done|].
    intros Hs. rewrite <- not_true_iff_false in E. destruct E.
    rewrite !andb_true_iff, !streq_spec, !Z.eqb_eq, Config_Equals_spec. naive_solver.
Qed.

Lemma Fn_Clone_eq f : Fn_Clone f = f.
Proof.
  destruct f. unfold Fn_Clone. simpl. by rewrite Config_clone_eq, Annotations_clone_eq.
Qed.

Definition trigger_same (t u : Trigger) : Prop :=
  tr_ID t = tr_ID u /\ tr_Name t = tr_Name u /\ tr_AppID t = tr_AppID u /\
  tr_FnID t = tr_FnID u /\ tr_Type t = tr_Type u /\ tr_Source t = tr_Source u /\
  entries (tr_Annotations t) = entries (tr_Annotations u).

Lemma Trigger_Equals_spec t u : no_nil (tr_Annotations t) ->
  exists b, Trigger_Equals t u = Ok b /\ (b = true <-> trigger_same t u).
Proof.
  intros Hn. unfold Trigger_Equals, trigger_same.
  destruct (Trigger_Equals_fields t u) eqn:E; unfold Trigger_Equals_fields in E.
  - rewrite !andb_true_iff, !streq_spec in E.
    destruct (Annotations_Equals_spec (tr_Annotations t) (tr_Annotations u) Hn) as (b & Hb & Hb').
    exists b. rewrite Hb'. naive_solver.
  - exists false. split; [done|]. split; [done|].
    intros Hs. rewrite <- not_true_iff_false in E. destruct E.
    rewrite !andb_true_iff, !streq_spec. naive_solver.
Qed.

Lemma Fn_ValidateName_ok f :
  is_ok (Fn_ValidateName f) = true <->
  fn_Name f <> ""%string /\ strlen (fn_Name f) <= MaxLengthFnName /\
  forallb path_unescaped (bytes_of_string (fn_Name f)) = true.
Proof.
  unfold Fn_ValidateName. rewrite <- PathEscape_id.
  destruct (streq (fn_Name f) "") eqn:En; simpl.
  { apply streq_spec in En. naive_solver. }
  assert (fn_Name f <> ""%string) by (intros E; apply streq_spec in E; congruence).
  destruct (Z.ltb_spec MaxLengthFnName (strlen (fn_Name f))); simpl; [split; [done|lia]|].
  case_bool_decide; simpl; naive_solver.
Qed.
End ResourceLemmas.

(** Updating a function with a patch succeeds when neither holds a nil
    annotation; id, name, app and creation time stay; image, memory and the
    timeouts are taken from the patch where it has a non-zero value; a config
    or annotation key is deleted by an empty value, set by another one, and
    kept otherwise; and [UpdatedAt] becomes the current time exactly when one
    of these visible fields changed. *)
Theorem Fn_Update_spec {MR : MapRange} f patch now :
  no_nil (fn_Annotations f) -> no_nil (fn_Annotations patch) ->
  exists f', Fn_Update f patch now = Ok f' /\
    (fn_ID f' = fn_ID f /\ fn_Name f' = fn_Name f /\ fn_AppID f' = fn_AppID f /\
     fn_CreatedAt f' = fn_CreatedAt f) /\
    fn_Image f' = (if streq (fn_Image patch) "" then fn_Image f else fn_Image patch) /\
    fn_Memory f' = (if fn_Memory patch =? 0 then fn_Memory f else fn_Memory patch) /\
    fn_Timeout f' = (if fn_Timeout patch =? 0 then fn_Timeout f else fn_Timeout patch) /\
    fn_IdleTimeout f' = (if fn_IdleTimeout patch =? 0 then fn_IdleTimeout f else fn_IdleTimeout patch) /\
    (forall k, entries (fn_Config f') !! k =
       match entries (fn_Config patch) !! k with
       | Some v => if streq v "" then None else Some v
       | None => entries (fn_Config f) !! k
       end) /\
    (forall k, entries (fn_Annotations f') !! k =
       match entries (fn_Annotations patch) !! k with
       | Some (Some s) => if isEmptyValue s then None else Some (Some s)
       | _ => entries (fn_Annotations f) !! k
       end) /\
    (fn_same f' f -> fn_UpdatedAt f' = fn_UpdatedAt f) /\
    (~ fn_same f' f -> fn_UpdatedAt f' = now).
Proof.
  intros Hf Hp. unfold Fn_Update. rewrite Fn_Clone_eq.
  destruct (MergeChange_total (fn_Annotations f) (fn_Annotations patch) Hp) as [ann Hann].
  rewrite Hann. cbn [obind].
  match goal with |- context [Fn_Equals ?f' f] => set (g := f') end.
  assert (Hg : no_nil (fn_Annotations g)) by exact (MergeChange_no_nil _ _ _ Hf Hp Hann).
  destruct (Fn_Equals_spec g f Hg) as (b & -> & Hb). cbn [obind].
  assert (Hcfg : forall k, entries (fn_Config g) !! k =
    match entries (fn_Config patch) !! k with
    | Some v => if streq v "" then None else Some v
    | None => entries (fn_Config f) !! k end).
  { intros k. cbn [fn_Config g]. destruct (fn_Config patch) as [c|]; [apply Config_update_lookup|done]. }
  eexists. split; [reflexivity|].
  destruct b; cbn [negb]; split_and!; try reflexivity;
    try exact Hcfg; try (intros k; exact (MergeChange_lookup _ _ _ k Hann)).
  - intros Hn. destruct Hn. by apply Hb.
  - intros Hs. change (fn_same g f) in Hs. apply Hb in Hs. done.
Qed.

Lemma Fn_Update_spec_witness :
  exists f', Fn_Update (MR := canonical_range)
    (MkFn "f" "n" "a" "i" 128 30 30 (Some {[ "k"%string := "v"%string ]}) None 5 5)
    (MkFn "" "" "" "j" 0 0 60 (Some {[ "k"%string := ""%string ]}) None 0 0) 9 = Ok f' /\
    fn_IdleTimeout f' = 60.
Proof.
  destruct (Fn_Update_spec (MR := canonical_range)
    (MkFn "f" "n" "a" "i" 128 30 30 (Some {[ "k"%string := "v"%string ]}) None 5 5)
    (MkFn "" "" "" "j" 0 0 60 (Some {[ "k"%string := ""%string ]}) None 0 0) 9) as (f' & Hf & H).
  - intros k v Hk. cbn in Hk. by rewrite lookup_empty in Hk.
  - intros k v Hk. cbn in Hk. by rewrite lookup_empty in Hk.
  - exists f'. split; [exact Hf|apply H].
Defined.

(** A function without nil annotations passes validation exactly when its name
    is non-empty, at most 255 bytes long and unchanged by path escaping, it
    has an app and an image, its timeouts and memory lie strictly above 0 and
    within the configured limits, and its annotations are valid; validation
    never panics. *)
Theorem Fn_Validate_spec {MR : MapRange} (lim : Limits) f :
  no_nil (fn_Annotations f) ->
  Fn_Validate lim f <> Panic /\
  (Fn_Validate lim f = Ok tt <->
    (fn_Name f <> ""%string /\ strlen (fn_Name f) <= MaxLengthFnName /\
     forallb path_unescaped (bytes_of_string (fn_Name f)) = true) /\
    fn_AppID f <> ""%string /\ fn_Image f <> ""%string /\
    0 < fn_Timeout f <= MaxTimeout lim /\ 0 < fn_IdleTimeout f <= MaxIdleTimeout lim /\
    0 < fn_Memory f <= MaxMemory lim /\
    map_len (fn_Annotations f) <= maxAnnotationsKeys /\
    forall k s, entries (fn_Annotations f) !! k = Some (Some s) -> field_valid k s = true).
Proof.
  intros Hn. rewrite <- Fn_ValidateName_ok. unfold Fn_Validate.
  destruct (Fn_ValidateName f) as [[]|e|] eqn:En; cbn [obind is_ok].
  2: split; [done|naive_solver].
  2: unfold Fn_ValidateName in En; by repeat case_match.
  destruct (streq (fn_AppID f) "") eqn:Ea; simpl.
  { apply streq_spec in Ea. naive_solver. }
  destruct (streq (fn_Image f) "") eqn:Ei; simpl.
  { apply streq_spec in Ei. naive_solver. }
  assert (fn_AppID f <> ""%string /\ fn_Image f <> ""%string) as [].
  { split; intros E; apply streq_spec in E; congruence. }
  destruct (Z.leb_spec (fn_Timeout f) 0), (Z.ltb_spec (MaxTimeout lim) (fn_Timeout f)); simpl;
    try (split; [done|split; [done|lia]]).
  destruct (Z.leb_spec (fn_IdleTimeout f) 0), (Z.ltb_spec (MaxIdleTimeout lim) (fn_IdleTimeout f)); simpl;
    try (split; [done|split; [done|lia]]).
  destruct (Z.ltb_spec (fn_Memory f) 1), (Z.ltb_spec (MaxMemory lim) (fn_Memory f)); simpl;
    try (split; [done|split; [done|lia]]).
  destruct (Annotations_Validate_spec_ok (fn_Annotations f) Hn) as [Hp ->].
  split; [done|]. naive_solver lia.
Qed.

Lemma Fn_Validate_spec_witness :
  Fn_Validate (MR := canonical_range) default_limits
    (MkFn "f" "name" "app" "img" 128 30 30 None None 0 0) = Ok tt.
Proof.
  assert (Hn : no_nil None) by (intros k v Hk; cbn in Hk; by rewrite lookup_empty in Hk).
  apply (proj2 (Fn_Validate_spec (MR := canonical_range) default_limits
    (MkFn "f" "name" "app" "img" 128 30 30 None None 0 0) Hn)).
  split_and!; vm_compute; congruence.
Defined.

(** A trigger without nil annotations is accepted exactly when it has an app,
    a function, the type [http], a source that starts with a slash, valid
    annotations, and a name of 1 to 255 bytes that, when it is ASCII, holds
    only letters, digits, underscores and dashes; validation never panics. *)
Theorem Trigger_Validate_spec {MR : MapRange} {U : UnicodeTables} t :
  no_nil (tr_Annotations t) ->
  forallb (fun c => c <? 128) (bytes_of_string (tr_Name t)) = true ->
  Trigger_Validate t <> Panic /\
  (Trigger_Validate t = Ok tt <->
    tr_AppID t <> ""%string /\ tr_FnID t <> ""%string /\ tr_Type t = "http"%string /\
    String.prefix "/" (tr_Source t) = true /\
    (tr_Name t <> ""%string /\ strlen (tr_Name t) <= MaxLengthTriggerName /\
     forallb ascii_name_char (bytes_of_string (tr_Name t)) = true) /\
    map_len (tr_Annotations t) <= maxAnnotationsKeys /\
    forall k s, entries (tr_Annotations t) !! k = Some (Some s) -> field_valid k s = true).
Proof.
  intros Hn Ha. rewrite <- name_runes_ok_ascii by done.
  unfold Trigger_Validate, Trigger_ValidateName.
  assert (Hs : forall a b, streq a b = false -> a <> b).
  { intros a b E1 E2. apply streq_spec in E2. congruence. }
  destruct (streq (tr_AppID t) "") eqn:E1; simpl.
  { apply streq_spec in E1. naive_solver. }
  destruct (streq (tr_Name t) "") eqn:E2; simpl.
  { apply streq_spec in E2. naive_solver. }
  destruct (Z.ltb_spec MaxLengthTriggerName (strlen (tr_Name t))); simpl.
  { split; [done|]. split; [done|]. lia. }
  destruct (name_runes_ok (tr_Name t)) eqn:E3; simpl; [|split; [done|]; naive_solver].
  destruct (streq (tr_FnID t) "") eqn:E4; simpl.
  { apply streq_spec in E4. naive_solver. }
  assert (ValidTriggerType (tr_Type t) = true <-> tr_Type t = "http"%string) as Ht.
  { unfold ValidTriggerType. simpl. rewrite orb_false_r, bool_decide_eq_true.
    unfold TriggerTypeHTTP. naive_solver. }
  destruct (ValidTriggerType (tr_Type t)); simpl; [|split; [done|]; naive_solver].
  destruct (streq (tr_Source t) "") eqn:E5; simpl.
  { apply streq_spec in E5. rewrite E5. simpl. naive_solver. }
  destruct (String.prefix "/" (tr_Source t)) eqn:E6; simpl; [|split; [done|]; naive_solver].
  destruct (Annotations_Validate_spec_ok (tr_Annotations t) Hn) as [Hp ->].
  split; [done|]. split; [|naive_solver].
  intros [? ?]. split_and!; try done; try (by apply Hs); by apply Ht.
Qed.

(** Tables without any letter or number above Latin-1, to run the definitions. *)
Definition latin1_tables : UnicodeTables :=
  {| letter_table := fun _ => false; number_table := fun _ => false |}.

Lemma Trigger_Validate_spec_witness :
  Trigger_Validate (MR := canonical_range) (U := latin1_tables)
    (MkTrigger "t" "na-me_1" "app" "fn" 0 0 "http" "/src" None) = Ok tt.
Proof.
  assert (Hn : no_nil None) by (intros k v Hk; cbn in Hk; by rewrite lookup_empty in Hk).
  apply (proj2 (Trigger_Validate_spec (MR := canonical_range) (U := latin1_tables)
    (MkTrigger "t" "na-me_1" "app" "fn" 0 0 "http" "/src" None) Hn ltac:(vm_compute; reflexivity))).
  split_and!; vm_compute; congruence.
Defined.
