(* ===== verification/GoStrings.v ===== *)
(** * Strings and numbers as the code uses them

    The parts of [strings] and [strconv] that the modelled files call, on
    ASCII text: trimming, splitting into fields, prefix and suffix tests, and
    the parsing of decimal numbers with their range errors. *)
From S2P Require Import Prelude.
From Stdlib Require Import Ascii.

Definition is_space (c : ascii) : bool :=
  let n := Z.of_nat (nat_of_ascii c) in (n =? 32) || ((9 <=? n) && (n <=? 13)).

Definition chars (s : string) : list ascii := String.list_ascii_of_string s.
Definition unchars (l : list ascii) : string := String.string_of_list_ascii l.

Fixpoint drop_space (l : list ascii) : list ascii :=
  match l with
  | c :: r => if is_space c then drop_space r else l
  | [] => []
  end.

(** [strings.TrimSpace] *)
Definition TrimSpace (s : string) : string :=
  unchars (rev (drop_space (rev (drop_space (chars s))))).

(** [strings.Fields]: the maximal runs of non-space characters. *)
Fixpoint fields_loop (cur : list ascii) (l : list ascii) : list (list ascii) :=
  let flush := match cur with [] => [] | _ => [rev cur] end in
  match l with
  | [] => flush
  | c :: l => if is_space c then flush ++ fields_loop [] l else fields_loop (c :: cur) l
  end.
Definition Fields (s : string) : list string := unchars <$> fields_loop [] (chars s).

(** [strings.HasPrefix] is [String.prefix prefix s]. *)
Definition HasPrefix (s pre : string) : bool := String.prefix pre s.

Definition digit_of (c : ascii) : option Z :=
  let n := Z.of_nat (nat_of_ascii c) in
  if (48 <=? n) && (n <=? 57) then Some (n - 48) else None.

(** The value of a string of decimal digits, unbounded. *)
Fixpoint digits_value (acc : Z) (l : list ascii) : option Z :=
  match l with
  | [] => Some acc
  | c :: l => match digit_of c with Some d => digits_value (acc * 10 + d) l | None => None end
  end.

(** [strconv.ParseUint(s, 10, 64)]; [None] for a syntax or a range error. *)
Definition ParseUint (s : string) : option Z :=
  match chars s with
  | [] => None
  | l => match digits_value 0 l with
         | Some v => if v <=? maxU64 then Some v else None
         | None => None
         end
  end.

(** [strconv.ParseInt(s, 10, 64)]: an optional sign, then digits. *)
Definition ParseInt (s : string) : option Z :=
  match chars s with
  | [] => None
  | c :: l =>
      let n := Z.of_nat (nat_of_ascii c) in
      let '(neg, ds) := if n =? 45 then (true, l) else if n =? 43 then (false, l) else (false, c :: l) in
      match ParseUint (unchars ds) with
      | Some v =>
          if neg then (if v <=? w63 then Some (- v) else None)
          else (if v <? w63 then Some v else None)
      | None => None
      end
  end.

Lemma digits_value_nonneg l acc v : 0 <= acc -> digits_value acc l = Some v -> 0 <= v.
Proof.
  revert acc. induction l as [|c l IH]; intros acc Ha H; simpl in H; [by simplify_eq|].
  unfold digit_of in H. case_match; [|done]. destruct (_ && _) eqn:E; [|done].
  simplify_eq. eapply IH; [|exact H]. apply andb_prop in E as [E1 E2]. lia.
Qed.

Lemma ParseUint_range s v : ParseUint s = Some v -> is_u64 v.
Proof.
  unfold ParseUint. destruct (chars s) as [|c l]; [done|].
  destruct (digits_value 0 (c :: l)) as [x|] eqn:E; [|done].
  destruct (Z.leb_spec x maxU64); [|done]. intros H0. simplify_eq.
  apply digits_value_nonneg in E; [word_lia|done].
Qed.
#[export] Hint Resolve ParseUint_range : word.

(** [fmt.Sprintf] of a non-negative number with [%d]: its decimal digits. *)
Fixpoint dec_loop (fuel : nat) (n : Z) (acc : list ascii) : list ascii :=
  let acc := ascii_of_nat (Z.to_nat (48 + n mod 10)) :: acc in
  match fuel with
  | O => acc
  | S fuel => if n / 10 =? 0 then acc else dec_loop fuel (n / 10) acc
  end.
(** A 64-bit number has at most 20 digits. *)
Definition FormatUint (n : Z) : string := unchars (dec_loop 20 n []).

(** Signed, as [%d] prints an [int]. *)
Definition FormatInt (n : Z) : string :=
  if n <? 0 then ("-" ++ FormatUint (- n))%string else FormatUint n.

(** [strings.Contains] *)
Definition Contains (s sub : string) : bool :=
  match String.index 0 sub s with Some _ => true | None => false end.
