(* ===== verification/Base64.v ===== *)
(** * Base64 of page cursors, hexadecimal of slot keys

    The unpadded URL alphabet of [encoding/base64] ([base64.RawURLEncoding]),
    which the datastores use for the cursors of their lists: three bytes are
    four characters, a rest of one or two bytes two or three.  Decoding skips
    line ends, ignores the unused bits of the last character, and reports the
    offset of what it cannot read.  [encoding/hex] carries the slot key of a call
    to a runner.  For both, decoding an encoding gives the text back. *)
From S2P Require Import Prelude Errors GoStrings Models.
From Stdlib Require Import Ascii.
Import Prelude.

Definition b64_alphabet : list ascii :=
  chars "ABCDEFGHIJKLMNOPQRSTUVWXYZabcdefghijklmnopqrstuvwxyz0123456789-_".

Definition b64_char (d : Z) : ascii := nth (Z.to_nat d) b64_alphabet zero.

(** The value of a character, by its code. *)
Definition b64_val (c : ascii) : option Z :=
  let n := byte_of_ascii c in
  if in_range 65 90 n then Some (n - 65)
  else if in_range 97 122 n then Some (n - 71)
  else if in_range 48 57 n then Some (n + 4)
  else if n =? 45 then Some 62
  else if n =? 95 then Some 63
  else None.

(** Six-bit digits of bytes. *)
Fixpoint b64_digits (l : list Z) : list Z :=
  match l with
  | a :: b :: c :: l =>
      a / 4 :: (a mod 4) * 16 + b / 16 :: (b mod 16) * 4 + c / 64 :: c mod 64 :: b64_digits l
  | [a; b] => [a / 4; (a mod 4) * 16 + b / 16; (b mod 16) * 4]
  | [a] => [a / 4; (a mod 4) * 16]
  | [] => []
  end.

Definition string_of_bytes (l : list Z) : string := unchars ((fun b => ascii_of_nat (Z.to_nat b)) <$> l).

(** [base64.RawURLEncoding.EncodeToString([]byte(s))] *)
Definition EncodeToString (s : string) : string := unchars (b64_char <$> b64_digits (bytes_of_string s)).

Definition CorruptInputError (n : Z) : gerr := EPlain ("illegal base64 data at input byte " ++ FormatInt n).

(** [acc] holds up to three digits of the group that is being read, [si] the
    offset of the next character. *)
Fixpoint b64_decode (acc : list Z) (si : Z) (l : list ascii) : outcome gerr (list Z) :=
  match l with
  | [] =>
      match acc with
      | [d0; d1; d2] => Ok [d0 * 4 + d1 / 16; (d1 mod 16) * 16 + d2 / 4]
      | [d0; d1] => Ok [d0 * 4 + d1 / 16]
      | [] => Ok []
      | _ => Err (CorruptInputError (si - 1))
      end
  | c :: l =>
      match b64_val c with
      | Some d =>
          match acc with
          | [d0; d1; d2] =>
              let! r := b64_decode [] (si + 1) l in
              Ok (d0 * 4 + d1 / 16 :: (d1 mod 16) * 16 + d2 / 4 :: (d2 mod 4) * 64 + d :: r)
          | _ => b64_decode (acc ++ [d]) (si + 1) l
          end
      | None =>
          if (byte_of_ascii c =? 10) || (byte_of_ascii c =? 13) then b64_decode acc (si + 1) l
          else Err (CorruptInputError si)
      end
  end.

(** [base64.RawURLEncoding.DecodeString(s)], as a string. *)
Definition DecodeString (s : string) : outcome gerr string :=
  let! l := b64_decode [] 0 (chars s) in Ok (string_of_bytes l).

(** ** Lemmas *)

Lemma b64_val_char d : 0 <= d < 64 -> b64_val (b64_char d) = Some d.
Proof.
  intros Hd. assert (H : forallb (fun d => bool_decide (b64_val (b64_char d) = Some d)) (seqZ 0 64) = true)
    by (vm_compute; done).
  rewrite forallb_forall in H. apply (bool_decide_unpack (b64_val (b64_char d) = Some d)).
  apply Is_true_true_2, H. apply list_elem_of_In, elem_of_seqZ. lia.
Qed.

Lemma b64_decode_digits l si : Forall is_u8 l -> b64_decode [] si (b64_char <$> b64_digits l) = Ok l.
Proof.
  intros Hl. assert (Hn : exists n, (length l <= n)%nat) by by exists (length l). destruct Hn as [n Hn].
  revert l si Hl Hn. induction n as [|n IH]; intros l si Hl Hn; [by destruct l; [|simpl in Hn; lia]|].
  destruct l as [|a [|b [|c l]]]; [done|..];
    repeat match goal with H : Forall is_u8 (_ :: _) |- _ => apply Forall_cons in H as [? H] end;
    unfold is_u8, w8 in *; cbn [b64_digits fmap list_fmap b64_decode];
    rewrite !b64_val_char by (Z.to_euclidean_division_equations; lia); cbn [app b64_decode].
  - do 2 f_equal. Z.to_euclidean_division_equations. lia.
  - do 2 f_equal; [|f_equal]; Z.to_euclidean_division_equations; lia.
  - simpl in Hn. rewrite IH by (done || lia). cbn [obind]. f_equal.
    f_equal; [|f_equal; [|f_equal]]; Z.to_euclidean_division_equations; lia.
Qed.

Lemma string_of_bytes_of_string s : string_of_bytes (bytes_of_string s) = s.
Proof.
  unfold string_of_bytes, bytes_of_string, unchars. rewrite <- list_fmap_compose.
  rewrite (list_fmap_ext _ id); [by rewrite list_fmap_id, String.string_of_list_ascii_of_string|].
  intros i c _. unfold compose, byte_of_ascii. by rewrite Nat2Z.id, ascii_nat_embedding.
Qed.

Lemma DecodeString_EncodeToString s : DecodeString (EncodeToString s) = Ok s.
Proof.
  unfold DecodeString, EncodeToString, chars, unchars. rewrite String.list_ascii_of_string_of_list_ascii.
  rewrite b64_decode_digits by apply bytes_of_string_range. cbn [obind]. by rewrite string_of_bytes_of_string.
Qed.

Lemma EncodeToString_empty s : EncodeToString s = ""%string -> s = ""%string.
Proof.
  intros H. pose proof (DecodeString_EncodeToString s) as HD. rewrite H in HD. by injection HD.
Qed.

Example cursor_myapp : EncodeToString "myapp" = "bXlhcHA"%string /\ DecodeString "bXlhcHA" = Ok "myapp"%string /\
  DecodeString "bXlhcH*" = Err (CorruptInputError 6) /\ DecodeString "bXlhc" = Err (CorruptInputError 4).
Proof. split_and!; vm_compute; reflexivity. Qed.

(** ** Hexadecimal *)

Definition hex_alphabet : list ascii := chars "0123456789abcdef".
Definition hex_char (d : Z) : ascii := nth (Z.to_nat d) hex_alphabet zero.

(** [fromHexChar] *)
Definition hex_val (c : ascii) : option Z :=
  let n := byte_of_ascii c in
  if in_range 48 57 n then Some (n - 48)
  else if in_range 97 102 n then Some (n - 87)
  else if in_range 65 70 n then Some (n - 55)
  else None.

(** Four-bit digits of bytes. *)
Fixpoint hex_digits (l : list Z) : list Z :=
  match l with [] => [] | b :: l => b / 16 :: b mod 16 :: hex_digits l end.

(** [hex.EncodeToString([]byte(s))] *)
Definition hex_EncodeToString (s : string) : string :=
  unchars (hex_char <$> hex_digits (bytes_of_string s)).

(** [hex.DecodeString]: the first byte that is no digit is reported before an odd
    length; [fmt_U] is the verb [%#U] of the report. *)
Fixpoint hex_decode (fmt_U : ascii -> string) (l : list ascii) : outcome gerr (list Z) :=
  let invalid c := EPlain ("encoding/hex: invalid byte: " ++ fmt_U c) in
  match l with
  | [] => Ok []
  | [c] => match hex_val c with
           | None => Err (invalid c)
           | Some _ => Err (EPlain "encoding/hex: odd length hex string")
           end
  | a :: b :: l =>
      match hex_val a, hex_val b with
      | Some x, Some y => let! r := hex_decode fmt_U l in Ok (x * 16 + y :: r)
      | None, _ => Err (invalid a)
      | _, None => Err (invalid b)
      end
  end.

Definition hex_DecodeString (fmt_U : ascii -> string) (s : string) : outcome gerr string :=
  let! l := hex_decode fmt_U (chars s) in Ok (string_of_bytes l).

Lemma hex_val_char d : 0 <= d < 16 -> hex_val (hex_char d) = Some d.
Proof.
  intros Hd. assert (H : forallb (fun d => bool_decide (hex_val (hex_char d) = Some d)) (seqZ 0 16) = true)
    by (vm_compute; done).
  rewrite forallb_forall in H. apply (bool_decide_unpack (hex_val (hex_char d) = Some d)).
  apply Is_true_true_2, H. apply list_elem_of_In, elem_of_seqZ. lia.
Qed.

Lemma hex_decode_no_panic fmt_U l : hex_decode fmt_U l <> Panic.
Proof.
  assert (H : forall n l, (length l <= n)%nat -> hex_decode fmt_U l <> Panic); [|by apply (H (length l))].
  clear l. induction n as [|n IH]; intros [|a [|b l]] Hl; simpl in *; try done; try lia.
  - by destruct (hex_val a).
  - destruct (hex_val a), (hex_val b); try done. specialize (IH l ltac:(lia)). by destruct (hex_decode fmt_U l).
Qed.

Lemma hex_roundtrip fmt_U s : hex_DecodeString fmt_U (hex_EncodeToString s) = Ok s.
Proof.
  unfold hex_DecodeString, hex_EncodeToString, chars, unchars. rewrite String.list_ascii_of_string_of_list_ascii.
  assert (H : forall l, Forall is_u8 l ->
    hex_decode fmt_U (hex_char <$> hex_digits l) = Ok l).
  { induction 1 as [|b l Hb Hl IH]; [done|]. unfold is_u8, w8 in Hb.
    cbn [hex_digits fmap list_fmap hex_decode]. rewrite !hex_val_char by (Z.to_euclidean_division_equations; lia).
    rewrite IH. cbn [obind]. do 2 f_equal. Z.to_euclidean_division_equations. lia. }
  rewrite H by apply bytes_of_string_range. cbn [obind]. by rewrite string_of_bytes_of_string.
Qed.

Definition question_mark (c : ascii) : string := "?".

Example hex_examples : hex_EncodeToString "fn/1" = "666e2f31"%string /\
  hex_DecodeString question_mark "666E2F31" = Ok "fn/1"%string /\
  hex_DecodeString question_mark "666" = Err (EPlain "encoding/hex: odd length hex string") /\
  hex_DecodeString question_mark "66g" = Err (EPlain "encoding/hex: invalid byte: ?").
Proof. split_and!; vm_compute; reflexivity. Qed.
