(* ===== verification/Resource.v ===== *)
(** * Memory and CPU accounting (src/api/agent/resource.go)

    The resource tracker hands out tokens for memory and CPU and takes them
    back when a token is closed.  [rtsys] is the tracker with every token it
    handed out and every caller blocked in [GetResourceToken]; [rt_step] is
    one critical section of one goroutine.  The theorems: what is used is
    exactly what the open tokens hold and never exceeds the totals, closing
    twice is harmless, what a refused request reports, and the memory left
    after the head room is taken off. *)
From S2P Require Import Prelude GoStrings.

Definition Mem1MB : Z := 1048576.
Definition Mem1GB : Z := 1073741824.
Definition DefaultNonLinuxMemory : Z := 2048 * Mem1MB.

(** ** State *)

Record resourceTracker := RT {
  ramTotal : Z;
  ramUsed : Z;
  cpuTotal : Z;
  cpuUsed : Z
}.

(** A token: [once] records that [Close] ran, [decrement] is what the closure
    gives back, in bytes and milli CPUs. *)
Record resourceToken := RToken {
  once : bool;
  err : bool;               (* CapacityFull *)
  needCpu : Z;
  needMem : Z;
  decrement : option (Z * Z)
}.

Definition NeededCapacity (t : resourceToken) : Z * Z := (needMem t, needCpu t).

Definition isResourceAvailableLocked (a : resourceTracker) (memory cpuQuota : Z) : bool :=
  let availMem := u64 (ramTotal a - ramUsed a) in
  let availCPU := u64 (cpuTotal a - cpuUsed a) in
  (memory <=? availMem) && (cpuQuota <=? availCPU).

Record ResourceUtilization := RUtil { CpuUsed : Z; CpuAvail : Z; MemUsed : Z; MemAvail : Z }.

Definition GetUtilization (a : resourceTracker) : ResourceUtilization :=
  {| CpuUsed := cpuUsed a; CpuAvail := u64 (cpuTotal a - cpuUsed a);
     MemUsed := ramUsed a; MemAvail := u64 (ramTotal a - ramUsed a) |}.

Definition IsResourcePossible (a : resourceTracker) (memory cpuQuota : Z) : bool :=
  let memory := u64 (memory * Mem1MB) in
  (memory <=? ramTotal a) && (cpuQuota <=? cpuTotal a).

Definition allocResourcesLocked (a : resourceTracker) (memory cpuQuota : Z) : resourceTracker * resourceToken :=
  ({| ramTotal := ramTotal a; ramUsed := u64 (ramUsed a + memory);
      cpuTotal := cpuTotal a; cpuUsed := u64 (cpuUsed a + cpuQuota) |},
   {| once := false; err := false; needCpu := 0; needMem := 0; decrement := Some (memory, cpuQuota) |}).

(** The closure of an allocation. *)
Definition release (a : resourceTracker) (memory cpuQuota : Z) : resourceTracker :=
  {| ramTotal := ramTotal a; ramUsed := u64 (ramUsed a - memory);
     cpuTotal := cpuTotal a; cpuUsed := u64 (cpuUsed a - cpuQuota) |}.

Definition Close (a : resourceTracker) (t : resourceToken) : resourceTracker * resourceToken :=
  if once t then (a, t)
  else
    (match decrement t with Some (m, c) => release a m c | None => a end,
     {| once := true; err := err t; needCpu := needCpu t; needMem := needMem t; decrement := decrement t |}).

Definition full_token (mem cpu : Z) : resourceToken :=
  {| once := false; err := true; needCpu := cpu; needMem := mem; decrement := None |}.

Definition GetResourceTokenNB (a : resourceTracker) (memory cpuQuota : Z) : resourceTracker * resourceToken :=
  if negb (IsResourcePossible a memory cpuQuota) then (a, full_token memory cpuQuota)
  else
    let memory := u64 (memory * Mem1MB) in
    let availMem := u64 (ramTotal a - ramUsed a) in
    let availCPU := u64 (cpuTotal a - cpuUsed a) in
    if (memory <=? availMem) && (cpuQuota <=? availCPU) then allocResourcesLocked a memory cpuQuota
    else
      (a, full_token (if availMem <? memory then (memory - availMem) / Mem1MB else 0)
                     (if availCPU <? cpuQuota then cpuQuota - availCPU else 0)).

(** [GetResourceToken] up to the wait: [None] is the nil token of the early
    return, otherwise the caller waits with this request in bytes. *)
Definition GetResourceToken_enter (a : resourceTracker) (ctx_done : bool) (memory cpuQuota : Z) : option (Z * Z) :=
  if negb (IsResourcePossible a memory cpuQuota) || ctx_done then None
  else Some (u64 (memory * Mem1MB), cpuQuota).

(** One evaluation of the loop condition, and what follows when it fails. *)
Inductive wake := Waits | NilToken | Token (a : resourceTracker) (t : resourceToken).

Definition GetResourceToken_wake (a : resourceTracker) (ctx_done : bool) (req : Z * Z) : wake :=
  if negb (isResourceAvailableLocked a req.1 req.2) && negb ctx_done then Waits
  else if negb ctx_done then
    let (a, t) := allocResourcesLocked a req.1 req.2 in Token a t
  else NilToken.

(** ** The system: tracker, tokens handed out, blocked callers *)
Record rtsys := RTS {
  trk : resourceTracker;
  toks : list resourceToken;
  waiting : list (Z * Z)
}.

(** Arguments are machine words: [uint64] and [MilliCPUs]. *)
Inductive rt_step : rtsys -> rtsys -> Prop :=
| step_nb s memory cpu a t :
    is_u64 memory -> is_u64 cpu ->
    GetResourceTokenNB (trk s) memory cpu = (a, t) ->
    rt_step s {| trk := a; toks := toks s ++ [t]; waiting := waiting s |}
| step_enter s memory cpu ctx_done req :
    is_u64 memory -> is_u64 cpu ->
    GetResourceToken_enter (trk s) ctx_done memory cpu = Some req ->
    rt_step s {| trk := trk s; toks := toks s; waiting := waiting s ++ [req] |}
| step_wake_token s i req ctx_done a t :
    waiting s !! i = Some req ->
    GetResourceToken_wake (trk s) ctx_done req = Token a t ->
    rt_step s {| trk := a; toks := toks s ++ [t]; waiting := delete i (waiting s) |}
| step_wake_nil s i req ctx_done :
    waiting s !! i = Some req ->
    GetResourceToken_wake (trk s) ctx_done req = NilToken ->
    rt_step s {| trk := trk s; toks := toks s; waiting := delete i (waiting s) |}
| step_close s i t a t' :
    toks s !! i = Some t ->
    Close (trk s) t = (a, t') ->
    rt_step s {| trk := a; toks := <[i := t']> (toks s); waiting := waiting s |}.

(** What the open tokens hold. *)
Definition held (pr : Z * Z -> Z) (t : resourceToken) : Z :=
  if once t then 0 else match decrement t with Some d => pr d | None => 0 end.
Definition held_mem (ts : list resourceToken) : Z := sumZ (held fst <$> ts).
Definition held_cpu (ts : list resourceToken) : Z := sumZ (held snd <$> ts).

(** A blocked request is one that the machine could ever satisfy. *)
Definition req_ok (a : resourceTracker) (r : Z * Z) : Prop :=
  0 <= r.1 <= ramTotal a /\ 0 <= r.2 <= cpuTotal a.

(** Well-formed: the accounts agree with the open tokens, and nothing is over
    the totals. *)
Record rt_inv (s : rtsys) : Prop := {
  inv_ram : ramUsed (trk s) = held_mem (toks s);
  inv_cpu : cpuUsed (trk s) = held_cpu (toks s);
  inv_ram_le : ramUsed (trk s) <= ramTotal (trk s);
  inv_cpu_le : cpuUsed (trk s) <= cpuTotal (trk s);
  inv_totals : is_u64 (ramTotal (trk s)) /\ is_u64 (cpuTotal (trk s));
  inv_dec : Forall (fun t => match decrement t with Some (m, c) => 0 <= m /\ 0 <= c | None => True end) (toks s);
  inv_wait : Forall (req_ok (trk s)) (waiting s)
}.

Definition rt_init (ram cpu : Z) : rtsys :=
  {| trk := {| ramTotal := ram; ramUsed := 0; cpuTotal := cpu; cpuUsed := 0 |}; toks := []; waiting := [] |}.

Definition rt_reach (ram cpu : Z) : rtsys -> Prop := rtc rt_step (rt_init ram cpu).

(** ** Lemmas *)

Lemma held_app pr ts t : sumZ (held pr <$> ts ++ [t]) = sumZ (held pr <$> ts) + held pr t.
Proof. rewrite fmap_app, sumZ_app. simpl. lia. Qed.

Lemma held_insert pr ts i t t' :
  ts !! i = Some t ->
  sumZ (held pr <$> <[i := t']> ts) = sumZ (held pr <$> ts) - held pr t + held pr t'.
Proof.
  intros Hi. rewrite list_fmap_insert. apply sumZ_insert. by rewrite list_lookup_fmap, Hi.
Qed.

Definition dec_ok (t : resourceToken) : Prop :=
  match decrement t with Some (m, c) => 0 <= m /\ 0 <= c | None => True end.

Lemma held_nonneg t : dec_ok t -> 0 <= held fst t /\ 0 <= held snd t.
Proof.
  unfold dec_ok, held. destruct (once t), (decrement t) as [[m c]|]; simpl; lia.
Qed.

Lemma held_Forall ts : Forall dec_ok ts ->
  Forall (fun x => 0 <= x) (held fst <$> ts) /\ Forall (fun x => 0 <= x) (held snd <$> ts).
Proof.
  intros Hf. split; apply Forall_fmap; eapply Forall_impl; try exact Hf;
    intros x Hx; destruct (held_nonneg x Hx); assumption.
Qed.

Lemma held_le ts t : Forall dec_ok ts -> t ∈ ts ->
  held fst t <= held_mem ts /\ held snd t <= held_cpu ts.
Proof.
  intros [H1 H2]%held_Forall Ht.
  split; apply sumZ_elem_le; try done; apply list_elem_of_fmap; eauto.
Qed.

Lemma held_sum_nonneg ts : Forall dec_ok ts -> 0 <= held_mem ts /\ 0 <= held_cpu ts.
Proof. intros [H1 H2]%held_Forall. split; by apply sumZ_nonneg. Qed.

(** In a well-formed state nothing wraps: the arithmetic is exact. *)
Lemma rt_exact s : rt_inv s ->
  0 <= ramUsed (trk s) /\ 0 <= cpuUsed (trk s) /\
  u64 (ramTotal (trk s) - ramUsed (trk s)) = ramTotal (trk s) - ramUsed (trk s) /\
  u64 (cpuTotal (trk s) - cpuUsed (trk s)) = cpuTotal (trk s) - cpuUsed (trk s).
Proof.
  intros [Hr Hc Hrl Hcl [Ht1 Ht2] Hd Hw].
  destruct (held_sum_nonneg (toks s)) as [H1 H2]; [exact Hd|].
  rewrite <- Hr in H1. rewrite <- Hc in H2.
  split_and!; try done; apply u64_small; word_lia.
Qed.

Lemma alloc_inv s m c ws a t :
  rt_inv s -> 0 <= m -> 0 <= c ->
  m <= ramTotal (trk s) - ramUsed (trk s) -> c <= cpuTotal (trk s) - cpuUsed (trk s) ->
  Forall (req_ok (trk s)) ws ->
  allocResourcesLocked (trk s) m c = (a, t) ->
  rt_inv {| trk := a; toks := toks s ++ [t]; waiting := ws |}.
Proof.
  intros Hi Hm Hc Hm' Hc' Hws Ha. destruct (rt_exact s Hi) as (P1 & P2 & _ & _).
  destruct Hi as [Hr Hcp Hrl Hcl [Ht1 Ht2] Hd _].
  unfold allocResourcesLocked in Ha. simplify_eq.
  rewrite !u64_small by word_lia.
  split; simpl; try lia; try done.
  - unfold held_mem. rewrite held_app. unfold held at 2. simpl. unfold held_mem in Hr. lia.
  - unfold held_cpu. rewrite held_app. unfold held at 2. simpl. unfold held_cpu in Hcp. lia.
  - apply Forall_app. split; [done|]. by repeat constructor.
Qed.

Lemma full_inv s mem cpu ws :
  rt_inv s -> Forall (req_ok (trk s)) ws ->
  rt_inv {| trk := trk s; toks := toks s ++ [full_token mem cpu]; waiting := ws |}.
Proof.
  intros [Hr Hcp Hrl Hcl Ht Hd _] Hws. split; simpl; try done.
  - unfold held_mem in *. rewrite held_app. change (held fst (full_token mem cpu)) with 0. lia.
  - unfold held_cpu in *. rewrite held_app. change (held snd (full_token mem cpu)) with 0. lia.
  - apply Forall_app. split; [done|]. by repeat constructor.
Qed.

Lemma rt_step_inv s s' : rt_inv s -> rt_step s s' -> rt_inv s'.
Proof.
  intros Hi Hs. pose proof (inv_wait s Hi) as Hw.
  destruct (rt_exact s Hi) as (P1 & P2 & P3 & P4).
  destruct Hs as [s memory cpu a t Hm Hc H|s memory cpu cd req Hm Hc H|s i req cd a t Hl H
                 |s i req cd Hl H|s i t a t' Hl H].
  - unfold GetResourceTokenNB in H. rewrite P3, P4 in H.
    destruct (negb _); [simplify_eq; by apply full_inv|].
    destruct (Z.leb_spec (u64 (memory * Mem1MB)) (ramTotal (trk s) - ramUsed (trk s))),
      (Z.leb_spec cpu (cpuTotal (trk s) - cpuUsed (trk s))); simpl in H;
      try (simplify_eq; by apply full_inv).
    pose proof (u64_range (memory * Mem1MB)).
    eapply alloc_inv; try exact H; [done|word_lia..|done].
  - unfold GetResourceToken_enter, IsResourcePossible in H.
    destruct (Z.leb_spec (u64 (memory * Mem1MB)) (ramTotal (trk s))), (Z.leb_spec cpu (cpuTotal (trk s))), cd;
      simpl in H; try done. simplify_eq.
    destruct Hi. split; try done. apply Forall_app. split; [done|].
    apply Forall_singleton. pose proof (u64_range (memory * Mem1MB)).
    unfold req_ok. simpl. word_lia.
  - unfold GetResourceToken_wake, isResourceAvailableLocked in H. rewrite P3, P4 in H.
    pose proof (Forall_lookup_1 _ _ _ _ Hw Hl) as [Hm Hc].
    destruct (Z.leb_spec req.1 (ramTotal (trk s) - ramUsed (trk s))),
      (Z.leb_spec req.2 (cpuTotal (trk s) - cpuUsed (trk s))), cd; simpl in H; try done.
    simplify_eq. eapply (alloc_inv s req.1 req.2); try done; try lia. by apply Forall_delete.
  - destruct Hi. split; try done. by apply Forall_delete.
  - unfold Close in H. destruct (once t) eqn:Ho.
    { simplify_eq. rewrite list_insert_id by done. by destruct Hi, s. }
    pose proof (Forall_lookup_1 _ _ _ _ (inv_dec s Hi) Hl) as Hd. simpl in Hd.
    destruct (held_le (toks s) t (inv_dec s Hi)) as [L1 L2]; [by eapply list_elem_of_lookup_2|].
    destruct Hi as [Hr Hcp Hrl Hcl [Ht1 Ht2] Hdec Hwt].
    unfold held in L1, L2. rewrite Ho in L1, L2. rewrite <- Hr in L1. rewrite <- Hcp in L2.
    assert (Hdec' : Forall dec_ok (<[i := t']> (toks s))).
    { apply Forall_insert; [done|]. simplify_eq. done. }
    destruct (decrement t) as [[m c]|] eqn:Ed; simpl in *; simplify_eq; simpl.
    + unfold release. rewrite !u64_small by word_lia.
      split; simpl; try done; try lia;
        unfold held_mem, held_cpu in *; rewrite (held_insert _ _ _ _ _ Hl);
        unfold held at 2 3; simpl; rewrite Ho, Ed; simpl; lia.
    + split; simpl; try done;
        unfold held_mem, held_cpu in *; rewrite (held_insert _ _ _ _ _ Hl);
        unfold held at 2 3; simpl; rewrite Ho, Ed; lia.
Qed.

Lemma rt_init_inv ram cpu : is_u64 ram -> is_u64 cpu -> rt_inv (rt_init ram cpu).
Proof. intros Hr Hc. split; simpl; try done; word_lia. Qed.

Lemma rt_reach_inv ram cpu s : is_u64 ram -> is_u64 cpu -> rt_reach ram cpu s -> rt_inv s.
Proof.
  intros Hr Hc H. unfold rt_reach in H.
  remember (rt_init ram cpu) as s0. assert (Hi : rt_inv s0) by (subst; by apply rt_init_inv).
  clear Heqs0. induction H as [|x y z Hxy Hyz IH]; [done|].
  apply IH. by eapply rt_step_inv.
Qed.

Lemma held_all_closed ts : Forall (fun t => once t = true) ts -> held_mem ts = 0 /\ held_cpu ts = 0.
Proof.
  unfold held_mem, held_cpu. induction 1 as [|t ts Ht Hts [IH1 IH2]]; [done|].
  rewrite !fmap_cons. cbn [sumZ]. rewrite IH1, IH2. unfold held. by rewrite Ht.
Qed.

Lemma need_mem_max m a : (if a <? m then (m - a) / Mem1MB else 0) = Z.max 0 ((m - a) / Mem1MB).
Proof.
  unfold Mem1MB. destruct (Z.ltb_spec a m).
  - rewrite Z.max_r; [done|]. apply Z.div_pos; lia.
  - rewrite Z.max_l; [done|]. apply Z.div_le_upper_bound; lia.
Qed.

(** ** Theorems *)

(** C18: in every reachable state of the tracker - any interleaving of
    non-blocking and blocking requests, wake-ups, cancellations and closes,
    a token being closed any number of times - the memory and CPU in use are
    exactly what the open tokens hold and never exceed the totals, so the
    reported availability is the true difference; once every token is closed
    nothing is in use. *)
Theorem rt_accounting ram cpu s :
  is_u64 ram -> is_u64 cpu -> rt_reach ram cpu s ->
  ramUsed (trk s) = held_mem (toks s) /\ cpuUsed (trk s) = held_cpu (toks s) /\
  ramUsed (trk s) <= ramTotal (trk s) /\ cpuUsed (trk s) <= cpuTotal (trk s) /\
  MemAvail (GetUtilization (trk s)) = ramTotal (trk s) - ramUsed (trk s) /\
  CpuAvail (GetUtilization (trk s)) = cpuTotal (trk s) - cpuUsed (trk s) /\
  (Forall (fun t => once t = true) (toks s) -> ramUsed (trk s) = 0 /\ cpuUsed (trk s) = 0).
Proof.
  intros Hr Hc Hs. pose proof (rt_reach_inv _ _ _ Hr Hc Hs) as Hi.
  destruct (rt_exact s Hi) as (P1 & P2 & P3 & P4). destruct Hi as [Hm Hp Hml Hpl _ _ _].
  split_and!; try done. intros Hall.
  rewrite Hm, Hp. by apply held_all_closed.
Qed.

Lemma rt_accounting_witness :
  let a := (GetResourceTokenNB (trk (rt_init 8589934592 4000)) 128 500).1 in
  let t := (GetResourceTokenNB (trk (rt_init 8589934592 4000)) 128 500).2 in
  ramUsed a = held_mem [t].
Proof.
  intros a t.
  apply (rt_accounting 8589934592 4000 {| trk := a; toks := [t]; waiting := [] |});
    [word_lia|word_lia|].
  apply rtc_once. apply (step_nb (rt_init 8589934592 4000) 128 500); [word_lia|word_lia|reflexivity].
Defined.

(** A non-blocking request for [memory] MB and [cpu] in a well-formed state:
    when the machine could never satisfy it, the token carries the whole
    request as its need; when it fits, the token holds exactly the request;
    otherwise nothing changes and the need is the shortfall - the memory
    rounded down to whole megabytes, so that a shortfall of less than one
    megabyte is reported as no need at all. *)
Theorem GetResourceTokenNB_spec s memory cpu :
  rt_inv s -> is_u64 cpu -> 0 <= memory * Mem1MB < w64 ->
  let availMem := ramTotal (trk s) - ramUsed (trk s) in
  let availCPU := cpuTotal (trk s) - cpuUsed (trk s) in
  let r := GetResourceTokenNB (trk s) memory cpu in
  (memory * Mem1MB <= availMem -> cpu <= availCPU ->
     err r.2 = false /\ decrement r.2 = Some (memory * Mem1MB, cpu) /\
     ramUsed r.1 = ramUsed (trk s) + memory * Mem1MB /\ cpuUsed r.1 = cpuUsed (trk s) + cpu) /\
  (availMem < memory * Mem1MB \/ availCPU < cpu ->
     r.1 = trk s /\ err r.2 = true /\ decrement r.2 = None /\
     NeededCapacity r.2 =
       (if (memory * Mem1MB <=? ramTotal (trk s)) && (cpu <=? cpuTotal (trk s))
        then (Z.max 0 ((memory * Mem1MB - availMem) / Mem1MB), Z.max 0 (cpu - availCPU))
        else (memory, cpu))) /\
  (memory * Mem1MB <= ramTotal (trk s) -> cpu <= availCPU ->
     availMem < memory * Mem1MB < availMem + Mem1MB -> NeededCapacity r.2 = (0, 0)).
Proof.
  intros Hi Hc Hm availMem availCPU r.
  destruct (rt_exact s Hi) as (P1 & P2 & P3 & P4).
  destruct Hi as [_ _ Hml Hpl [Ht1 Ht2] _ _].
  unfold r, GetResourceTokenNB, IsResourcePossible. rewrite P3, P4, (u64_small (memory * Mem1MB)) by word_lia.
  fold availMem availCPU. split_and!.
  - intros Fm Fc. rewrite !(proj2 (Z.leb_le _ _)) by lia. simpl.
    rewrite !u64_small by word_lia. done.
  - intros Hn.
    destruct (Z.leb_spec (memory * Mem1MB) (ramTotal (trk s))), (Z.leb_spec cpu (cpuTotal (trk s))); simpl; try done.
    destruct (Z.leb_spec (memory * Mem1MB) availMem), (Z.leb_spec cpu availCPU); simpl; try lia.
    all: split_and!; try done; unfold NeededCapacity; simpl; rewrite need_mem_max; f_equal;
      destruct (Z.ltb_spec availCPU cpu); lia.
  - intros Fm Fc Hs. rewrite (proj2 (Z.leb_le _ _) Fm), (proj2 (Z.leb_le cpu (cpuTotal _))) by lia. simpl.
    destruct (Z.leb_spec (memory * Mem1MB) availMem); [lia|]. simpl.
    unfold NeededCapacity. simpl. rewrite need_mem_max. f_equal.
    + rewrite Z.div_small by lia. done.
    + destruct (Z.ltb_spec availCPU cpu); lia.
Qed.

Lemma GetResourceTokenNB_spec_witness :
  NeededCapacity (GetResourceTokenNB (trk {| trk := RT 3000000 2000000 1000 0;
    toks := [{| once := false; err := false; needCpu := 0; needMem := 0; decrement := Some (2000000, 0) |}];
    waiting := [] |}) 1 500).2 = (0, 0).
Proof.
  apply (GetResourceTokenNB_spec {| trk := RT 3000000 2000000 1000 0;
    toks := [{| once := false; err := false; needCpu := 0; needMem := 0; decrement := Some (2000000, 0) |}];
    waiting := [] |}).
  1: split; simpl; try done; try word_lia; repeat constructor; lia.
  all: unfold Mem1MB; simpl; word_lia.
Defined.

(** A caller blocked in [GetResourceToken] is never blocked for good: whenever
    its request fits, and in particular once every token has been closed, its
    next wake-up hands it a token (or nil if its context ended). *)
Theorem GetResourceToken_progress ram cpu s i req :
  is_u64 ram -> is_u64 cpu -> rt_reach ram cpu s -> waiting s !! i = Some req ->
  (req.1 <= ramTotal (trk s) - ramUsed (trk s) /\ req.2 <= cpuTotal (trk s) - cpuUsed (trk s)) \/
  Forall (fun t => once t = true) (toks s) ->
  (exists a t, GetResourceToken_wake (trk s) false req = Token a t /\
     decrement t = Some req /\ err t = false) /\
  GetResourceToken_wake (trk s) true req = NilToken.
Proof.
  intros Hr Hc Hs Hw Hfit. pose proof (rt_reach_inv _ _ _ Hr Hc Hs) as Hi.
  destruct (rt_exact s Hi) as (P1 & P2 & P3 & P4).
  destruct Hi as [Hm Hp Hml Hpl _ _ Hwt].
  pose proof (Forall_lookup_1 _ _ _ _ Hwt Hw) as [Hq1 Hq2].
  assert (req.1 <= ramTotal (trk s) - ramUsed (trk s) /\ req.2 <= cpuTotal (trk s) - cpuUsed (trk s)) as [F1 F2].
  { destruct Hfit as [?|Hall]; [done|]. rewrite Hm, Hp.
    destruct (held_all_closed _ Hall) as [-> ->]. lia. }
  unfold GetResourceToken_wake, isResourceAvailableLocked. rewrite P3, P4.
  rewrite !(proj2 (Z.leb_le _ _)) by lia. simpl. split; [|done].
  do 2 eexists. split; [reflexivity|]. by destruct req.
Qed.

Lemma GetResourceToken_progress_witness :
  exists a t, GetResourceToken_wake (RT 8589934592 0 4000 0) false (134217728, 500) = Token a t /\
    decrement t = Some (134217728, 500).
Proof.
  destruct (GetResourceToken_progress 8589934592 4000
    {| trk := RT 8589934592 0 4000 0; toks := []; waiting := [(134217728, 500)] |} 0 (134217728, 500))
    as [(a & t & H1 & H2 & _) _]; [word_lia|word_lia| |reflexivity|by right|by eauto].
  apply rtc_once. by apply (step_enter (rt_init 8589934592 4000) 128 500 false); [word_lia|word_lia|].
Defined.

(** ** Sizing the machine at start-up *)

(** The fields of the agent's [Config] that bound the resources. *)
Record SizeConfig := SizeCfg { MaxTotalMemory : Z; MaxTotalCPU : Z; PreForkPoolSize : Z }.

Definition minUint64 (a b : Z) : Z := if a <=? b then a else b.
Definition maxUint64 (a b : Z) : Z := if b <=? a then a else b.
Definition clampUint64 (val min max : Z) : Z := maxUint64 (minUint64 val max) min.

Definition getMemoryHeadRoom (usableMemory : Z) (cfg : option SizeConfig) : outcome string Z :=
  let headRoom := usableMemory / 10 in
  let headRoom := match cfg with
                  | Some c => if PreForkPoolSize c =? 0 then headRoom
                              else u64 (headRoom + u64 (Mem1MB * PreForkPoolSize c))
                  | None => headRoom
                  end in
  let maxHeadRoom := 5 * Mem1GB in
  let minHeadRoom := 256 * Mem1MB in
  guard! negb (usableMemory <=? minHeadRoom) else "Not enough memory"%string in
  Ok (clampUint64 headRoom minHeadRoom maxHeadRoom).

(** The files of /proc and /sys are read once: the arguments are what reading
    them gives ([None]: it failed).  [logrus.Fatal] ends the process: [Err]. *)
Definition initializeMemory (linux : bool) (procMem : option Z) (cgroupMem : option Z)
    (cfg : option SizeConfig) : outcome string Z :=
  let! availMemory :=
    (if linux then
       match procMem with
       | None => Err "Cannot get the proper memory information to size server."%string
       | Some totalMemory =>
           let avail := match cgroupMem with Some l => minUint64 l totalMemory | None => totalMemory end in
           let! headRoom := getMemoryHeadRoom avail cfg in Ok (u64 (avail - headRoom))
       end
     else Ok DefaultNonLinuxMemory) in
  let availMemory := match cfg with
                     | Some c => if MaxTotalMemory c =? 0 then availMemory
                                 else minUint64 (MaxTotalMemory c) availMemory
                     | None => availMemory
                     end in
  guard! negb (availMemory =? 0) else "Cannot get the proper memory pool information to size server"%string in
  Ok availMemory.

Definition initializeCPU (linux : bool) (numCPU : Z) (procCPU : option Z) (cgroupCPU : Z)
    (cfg : option SizeConfig) : outcome string Z :=
  let totalCPU := u64 (numCPU * 1000) in
  let availCPU :=
    if linux then
      let avail := match procCPU with Some n => u64 (1000 * n) | None => totalCPU end in
      if 0 <? cgroupCPU then minUint64 avail cgroupCPU else avail
    else totalCPU in
  let availCPU := match cfg with
                  | Some c => if MaxTotalCPU c =? 0 then availCPU else minUint64 (MaxTotalCPU c) availCPU
                  | None => availCPU
                  end in
  guard! negb (availCPU =? 0) else "Cannot get the proper CPU information to size server"%string in
  Ok availCPU.

(** [NewResourceTracker] *)
Definition NewResourceTracker (linux : bool) (procMem cgroupMem : option Z) (numCPU : Z)
    (procCPU : option Z) (cgroupCPU : Z) (cfg : option SizeConfig) : outcome string resourceTracker :=
  let! ram := initializeMemory linux procMem cgroupMem cfg in
  let! cpu := initializeCPU linux numCPU procCPU cgroupCPU cfg in
  Ok {| ramTotal := ram; ramUsed := 0; cpuTotal := cpu; cpuUsed := 0 |}.

(** The contents of a file, trimmed; [None] when it cannot be read. *)
Definition readString (file : option string) : option string := TrimSpace <$> file.

Definition checkCgroupMem (file : option string) : option Z :=
  match readString file with Some v => ParseUint v | None => None end.

Definition checkCgroupCPU (periodFile quotaFile : option string) : Z :=
  match readString periodFile, readString quotaFile with
  | Some periodStr, Some quotaStr =>
      match ParseUint periodStr, ParseInt quotaStr with
      | Some period, Some quota =>
          if (quota <=? 0) || (period <=? 0) then 0 else u64 (quota * 1000) / period
      | _, _ => 0
      end
  | _, _ => 0
  end.

(** The scan of /proc/meminfo, given its lines. *)
Fixpoint procMem_scan (lines : list string) : option Z :=
  match lines with
  | [] => None
  | b :: lines =>
      if negb (HasPrefix b "MemAvailable") then procMem_scan lines
      else match Fields b with
           | [_; num; unit] =>
               match ParseUint num with
               | None => None
               | Some c =>
                   if bool_decide (unit = "kB"%string) then Some (u64 (c * 1024))
                   else if bool_decide (unit = "MB"%string) then Some (u64 (c * (1024 * 1024)))
                   else None
               end
           | _ => None
           end
  end.
Definition checkProcMem (file : option (list string)) : option Z :=
  match file with Some lines => procMem_scan lines | None => None end.

(** The scan of /proc/cpuinfo. *)
Definition is_processor_line (b : string) : bool :=
  match Fields b with
  | [a; c; _] => bool_decide (a = "processor"%string) && bool_decide (c = ":"%string)
  | _ => false
  end.
Definition checkProcCPU (file : option (list string)) : option Z :=
  match file with
  | Some lines => let total := u64 (countZ is_processor_line lines) in
                  if total =? 0 then None else Some total
  | None => None
  end.

Lemma clamp_range v lo hi : lo <= hi -> lo <= clampUint64 v lo hi <= hi.
Proof.
  intros H. unfold clampUint64, minUint64, maxUint64.
  destruct (Z.leb_spec v hi); [destruct (Z.leb_spec lo v)|destruct (Z.leb_spec lo hi)]; lia.
Qed.

(** The head room taken off the machine's memory is refused up to 256 MB,
    always between 256 MB and 5 GB above that, and a proper part of the memory
    when no pre-fork pool is configured; so the tracker starts with the exact
    rest, which is positive.  A pool of 1000 on a 512 MB machine reserves more
    than there is, and the subtraction wraps to nearly 2^64 bytes. *)
Theorem getMemoryHeadRoom_spec usable cfg :
  is_u64 usable ->
  (usable <= 256 * Mem1MB -> getMemoryHeadRoom usable cfg = Err "Not enough memory"%string) /\
  (256 * Mem1MB < usable -> exists h, getMemoryHeadRoom usable cfg = Ok h /\
     256 * Mem1MB <= h <= 5 * Mem1GB /\
     (match cfg with Some c => PreForkPoolSize c = 0 | None => True end \/ 5 * Mem1GB < usable ->
      h < usable /\
      (match cfg with Some c => MaxTotalMemory c = 0 | None => True end ->
       initializeMemory true (Some usable) None cfg = Ok (usable - h)))) /\
  (exists v, initializeMemory true (Some (512 * Mem1MB)) None (Some (SizeCfg 0 0 1000)) = Ok v /\
     maxI64 < v).
Proof.
  intros Hu.
  set (hr := match cfg with
             | Some c => if PreForkPoolSize c =? 0 then usable / 10
                         else u64 (usable / 10 + u64 (Mem1MB * PreForkPoolSize c))
             | None => usable / 10 end).
  set (h := clampUint64 hr (256 * Mem1MB) (5 * Mem1GB)).
  assert (Hh : 256 * Mem1MB < usable -> getMemoryHeadRoom usable cfg = Ok h).
  { intros Hlt. unfold getMemoryHeadRoom. fold hr.
    destruct (Z.leb_spec usable (256 * Mem1MB)); [lia|]. done. }
  assert (Hr : 256 * Mem1MB <= h <= 5 * Mem1GB) by (apply clamp_range; unfold Mem1MB, Mem1GB; lia).
  split; [|split; [|exists 18446744073144159437; split; vm_compute; reflexivity]].
  - intros Hle. unfold getMemoryHeadRoom. by rewrite (proj2 (Z.leb_le _ _) Hle).
  - intros Hlt. exists h. split; [auto|]. split; [done|]. intros Hc.
    assert (h < usable) as Hhu.
    { destruct Hc as [Hc|Hc]; [|lia].
      assert (hr = usable / 10) as Hhr.
      { unfold hr. destruct cfg as [c|]; [|done]. by rewrite Hc. }
      unfold h. rewrite Hhr. unfold clampUint64, minUint64, maxUint64.
      assert (usable / 10 <= usable) by (apply Z.div_le_upper_bound; word_lia).
      assert (usable / 10 < usable) by (apply Z.div_lt_upper_bound; unfold Mem1MB in *; word_lia).
      destruct (Z.leb_spec (usable / 10) (5 * Mem1GB)).
      - destruct (Z.leb_spec (256 * Mem1MB) (usable / 10)); lia.
      - destruct (Z.leb_spec (256 * Mem1MB) (5 * Mem1GB)); lia. }
    split; [done|]. intros Hmax. unfold initializeMemory. rewrite Hh by done. cbn [obind].
    rewrite u64_small by (unfold Mem1MB in *; word_lia).
    assert ((usable - h =? 0) = false) as E by lia.
    destruct cfg as [c|]; [rewrite Hmax|]; simpl; by rewrite E.
Qed.

Lemma getMemoryHeadRoom_spec_witness :
  exists h, getMemoryHeadRoom 8589934592 None = Ok h /\ h < 8589934592.
Proof.
  destruct (getMemoryHeadRoom_spec 8589934592 None ltac:(word_lia)) as (_ & H & _).
  destruct H as (h & Hh & _ & Hl); [unfold Mem1MB; lia|].
  exists h. split; [exact Hh|]. apply Hl. by left.
Defined.
