(* ===== verification/Evictor.v ===== *)
(** * Eviction of hot containers (src/api/agent/evictor.go)

    Hot containers register a token; a starved request asks for memory and CPU
    and the evictor picks the oldest evictable containers of other slot queues
    that together satisfy it.  Tokens are shared objects: [heap] is the store
    of all tokens ever created (a pointer is an index), the map and the slot
    list of the evictor refer to them.  A channel is the flag that it is
    closed; closing a closed channel panics.  The theorems: the slot list and
    the map stay consistent under any sequence of operations, and
    [PerformEviction] never panics, evicts all it picked or nothing, and picks
    the shortest prefix of candidates that satisfies the request. *)
From S2P Require Import Prelude.

(** ** State *)

Record tokenKey := TKey { tk_id : string; tk_slotId : string; tk_memory : Z; tk_cpu : Z }.

Record EvictToken := EToken {
  key : tokenKey;
  evictable : bool;
  C_closed : bool;
  DoneChan_closed : bool
}.

Record evictor := Evictor_ {
  heap : list EvictToken;
  tokens : gmap string nat;
  slots : list tokenKey
}.

Definition NewEvictor : evictor := {| heap := []; tokens := ∅; slots := [] |}.

Definition isEvicted (t : EvictToken) : bool := C_closed t.

Definition isEligible (k : tokenKey) : bool := negb ((tk_memory k =? 0) && (tk_cpu k =? 0)).

Definition set_evictable (b : bool) (t : EvictToken) : EvictToken :=
  {| key := key t; evictable := b; C_closed := C_closed t; DoneChan_closed := DoneChan_closed t |}.
Definition close_C (t : EvictToken) : EvictToken :=
  {| key := key t; evictable := evictable t; C_closed := true; DoneChan_closed := DoneChan_closed t |}.
Definition close_Done (t : EvictToken) : EvictToken :=
  {| key := key t; evictable := evictable t; C_closed := C_closed t; DoneChan_closed := true |}.

Definition with_heap (e : evictor) (h : list EvictToken) : evictor :=
  {| heap := h; tokens := tokens e; slots := slots e |}.

(** [SetEvictable] on the token at [p]. *)
Definition SetEvictable (e : evictor) (p : nat) (b : bool) : evictor :=
  with_heap e (alter (set_evictable b) p (heap e)).

(** [new_id] is what [id.New().String()] returns; [logrus.Fatalf] is [Err].
    The result is the pointer to the new token. *)
Definition CreateEvictToken (e : evictor) (new_id slotId : string) (mem cpu : Z) : outcome string (evictor * nat) :=
  let k := {| tk_id := new_id; tk_slotId := slotId; tk_memory := mem; tk_cpu := cpu |} in
  let tok := {| key := k; evictable := false; C_closed := false; DoneChan_closed := false |} in
  let p := length (heap e) in
  if negb (isEligible k) then Ok (with_heap e (heap e ++ [tok]), p)
  else match tokens e !! new_id with
       | Some _ => Err "id collusion"%string
       | None => Ok ({| heap := heap e ++ [tok]; tokens := <[new_id := p]> (tokens e);
                        slots := slots e ++ [k] |}, p)
       end.

Definition has_id (i : string) (k : tokenKey) : bool := bool_decide (tk_id k = i).

Definition DeleteEvictToken (e : evictor) (p : nat) : outcome string evictor :=
  match heap e !! p with
  | None => Panic
  | Some t =>
      if negb (isEligible (key t)) then Ok e
      else
        let slots' := remove_first (has_id (tk_id (key t))) (slots e) in
        let tokens' := delete (tk_id (key t)) (tokens e) in
        if DoneChan_closed t then Panic
        else Ok {| heap := <[p := close_Done t]> (heap e); tokens := tokens'; slots := slots' |}
  end.

(** The token an id of the map points to. *)
Definition deref_id (e : evictor) (i : string) : option EvictToken :=
  match tokens e !! i with Some p => heap e !! p | None => None end.

(** What the first loop has summed up: memory, CPU, the ids taken. *)
Definition scan_acc : Type := Z * Z * list string.

(** One iteration of the first loop; the flag says that the need is met. *)
Definition scan_one (e : evictor) (slotId : string) (mem cpu : Z) (val : tokenKey) (acc : scan_acc)
  : outcome string (scan_acc * bool) :=
  let '(totalMemory, totalCpu, keys) := acc in
  if bool_decide (slotId = tk_slotId val) then Ok (acc, false)
  else match deref_id e (tk_id val) with
       | None => Panic
       | Some t =>
           if negb (evictable t) then Ok (acc, false)
           else
             let totalMemory := u64 (totalMemory + tk_memory val) in
             let totalCpu := u64 (totalCpu + tk_cpu val) in
             let keys := keys ++ [tk_id val] in
             Ok ((totalMemory, totalCpu, keys), (mem <=? totalMemory) && (cpu <=? totalCpu))
       end.

(** The first loop: sum up the candidates until the need is met. *)
Fixpoint evict_scan (e : evictor) (slotId : string) (mem cpu : Z) (l : list tokenKey) (acc : scan_acc)
  : outcome string (bool * list string) :=
  match l with
  | [] => Ok (false, acc.2)
  | val :: l =>
      let! r := scan_one e slotId mem cpu val acc in
      if r.2 then Ok (true, r.1.2) else evict_scan e slotId mem cpu l r.1
  end.

(** The inner loop of the commit: from [idx] on, cut the slot with this id. *)
Fixpoint cut_from (fuel idx : nat) (i : string) (sl : list tokenKey) : nat * list tokenKey :=
  match fuel with
  | O => (idx, sl)
  | S fuel =>
      match sl !! idx with
      | None => (idx, sl)
      | Some k => if has_id i k then (idx, delete idx sl) else cut_from fuel (S idx) i sl
      end
  end.

(** The commit: the index is not reset between the keys. *)
Fixpoint evict_commit (e : evictor) (keys : list string) (idx : nat) (chans : list nat)
  : outcome string (evictor * list nat) :=
  match keys with
  | [] => Ok (e, chans)
  | i :: keys =>
      let (idx, sl) := cut_from (S (length (slots e))) idx i (slots e) in
      match tokens e !! i with
      | None => Panic
      | Some p =>
          evict_commit {| heap := heap e; tokens := delete i (tokens e); slots := sl |} keys idx (chans ++ [p])
      end
  end.

(** Closing the notification channels after the lock is released. *)
Fixpoint close_all (h : list EvictToken) (ps : list nat) : outcome string (list EvictToken) :=
  match ps with
  | [] => Ok h
  | p :: ps =>
      match h !! p with
      | None => Panic
      | Some t => if C_closed t then Panic else close_all (<[p := close_C t]> h) ps
      end
  end.

(** The result is the list of tokens whose [DoneChan] is returned. *)
Definition PerformEviction (e : evictor) (slotId : string) (mem cpu : Z) : outcome string (evictor * list nat) :=
  if (mem =? 0) && (cpu =? 0) then Ok (e, [])
  else
    let! r := evict_scan e slotId mem cpu (slots e) (0, 0, []) in
    if r.1 then
      let! c := evict_commit e r.2 0 [] in
      let! h := close_all (heap c.1) c.2 in
      Ok (with_heap c.1 h, c.2)
    else Ok (e, []).

(** ** Invariant *)

Definition live (t : EvictToken) : Prop := C_closed t = false /\ DoneChan_closed t = false.

(** The map and the slot list describe the same tokens.  [P] are the tokens
    that were picked by an eviction but whose channel [C] is not closed yet. *)
Record ev_inv (P : list nat) (e : evictor) : Prop := {
  ids_unique : NoDup (tk_id ∘ key <$> heap e);
  slots_unique : NoDup (tk_id <$> slots e);
  slots_tokens : forall k, k ∈ slots e -> exists p t, tokens e !! tk_id k = Some p /\
    heap e !! p = Some t /\ key t = k /\ live t /\ isEligible k = true;
  tokens_slots : forall i p, tokens e !! i = Some p -> i ∈ (tk_id <$> slots e);
  live_slots : forall p t, heap e !! p = Some t -> isEligible (key t) = true -> live t ->
    p ∈ P \/ key t ∈ slots e;
  picked_once : NoDup P;
  picked_open : forall p, p ∈ P -> exists t, heap e !! p = Some t /\ C_closed t = false /\
    tk_id (key t) ∉ (tk_id <$> slots e)
}.
Arguments ids_unique {P e}.
Arguments slots_unique {P e}.
Arguments slots_tokens {P e}.
Arguments tokens_slots {P e}.
Arguments live_slots {P e}.
Arguments picked_once {P e}.
Arguments picked_open {P e}.

(** ** Reference: who is evicted *)

(** A candidate: a container of another slot queue that is evictable now. *)
Definition candidate (e : evictor) (slotId : string) (k : tokenKey) : Prop :=
  slotId <> tk_slotId k /\ evictable <$> deref_id e (tk_id k) = Some true.
#[export] Instance candidate_dec e slotId k : Decision (candidate e slotId k).
Proof. unfold candidate. apply _. Defined.

Definition candidates (e : evictor) (slotId : string) : list tokenKey :=
  filter (candidate e slotId) (slots e).

Definition total_mem (ks : list tokenKey) : Z := sumZ (tk_memory <$> ks).
Definition total_cpu (ks : list tokenKey) : Z := sumZ (tk_cpu <$> ks).
Definition enough (mem cpu : Z) (ks : list tokenKey) : Prop :=
  mem <= total_mem ks /\ cpu <= total_cpu ks.

(** Machine words whose sums do not overflow: the memory and CPU of live
    containers were all granted by one resource tracker. *)
Definition words (ks : list tokenKey) : Prop :=
  Forall (fun k => 0 <= tk_memory k /\ 0 <= tk_cpu k) ks /\ total_mem ks < w64 /\ total_cpu ks < w64.

(** ** Lemmas *)

Lemma total_app ks ks' :
  total_mem (ks ++ ks') = total_mem ks + total_mem ks' /\
  total_cpu (ks ++ ks') = total_cpu ks + total_cpu ks'.
Proof. unfold total_mem, total_cpu. rewrite !fmap_app, !sumZ_app. done. Qed.

Lemma total_cons k ks :
  total_mem (k :: ks) = tk_memory k + total_mem ks /\ total_cpu (k :: ks) = tk_cpu k + total_cpu ks.
Proof. done. Qed.

Lemma total_nil : total_mem [] = 0 /\ total_cpu [] = 0.
Proof. done. Qed.

Lemma total_nonneg ks : Forall (fun k => 0 <= tk_memory k /\ 0 <= tk_cpu k) ks ->
  0 <= total_mem ks /\ 0 <= total_cpu ks.
Proof.
  intros H. split; apply sumZ_nonneg, Forall_fmap; eapply Forall_impl; try exact H; intros k []; done.
Qed.

Lemma words_app_l ks ks' : words (ks ++ ks') -> words ks.
Proof.
  intros (H & Hm & Hc). apply Forall_app in H as [H1 H2].
  destruct (total_app ks ks') as [Em Ec]. destruct (total_nonneg _ H2).
  split; [done|]. lia.
Qed.

(** The scan: what it has taken is a prefix of the candidates, the shortest
    one that is enough, or all of them. *)
Lemma evict_scan_spec e slotId mem cpu l dn :
  Forall (fun k => is_Some (deref_id e (tk_id k))) l ->
  words (dn ++ l) ->
  ~ enough mem cpu dn ->
  exists (n : nat) sat,
    evict_scan e slotId mem cpu l (total_mem dn, total_cpu dn, tk_id <$> dn) =
      Ok (sat, tk_id <$> dn ++ take n (filter (candidate e slotId) l)) /\
    (n <= length (filter (candidate e slotId) l))%nat /\
    (sat = true <-> enough mem cpu (dn ++ take n (filter (candidate e slotId) l))) /\
    (forall m, (m < n)%nat -> ~ enough mem cpu (dn ++ take m (filter (candidate e slotId) l))) /\
    (sat = false -> n = length (filter (candidate e slotId) l)).
Proof.
  revert dn. induction l as [|k l IH]; intros dn Hl Hw Hne.
  { exists 0%nat, false. cbn. rewrite app_nil_r. naive_solver lia. }
  apply Forall_cons in Hl as [[t Ht] Hl]. cbn [evict_scan]. unfold scan_one.
  assert (Hsk : ~ candidate e slotId k ->
    filter (candidate e slotId) (k :: l) = filter (candidate e slotId) l) by (intros; by rewrite filter_cons_False).
  assert (Hw' : words (dn ++ l)).
  { destruct Hw as (Hf & Hm & Hc). apply Forall_app in Hf as [Hf1 [Hk Hf2]%Forall_cons].
    destruct (total_app dn (k :: l)) as [Em Ec], (total_app dn l) as [Em' Ec'], (total_cons k l).
    split; [by apply Forall_app|]. lia. }
  case_bool_decide as Hs.
  { rewrite Hsk by (unfold candidate; naive_solver). by apply IH. }
  rewrite Ht. destruct (evictable t) eqn:Ev; cbn [negb obind fst snd].
  2: { rewrite Hsk by (unfold candidate; rewrite Ht; simpl; naive_solver congruence). by apply IH. }
  assert (Hcand : candidate e slotId k) by (split; [done|]; rewrite Ht; simpl; by rewrite Ev).
  rewrite filter_cons_True by done.
  assert (Hwk : words (dn ++ [k])).
  { replace (dn ++ k :: l) with ((dn ++ [k]) ++ l) in Hw by (by rewrite <- app_assoc). by apply words_app_l in Hw. }
  assert (Et : u64 (total_mem dn + tk_memory k) = total_mem (dn ++ [k]) /\
               u64 (total_cpu dn + tk_cpu k) = total_cpu (dn ++ [k])).
  { destruct (total_app dn [k]) as [Em Ec], Hwk as (Hf & ? & ?), (total_cons k []), total_nil.
    destruct (total_nonneg _ Hf). rewrite !u64_small by word_lia. lia. }
  destruct Et as [-> ->].
  replace ((tk_id <$> dn) ++ [tk_id k]) with (tk_id <$> dn ++ [k]) by (by rewrite fmap_app).
  destruct ((mem <=? total_mem (dn ++ [k])) && (cpu <=? total_cpu (dn ++ [k]))) eqn:E.
  - apply andb_prop in E as [E1%Z.leb_le E2%Z.leb_le].
    exists 1%nat, true. cbn [take]. split; [done|]. split; [simpl; lia|].
    split; [done|]. split; [|done].
    intros m Hm. assert (m = 0%nat) as -> by lia. cbn [take]. by rewrite app_nil_r.
  - assert (Hne' : ~ enough mem cpu (dn ++ [k])).
    { intros [E1%Z.leb_le E2%Z.leb_le]. by rewrite E1, E2 in E. }
    destruct (IH (dn ++ [k]) Hl) as (n & sat & Hr & Hn & Hsat & Hmin & Hall); [|done|].
    { by rewrite <- app_assoc. }
    exists (S n), sat. rewrite <- app_assoc in *. cbn [take app] in *.
    split; [done|]. split; [simpl; lia|]. split; [done|]. split.
    + intros [|m] Hm; [cbn [take]; by rewrite app_nil_r|].
      specialize (Hmin m ltac:(lia)). rewrite <- app_assoc in Hmin. done.
    + intros Hf. simpl. by rewrite <- Hall.
Qed.

(** *** The commit *)

Lemma has_id_spec i k : has_id i k = true <-> tk_id k = i.
Proof. apply bool_decide_eq_true. Qed.

(** The search from [idx] finds the key among the remaining slots. *)
Lemma cut_from_spec fuel (pre r1 r2 : list tokenKey) k i :
  (length r1 < fuel)%nat -> tk_id k = i -> Forall (fun k' => tk_id k' <> i) r1 ->
  cut_from fuel (length pre) i (pre ++ r1 ++ k :: r2) =
  ((length pre + length r1)%nat, pre ++ r1 ++ r2).
Proof.
  revert pre r1. induction fuel as [|fuel IH]; intros pre r1 Hf Hk Hr; [lia|].
  cbn [cut_from]. destruct r1 as [|k1 r1]; cbn [app].
  - rewrite list_lookup_middle by done. rewrite (proj2 (has_id_spec i k) Hk).
    f_equal; [simpl; lia|]. by rewrite delete_middle.
  - rewrite list_lookup_middle by done. apply Forall_cons in Hr as [Hk1 Hr].
    destruct (has_id i k1) eqn:E; [by apply has_id_spec in E|].
    specialize (IH (pre ++ [k1]) r1). rewrite length_app in IH. cbn [length] in IH.
    replace (length pre + 1)%nat with (S (length pre)) in IH by lia.
    rewrite <- !app_assoc in IH. cbn [app] in IH. rewrite IH by (simpl in Hf; done || lia).
    f_equal. simpl. lia.
Qed.

(** Remaining slots: those whose id is not among the keys. *)
Definition not_in (keys : list string) (k : tokenKey) : Prop := tk_id k ∉ keys.
#[export] Instance not_in_dec keys k : Decision (not_in keys k).
Proof. unfold not_in. apply _. Defined.

Lemma filter_not_in_cons i keys (l : list tokenKey) :
  i ∉ (tk_id <$> l) -> filter (not_in (i :: keys)) l = filter (not_in keys) l.
Proof.
  induction l as [|k l IH]; intros Hi; [done|].
  rewrite fmap_cons, not_elem_of_cons in Hi. destruct Hi as [Hk Hi].
  rewrite !filter_cons, IH by done.
  assert (not_in (i :: keys) k <-> not_in keys k) as E.
  { unfold not_in. rewrite not_elem_of_cons. naive_solver. }
  destruct (decide (not_in (i :: keys) k)), (decide (not_in keys k)); naive_solver.
Qed.

Lemma filter_not_in_id keys (l : list tokenKey) :
  (forall i, i ∈ keys -> i ∉ (tk_id <$> l)) -> filter (not_in keys) l = l.
Proof.
  intros H. induction l as [|k l IH]; [done|].
  rewrite filter_cons_True; [f_equal; apply IH; set_solver|].
  intros Hk. apply (H _ Hk). rewrite fmap_cons. left.
Qed.

(** The keys are found in slot order, so a single pass of the index cuts
    exactly them. *)
Lemma evict_commit_spec e keys pre rest chans :
  slots e = pre ++ rest -> NoDup (tk_id <$> slots e) ->
  sublist keys (tk_id <$> rest) ->
  Forall (fun i => is_Some (tokens e !! i)) keys ->
  exists tk' ps,
    evict_commit e keys (length pre) chans =
      Ok ({| heap := heap e; tokens := tk'; slots := pre ++ filter (not_in keys) rest |}, chans ++ ps) /\
    Forall2 (fun i p => tokens e !! i = Some p) keys ps /\
    (forall i, tk' !! i = if decide (i ∈ keys) then None else tokens e !! i).
Proof.
  revert e pre rest chans. induction keys as [|i keys IH]; intros e pre rest chans Hs Hn Hsub Htk.
  { exists (tokens e), []. cbn [evict_commit]. rewrite filter_not_in_id, app_nil_r.
    - split; [by destruct e; simpl in *; subst|]. split; [constructor|]. intros i.
      destruct (decide (i ∈ [])) as [H|]; [by apply not_elem_of_nil in H|done].
    - intros i H. by apply not_elem_of_nil in H. }
  apply Forall_cons in Htk as [[p Hp] Htk].
  assert (exists r1 k r2, rest = r1 ++ k :: r2 /\ tk_id k = i /\
    sublist keys (tk_id <$> r2)) as (r1 & k & r2 & -> & Hk & Hsub').
  { apply sublist_cons_l in Hsub as (l1 & l2 & E & Hsub).
    apply fmap_app_inv in E as (r1 & r2 & -> & E2 & ->).
    destruct r2 as [|k r2]; [done|]. rewrite fmap_cons in E2. simplify_eq. eauto 10. }
  rewrite Hs, !fmap_app, fmap_cons, Hk in Hn.
  assert (Hr1 : (i ∉ (tk_id <$> r1)) /\ (i ∉ (tk_id <$> r2)) /\ (i ∉ (tk_id <$> pre))).
  { apply NoDup_app in Hn as (_ & Hd & Hn). apply NoDup_app in Hn as (_ & Hd' & Hn).
    apply NoDup_cons in Hn as [Hn _]. split_and!; [|done|].
    - intros Hi. apply (Hd' _ Hi). left.
    - intros Hi. apply (Hd _ Hi). set_solver. }
  destruct Hr1 as (Hr1 & Hr2 & Hpre).
  cbn [evict_commit]. rewrite Hs.
  rewrite (cut_from_spec _ pre r1 r2 k i); [|rewrite !length_app; simpl; lia|done|].
  2: { apply Forall_forall. intros k' Hk' E. apply Hr1. rewrite <- E. by apply list_elem_of_fmap_2. }
  rewrite Hp. rewrite <- length_app.
  edestruct (IH {| heap := heap e; tokens := delete i (tokens e); slots := pre ++ r1 ++ r2 |}
    (pre ++ r1) r2 (chans ++ [p])) as (tk' & ps & Hc & Hps & Htk').
  - simpl. by rewrite app_assoc.
  - simpl. rewrite !fmap_app. eapply sublist_NoDup; [exact Hn|].
    apply sublist_app; [done|]. apply sublist_app; [done|]. by constructor.
  - done.
  - assert (Hni : i ∉ keys). { intros Hi. apply Hr2. eapply elem_of_submseteq; [exact Hi|]. by apply sublist_submseteq. }
    simpl. rewrite Forall_forall in Htk |- *. intros j Hj.
    rewrite lookup_delete_ne by set_solver. by apply Htk.
  - exists tk', (p :: ps). simpl in Hc. rewrite Hc. split.
    { assert (filter (not_in (i :: keys)) (r1 ++ k :: r2) = r1 ++ filter (not_in keys) r2) as ->.
      { rewrite filter_app, filter_cons_False by (unfold not_in; rewrite Hk; set_solver).
        rewrite (filter_not_in_cons i keys r2) by done.
        rewrite (filter_not_in_id (i :: keys) r1); [done|].
        intros j [->|Hj]%elem_of_cons; [done|]. intros Hj1.
        assert (j ∈ (tk_id <$> r2)) as Hj2 by (eapply elem_of_submseteq; [exact Hj|by apply sublist_submseteq]).
        apply NoDup_app in Hn as (_ & _ & Hn). apply NoDup_app in Hn as (_ & Hd' & _).
        apply (Hd' _ Hj1). by right. }
      by rewrite <- !app_assoc. }
    split.
    + constructor; [done|]. eapply Forall2_impl; [exact Hps|].
      intros j q Hq. simpl in Hq. apply lookup_delete_Some in Hq. naive_solver.
    + intros j. rewrite Htk'. simpl. destruct (decide (j = i)) as [->|Hji].
      * rewrite lookup_delete_eq. destruct (decide (i ∈ i :: keys)); [by case_decide|set_solver].
      * rewrite lookup_delete_ne by done.
        destruct (decide (j ∈ keys)), (decide (j ∈ i :: keys)); set_solver.
Qed.

Section Inv.
  Context {P : list nat} (e : evictor) (Hinv : ev_inv P e).

Lemma heap_id_inj p q t u :
  heap e !! p = Some t -> heap e !! q = Some u -> tk_id (key t) = tk_id (key u) -> p = q.
Proof.
  intros Hp Hq E. eapply NoDup_lookup; [exact (ids_unique Hinv)|..];
    rewrite list_lookup_fmap; [rewrite Hp|rewrite Hq]; simpl; [done|]. by rewrite E.
Qed.

Lemma slots_deref k : k ∈ slots e -> exists t, deref_id e (tk_id k) = Some t /\ key t = k /\ live t.
Proof.
  intros Hk. destruct (slots_tokens Hinv k Hk) as (p & t & Hp & Ht & Hkey & Hl & _).
  exists t. unfold deref_id. by rewrite Hp, Ht.
Qed.

(** A pointer of the map and the token behind it. *)
Lemma tokens_heap i p : tokens e !! i = Some p ->
  exists t, heap e !! p = Some t /\ tk_id (key t) = i /\ live t.
Proof.
  intros Hp. apply (tokens_slots Hinv) in Hp as Hi.
  apply list_elem_of_fmap in Hi as (k & -> & Hk).
  destruct (slots_tokens Hinv k Hk) as (p' & t & Hp' & Ht & Hkey & Hl & _).
  simplify_eq. eauto.
Qed.

(** The tokens [ps] with the ids [keys] leave the map and the slot list. *)
Lemma commit_inv keys ps tk' :
  Forall2 (fun i p => tokens e !! i = Some p) keys ps -> NoDup keys ->
  (forall i, tk' !! i = if decide (i ∈ keys) then None else tokens e !! i) ->
  ev_inv (ps ++ P) {| heap := heap e; tokens := tk'; slots := filter (not_in keys) (slots e) |}.
Proof.
  intros Hps HN Htk.
  assert (Hkp : forall p, p ∈ ps -> exists t, heap e !! p = Some t /\ tk_id (key t) ∈ keys /\ live t).
  { intros p [j Hj]%list_elem_of_lookup. pose proof (Forall2_lookup_r _ _ _ _ _ Hps Hj) as (i & Hi & Hip).
    destruct (tokens_heap i p Hip) as (t & Ht & <- & Hl). exists t. split_and!; try done.
    by eapply list_elem_of_lookup_2. }
  assert (Hpk : forall p t, heap e !! p = Some t -> tk_id (key t) ∈ keys -> key t ∈ slots e -> p ∈ ps).
  { intros p t Ht [j Hj]%list_elem_of_lookup Hs.
    pose proof (Forall2_lookup_l _ _ _ _ _ Hps Hj) as (q & Hq & Hiq).
    destruct (tokens_heap _ _ Hiq) as (u & Hu & Hid & _).
    assert (q = p) as -> by (eapply heap_id_inj; eauto). by eapply list_elem_of_lookup_2. }
  split; simpl.
  - apply Hinv.
  - eapply sublist_NoDup; [apply (slots_unique Hinv)|]. apply fmap_sublist, sublist_filter.
  - intros k [Hk1 Hk2]%list_elem_of_filter.
    destruct (slots_tokens Hinv k Hk2) as (p & t & Hp & Ht & <- & Hl & He).
    exists p, t. rewrite Htk. unfold not_in in Hk1. by rewrite decide_False.
  - intros i p. rewrite Htk. destruct (decide (i ∈ keys)) as [|Hi]; [done|]. intros Hp.
    apply (tokens_slots Hinv) in Hp. apply list_elem_of_fmap in Hp as (k & -> & Hk).
    apply list_elem_of_fmap. exists k. split; [done|]. by apply list_elem_of_filter.
  - intros p t Ht He Hl. destruct (live_slots Hinv p t Ht He Hl) as [Hin|Hs]; [left; set_solver|].
    destruct (decide (tk_id (key t) ∈ keys)) as [Hk|Hk].
    + left. apply elem_of_app. left. by eapply Hpk.
    + right. by apply list_elem_of_filter.
  - apply NoDup_app. split; [|split; [|apply Hinv]].
    + apply NoDup_alt. intros i j p Hi Hj.
      pose proof (Forall2_lookup_r _ _ _ _ _ Hps Hi) as (a & Ha & Hap).
      pose proof (Forall2_lookup_r _ _ _ _ _ Hps Hj) as (b & Hb & Hbp).
      destruct (tokens_heap a p Hap) as (t & Ht & <- & _).
      destruct (tokens_heap b p Hbp) as (t' & Ht' & <- & _). simplify_eq.
      by eapply NoDup_lookup.
    + intros p [j Hj]%list_elem_of_lookup Hin. destruct (picked_open Hinv p Hin) as (t & Ht & _ & Hn).
      pose proof (Forall2_lookup_r _ _ _ _ _ Hps Hj) as (i & Hi & Hip).
      destruct (tokens_heap i p Hip) as (t' & Ht' & <- & _). simplify_eq.
      by apply Hn, (tokens_slots Hinv _ p).
  - intros p [Hin|Hin]%elem_of_app.
    + destruct (Hkp p Hin) as (t & Ht & Hk & [Hc _]). exists t. split; [done|]. split; [done|].
      intros (k & E & [Hn _]%list_elem_of_filter)%list_elem_of_fmap. unfold not_in in Hn. congruence.
    + destruct (picked_open Hinv p Hin) as (t & Ht & Hc & Hn). exists t. split; [done|]. split; [done|].
      intros (k & E & [_ Hk]%list_elem_of_filter)%list_elem_of_fmap. apply Hn. rewrite E.
      by apply list_elem_of_fmap_2.
Qed.
End Inv.

(** The notification of a picked token. *)
Lemma close_inv P e p : ev_inv (p :: P) e -> exists t, heap e !! p = Some t /\ C_closed t = false /\
  ev_inv P (with_heap e (<[p := close_C t]> (heap e))).
Proof.
  intros Hinv. destruct (picked_open Hinv p) as (t & Ht & Hc & Hn); [left|].
  exists t. split; [done|]. split; [done|].
  pose proof (picked_once Hinv) as [Hp HP]%NoDup_cons.
  split; simpl; try apply Hinv; try done.
  - rewrite (insert_fmap_id _ _ _ t) by done. apply Hinv.
  - intros k Hk. destruct (slots_tokens Hinv k Hk) as (q & u & Hq & Hu & Hku & Hr). exists q, u.
    rewrite (insert_lookup _ _ _ _ _ Ht). destruct (decide (q = p)) as [->|]; [|done].
    destruct Hn. assert (t = u) as -> by congruence. rewrite Hku. by apply list_elem_of_fmap_2.
  - intros q u. rewrite (insert_lookup _ _ _ _ _ Ht).
    destruct (decide (q = p)) as [->|Hne]; intros Hu He Hl; [destruct Hl; by simplify_eq/=|].
    destruct (live_slots Hinv q u Hu He Hl) as [Hin|]; [left|by right]. set_solver.
  - intros q Hq. destruct (picked_open Hinv q) as (u & Hu & ?); [by right|]. exists u.
    rewrite (insert_lookup _ _ _ _ _ Ht), decide_False by set_solver. done.
Qed.

Lemma ev_inv_Permutation P P' e : P ≡ₚ P' -> ev_inv P e -> ev_inv P' e.
Proof.
  intros HP Hi. split; try apply Hi.
  - intros p t. rewrite <- HP. apply Hi.
  - rewrite <- HP. apply Hi.
  - intros p. rewrite <- HP. apply Hi.
Qed.

Lemma close_all_ok P e ps : ev_inv (ps ++ P) e -> exists h, close_all (heap e) ps = Ok h /\
  ev_inv P (with_heap e h) /\
  forall p, h !! p = if decide (p ∈ ps) then close_C <$> heap e !! p else heap e !! p.
Proof.
  revert e. induction ps as [|p ps IH]; intros e Hinv.
  { exists (heap e). split; [done|]. split; [by destruct e|]. intros p.
    destruct (decide (p ∈ [])) as [H|]; [|done]. by apply not_elem_of_nil in H. }
  pose proof (picked_once Hinv) as [Hp _]%NoDup_cons.
  destruct (close_inv _ e p Hinv) as (t & Ht & Hc & Hi).
  destruct (IH _ Hi) as (h & Hh & Hih & Hl). cbn [close_all]. rewrite Ht, Hc.
  exists h. split; [exact Hh|]. split; [done|]. intros q. rewrite Hl. simpl.
  rewrite (insert_lookup _ _ _ _ _ Ht). destruct (decide (q = p)) as [->|Hqp].
  - rewrite decide_False by set_solver. rewrite decide_True by left. by rewrite Ht.
  - destruct (decide (q ∈ ps)), (decide (q ∈ p :: ps)); set_solver.
Qed.

(** One iteration and the whole loop do not panic when every id they look up
    is in the map; the ids taken are in slot order. *)
Lemma scan_one_total e slotId mem cpu k acc : is_Some (deref_id e (tk_id k)) ->
  exists acc' b, scan_one e slotId mem cpu k acc = Ok (acc', b) /\
    (acc'.2 = acc.2 /\ b = false \/ acc'.2 = acc.2 ++ [tk_id k]).
Proof.
  intros [t Ht]. destruct acc as [[tm tc] keys]. unfold scan_one. rewrite Ht.
  case_bool_decide; [by eauto 10|]. destruct (negb (evictable t)); [by eauto 10|].
  do 2 eexists. split; [reflexivity|]. by right.
Qed.

Lemma evict_scan_total e slotId mem cpu l acc :
  Forall (fun k => is_Some (deref_id e (tk_id k))) l ->
  exists sat ks, evict_scan e slotId mem cpu l acc = Ok (sat, acc.2 ++ ks) /\
    sublist ks (tk_id <$> l).
Proof.
  revert acc. induction l as [|k l IH]; intros acc Hl.
  { exists false, []. rewrite app_nil_r. split; [done|constructor]. }
  apply Forall_cons in Hl as [Hk Hl]. cbn [evict_scan]. rewrite fmap_cons.
  destruct (scan_one_total e slotId mem cpu k acc Hk) as (acc' & b & -> & Hb). cbn [obind fst snd].
  destruct b.
  - destruct Hb as [[_ ?]|Hb]; [done|]. exists true, [tk_id k]. rewrite Hb. split; [done|].
    constructor. apply sublist_nil_l.
  - destruct (IH acc' Hl) as (sat & ks & -> & Hs). destruct Hb as [[-> _]| ->].
    + exists sat, ks. split; [done|by constructor].
    + exists sat, (tk_id k :: ks). rewrite <- app_assoc. split; [done|by constructor].
Qed.

Section Perform.
  Context {P : list nat} (e : evictor) (Hinv : ev_inv P e).

Lemma slots_deref_all : Forall (fun k => is_Some (deref_id e (tk_id k))) (slots e).
Proof.
  apply Forall_forall. intros k Hk. destruct (slots_deref e Hinv k Hk) as (t & -> & _). by eexists.
Qed.

(** The commit, for ids in slot order. *)
Lemma commit_ok keys :
  sublist keys (tk_id <$> slots e) ->
  exists e' ps, evict_commit e keys 0 [] = Ok (e', ps) /\ ev_inv (ps ++ P) e' /\
    heap e' = heap e /\ slots e' = filter (not_in keys) (slots e) /\
    Forall2 (fun i p => tokens e !! i = Some p) keys ps.
Proof.
  intros Hsub.
  assert (Htk : Forall (fun i => is_Some (tokens e !! i)) keys).
  { apply Forall_forall. intros i Hi.
    assert (Hin : i ∈ (tk_id <$> slots e)) by (eapply elem_of_submseteq; [exact Hi|by apply sublist_submseteq]).
    apply list_elem_of_fmap in Hin as (k & -> & Hk).
    destruct (slots_tokens Hinv k Hk) as (p & t & Hp & _). by eexists. }
  destruct (evict_commit_spec e keys [] (slots e) [] eq_refl (slots_unique Hinv) Hsub Htk)
    as (tk' & ps & Hc & Hps & Htk').
  cbn [length app] in Hc. do 2 eexists. split; [exact Hc|]. split; [|done].
  apply (commit_inv e Hinv keys); [done| |done].
  eapply sublist_NoDup; [apply (slots_unique Hinv)|exact Hsub].
Qed.

(** The commit and the notifications. *)
Lemma evict_keys keys :
  sublist keys (tk_id <$> slots e) ->
  exists e' ps,
    (let! c := evict_commit e keys 0 [] in
     let! h := close_all (heap c.1) c.2 in Ok (with_heap c.1 h, c.2)) = Ok (e', ps) /\
    ev_inv P e' /\ slots e' = filter (not_in keys) (slots e) /\
    Forall2 (fun i p => exists t, heap e !! p = Some t /\ tk_id (key t) = i /\ live t /\
      heap e' !! p = Some (close_C t)) keys ps /\
    (forall p, p ∉ ps -> heap e' !! p = heap e !! p).
Proof.
  intros Hsub. destruct (commit_ok keys Hsub) as (e1 & ps & -> & Hi & Hh1 & Hs & Hps). cbn [obind fst snd].
  destruct (close_all_ok P e1 ps Hi) as (h & -> & Hih & Hl). cbn [obind].
  eexists _, ps. split; [reflexivity|]. split; [done|]. split; [done|]. simpl. rewrite Hh1 in Hl. split.
  - apply Forall2_same_length_lookup. split; [by eapply Forall2_length|].
    intros j i p Hj Hp. pose proof (Forall2_lookup_lr _ _ _ _ _ _ Hps Hj Hp) as Hip.
    destruct (tokens_heap e Hinv i p Hip) as (t & Ht & Hid & Hlive).
    exists t. split_and!; try done. rewrite Hl, Ht, decide_True; [done|]. by eapply list_elem_of_lookup_2.
  - intros p Hp. by rewrite Hl, decide_False.
Qed.

Lemma PerformEviction_total slotId mem cpu :
  exists e' ps, PerformEviction e slotId mem cpu = Ok (e', ps) /\ ev_inv P e'.
Proof.
  unfold PerformEviction. destruct (_ && _); [by eauto|].
  destruct (evict_scan_total e slotId mem cpu (slots e) (0, 0, []) slots_deref_all) as (sat & ks & -> & Hs).
  cbn [obind fst snd app]. destruct sat; [|by eauto].
  destruct (evict_keys ks Hs) as (e' & ps & -> & ? & _). by eauto.
Qed.
End Perform.

(** Eviction for a request of [mem] and [cpu] on a consistent evictor: it never
    panics and keeps the evictor consistent.  With no need, or when the
    evictable containers of the other queues together do not cover the need,
    nothing changes and no channel is returned.  Otherwise the evicted
    containers are the shortest prefix of the candidates, oldest first, that
    covers the need; exactly these are notified and leave the slot list, and
    their completion channels are returned in that order. *)
Theorem PerformEviction_spec P e slotId mem cpu :
  ev_inv P e -> words (slots e) -> 0 <= mem -> 0 <= cpu ->
  let cs := candidates e slotId in
  exists e' ps, PerformEviction e slotId mem cpu = Ok (e', ps) /\ ev_inv P e' /\
  (((mem = 0 /\ cpu = 0) \/ ~ enough mem cpu cs) -> e' = e /\ ps = []) /\
  (~ (mem = 0 /\ cpu = 0) -> enough mem cpu cs ->
    exists n, enough mem cpu (take n cs) /\
      (forall m, (m < n)%nat -> ~ enough mem cpu (take m cs)) /\
      Forall2 (fun k p => exists t, heap e !! p = Some t /\ tk_id (key t) = tk_id k /\
                 live t /\ heap e' !! p = Some (close_C t)) (take n cs) ps /\
      slots e' = filter (not_in (tk_id <$> take n cs)) (slots e) /\
      (forall p, p ∉ ps -> heap e' !! p = heap e !! p)).
Proof.
  intros Hinv Hw Hm Hc cs. unfold PerformEviction.
  destruct ((mem =? 0) && (cpu =? 0)) eqn:Ez.
  { apply andb_prop in Ez as [E1%Z.eqb_eq E2%Z.eqb_eq]. exists e, []. naive_solver. }
  assert (Hnz : ~ (mem = 0 /\ cpu = 0)) by (intros [-> ->]; done).
  destruct (evict_scan_spec e slotId mem cpu (slots e) []) as (n & sat & Hr & Hn & Hsat & Hmin & Hall).
  { by eapply slots_deref_all. } { done. }
  { unfold enough. cbn. lia. }
  fold (candidates e slotId) in *. fold cs in Hr, Hn, Hsat, Hmin, Hall.
  change (total_mem []) with 0 in Hr. change (total_cpu []) with 0 in Hr. cbn [app fmap list_fmap] in Hr.
  rewrite Hr. cbn [obind fst snd]. destruct sat.
  - destruct (evict_keys e Hinv (tk_id <$> take n cs)) as (e' & ps & -> & Hi & Hs & Hps & Hoth).
    { apply fmap_sublist. transitivity cs; [apply sublist_take|apply sublist_filter]. }
    exists e', ps. split; [done|]. split; [done|]. split.
    + intros [?|Hne]; [done|]. destruct Hne.
      assert (enough mem cpu (take n cs)) as [H1 H2] by (by apply Hsat).
      assert (Hnn : Forall (fun k => 0 <= tk_memory k /\ 0 <= tk_cpu k) cs).
      { destruct Hw as [Hf _]. rewrite Forall_forall in Hf |- *. intros k Hk. apply Hf.
        by apply list_elem_of_filter in Hk as [_ ?]. }
      rewrite <- (take_drop n cs). unfold enough. destruct (total_app (take n cs) (drop n cs)) as [-> ->].
      destruct (total_nonneg (drop n cs)) as [? ?]; [by apply Forall_drop|]. lia.
    + intros _ _. exists n. split; [by apply Hsat|]. split; [done|]. split; [|done].
      by apply Forall2_fmap_l in Hps.
  - exists e, []. split; [done|]. split; [done|]. split; [done|]. intros _ Hen.
    rewrite Hall, take_ge in Hsat by (done || lia). by apply Hsat in Hen.
Qed.

Lemma PerformEviction_spec_witness :
  let e := {| heap := [{| key := TKey "a" "s1" 100 0; evictable := true; C_closed := false; DoneChan_closed := false |};
                       {| key := TKey "b" "s2" 200 0; evictable := true; C_closed := false; DoneChan_closed := false |}];
              tokens := {[ "a"%string := 0%nat; "b"%string := 1%nat ]};
              slots := [TKey "a" "s1" 100 0; TKey "b" "s2" 200 0] |} in
  exists e', PerformEviction e "s3" 50 0 = Ok (e', [0%nat]) /\ ev_inv [] e'.
Proof.
  intros e.
  destruct (PerformEviction_spec [] e "s3" 50 0) as (e' & ps & Hp & Hi & _); [..|lia|lia|].
  - split; simpl.
    + apply NoDup_cons. split; [set_solver|apply NoDup_singleton].
    + apply NoDup_cons. split; [set_solver|apply NoDup_singleton].
    + intros k. rewrite !elem_of_cons, elem_of_nil. intros [->|[->|[]]].
      * exists 0%nat, {| key := TKey "a" "s1" 100 0; evictable := true; C_closed := false; DoneChan_closed := false |}.
        by repeat split.
      * exists 1%nat, {| key := TKey "b" "s2" 200 0; evictable := true; C_closed := false; DoneChan_closed := false |}.
        by repeat split.
    + intros i p Hi. apply lookup_insert_Some in Hi as [[<- _]|[_ Hi]]; [by left|].
      apply lookup_singleton_Some in Hi as [<- _]. right. left.
    + intros [|[|p]] t Ht _ _; simplify_eq/=; right; [left|right; left].
    + constructor.
    + intros p Hp. by apply not_elem_of_nil in Hp.
  - split_and!; [|vm_compute; reflexivity|vm_compute; reflexivity].
    repeat constructor; vm_compute; discriminate.
  - exists e'. split; [|exact Hi]. rewrite Hp. vm_compute in Hp. by simplify_eq.
Defined.

(** ** The evictor in use

    [CreateEvictToken] and [DeleteEvictToken] take the evictor's lock; the first
    loop of [PerformEviction] holds it while it reads the [evictable] flags one
    by one, and the channels of the picked tokens are closed after the lock is
    released.  [SetEvictable] is an atomic store without the lock, so it can fall
    between any two of these. *)

(** The goroutine that holds the lock in the first loop. *)
Record scan := Scan { sc_slotId : string; sc_mem : Z; sc_cpu : Z; sc_rest : list tokenKey; sc_acc : scan_acc }.

(** [picked]: the tokens whose channel some [PerformEviction] is about to close. *)
Record evsys := EvSys { evt : evictor; scanning : option scan; picked : list nat }.

Definition ev_init : evsys := {| evt := NewEvictor; scanning := None; picked := [] |}.

Definition scan_start (e : evictor) (slotId : string) (mem cpu : Z) : scan :=
  {| sc_slotId := slotId; sc_mem := mem; sc_cpu := cpu; sc_rest := slots e; sc_acc := (0, 0, []) |}.
Definition scan_next (sc : scan) (rest : list tokenKey) (acc : scan_acc) : scan :=
  {| sc_slotId := sc_slotId sc; sc_mem := sc_mem sc; sc_cpu := sc_cpu sc; sc_rest := rest; sc_acc := acc |}.

(** [PerformEviction] after it took the lock: one look at a slot, the commit,
    the end of a scan that found too little, one notification. *)
Inductive perform_step : evsys -> evsys -> Prop :=
| pf_look s sc val rest acc :
    scanning s = Some sc -> sc_rest sc = val :: rest ->
    scan_one (evt s) (sc_slotId sc) (sc_mem sc) (sc_cpu sc) val (sc_acc sc) = Ok (acc, false) ->
    perform_step s {| evt := evt s; scanning := Some (scan_next sc rest acc); picked := picked s |}
| pf_commit s sc val rest acc e' ps :
    scanning s = Some sc -> sc_rest sc = val :: rest ->
    scan_one (evt s) (sc_slotId sc) (sc_mem sc) (sc_cpu sc) val (sc_acc sc) = Ok (acc, true) ->
    evict_commit (evt s) acc.2 0 [] = Ok (e', ps) ->
    perform_step s {| evt := e'; scanning := None; picked := ps ++ picked s |}
| pf_nobody s sc :
    scanning s = Some sc -> sc_rest sc = [] ->
    perform_step s {| evt := evt s; scanning := None; picked := picked s |}
| pf_notify s p P h :
    picked s ≡ₚ p :: P -> close_all (heap (evt s)) [p] = Ok h ->
    perform_step s {| evt := with_heap (evt s) h; scanning := scanning s; picked := P |}.

Definition with_evt (s : evsys) (e : evictor) : evsys := {| evt := e; scanning := scanning s; picked := picked s |}.
Definition lock_scan (s : evsys) (slotId : string) (mem cpu : Z) : evsys :=
  {| evt := evt s; scanning := Some (scan_start (evt s) slotId mem cpu); picked := picked s |}.

(** The id generator is fresh; the owner of a token deletes it once.  The lock
    is not needed for a token without limits. *)
Inductive ev_step : evsys -> evsys -> Prop :=
| ev_create s e' p new_id slotId mem cpu :
    scanning s = None \/ isEligible (TKey new_id slotId mem cpu) = false ->
    new_id ∉ (tk_id ∘ key <$> heap (evt s)) ->
    CreateEvictToken (evt s) new_id slotId mem cpu = Ok (e', p) ->
    ev_step s (with_evt s e')
| ev_set s p b : ev_step s (with_evt s (SetEvictable (evt s) p b))
| ev_delete s e' p t :
    scanning s = None \/ isEligible (key t) = false ->
    heap (evt s) !! p = Some t -> DoneChan_closed t = false ->
    DeleteEvictToken (evt s) p = Ok e' ->
    ev_step s (with_evt s e')
| ev_lock s slotId mem cpu :
    scanning s = None -> (mem =? 0) && (cpu =? 0) = false ->
    ev_step s (lock_scan s slotId mem cpu)
| ev_perform s s' : perform_step s s' -> ev_step s s'.

(** While the lock is held the ids taken are in the order of the slots passed. *)
Definition scan_ok (e : evictor) (sc : scan) : Prop :=
  exists pre, slots e = pre ++ sc_rest sc /\ sublist (sc_acc sc).2 (tk_id <$> pre).

Record es_inv (s : evsys) : Prop := {
  es_ev : ev_inv (picked s) (evt s);
  es_scan : forall sc, scanning s = Some sc -> scan_ok (evt s) sc
}.

Section Steps.
Context {P : list nat} (e : evictor) (Hinv : ev_inv P e).

Lemma fresh_tokens new_id : new_id ∉ (tk_id ∘ key <$> heap e) ->
  tokens e !! new_id = None /\ new_id ∉ (tk_id <$> slots e).
Proof.
  intros Hf. split.
  - destruct (tokens e !! new_id) as [q|] eqn:Eq; [|done].
    destruct (tokens_heap e Hinv new_id q Eq) as (t & Ht & Hid & _). destruct Hf.
    apply list_elem_of_fmap. exists t. split; [done|]. by eapply list_elem_of_lookup_2.
  - intros (k & -> & Hk)%list_elem_of_fmap.
    destruct (slots_tokens Hinv k Hk) as (q & t & _ & Ht & Hkey & _). destruct Hf.
    apply list_elem_of_fmap. exists t. rewrite <- Hkey. split; [done|]. by eapply list_elem_of_lookup_2.
Qed.

Lemma create_ok new_id slotId mem cpu :
  new_id ∉ (tk_id ∘ key <$> heap e) ->
  let k := {| tk_id := new_id; tk_slotId := slotId; tk_memory := mem; tk_cpu := cpu |} in
  let tok := {| key := k; evictable := false; C_closed := false; DoneChan_closed := false |} in
  exists e', CreateEvictToken e new_id slotId mem cpu = Ok (e', length (heap e)) /\ ev_inv P e' /\
    heap e' = heap e ++ [tok] /\ slots e' = (if isEligible k then slots e ++ [k] else slots e).
Proof.
  intros Hf k tok. destruct (fresh_tokens new_id Hf) as [Hno Hnew].
  assert (Hids : NoDup (tk_id ∘ key <$> heap e ++ [tok])).
  { rewrite fmap_app. apply NoDup_app. split; [apply Hinv|]. split; [|apply NoDup_singleton].
    intros i Hi Hi'. apply list_elem_of_singleton in Hi'. by subst. }
  assert (Hlt : forall p, p ∈ P -> (p < length (heap e))%nat).
  { intros p Hp. destruct (picked_open Hinv p Hp) as (t & Ht & _). by eapply lookup_lt_Some. }
  unfold CreateEvictToken. fold k tok. destruct (isEligible k) eqn:Ek; cbn [negb].
  - rewrite Hno. eexists. split; [reflexivity|]. split; [|done]. split; simpl.
    + done.
    + rewrite fmap_app. apply NoDup_app. split; [apply Hinv|]. split; [|apply NoDup_singleton].
      intros i Hi Hi'. apply list_elem_of_singleton in Hi'. by subst.
    + intros k' [Hk'|Hk'%list_elem_of_singleton]%elem_of_app.
      * destruct (slots_tokens Hinv k' Hk') as (q & t & Hq & Ht & Hr). exists q, t.
        rewrite lookup_insert_ne by congruence. split; [done|]. split; [|done].
        by apply lookup_app_l_Some.
      * subst k'. exists (length (heap e)), tok.
        rewrite lookup_insert_eq, list_lookup_middle by done. by repeat split.
    + intros i q Hi. rewrite fmap_app. apply elem_of_app.
      apply lookup_insert_Some in Hi as [[<- _]|[_ Hi]]; [right; left|left]. by eapply tokens_slots.
    + intros q t Ht He Hl. rewrite elem_of_app. apply lookup_snoc_Some in Ht as [[_ Ht]|[_ <-]].
      * destruct (live_slots Hinv q t Ht He Hl); auto.
      * right. right. left.
    + apply Hinv.
    + intros q Hq. destruct (picked_open Hinv q Hq) as (t & Ht & Hc & Hn). exists t.
      split; [by apply lookup_app_l_Some|]. split; [done|]. rewrite fmap_app, elem_of_app.
      intros [?|Hin%list_elem_of_singleton]; [done|]. apply Hf.
      apply list_elem_of_fmap. exists t. split; [symmetry; exact Hin|]. by eapply list_elem_of_lookup_2.
  - eexists. split; [reflexivity|]. split; [|done].
    split; simpl; [done|apply Hinv| |apply Hinv| |apply Hinv|].
    + intros k' Hk'. destruct (slots_tokens Hinv k' Hk') as (q & t & Hq & Ht & Hr). exists q, t.
      split; [done|]. split; [|done]. by apply lookup_app_l_Some.
    + intros q t Ht He Hl. apply lookup_snoc_Some in Ht as [[_ Ht]|[_ <-]].
      * by eapply live_slots.
      * simpl in He. congruence.
    + intros q Hq. destruct (picked_open Hinv q Hq) as (t & Ht & Hc). exists t.
      split; [by apply lookup_app_l_Some|done].
Qed.

(** Overwriting the token at [p] by one with the same key and channels. *)
Lemma set_inv p b : ev_inv P (SetEvictable e p b).
Proof.
  assert (Hh : forall q, heap (SetEvictable e p b) !! q =
    (if decide (p = q) then set_evictable b <$> heap e !! q else heap e !! q)).
  { intros q. simpl. destruct (decide (p = q)) as [->|]; [by rewrite list_lookup_alter_eq|].
    by rewrite list_lookup_alter_ne. }
  assert (Hh' : forall q u, heap e !! q = Some u -> exists u', heap (SetEvictable e p b) !! q = Some u' /\
    key u' = key u /\ C_closed u' = C_closed u /\ DoneChan_closed u' = DoneChan_closed u).
  { intros q u Hu. rewrite Hh, Hu. destruct (decide (p = q)); [by exists (set_evictable b u)|by exists u]. }
  split; simpl; try apply Hinv.
  - assert (tk_id ∘ key <$> alter (set_evictable b) p (heap e) = tk_id ∘ key <$> heap e) as ->; [|apply Hinv].
    apply list_eq. intros q. specialize (Hh q). simpl in Hh. rewrite !list_lookup_fmap, Hh.
    destruct (decide (p = q)); [|done]. by destruct (heap e !! q).
  - intros k Hk. destruct (slots_tokens Hinv k Hk) as (q & t & Hq & Ht & Hkey & [Hl1 Hl2] & He).
    destruct (Hh' q t Ht) as (t' & Ht' & Hk' & Hc & Hd). exists q, t'. unfold live. rewrite Hc, Hd, Hk'. done.
  - intros q t. specialize (Hh q). simpl in Hh. rewrite Hh. destruct (decide (p = q)).
    + destruct (heap e !! q) as [t'|] eqn:Eq; intros H He [Hl1 Hl2]; simplify_eq/=.
      by apply (live_slots Hinv q t' Eq).
    + apply (live_slots Hinv).
  - intros q Hq. destruct (picked_open Hinv q Hq) as (t & Ht & Hc & Hn).
    destruct (Hh' q t Ht) as (t' & Ht' & Hk' & Hc' & _). exists t'. by rewrite Hc', Hk'.
Qed.

Lemma delete_ok p t : heap e !! p = Some t -> DoneChan_closed t = false ->
  exists e', DeleteEvictToken e p = Ok e' /\ ev_inv P e' /\
    heap e' = (if isEligible (key t) then <[p := close_Done t]> (heap e) else heap e) /\
    slots e' = (if isEligible (key t) then remove_first (has_id (tk_id (key t))) (slots e) else slots e).
Proof.
  intros Hp Hd. unfold DeleteEvictToken. rewrite Hp.
  destruct (isEligible (key t)) eqn:Ee; cbn [negb]; [|by exists e]. rewrite Hd.
  eexists. split; [reflexivity|]. split; [|done]. set (i := tk_id (key t)).
  assert (Hkey : forall q u, heap e !! q = Some u -> q <> p -> tk_id (key u) <> i).
  { intros q u Hq Hne Hid. apply Hne. by eapply (heap_id_inj e Hinv). }
  assert (Hfm : tk_id <$> remove_first (has_id i) (slots e) =
    remove_first (fun k' => bool_decide (k' = i)) (tk_id <$> slots e)).
  { by apply fmap_remove_first. }
  assert (Hgone : i ∉ (tk_id <$> remove_first (has_id i) (slots e))).
  { rewrite Hfm. apply remove_first_NoDup_gone, Hinv. }
  split; simpl.
  - rewrite (insert_fmap_id _ _ _ t) by done. apply Hinv.
  - rewrite Hfm. apply remove_first_NoDup, Hinv.
  - intros k Hk. pose proof (remove_first_elem_of _ _ _ Hk) as Hk0.
    assert (tk_id k <> i) as Hki by (intros <-; apply Hgone; by apply list_elem_of_fmap_2).
    destruct (slots_tokens Hinv k Hk0) as (q & u & Hq & Hu & Hku & Hr). exists q, u.
    rewrite lookup_delete_ne, (insert_lookup _ _ _ _ _ Hp) by done.
    destruct (decide (q = p)) as [->|]; [by simplify_eq|done].
  - intros j q Hj. apply lookup_delete_Some in Hj as [Hij Hj].
    apply (tokens_slots Hinv) in Hj. rewrite Hfm. apply elem_of_remove_first_ne; [done|].
    by apply bool_decide_eq_false.
  - intros q u. rewrite (insert_lookup _ _ _ _ _ Hp). destruct (decide (q = p)) as [->|Hpq].
    { intros Hu _ [_ Hl]. by simplify_eq/=. }
    intros Hu He Hl. destruct (live_slots Hinv q u Hu He Hl) as [|Hs]; [by left|right].
    apply elem_of_remove_first_ne; [done|]. apply bool_decide_eq_false. by eapply Hkey.
  - apply Hinv.
  - intros q Hq. destruct (picked_open Hinv q Hq) as (u & Hu & Hc & Hn).
    rewrite (insert_lookup _ _ _ _ _ Hp).
    assert (Hn' : tk_id (key u) ∉ (tk_id <$> remove_first (has_id i) (slots e))).
    { rewrite Hfm. intros Hin. apply Hn. by eapply remove_first_elem_of. }
    destruct (decide (q = p)) as [->|]; [|by eauto]. exists (close_Done t). by simplify_eq/=.
Qed.
End Steps.

(** One look of the goroutine that holds the lock. *)
Lemma scan_ok_next {P} e sc val rest : ev_inv P e -> scan_ok e sc -> sc_rest sc = val :: rest ->
  exists acc b, scan_one e (sc_slotId sc) (sc_mem sc) (sc_cpu sc) val (sc_acc sc) = Ok (acc, b) /\
    scan_ok e (scan_next sc rest acc).
Proof.
  intros Hinv (pre & Hs & Hsub) Hr. rewrite Hr in Hs.
  assert (Hv : val ∈ slots e) by (rewrite Hs; set_solver).
  destruct (slots_deref e Hinv val Hv) as (t & Ht & _).
  destruct (scan_one_total e (sc_slotId sc) (sc_mem sc) (sc_cpu sc) val (sc_acc sc)) as (acc & b & H & Hb).
  { rewrite Ht. by eexists. }
  exists acc, b. split; [done|]. exists (pre ++ [val]). simpl. rewrite <- app_assoc. split; [done|].
  rewrite fmap_app. destruct Hb as [[-> _]| ->].
  - by apply sublist_inserts_r.
  - by apply sublist_app.
Qed.

Lemma scan_ok_keys e sc : scan_ok e sc -> sublist (sc_acc sc).2 (tk_id <$> slots e).
Proof. intros (pre & -> & H). rewrite fmap_app. by apply sublist_inserts_r. Qed.

Lemma scan_ok_slots e e' sc : slots e' = slots e -> scan_ok e sc -> scan_ok e' sc.
Proof. intros E (pre & Hs & H). exists pre. by rewrite E. Qed.

Lemma es_perform_inv s s' : es_inv s -> perform_step s s' -> es_inv s'.
Proof.
  intros [Hi Hsc] Hs.
  destruct Hs as [s sc val rest acc Hsn Hr H|s sc val rest acc e' ps Hsn Hr H Hc|s sc Hsn Hr|s p P h HP H];
    cbn [evt scanning picked] in *.
  - split; [done|]. simpl. intros sc' [= <-].
    destruct (scan_ok_next _ sc val rest Hi (Hsc _ Hsn) Hr) as (acc' & b & H' & Hok).
    rewrite H in H'. injection H' as <- <-. exact Hok.
  - split; [|done]. simpl. destruct (scan_ok_next _ sc val rest Hi (Hsc _ Hsn) Hr) as (acc' & b & H' & Hok).
    rewrite H in H'. injection H' as <- <-.
    destruct (commit_ok (evt s) Hi acc.2 (scan_ok_keys _ _ Hok)) as (e1 & ps1 & H1 & Hi1 & _).
    rewrite Hc in H1. injection H1 as <- <-. exact Hi1.
  - split; [done|]. done.
  - pose proof (ev_inv_Permutation _ _ _ HP Hi) as Hi'.
    destruct (close_all_ok P (evt s) [p] Hi') as (h1 & H1 & Hi1 & _). rewrite H in H1. injection H1 as <-.
    split; [done|]. intros sc Hsn. apply (scan_ok_slots (evt s)); auto.
Qed.

Lemma es_step_inv s s' : es_inv s -> ev_step s s' -> es_inv s'.
Proof.
  intros [Hi Hsc] Hs.
  destruct Hs as [s e' p new_id slotId mem cpu Hl Hf H|s p b|s e' p t Hl Hp Hd H|s slotId mem cpu Hl Hz|s s' H];
    cbn [evt scanning picked with_evt lock_scan] in *.
  - destruct (create_ok (evt s) Hi new_id slotId mem cpu Hf) as (e1 & H1 & Hi1 & _ & Hsl).
    rewrite H in H1. simplify_eq. split; [done|]. cbn [with_evt evt scanning]. intros sc Hsn.
    destruct Hl as [Hl|Hl]; [congruence|]. rewrite Hl in Hsl. apply (scan_ok_slots (evt s)); auto.
  - split; [by apply set_inv|]. cbn [with_evt evt scanning]. intros sc Hsn. apply (scan_ok_slots (evt s)); auto.
  - destruct (delete_ok (evt s) Hi p t Hp Hd) as (e1 & H1 & Hi1 & _ & Hsl).
    rewrite H in H1. simplify_eq. split; [done|]. cbn [with_evt evt scanning]. intros sc Hsn.
    destruct Hl as [Hl|Hl]; [congruence|]. rewrite Hl in Hsl. apply (scan_ok_slots (evt s)); auto.
  - split; [done|]. intros sc [= <-]. exists []. split; [done|apply sublist_nil_l].
  - by eapply es_perform_inv; [split|].
Qed.

(** *** What the owners of tokens can rely on

    The key of a token and whether its owner deleted it: no eviction changes
    them. *)
Definition tview (e : evictor) : list (tokenKey * bool) := (fun t => (key t, DoneChan_closed t)) <$> heap e.

Lemma tview_set e p b : tview (SetEvictable e p b) = tview e.
Proof.
  unfold tview. simpl. apply list_eq. intros q. rewrite !list_lookup_fmap.
  destruct (decide (p = q)) as [->|].
  - rewrite list_lookup_alter_eq. by destruct (heap e !! q).
  - by rewrite list_lookup_alter_ne.
Qed.

Lemma tview_close e p h : close_all (heap e) [p] = Ok h -> tview (with_heap e h) = tview e.
Proof.
  cbn [close_all]. destruct (heap e !! p) as [t|] eqn:Ep; [|done].
  destruct (C_closed t); [done|]. intros [= <-]. by apply (insert_fmap_id _ _ _ t).
Qed.

Lemma tview_perform s s' : es_inv s -> perform_step s s' -> tview (evt s') = tview (evt s).
Proof.
  intros [Hi Hsc] Hs. destruct Hs as [| s sc val rest acc e' ps Hsn Hr H Hc| |s p P h HP H]; try done.
  - destruct (scan_ok_next _ sc val rest Hi (Hsc _ Hsn) Hr) as (acc' & b & H' & Hok).
    rewrite H in H'. injection H' as <- <-.
    destruct (commit_ok (evt s) Hi acc.2 (scan_ok_keys _ _ Hok)) as (e1 & ps1 & H1 & _ & Hh & _).
    rewrite Hc in H1. injection H1 as <- <-. unfold tview. simpl. by rewrite Hh.
  - by eapply tview_close.
Qed.

(** A scan goes on to its end, and what was picked can be notified. *)
Lemma es_progress s : es_inv s -> is_Some (scanning s) \/ picked s <> [] -> exists s', perform_step s s'.
Proof.
  intros [Hi Hsc] [[sc Hsn]|Hp].
  - destruct (sc_rest sc) as [|val rest] eqn:Hr; [by eexists; apply (pf_nobody s sc)|].
    destruct (scan_ok_next _ sc val rest Hi (Hsc _ Hsn) Hr) as (acc & [|] & H & Hok); [|by eexists; eapply pf_look].
    destruct (commit_ok (evt s) Hi acc.2 (scan_ok_keys _ _ Hok)) as (e1 & ps1 & H1 & _).
    by eexists; eapply pf_commit.
  - destruct (picked s) as [|p P] eqn:E; [done|]. assert (HP : picked s ≡ₚ p :: P) by (by rewrite E).
    destruct (close_all_ok P (evt s) [p] Hi) as (h & H & _).
    by eexists; eapply pf_notify.
Qed.

Lemma NewEvictor_inv : ev_inv [] NewEvictor.
Proof.
  split; simpl; try constructor; try done.
  - intros k Hk. by apply not_elem_of_nil in Hk.
  - intros p Hp. by apply not_elem_of_nil in Hp.
Qed.

Lemma ev_reach_inv s : rtc ev_step ev_init s -> es_inv s.
Proof.
  intros H. remember ev_init as s0.
  assert (Hi : es_inv s0) by (subst; split; [apply NewEvictor_inv|done]).
  clear Heqs0. induction H as [|x y z Hxy Hyz IH]; [done|]. by eapply IH, es_step_inv.
Qed.

(** C25: in every state the agent can bring the evictor into - tokens created with
    fresh ids, marked at any moment, deleted once by their owner, evictions by
    any number of requests interleaved with these down to the single look at a
    token - the map and the slot list describe the same tokens without
    duplicates, and no step panics or ends the process: every token the scan
    meets is in the map, the commit finds all it picked, and neither the
    notification of a picked token nor the deletion of a token, in either
    order, closes a channel twice. *)
Theorem evictor_safe s :
  rtc ev_step ev_init s ->
  NoDup (tk_id <$> slots (evt s)) /\
  (forall i, is_Some (tokens (evt s) !! i) <-> i ∈ (tk_id <$> slots (evt s))) /\
  (forall new_id slotId mem cpu, new_id ∉ (tk_id ∘ key <$> heap (evt s)) ->
     exists e' p, CreateEvictToken (evt s) new_id slotId mem cpu = Ok (e', p)) /\
  (forall p t, heap (evt s) !! p = Some t -> DoneChan_closed t = false ->
     exists e', DeleteEvictToken (evt s) p = Ok e') /\
  (forall sc val rest, scanning s = Some sc -> sc_rest sc = val :: rest ->
     exists acc b, scan_one (evt s) (sc_slotId sc) (sc_mem sc) (sc_cpu sc) val (sc_acc sc) = Ok (acc, b) /\
       exists e' ps, evict_commit (evt s) acc.2 0 [] = Ok (e', ps)) /\
  (forall p, p ∈ picked s -> exists h, close_all (heap (evt s)) [p] = Ok h) /\
  (forall slotId mem cpu, exists e' ps, PerformEviction (evt s) slotId mem cpu = Ok (e', ps)).
Proof.
  intros [Hi Hsc]%ev_reach_inv. split_and!.
  - apply Hi.
  - intros i. split; [intros [p Hp]; by eapply tokens_slots|].
    intros (k & -> & Hk)%list_elem_of_fmap. destruct (slots_tokens Hi k Hk) as (p & t & Hp & _). by eexists.
  - intros new_id slotId mem cpu Hf. destruct (create_ok _ Hi new_id slotId mem cpu Hf) as (e' & H & _). by eauto.
  - intros p t Hp Hd. destruct (delete_ok _ Hi p t Hp Hd) as (e' & H & _). by eauto.
  - intros sc val rest Hsn Hr. destruct (scan_ok_next _ sc val rest Hi (Hsc _ Hsn) Hr) as (acc & b & H & Hok).
    destruct (commit_ok _ Hi acc.2 (scan_ok_keys _ _ Hok)) as (e' & ps & Hc & _). eauto 10.
  - intros p [P HP]%elem_of_Permutation. pose proof (ev_inv_Permutation _ _ _ HP Hi) as Hi'.
    destruct (close_all_ok P _ [p] Hi') as (h & H & _). by eauto.
  - intros slotId mem cpu. destruct (PerformEviction_total _ Hi slotId mem cpu) as (e' & ps & H & _). by eauto.
Qed.

Lemma evictor_safe_witness :
  NoDup (tk_id <$> slots {| heap := [{| key := TKey "a" "s1" 100 0; evictable := false; C_closed := false; DoneChan_closed := false |}];
    tokens := <["a"%string := 0%nat]> ∅; slots := [TKey "a" "s1" 100 0] |}).
Proof.
  apply (evictor_safe {| evt := {| heap := [{| key := TKey "a" "s1" 100 0; evictable := false; C_closed := false; DoneChan_closed := false |}];
    tokens := <["a"%string := 0%nat]> ∅; slots := [TKey "a" "s1" 100 0] |}; scanning := None; picked := [] |}), rtc_once.
  apply (ev_create ev_init _ 0%nat "a" "s1" 100 0); [by left|set_solver|reflexivity].
Defined.

(** [PerformEviction] as one function is a run of the interleaved steps. *)
Lemma close_all_app h ps p : close_all h (ps ++ [p]) = (let! h := close_all h ps in close_all h [p]).
Proof.
  revert h. induction ps as [|q ps IH]; intros h; [done|]. cbn [app close_all].
  destruct (h !! q) as [t|]; [|done]. destruct (C_closed t); [done|]. apply IH.
Qed.

Lemma notify_all e sn ps P h : close_all (heap e) ps = Ok h ->
  rtc ev_step {| evt := e; scanning := sn; picked := ps ++ P |} {| evt := with_heap e h; scanning := sn; picked := P |}.
Proof.
  revert e. induction ps as [|p ps IH]; intros e H; cbn [close_all] in H.
  { injection H as <-. by destruct e. }
  destruct (heap e !! p) as [t|] eqn:Et; [|done]. destruct (C_closed t) eqn:Ec; [done|].
  eapply rtc_l.
  - apply ev_perform, (pf_notify _ p (ps ++ P) (<[p := close_C t]> (heap e))); [done|]. simpl. by rewrite Et, Ec.
  - apply (IH (with_heap e (<[p := close_C t]> (heap e)))). done.
Qed.

Lemma scan_runs e P sc keys :
  evict_scan e (sc_slotId sc) (sc_mem sc) (sc_cpu sc) (sc_rest sc) (sc_acc sc) = Ok (true, keys) ->
  forall e' ps, evict_commit e keys 0 [] = Ok (e', ps) ->
  rtc ev_step {| evt := e; scanning := Some sc; picked := P |} {| evt := e'; scanning := None; picked := ps ++ P |}.
Proof.
  destruct sc as [slotId mem cpu rest acc]. simpl. revert acc.
  induction rest as [|val rest IH]; intros acc H e' ps Hc; [done|]. cbn [evict_scan] in H.
  destruct (scan_one e slotId mem cpu val acc) as [[acc' b]| |] eqn:E; try done. cbn [obind fst snd] in H.
  destruct b.
  - injection H as <-. apply rtc_once. eapply ev_perform; by eapply pf_commit.
  - eapply rtc_l; [eapply ev_perform; by eapply pf_look|]. by apply IH.
Qed.

Lemma scan_runs_none e P sc keys :
  evict_scan e (sc_slotId sc) (sc_mem sc) (sc_cpu sc) (sc_rest sc) (sc_acc sc) = Ok (false, keys) ->
  rtc ev_step {| evt := e; scanning := Some sc; picked := P |} {| evt := e; scanning := None; picked := P |}.
Proof.
  destruct sc as [slotId mem cpu rest acc]. simpl. revert acc.
  induction rest as [|val rest IH]; intros acc H; cbn [evict_scan] in H.
  { apply rtc_once. eapply ev_perform; by eapply pf_nobody. }
  destruct (scan_one e slotId mem cpu val acc) as [[acc' b]| |] eqn:E; try done. cbn [obind fst snd] in H.
  destruct b; [done|]. eapply rtc_l; [eapply ev_perform; by eapply pf_look|]. by apply IH.
Qed.

(** [PerformEviction] is one of the runs of the interleaved evictor: whenever
    nobody holds the lock, locking, looking at the slots one by one, committing
    and notifying can take the system exactly where the function as a whole
    says, so what is proved of every interleaving covers it. *)
Theorem PerformEviction_runs s slotId mem cpu e' ps :
  scanning s = None -> PerformEviction (evt s) slotId mem cpu = Ok (e', ps) ->
  rtc ev_step s {| evt := e'; scanning := None; picked := picked s |}.
Proof.
  destruct s as [e sn P]. simpl. intros -> H. unfold PerformEviction in H.
  destruct ((mem =? 0) && (cpu =? 0)) eqn:Ez; [injection H as <- <-; done|].
  destruct (evict_scan e slotId mem cpu (slots e) (0, 0, [])) as [[sat keys]| |] eqn:Es; try done.
  cbn [obind fst snd] in H. eapply rtc_l; [by apply (ev_lock _ slotId mem cpu)|]. simpl. destruct sat.
  - destruct (evict_commit e keys 0 []) as [[e1 ps1]| |] eqn:Ec; try done. cbn [obind fst snd] in H.
    destruct (close_all (heap e1) ps1) as [h| |] eqn:Eh; try done. cbn [obind] in H. injection H as <- <-.
    etrans; [by eapply (scan_runs e P (scan_start e slotId mem cpu))|]. by apply notify_all.
  - injection H as <- <-. by eapply (scan_runs_none e P (scan_start e slotId mem cpu)).
Qed.

Lemma PerformEviction_runs_witness :
  let e := {| heap := [{| key := TKey "a" "s1" 100 0; evictable := true; C_closed := false; DoneChan_closed := false |}];
    tokens := {[ "a"%string := 0%nat ]}; slots := [TKey "a" "s1" 100 0] |} in
  exists e', rtc ev_step (EvSys e None []) (EvSys e' None []) /\ slots e' = [].
Proof.
  intros e. eexists. split.
  - apply (PerformEviction_runs (EvSys e None []) "s2" 50 0 _ [0%nat]); reflexivity.
  - reflexivity.
Defined.
