(* ===== verification/Stats.v ===== *)
(** * Down-sampling of container statistics (src/api/agent/drivers/stats/stats.go)

    A call's samples are averaged in time windows to at most a given number.
    A timestamp is a number of nanoseconds; the metrics of a sample are a map
    of their own (each driver sample allocates one), nil or not.  The loop of
    [Decimate] runs on fuel; the theorems show that fuel 2 * max + 2 is enough
    for sorted samples that span at least one nanosecond per window, that the
    result averages a partition of the samples into consecutive windows, and
    that a shorter span makes the loop run for ever. *)
From S2P Require Import Prelude.

Record Stat := MkStat { Timestamp : Z; Metrics : gomap Z }.

Section Stats.
  Context {MR : MapRange}.

(** [s.Metrics[k] += v]: writing to a nil map panics. *)
Definition metric_add (m : gomap Z) (kv : string * Z) : outcome unit (gomap Z) :=
  match m with
  | None => Panic
  | Some g => Ok (Some (<[kv.1 := u64 (default 0 (g !! kv.1) + kv.2)]> g))
  end.

Fixpoint metrics_add (m : gomap Z) (l : list (string * Z)) : outcome unit (gomap Z) :=
  match l with
  | [] => Ok m
  | kv :: l => let! m := metric_add m kv in metrics_add m l
  end.

(** The loop over [samples[1:]]: the sum of the times and of the metrics. *)
Fixpoint average_loop (n : Z) (t : Z) (m : gomap Z) (samples : list Stat) : outcome unit (Z * gomap Z) :=
  match samples with
  | [] => Ok (t, m)
  | s :: samples =>
      let! m := metrics_add m (range (entries (Metrics s))) in
      average_loop n (i64 (t + Z.quot (Timestamp s) n)) m samples
  end.

Definition average (samples : list Stat) : outcome unit (option Stat) :=
  match samples with
  | [] => Ok None
  | [s] => Ok (Some s)
  | s :: rest =>
      let l := Z.of_nat (length samples) in
      let! r := average_loop l (Z.quot (Timestamp s) l) (Metrics s) rest in
      Ok (Some {| Timestamp := r.1; Metrics := (fmap (M := gmap string) (fun v => v / l)) <$> r.2 |})
  end.

(** [t.Sub(u)] saturates at the range of a [Duration]. *)
Definition time_sub (t u : Z) : Z := Z.max (- w63) (Z.min maxI64 (t - u)).

(** The samples of one window: up to the first one after its end. *)
Fixpoint window_samples (isLast : bool) (limit : Z) (l : list Stat) : list Stat :=
  match l with
  | [] => []
  | s :: l => if negb isLast && (limit <? Timestamp s) then [] else s :: window_samples isLast limit l
  end.

(** The outer loop; [None] is running out of fuel.  [stats] is overwritten in
    place from the front: [nextEntry] never passes [x]. *)
Fixpoint Decimate_loop (fuel maxSamples : nat) (window current : Z) (x nextEntry : nat) (stats : list Stat)
  : option (outcome unit (list Stat)) :=
  if (length stats <=? x)%nat then Some (Ok (take nextEntry stats))
  else match fuel with
  | O => None
  | S fuel =>
      let isLastEntry := Z.of_nat nextEntry =? Z.of_nat maxSamples - 1 in
      let samples := window_samples isLastEntry (current + window) (drop x stats) in
      match average samples with
      | Panic => Some Panic
      | Err e => Some (Err e)
      | Ok (Some entry) =>
          Decimate_loop fuel maxSamples window (current + window) (x + length samples)
            (S nextEntry) (<[nextEntry := entry]> stats)
      | Ok None =>
          Decimate_loop fuel maxSamples window (current + window) (x + length samples) nextEntry stats
      end
  end.

Definition Decimate (fuel : nat) (maxSamples : Z) (stats : list Stat) : option (outcome unit (list Stat)) :=
  if Z.of_nat (length stats) <=? maxSamples then Some (Ok stats)
  else if maxSamples <=? 0 then Some (Ok [])
  else
    match stats with
    | [] => Some (Ok [])
    | s0 :: _ =>
        let start := Timestamp s0 in
        let window := Z.quot (time_sub (Timestamp (List.last stats s0)) start) maxSamples in
        Decimate_loop fuel (Z.to_nat maxSamples) window start 0 0 stats
    end.

(** ** Lemmas *)

Definition sorted (l : list Stat) : Prop := Sorted (fun a b => Timestamp a <= Timestamp b) l.
Definition has_metrics (s : Stat) : Prop := is_Some (Metrics s).

Lemma metrics_add_ok g l : exists g', metrics_add (Some g) l = Ok (Some g').
Proof.
  revert g. induction l as [|kv l IH]; intros g; [by eauto|]. cbn [metrics_add metric_add obind]. apply IH.
Qed.

Lemma average_loop_ok n t g l : exists r g', average_loop n t (Some g) l = Ok (r, Some g').
Proof.
  revert t g. induction l as [|s l IH]; intros t g; [by eauto|]. cbn [average_loop].
  destruct (metrics_add_ok g (range (entries (Metrics s)))) as [g' ->]. apply IH.
Qed.

Lemma average_ok l : Forall has_metrics l -> l <> [] ->
  exists s, average l = Ok (Some s) /\ has_metrics s.
Proof.
  intros Hf Hne. destruct l as [|s [|s' l]]; [done|inversion_clear Hf; by eauto|].
  apply Forall_cons in Hf as [[g Hg] _]. unfold average. rewrite Hg.
  destruct (average_loop_ok (Z.of_nat (length (s :: s' :: l))) (Z.quot (Timestamp s) (Z.of_nat (length (s :: s' :: l)))) g (s' :: l))
    as (r & g' & ->).
  cbn [obind fst snd]. eexists. split; [done|]. by eexists.
Qed.

Lemma window_samples_prefix b lim l :
  exists rest, l = window_samples b lim l ++ rest.
Proof.
  induction l as [|s l [rest IH]]; [by exists []|]. cbn [window_samples].
  destruct (negb b && _); [by exists (s :: l)|]. exists rest. cbn. by rewrite <- IH.
Qed.

Lemma window_samples_last lim l : window_samples true lim l = l.
Proof. induction l as [|s l IH]; [done|]. cbn. by rewrite IH. Qed.

Lemma window_samples_all b lim l : Forall (fun s => Timestamp s <= lim) l -> window_samples b lim l = l.
Proof.
  induction 1 as [|s l Hs Hl IH]; [done|]. cbn [window_samples].
  assert ((lim <? Timestamp s) = false) as -> by lia. rewrite andb_false_r. by rewrite IH.
Qed.

(** The result is the averages of consecutive windows. *)
Definition averages (chunks : list (list Stat)) (out : list Stat) : Prop :=
  Forall2 (fun c s => average c = Ok (Some s)) chunks out.

Lemma averages_snoc chunks out c s :
  averages chunks out -> average c = Ok (Some s) -> averages (chunks ++ [c]) (out ++ [s]).
Proof. intros H1 H2. apply Forall2_app; [done|]. by constructor. Qed.

Lemma take_S_insert {A} (l : list A) n x : (n < length l)%nat -> take (S n) (<[n := x]> l) = take n l ++ [x].
Proof.
  intros Hn. rewrite (take_S_r _ _ x) by (by apply list_lookup_insert_eq).
  by rewrite take_insert_ge.
Qed.

(** The loop: [j] windows are used up, the samples before [x] are averaged into
    the first [nextEntry] places. *)
Lemma Decimate_loop_spec (last : Z) fuel maxS window current x ne (orig stats : list Stat) chunks :
  0 < window -> (ne < maxS)%nat -> (ne <= x)%nat -> length stats = length orig ->
  Forall has_metrics orig -> Forall (fun s => Timestamp s <= last) orig ->
  drop x stats = drop x orig ->
  concat chunks = take x orig -> Forall (fun c => c <> []) chunks ->
  averages chunks (take ne stats) ->
  last - current <= Z.of_nat fuel * window ->
  (x < length orig -> 0 < fuel)%nat ->
  exists out chunks', Decimate_loop fuel maxS window current x ne stats = Some (Ok out) /\
    concat chunks' = orig /\ Forall (fun c => c <> []) chunks' /\ averages chunks' out /\
    (length out <= maxS)%nat.
Proof.
  intros Hw. revert current x ne stats chunks.
  induction fuel as [|fuel IH]; intros current x ne stats chunks Hne Hnx Hlen Hm Hl Hd Hc Hcn Ha Hf Hpos.
  all: cbn [Decimate_loop]; destruct (Nat.leb_spec (length stats) x) as [Hx|Hx].
  1, 3: exists (take ne stats), chunks; split; [done|]; rewrite Hc, take_ge by lia;
    split_and!; try done; rewrite length_take; lia.
  { lia. }
  rewrite Hd. set (isL := Z.of_nat ne =? Z.of_nat maxS - 1).
  destruct (window_samples_prefix isL (current + window) (drop x orig)) as [rest Hrest].
  set (smp := window_samples isL (current + window) (drop x orig)) in *.
  assert (Hm' : Forall has_metrics smp).
  { apply (Forall_drop _ x) in Hm. rewrite Hrest in Hm. by apply Forall_app in Hm as [? _]. }
  (* the samples taken and what is left *)
  assert (Htk : take (x + length smp) orig = take x orig ++ smp).
  { rewrite <- take_take_drop. f_equal. rewrite Hrest at 1. by rewrite take_app_length. }
  assert (Hlsmp : (x + length smp <= length orig)%nat).
  { apply (f_equal length) in Hrest. rewrite length_app, length_drop in Hrest. lia. }
  (* the last window, or one that reaches the last sample, takes the rest *)
  assert (Hrest_all : isL = true \/ last <= current + window -> (x + length smp = length orig)%nat).
  { intros Hall. assert (smp = drop x orig) as E.
    { destruct Hall as [Hall|Hall].
      - unfold smp. rewrite Hall. apply window_samples_last.
      - apply window_samples_all. apply Forall_drop. eapply Forall_impl; [exact Hl|]. simpl. lia. }
    rewrite E, length_drop. lia. }
  destruct (decide (smp = [])) as [Hemp|Hnemp].
  - rewrite Hemp. cbn [average length]. rewrite Nat.add_0_r.
    rewrite Hemp in Hrest_all. cbn [length] in Hrest_all.
    apply (IH _ _ _ _ chunks); try done; [lia|].
    intros _. destruct fuel; [|lia]. specialize (Hrest_all ltac:(right; lia)). lia.
  - destruct (average_ok smp Hm' Hnemp) as (s & Hs & Hsm). rewrite Hs.
    assert (0 < length smp)%nat by (destruct smp; [done|simpl; lia]).
    destruct (decide (x + length smp = length orig)%nat) as [Hend|Hnend].
    + exists (take (S ne) (<[ne := s]> stats)), (chunks ++ [smp]).
      split. { destruct fuel; cbn [Decimate_loop]; rewrite length_insert, (proj2 (Nat.leb_le _ _)) by lia; done. }
      split; [rewrite concat_app, Hc; cbn [concat]; rewrite app_nil_r, <- Htk; by apply take_ge; lia|].
      split; [apply Forall_app; by repeat constructor|].
      split; [rewrite take_S_insert by lia; by apply averages_snoc|].
      rewrite length_take. lia.
    + assert (isL = false) as HisL by (destruct isL; [|done]; destruct Hnend; auto).
      apply (IH _ _ _ _ (chunks ++ [smp])); try done.
      * unfold isL in HisL. lia.
      * lia.
      * by rewrite length_insert.
      * rewrite drop_insert_lt by lia. by rewrite <- !drop_drop, Hd.
      * rewrite concat_app, Hc. cbn [concat]. by rewrite app_nil_r.
      * apply Forall_app. by repeat constructor.
      * rewrite take_S_insert by lia. by apply averages_snoc.
      * lia.
      * intros _. destruct fuel; [|lia]. destruct Hnend. apply Hrest_all. right. lia.
Qed.
End Stats.


Lemma sorted_last_max l s0 : sorted l -> Forall (fun s => Timestamp s <= Timestamp (List.last l s0)) l.
Proof.
  intros Hs. apply Sorted_StronglySorted in Hs; [|intros a b c; lia].
  induction Hs as [|s l Hs IH Hf]; [constructor|]. destruct l as [|s' l]; [by repeat constructor|].
  change (List.last (s :: s' :: l) s0) with (List.last (s' :: l) s0).
  constructor; [|exact IH]. rewrite Forall_forall in Hf. apply Hf.
  clear. revert s'. induction l as [|s l IH]; intros s'; [left|].
  change (List.last (s' :: s :: l) s0) with (List.last (s :: l) s0). right. apply IH.
Qed.

Lemma Decimate_ok {MR : MapRange} maxSamples stats s0 fuel :
  hd_error stats = Some s0 -> sorted stats -> Forall has_metrics stats ->
  let span := Timestamp (List.last stats s0) - Timestamp s0 in
  (Z.of_nat (length stats) <= maxSamples -> Decimate fuel maxSamples stats = Some (Ok stats)) /\
  (0 < maxSamples < Z.of_nat (length stats) -> maxSamples <= span <= maxI64 ->
   (2 * Z.to_nat maxSamples <= fuel)%nat ->
   exists out chunks, Decimate fuel maxSamples stats = Some (Ok out) /\
     concat chunks = stats /\ Forall (fun c => c <> []) chunks /\
     Forall2 (fun c s => average c = Ok (Some s)) chunks out /\
     Z.of_nat (length out) <= maxSamples).
Proof.
  intros Hhd Hs Hm span. unfold Decimate. split.
  { intros Hle. by rewrite (proj2 (Z.leb_le _ _) Hle). }
  intros [Hpos Hlt] Hspan Hfuel.
  destruct (Z.leb_spec (Z.of_nat (length stats)) maxSamples); [lia|].
  destruct (Z.leb_spec maxSamples 0); [lia|].
  destruct stats as [|s stats]; [done|]. simpl in Hhd. injection Hhd as ->.
  assert (time_sub (Timestamp (List.last (s0 :: stats) s0)) (Timestamp s0) = span) as ->.
  { unfold time_sub. fold span. word_lia. }
  rewrite Z.quot_div_nonneg by lia.
  assert (Hw : 1 <= span / maxSamples) by (apply Z.div_le_lower_bound; lia).
  assert (Hsp : span <= Z.of_nat fuel * (span / maxSamples)).
  { pose proof (Z.div_mod span maxSamples ltac:(lia)).
    pose proof (Z.mod_pos_bound span maxSamples ltac:(lia)).
    transitivity ((2 * maxSamples) * (span / maxSamples)); [nia|].
    apply Z.mul_le_mono_nonneg_r; lia. }
  destruct (Decimate_loop_spec (Timestamp (List.last (s0 :: stats) s0)) fuel (Z.to_nat maxSamples)
    (span / maxSamples) (Timestamp s0) 0 0 (s0 :: stats) (s0 :: stats) [])
    as (out & chunks & Ho & Hc & Hcn & Ha & Hl); try done; try lia.
  { by apply sorted_last_max. }
  { constructor. }
  exists out, chunks. split_and!; try done. lia.
Qed.

Lemma Decimate_total {MR : MapRange} maxSamples stats s0 fuel :
  hd_error stats = Some s0 -> sorted stats -> Forall has_metrics stats ->
  0 < maxSamples < Z.of_nat (length stats) ->
  maxSamples <= Timestamp (List.last stats s0) - Timestamp s0 <= maxI64 ->
  (2 * Z.to_nat maxSamples <= fuel)%nat ->
  exists out, Decimate fuel maxSamples stats = Some (Ok out) /\ Z.of_nat (length out) <= maxSamples.
Proof.
  intros Hhd Hs Hm Hl Hsp Hf.
  destruct (Decimate_ok maxSamples stats s0 fuel Hhd Hs Hm) as [_ H].
  destruct (H Hl Hsp Hf) as (out & chunks & Ho & _ & _ & _ & Hlen). by exists out.
Qed.

(** Down-sampling sorted samples that each have metrics to [maxSamples] points:
    a list that is short enough is returned as it is; otherwise, when the
    samples span at least one nanosecond per point, the loop ends within
    2 * max rounds without a panic, the result has at most [maxSamples] points,
    and each point is the average of one of consecutive non-empty runs of
    samples that together are exactly the input. *)
Theorem Decimate_spec {MR : MapRange} maxSamples stats s0 fuel :
  hd_error stats = Some s0 -> sorted stats -> Forall has_metrics stats ->
  let span := Timestamp (List.last stats s0) - Timestamp s0 in
  (Z.of_nat (length stats) <= maxSamples -> Decimate fuel maxSamples stats = Some (Ok stats)) /\
  (0 < maxSamples < Z.of_nat (length stats) -> maxSamples <= span <= maxI64 ->
   (2 * Z.to_nat maxSamples <= fuel)%nat ->
   exists out chunks, Decimate fuel maxSamples stats = Some (Ok out) /\
     concat chunks = stats /\ Forall (fun c => c <> []) chunks /\
     Forall2 (fun c s => average c = Ok (Some s)) chunks out /\
     Z.of_nat (length out) <= maxSamples).
Proof. apply Decimate_ok. Qed.

Definition sample (t v : Z) : Stat := {| Timestamp := t; Metrics := Some {[ "cpu"%string := v ]} |}.

Lemma Decimate_spec_witness :
  exists out chunks, Decimate (MR := canonical_range) 4 2 [sample 0 10; sample 4 20; sample 9 60] = Some (Ok out) /\
    concat chunks = [sample 0 10; sample 4 20; sample 9 60].
Proof.
  destruct (Decimate_spec (MR := canonical_range) 2 [sample 0 10; sample 4 20; sample 9 60] (sample 0 10) 4)
    as [_ H]; [reflexivity| | |].
  - repeat constructor; simpl; lia.
  - repeat constructor; by eexists.
  - assert (List.last [sample 0 10; sample 4 20; sample 9 60] (sample 0 10) = sample 9 60) as E by reflexivity.
    rewrite E in H. cbn [Timestamp sample] in H.
    destruct H as (out & chunks & H1 & H2 & _); [simpl; lia|unfold maxI64; lia|simpl; lia|].
    exists out, chunks. split; [exact H1|exact H2].
Defined.

(** When the samples span less than one nanosecond per point the window is zero
    and the loop of [Decimate] can run for ever: no amount of fuel gives a
    result for four sorted samples at times 0, 0, 0, 1 and three points. *)
Theorem Decimate_diverges {MR : MapRange} fuel :
  Decimate fuel 3 [sample 0 1; sample 0 1; sample 0 1; sample 1 1] = None.
Proof.
  unfold Decimate. simpl Z.leb. cbv iota.
  change (Z.quot _ 3) with 0.
  assert (Hstuck : forall f st, length st = 4%nat -> drop 3 st = [sample 1 1] ->
    Decimate_loop f 3 0 0 3 1 st = None).
  { intros f. induction f as [|f IH]; intros st Hl Hd; cbn [Decimate_loop]; rewrite Hl; [done|].
    simpl. rewrite Hd. simpl. by apply IH. }
  destruct fuel as [|fuel]; [done|].
  change (Z.to_nat 3) with 3%nat. cbn [Decimate_loop]. simpl.
  destruct (average_ok [sample 0 1; sample 0 1; sample 0 1]) as (s & Hs & _);
    [repeat constructor; by eexists|done|].
  simpl in Hs |- *. rewrite Hs. by apply Hstuck.
Qed.
