(* ===== verification/Call.v ===== *)
(** * Calls (src/api/models/call.go, src/api/agent/call.go)

    What the agent builds from an app, a function and an HTTP request: the
    merged configuration and annotations, the options that set up a call,
    [GetCall], which checks the resources and fixes the listener settings, the
    start and the end of a call and its latencies.  Writers and loggers are
    handles; the clock, the id generator, [URL.String] and [http.NewRequest]
    are parameters. *)
From S2P Require Import Prelude Errors Annotations Models GoStrings Resource Stats.

(** ** Data *)

Definition TypeSync : string := "sync".
Definition TypeDetached : string := "detached".

Record URL := MkURL { url_Scheme : string; url_Host : string; url_Rest : string }.

Record Request := MkReq {
  rq_Method : string;
  rq_URL : URL;
  rq_TLS : bool;
  rq_Host : string;
  rq_Header : Headers;
  rq_Body : string
}.

(** [models.Call] *)
Record CallModel := MkCall {
  cl_ID : string;
  cl_Status : string;
  cl_Image : string;
  cl_Delay : Z;
  cl_Type : string;
  cl_Payload : string;
  cl_URL : string;
  cl_Method : string;
  cl_Timeout : Z;
  cl_IdleTimeout : Z;
  cl_TmpFsSize : Z;
  cl_Memory : Z;
  cl_CPUs : Z;
  cl_Config : Config;
  cl_Annotations : Annotations;
  cl_Headers : Headers;
  cl_SyslogURL : string;
  cl_CompletedAt : Z;
  cl_CreatedAt : Z;
  cl_StartedAt : Z;
  cl_ExecutionDuration : Z;
  cl_Stats : list Stat;
  cl_Error : string;
  cl_AppID : string;
  cl_AppName : string;
  cl_TriggerID : string;
  cl_FnID : string
}.

(** The agent's [call]: the model, the request and what the options set. *)
Record call := MkAgentCall {
  c_Call : option CallModel;
  c_respWriter : option nat;
  c_req : option Request;
  c_stderr : option nat;
  c_userExecTime : option Z;
  c_extensions : gomap string;
  c_dockerAuth : option nat
}.

Definition new_call : call :=
  {| c_Call := None; c_respWriter := None; c_req := None; c_stderr := None;
     c_userExecTime := None; c_extensions := None; c_dockerAuth := None |}.

Definition set_Call (c : call) (m : CallModel) : call :=
  {| c_Call := Some m; c_respWriter := c_respWriter c; c_req := c_req c; c_stderr := c_stderr c;
     c_userExecTime := c_userExecTime c; c_extensions := c_extensions c; c_dockerAuth := c_dockerAuth c |}.
Definition set_req (c : call) (r : Request) : call :=
  {| c_Call := c_Call c; c_respWriter := c_respWriter c; c_req := Some r; c_stderr := c_stderr c;
     c_userExecTime := c_userExecTime c; c_extensions := c_extensions c; c_dockerAuth := c_dockerAuth c |}.
Definition set_respWriter (c : call) (w : option nat) : call :=
  {| c_Call := c_Call c; c_respWriter := w; c_req := c_req c; c_stderr := c_stderr c;
     c_userExecTime := c_userExecTime c; c_extensions := c_extensions c; c_dockerAuth := c_dockerAuth c |}.
Definition set_stderr (c : call) (w : option nat) : call :=
  {| c_Call := c_Call c; c_respWriter := c_respWriter c; c_req := c_req c; c_stderr := w;
     c_userExecTime := c_userExecTime c; c_extensions := c_extensions c; c_dockerAuth := c_dockerAuth c |}.
Definition set_extensions (c : call) (e : gomap string) : call :=
  {| c_Call := c_Call c; c_respWriter := c_respWriter c; c_req := c_req c; c_stderr := c_stderr c;
     c_userExecTime := c_userExecTime c; c_extensions := e; c_dockerAuth := c_dockerAuth c |}.
Definition set_dockerAuth (c : call) (a : option nat) : call :=
  {| c_Call := c_Call c; c_respWriter := c_respWriter c; c_req := c_req c; c_stderr := c_stderr c;
     c_userExecTime := c_userExecTime c; c_extensions := c_extensions c; c_dockerAuth := a |}.
Definition set_userExecTime (c : call) (t : option Z) : call :=
  {| c_Call := c_Call c; c_respWriter := c_respWriter c; c_req := c_req c; c_stderr := c_stderr c;
     c_userExecTime := t; c_extensions := c_extensions c; c_dockerAuth := c_dockerAuth c |}.

(** Updates of the model that the agent makes. *)
Definition with_Config (m : CallModel) (cfg : Config) : CallModel :=
  MkCall (cl_ID m) (cl_Status m) (cl_Image m) (cl_Delay m) (cl_Type m) (cl_Payload m) (cl_URL m) (cl_Method m)
    (cl_Timeout m) (cl_IdleTimeout m) (cl_TmpFsSize m) (cl_Memory m) (cl_CPUs m) cfg (cl_Annotations m)
    (cl_Headers m) (cl_SyslogURL m) (cl_CompletedAt m) (cl_CreatedAt m) (cl_StartedAt m)
    (cl_ExecutionDuration m) (cl_Stats m) (cl_Error m) (cl_AppID m) (cl_AppName m) (cl_TriggerID m) (cl_FnID m).
Definition with_Type (m : CallModel) (ty : string) : CallModel :=
  MkCall (cl_ID m) (cl_Status m) (cl_Image m) (cl_Delay m) ty (cl_Payload m) (cl_URL m) (cl_Method m)
    (cl_Timeout m) (cl_IdleTimeout m) (cl_TmpFsSize m) (cl_Memory m) (cl_CPUs m) (cl_Config m) (cl_Annotations m)
    (cl_Headers m) (cl_SyslogURL m) (cl_CompletedAt m) (cl_CreatedAt m) (cl_StartedAt m)
    (cl_ExecutionDuration m) (cl_Stats m) (cl_Error m) (cl_AppID m) (cl_AppName m) (cl_TriggerID m) (cl_FnID m).
Definition with_TriggerID (m : CallModel) (t : string) : CallModel :=
  MkCall (cl_ID m) (cl_Status m) (cl_Image m) (cl_Delay m) (cl_Type m) (cl_Payload m) (cl_URL m) (cl_Method m)
    (cl_Timeout m) (cl_IdleTimeout m) (cl_TmpFsSize m) (cl_Memory m) (cl_CPUs m) (cl_Config m) (cl_Annotations m)
    (cl_Headers m) (cl_SyslogURL m) (cl_CompletedAt m) (cl_CreatedAt m) (cl_StartedAt m)
    (cl_ExecutionDuration m) (cl_Stats m) (cl_Error m) (cl_AppID m) (cl_AppName m) t (cl_FnID m).
Definition with_ExecutionDuration (m : CallModel) (d : Z) : CallModel :=
  MkCall (cl_ID m) (cl_Status m) (cl_Image m) (cl_Delay m) (cl_Type m) (cl_Payload m) (cl_URL m) (cl_Method m)
    (cl_Timeout m) (cl_IdleTimeout m) (cl_TmpFsSize m) (cl_Memory m) (cl_CPUs m) (cl_Config m) (cl_Annotations m)
    (cl_Headers m) (cl_SyslogURL m) (cl_CompletedAt m) (cl_CreatedAt m) (cl_StartedAt m)
    d (cl_Stats m) (cl_Error m) (cl_AppID m) (cl_AppName m) (cl_TriggerID m) (cl_FnID m).
Definition with_Started (m : CallModel) (now : Z) : CallModel :=
  MkCall (cl_ID m) "running" (cl_Image m) (cl_Delay m) (cl_Type m) (cl_Payload m) (cl_URL m) (cl_Method m)
    (cl_Timeout m) (cl_IdleTimeout m) (cl_TmpFsSize m) (cl_Memory m) (cl_CPUs m) (cl_Config m) (cl_Annotations m)
    (cl_Headers m) (cl_SyslogURL m) (cl_CompletedAt m) (cl_CreatedAt m) now
    (cl_ExecutionDuration m) (cl_Stats m) (cl_Error m) (cl_AppID m) (cl_AppName m) (cl_TriggerID m) (cl_FnID m).
Definition with_Completed (m : CallModel) (now : Z) (status err : string) (st : list Stat) : CallModel :=
  MkCall (cl_ID m) status (cl_Image m) (cl_Delay m) (cl_Type m) (cl_Payload m) (cl_URL m) (cl_Method m)
    (cl_Timeout m) (cl_IdleTimeout m) (cl_TmpFsSize m) (cl_Memory m) (cl_CPUs m) (cl_Config m) (cl_Annotations m)
    (cl_Headers m) (cl_SyslogURL m) now (cl_CreatedAt m) (cl_StartedAt m)
    (cl_ExecutionDuration m) st err (cl_AppID m) (cl_AppName m) (cl_TriggerID m) (cl_FnID m).

Definition CallOpt : Type := call -> outcome gerr call.

Section CallOps.
  Context {MR : MapRange}.
  (** [url.URL.String] and [http.NewRequest(method, url, body)]. *)
  Context (url_String : URL -> string).
  Context (NewRequest : string -> string -> string -> outcome gerr Request).

Definition buildConfig (app : App) (fn : Fn) : Config :=
  let conf : Config := Some ∅ in
  let conf := foldl (fun c kv => map_set kv.1 kv.2 c) conf (range (entries (app_Config app))) in
  let conf := foldl (fun c kv => map_set kv.1 kv.2 c) conf (range (entries (fn_Config fn))) in
  let conf := map_set "FN_MEMORY" (FormatUint (fn_Memory fn)) conf in
  let conf := map_set "FN_TYPE" "sync" conf in
  let conf := map_set "FN_FN_ID" (fn_ID fn) conf in
  map_set "FN_APP_ID" (app_ID app) conf.

(** [reqURL] completes the URL of the request in place. *)
Definition reqURL (req : Request) : Request * string :=
  let u := rq_URL req in
  let sch := if streq (url_Scheme u) "" then (if rq_TLS req then "https" else "http")%string else url_Scheme u in
  let host := if streq (url_Host u) "" then rq_Host req else url_Host u in
  let u := {| url_Scheme := sch; url_Host := host; url_Rest := url_Rest u |} in
  (MkReq (rq_Method req) u (rq_TLS req) (rq_Host req) (rq_Header req) (rq_Body req), url_String u).

Definition FromHTTPFnRequest (new_id : string) (now : Z) (app : App) (fn : Fn) (req : Request) : CallOpt :=
  fun c =>
    let syslogURL := match app_SyslogURL app with Some p => p.2 | None => ""%string end in
    let! ann := MergeChange (app_Annotations app) (fn_Annotations fn) in
    let (req, url) := reqURL req in
    let m := MkCall new_id "" (fn_Image fn) 0 TypeSync "" url (rq_Method req)
      (fn_Timeout fn) (fn_IdleTimeout fn) 2048 (fn_Memory fn) 0 (buildConfig app fn) ann
      (rq_Header req) syslogURL 0 now 0 0 [] "" (app_ID app) (app_Name app) "" (fn_ID fn) in
    Ok (set_req (set_Call c m) req).

Definition with_Header (r : Request) (h : Headers) : Request :=
  MkReq (rq_Method r) (rq_URL r) (rq_TLS r) (rq_Host r) h (rq_Body r).

Definition FromModel (mCall : CallModel) : CallOpt :=
  fun c =>
    let c := set_Call c mCall in
    let! req := NewRequest (cl_Method mCall) (cl_URL mCall) (cl_Payload mCall) in
    Ok (set_req c (with_Header req (cl_Headers mCall))).

Definition FromModelAndInput (mCall : CallModel) (input : string) : CallOpt :=
  fun c =>
    let c := set_Call c mCall in
    let! req := NewRequest (cl_Method mCall) (cl_URL mCall) input in
    Ok (set_req c (with_Header req (cl_Headers mCall))).

(** The options that dereference the model or the request panic without one. *)
Definition WithTrigger (t : Trigger) : CallOpt :=
  fun c => match c_Call c with
           | Some m => Ok (set_Call c (with_TriggerID m (tr_ID t)))
           | None => Panic
           end.
Definition WithWriter (w : nat) : CallOpt := fun c => Ok (set_respWriter c (Some w)).
Definition WithLogger (w : nat) : CallOpt := fun c => Ok (set_stderr c (Some w)).
Definition InvokeDetached : CallOpt :=
  fun c => match c_Call c with
           | Some m => Ok (set_Call c (with_Type m TypeDetached))
           | None => Panic
           end.
Definition WithExtensions (extensions : gomap string) : CallOpt := fun c => Ok (set_extensions c extensions).
Definition WithDockerAuth (auth : nat) : CallOpt := fun c => Ok (set_dockerAuth c (Some auth)).

Fixpoint run_opts (opts : list CallOpt) (c : call) : outcome gerr call :=
  match opts with
  | [] => Ok c
  | o :: opts => let! c := o c in run_opts opts c
  end.

(** What [GetCall] uses of the agent: its own options, the overrider (which
    may change the model), the resource tracker, and the logger [setupLogger]
    would make. *)
Record GetCallAgent := {
  a_callOpts : list CallOpt;
  a_callOverrider : option (Request -> CallModel -> gomap string -> CallModel * outcome gerr (gomap string));
  a_resources : resourceTracker;
  a_newLogger : nat
}.

Definition FN_LISTENER_value : string := "unix:/tmp/iofs/lsnr.sock".

Definition GetCall (a : GetCallAgent) (opts : list CallOpt) : outcome gerr call :=
  let! c := run_opts (opts ++ a_callOpts a) new_call in
  match c_req c, c_Call c with
  | Some req, Some m =>
      let! mc := match a_callOverrider a with
                 | Some f => let (m, ext) := f req m (c_extensions c) in
                             let! ext := ext in Ok (m, set_extensions (set_Call c m) ext)
                 | None => Ok (m, c)
                 end in
      let (m, c) := mc in
      let mem := u64 (cl_Memory m + cl_TmpFsSize m) in
      guard! IsResourcePossible (a_resources a) mem (cl_CPUs m) else EVar ErrCallResourceTooBig in
      let cfg := map_set "FN_LISTENER" FN_LISTENER_value (cl_Config m) in
      let cfg := map_set "FN_FORMAT" "http-stream" cfg in
      let c := set_Call c (with_Config m cfg) in
      let c := match c_stderr c with None => set_stderr c (Some (a_newLogger a)) | Some _ => c end in
      let c := match c_respWriter c with None => set_respWriter c (c_stderr c) | Some _ => c end in
      Ok c
  | _, _ => Err (EPlain "no model or request provided for call")
  end.

Definition AddUserExecutionTime (c : call) (dur : Z) : outcome gerr call :=
  let t := i64 (default 0 (c_userExecTime c) + dur) in
  match c_Call c with
  | Some m => Ok (set_Call (set_userExecTime c (Some t)) (with_ExecutionDuration m t))
  | None => Panic
  end.

(** [Start]: [ctx_err] is the error of the context, [fire] the call listeners. *)
Definition Start (m : CallModel) (ctx_err : option gerr) (now : Z) (fire : CallModel -> option gerr)
  : CallModel * option gerr :=
  match ctx_err with
  | Some e => (m, Some e)
  | None => let m := with_Started m now in (m, fire m)
  end.

(** [End]: the status from the error, bounded statistics, then the listeners;
    the down-sampling loop runs on fuel. *)
Definition end_status (errIn : option gerr) (old_err : string) : string * string :=
  match errIn with
  | None => ("success"%string, old_err)
  | Some EDeadlineExceeded => ("timeout"%string, old_err)
  | Some e => ("error"%string, error_msg e)
  end.

Definition End_ (fuel : nat) (m : CallModel) (now : Z) (errIn : option gerr) (fire : CallModel -> option gerr)
  : option (outcome unit (CallModel * option gerr)) :=
  let (status, err) := end_status errIn (cl_Error m) in
  match Decimate fuel 240 (cl_Stats m) with
  | None => None
  | Some st =>
      Some (let! st := st in
            let m := with_Completed m now status err st in
            Ok (m, match fire m with Some e => Some e | None => errIn end))
  end.

(** [GetCallLatencies]: scheduling and execution time; 0 is the zero time. *)
Definition GetCallLatencies (m : option CallModel) : Z * Z :=
  match m with
  | None => (0, 0)
  | Some m =>
      let creat := cl_CreatedAt m in let start := cl_StartedAt m in let compl := cl_CompletedAt m in
      if negb (creat =? 0) && negb (start =? 0) then
        if negb (start <? creat) then
          (time_sub start creat, if negb (compl <? start) then time_sub compl start else 0)
        else (0, 0)
      else (0, 0)
  end.
End CallOps.

(** ** Lemmas *)

Section CallLemmas.
  Context {MR : MapRange}.

Lemma set_all_lookup (g : gmap string string) (conf : Config) k :
  entries (foldl (fun c kv => map_set kv.1 kv.2 c) conf (range g)) !! k =
  match g !! k with Some v => Some v | None => entries conf !! k end.
Proof.
  rewrite (foldl_lookup (fun (s : Config) k => entries s !! k) _ (fun v _ => Some v)).
  - by rewrite range_list_to_map.
  - intros s k' v k''. apply entries_map_set.
  - apply NoDup_range.
Qed.

(** The reserved keys of the configuration of a call. *)
Definition reserved (app : App) (fn : Fn) : list (string * string) :=
  [("FN_APP_ID", app_ID app); ("FN_FN_ID", fn_ID fn); ("FN_TYPE", "sync");
   ("FN_MEMORY", FormatUint (fn_Memory fn))]%string.

Fixpoint assoc (k : string) (l : list (string * string)) : option string :=
  match l with
  | [] => None
  | (k', v) :: l => if decide (k' = k) then Some v else assoc k l
  end.

Lemma buildConfig_lookup app fn k :
  entries (buildConfig app fn) !! k =
  match assoc k (reserved app fn) with
  | Some v => Some v
  | None => match entries (fn_Config fn) !! k with
            | Some v => Some v
            | None => entries (app_Config app) !! k
            end
  end.
Proof.
  unfold buildConfig, reserved. cbn [assoc]. rewrite !entries_map_set.
  do 4 (case_decide; [done|]). rewrite !set_all_lookup.
  destruct (entries (fn_Config fn) !! k); [done|]. destruct (entries (app_Config app) !! k); [done|].
  cbn. apply lookup_empty.
Qed.
End CallLemmas.

(** C36: the call made for an HTTP request to a function, with a trigger and a
    writer: it is refused with "resources too big" exactly when the machine
    could never hold the function's memory plus the 2 GB tmpfs; otherwise it
    carries the function's image, memory and timeouts, the ids of app,
    function and trigger, and a configuration in which the listener and
    format keys are fixed by the agent, then the reserved FN_ keys, then the
    function's values win over the app's. *)
Theorem GetCall_http_spec {MR : MapRange} url_String a new_id now app fn req tr w :
  a_callOpts a = [] -> a_callOverrider a = None ->
  no_nil (fn_Annotations fn) ->
  let r := GetCall a [FromHTTPFnRequest url_String new_id now app fn req; WithTrigger tr; WithWriter w] in
  if IsResourcePossible (a_resources a) (u64 (fn_Memory fn + 2048)) 0 then
    exists c m, r = Ok c /\ c_Call c = Some m /\ c_respWriter c = Some w /\ is_Some (c_stderr c) /\
      cl_ID m = new_id /\ cl_Image m = fn_Image fn /\ cl_Memory m = fn_Memory fn /\
      cl_Timeout m = fn_Timeout fn /\ cl_IdleTimeout m = fn_IdleTimeout fn /\ cl_TmpFsSize m = 2048 /\
      cl_AppID m = app_ID app /\ cl_FnID m = fn_ID fn /\ cl_TriggerID m = tr_ID tr /\
      MergeChange (app_Annotations app) (fn_Annotations fn) = Ok (cl_Annotations m) /\
      forall k, entries (cl_Config m) !! k =
        if decide ("FN_FORMAT" = k)%string then Some "http-stream"%string
        else if decide ("FN_LISTENER" = k)%string then Some "unix:/tmp/iofs/lsnr.sock"%string
        else match assoc k (reserved app fn) with
             | Some v => Some v
             | None => match entries (fn_Config fn) !! k with
                       | Some v => Some v
                       | None => entries (app_Config app) !! k
                       end
             end
  else r = Err (EVar ErrCallResourceTooBig).
Proof.
  intros Ho Hov Hn r.
  destruct (MergeChange_total (app_Annotations app) (fn_Annotations fn) Hn) as [ann Hann].
  unfold r, GetCall. rewrite Ho, Hov. cbn [Datatypes.app run_opts]. unfold FromHTTPFnRequest at 1 2.
  rewrite Hann. cbn [obind reqURL].
  unfold WithTrigger, WithWriter. cbn [c_Call set_req set_Call obind c_req set_respWriter].
  cbn [with_TriggerID cl_Memory cl_TmpFsSize cl_CPUs].
  destruct (IsResourcePossible _ _ _); [|done].
  eexists _, _. split; [reflexivity|]. split; [reflexivity|]. split_and!; try reflexivity.
  - by eexists.
  - intros k. cbn [with_Config cl_Config].
    rewrite !entries_map_set. do 2 (case_decide; [done|]). apply buildConfig_lookup.
Qed.

Lemma GetCall_http_spec_witness :
  exists c, GetCall {| a_callOpts := []; a_callOverrider := None;
       a_resources := RT 8589934592 0 4000 0; a_newLogger := 7%nat |}
    [FromHTTPFnRequest (MR := canonical_range) (fun u => url_Host u) "id" 5
       (MkApp "a" "app" None None None 0 0) (MkFn "f" "fn" "a" "img" 128 30 30 None None 0 0)
       (MkReq "POST" (MkURL "" "h" "/") false "h" None "");
     WithTrigger (MkTrigger "t" "tr" "a" "f" 0 0 "http" "/s" None); WithWriter 3] = Ok c.
Proof.
  pose proof (GetCall_http_spec (MR := canonical_range) (fun u => url_Host u)
    {| a_callOpts := []; a_callOverrider := None; a_resources := RT 8589934592 0 4000 0; a_newLogger := 7%nat |}
    "id" 5 (MkApp "a" "app" None None None 0 0) (MkFn "f" "fn" "a" "img" 128 30 30 None None 0 0)
    (MkReq "POST" (MkURL "" "h" "/") false "h" None "")
    (MkTrigger "t" "tr" "a" "f" 0 0 "http" "/s" None) 3 eq_refl eq_refl) as H.
  destruct H as (c & m & H & _).
  - intros k v Hk. cbn in Hk. by rewrite lookup_empty in Hk.
  - exists c. exact H.
Defined.

(** C37: the end of a call records the status - success, timeout for a passed
    deadline, error with its text otherwise - keeps at most 240 points of
    statistics, and returns the listener's error if there is one and else the
    original error. *)
Theorem End_spec {MR : MapRange} fuel m now errIn fire s0 :
  (Z.of_nat (length (cl_Stats m)) <= 240 \/
   (hd_error (cl_Stats m) = Some s0 /\ sorted (cl_Stats m) /\ Forall has_metrics (cl_Stats m) /\
    240 <= Timestamp (List.last (cl_Stats m) s0) - Timestamp s0 <= maxI64 /\ (480 <= fuel)%nat)) ->
  exists m', End_ fuel m now errIn fire =
      Some (Ok (m', match fire m' with Some e => Some e | None => errIn end)) /\
    cl_CompletedAt m' = now /\ Z.of_nat (length (cl_Stats m')) <= 240 /\
    (cl_Status m' = "success"%string <-> errIn = None) /\
    (cl_Status m' = "timeout"%string <-> errIn = Some EDeadlineExceeded) /\
    (forall e, errIn = Some e -> e <> EDeadlineExceeded ->
       cl_Status m' = "error"%string /\ cl_Error m' = error_msg e).
Proof.
  intros Hst. unfold End_.
  assert (exists st, Decimate fuel 240 (cl_Stats m) = Some (Ok st) /\ Z.of_nat (length st) <= 240) as (st & -> & Hl).
  { destruct (Z.leb_spec (Z.of_nat (length (cl_Stats m))) 240) as [Hle|Hgt].
    - exists (cl_Stats m). unfold Decimate. by rewrite (proj2 (Z.leb_le _ _) Hle).
    - destruct Hst as [?|(Hhd & Hs & Hm & Hspan & Hf)]; [lia|].
      destruct (Decimate_total 240 (cl_Stats m) s0 fuel Hhd Hs Hm) as (out & Ho & Hlen); [lia|done|simpl; lia|].
      by exists out. }
  destruct (end_status errIn (cl_Error m)) as [status err] eqn:E. cbn [obind].
  exists (with_Completed m now status err st). split; [done|]. split; [done|]. split; [done|].
  cbn [with_Completed cl_Status cl_Error].
  destruct errIn as [[]|]; simpl in E; simplify_eq; naive_solver.
Qed.

Lemma End_spec_witness :
  exists m', End_ (MR := canonical_range) 480
    (MkCall "" "" "" 0 "" "" "" "" 0 0 0 0 0 None None None "" 0 0 0 0 [] "" "" "" "" "") 9
    (Some EDeadlineExceeded) (fun _ => None) = Some (Ok (m', Some EDeadlineExceeded)).
Proof.
  destruct (End_spec (MR := canonical_range) 480
    (MkCall "" "" "" 0 "" "" "" "" 0 0 0 0 0 None None None "" 0 0 0 0 [] "" "" "" "" "") 9
    (Some EDeadlineExceeded) (fun _ => None) (sample 0 0)) as (m' & H & _); [left; simpl; lia|].
  exists m'. exact H.
Defined.

Lemma GetCallLatencies_nonneg m : 0 <= (GetCallLatencies m).1 /\ 0 <= (GetCallLatencies m).2.
Proof.
  destruct m as [m|]; [|done]. unfold GetCallLatencies, time_sub.
  destruct (negb _ && negb _); [|done].
  destruct (Z.ltb_spec (cl_StartedAt m) (cl_CreatedAt m)); [done|].
  destruct (Z.ltb_spec (cl_CompletedAt m) (cl_StartedAt m)); simpl; split; try done; word_lia.
Qed.
