(* ===== verification/StateTrackers.v ===== *)
(** * Request and container states (src/api/agent/state_trackers.go, slots.go)

    A request and a container each carry a small state machine; every accepted
    transition is then mirrored in the counters of the slot queue, in two
    separate critical sections (enter the new state, exit the old one).  The
    counters decide whether a queue is idle and whether a container is
    started.  The steps are written once for both kinds of state, against the
    class [StateCounters]; [tr_step] interleaves any number of updates of the
    requests and containers of a queue and their mirrored steps.  The theorems:
    the state machine only moves forward except among the running states, the
    counters equal the truth less what is outstanding and are exact when nothing
    is, when a queue is idle, and when a new container is wanted. *)
From stdpp Require Import functions.
From S2P Require Import Prelude.

(** ** States *)

Inductive RequestStateType := RequestStateNone | RequestStateWait | RequestStateExec | RequestStateDone.
Inductive ContainerStateType :=
| ContainerStateNone | ContainerStateWait | ContainerStateStart | ContainerStateIdle
| ContainerStatePaused | ContainerStateBusy | ContainerStateDone.

#[export] Instance RequestStateType_eq_dec : EqDecision RequestStateType.
Proof. solve_decision. Defined.
#[export] Instance ContainerStateType_eq_dec : EqDecision ContainerStateType.
Proof. solve_decision. Defined.

(** The constants' values ([iota]). *)
Definition req_num (s : RequestStateType) : Z :=
  match s with RequestStateNone => 0 | RequestStateWait => 1 | RequestStateExec => 2 | RequestStateDone => 3 end.
Definition ctr_num (s : ContainerStateType) : Z :=
  match s with
  | ContainerStateNone => 0 | ContainerStateWait => 1 | ContainerStateStart => 2 | ContainerStateIdle => 3
  | ContainerStatePaused => 4 | ContainerStateBusy => 5 | ContainerStateDone => 6
  end.

Definition containerStateKeys (s : ContainerStateType) : string :=
  match s with
  | ContainerStateNone => "none" | ContainerStateWait => "wait" | ContainerStateStart => "start"
  | ContainerStateIdle => "idle" | ContainerStatePaused => "paused" | ContainerStateBusy => "busy"
  | ContainerStateDone => "done"
  end%string.

(** [requestState.UpdateState]: forward only. *)
Definition req_allowed (old new : RequestStateType) : bool := req_num old <? req_num new.

Definition isIdleState (s : ContainerStateType) : bool :=
  bool_decide (s = ContainerStateIdle) || bool_decide (s = ContainerStatePaused).

(** [containerState.UpdateState]: forward, paused to idle, busy to idle or paused. *)
Definition ctr_allowed (old new : ContainerStateType) : bool :=
  (ctr_num old <? ctr_num new) ||
  (bool_decide (old = ContainerStatePaused) && bool_decide (new = ContainerStateIdle)) ||
  (bool_decide (old = ContainerStateBusy) && isIdleState new).

(** [GetState] *)
Definition GetState (s : ContainerStateType) : string := containerStateKeys s.

(** ** Counters *)

(** [slotQueueStats]: an array of [uint64] counters per kind of state. *)
Record slotQueueStats := SQStats {
  requestStates : RequestStateType -> Z;
  containerStates : ContainerStateType -> Z
}.
Definition zero_stats : slotQueueStats := {| requestStates := fun _ => 0; containerStates := fun _ => 0 |}.

(** The four methods share one shape: nothing for the state None. *)
Definition bump {K} `{EqDecision K} (none : K) (d : Z) (k : K) (f : K -> Z) : K -> Z :=
  if decide (k = none) then f else <[k := u64 (f k + d)]> f.

Definition enterRequestState (k : RequestStateType) (s : slotQueueStats) : slotQueueStats :=
  {| requestStates := bump RequestStateNone 1 k (requestStates s); containerStates := containerStates s |}.
Definition exitRequestState (k : RequestStateType) (s : slotQueueStats) : slotQueueStats :=
  {| requestStates := bump RequestStateNone (-1) k (requestStates s); containerStates := containerStates s |}.
Definition enterContainerState (k : ContainerStateType) (s : slotQueueStats) : slotQueueStats :=
  {| requestStates := requestStates s; containerStates := bump ContainerStateNone 1 k (containerStates s) |}.
Definition exitContainerState (k : ContainerStateType) (s : slotQueueStats) : slotQueueStats :=
  {| requestStates := requestStates s; containerStates := bump ContainerStateNone (-1) k (containerStates s) |}.

Definition isIdle (s : slotQueueStats) : bool :=
  (requestStates s RequestStateWait =? 0) && (requestStates s RequestStateExec =? 0) &&
  (containerStates s ContainerStateWait =? 0) && (containerStates s ContainerStateStart =? 0) &&
  (containerStates s ContainerStateIdle =? 0) && (containerStates s ContainerStatePaused =? 0) &&
  (containerStates s ContainerStateBusy =? 0).

Definition isNewContainerNeeded (cur : slotQueueStats) : bool :=
  let idleWorkers := u64 (containerStates cur ContainerStateIdle + containerStates cur ContainerStatePaused) in
  let starters := containerStates cur ContainerStateStart in
  let startWaiters := containerStates cur ContainerStateWait in
  let queuedRequests := requestStates cur RequestStateWait in
  let effectiveWaiters := if idleWorkers <? queuedRequests then u64 (queuedRequests - idleWorkers) else 0 in
  if effectiveWaiters =? 0 then false
  else
    let effectiveStarters := u64 (starters + startWaiters) in
    if (0 <? effectiveStarters) && (effectiveWaiters <=? effectiveStarters) then false
    else true.

(** ** Trackers and their mirrored counters

    What an update of a tracker does to the slot queue: the interface between a
    kind of state and its counters. *)
Class StateCounters (K : Type) `{EqDecision K} := {
  none : K;
  allowed : K -> K -> bool;
  enter : K -> slotQueueStats -> slotQueueStats;
  exit_ : K -> slotQueueStats -> slotQueueStats;
  counter : slotQueueStats -> K -> Z;
  counter_zero : forall k, counter zero_stats k = 0;
  counter_enter : forall k k' s, k' <> none ->
    counter (enter k s) k' = if decide (k = k') then u64 (counter s k' + 1) else counter s k';
  counter_exit : forall k k' s, k' <> none ->
    counter (exit_ k s) k' = if decide (k = k') then u64 (counter s k' + -1) else counter s k'
}.

Lemma bump_lookup {K} `{EqDecision K} (none k k' : K) d f : k' <> none ->
  bump none d k f k' = if decide (k = k') then u64 (f k' + d) else f k'.
Proof.
  intros Hk. unfold bump. destruct (decide (k = none)), (decide (k = k')); subst; try done.
  - by rewrite fn_lookup_insert.
  - by rewrite fn_lookup_insert_ne.
Qed.

#[refine, export] Instance request_counters : StateCounters RequestStateType := {|
  none := RequestStateNone; allowed := req_allowed;
  enter := enterRequestState; exit_ := exitRequestState; counter := requestStates
|}.
Proof. all: intros; simpl; try done; by apply bump_lookup. Defined.

#[refine, export] Instance container_counters : StateCounters ContainerStateType := {|
  none := ContainerStateNone; allowed := ctr_allowed;
  enter := enterContainerState; exit_ := exitContainerState; counter := containerStates
|}.
Proof. all: intros; simpl; try done; by apply bump_lookup. Defined.

(** What is left to do of an accepted update. *)
Inductive op (K : Type) := Enter (k : K) | Exit (k : K).
Arguments Enter {K}. Arguments Exit {K}.

(** The trackers of one kind, and the goroutines inside [UpdateState] with what
    each has left to do. *)
Record trackers (K : Type) := Trackers { states : list K; pend : list (list (op K)) }.
Arguments Trackers {K}. Arguments states {K}. Arguments pend {K}.

Section Trackers.
  Context {K : Type} `{SC : StateCounters K}.

Definition run_op (o : op K) (st : slotQueueStats) : slotQueueStats :=
  match o with Enter k => enter k st | Exit k => exit_ k st end.

(** The critical section of [UpdateState] on tracker [i]. *)
Definition UpdateState (t : trackers K) (i : nat) (new : K) : trackers K :=
  match states t !! i with
  | Some old =>
      if allowed old new then Trackers (<[i := new]> (states t)) (pend t ++ [[Enter new; Exit old]]) else t
  | None => t
  end.

(** A new tracker, an update, or the next mirrored step of a goroutine. *)
Inductive kind_step : trackers K * slotQueueStats -> trackers K * slotQueueStats -> Prop :=
| tr_new t st : kind_step (t, st) (Trackers (states t ++ [none]) (pend t), st)
| tr_update t st i new : new <> none -> kind_step (t, st) (UpdateState t i new, st)
| tr_mirror t st j o rest :
    pend t !! j = Some (o :: rest) ->
    kind_step (t, st) (Trackers (states t) (<[j := rest]> (pend t)), run_op o st).
End Trackers.

(** The requests and the containers of one slot queue, and its counters. *)
Record trsys := TrSys {
  requests : trackers RequestStateType;
  containers : trackers ContainerStateType;
  counters : slotQueueStats
}.

Inductive tr_step : trsys -> trsys -> Prop :=
| tr_request s t st : kind_step (requests s, counters s) (t, st) -> tr_step s (TrSys t (containers s) st)
| tr_container s t st : kind_step (containers s, counters s) (t, st) -> tr_step s (TrSys (requests s) t st).

Definition tr_init : trsys := TrSys (Trackers [] []) (Trackers [] []) zero_stats.
Definition tr_reach : trsys -> Prop := rtc tr_step tr_init.

Section Exact.
  Context {K : Type} `{SC : StateCounters K}.
  Implicit Types (t : trackers K).

Definition in_state (k : K) t : Z := countZ (fun k' => bool_decide (k' = k)) (states t).
(** The outstanding effect on the counter of [k]: enters minus exits. *)
Definition op_effect (k : K) (o : op K) : Z :=
  match o with
  | Enter k' => if decide (k' = k) then 1 else 0
  | Exit k' => if decide (k' = k) then -1 else 0
  end.
Definition outstanding (k : K) t : Z := sumZ (op_effect k <$> concat (pend t)).

Definition kind_inv t (st : slotQueueStats) : Prop :=
  forall k, k <> none -> counter st k = u64 (in_state k t - outstanding k t).

Lemma concat_insert_sum {A} (f : A -> Z) (l : list (list A)) j o rest :
  l !! j = Some (o :: rest) ->
  sumZ (f <$> concat (<[j := rest]> l)) = sumZ (f <$> concat l) - f o.
Proof.
  revert j. induction l as [|x l IH]; intros [|j] Hj; simplify_eq/=.
  - rewrite !fmap_app, !sumZ_app. lia.
  - rewrite !fmap_app, !sumZ_app, (IH _ Hj). lia.
Qed.

Lemma kind_step_inv t st t' st' : kind_inv t st -> kind_step (t, st) (t', st') -> kind_inv t' st'.
Proof.
  intros Hi Hs k Hk. specialize (Hi k Hk). inversion Hs as [?|? ? i new Hn|? ? j o rest Hj]; subst; clear Hs.
  - unfold in_state, outstanding in *. cbn [states pend]. rewrite countZ_app. simpl.
    rewrite bool_decide_false by congruence. rewrite Hi. f_equal. lia.
  - unfold UpdateState. destruct (states t !! i) as [old|] eqn:Ei; [|done].
    destruct (allowed old new); [|done].
    unfold in_state, outstanding in *. cbn [states pend]. rewrite (countZ_insert _ _ _ _ _ Ei), Hi.
    rewrite concat_app, fmap_app, sumZ_app. simpl. f_equal.
    repeat case_bool_decide; repeat case_decide; subst; try done; lia.
  - unfold in_state, outstanding in *. cbn [states pend]. rewrite (concat_insert_sum _ _ _ _ _ Hj).
    destruct o as [k'|k']; cbn [run_op op_effect]; rewrite ?counter_enter, ?counter_exit by done;
      destruct (decide (k' = k)); rewrite ?Hi; autorewrite with word; f_equal; lia.
Qed.

Lemma outstanding_none k t : Forall (fun l => l = []) (pend t) -> outstanding k t = 0.
Proof.
  unfold outstanding. induction 1 as [|l ls Hl Hls IH]; [done|]. subst. done.
Qed.

Lemma kind_exact t st k : kind_inv t st -> k <> none -> Z.of_nat (length (states t)) < w64 ->
  Forall (fun l => l = []) (pend t) -> counter st k = in_state k t.
Proof.
  intros Hi Hk Hl Hp. rewrite (Hi k Hk), outstanding_none by done.
  rewrite Z.sub_0_r. apply u64_small. unfold in_state.
  pose proof (countZ_nonneg (fun k' => bool_decide (k' = k)) (states t)).
  pose proof (countZ_length (fun k' => bool_decide (k' = k)) (states t)). word_lia.
Qed.
End Exact.

(** The steps of one kind leave the counters of the other alone. *)
Lemma request_step_containers t st t' st' :
  kind_step (K := RequestStateType) (t, st) (t', st') -> containerStates st' = containerStates st.
Proof. intros H. inversion H; subst; [done..|]. by destruct o. Qed.
Lemma container_step_requests t st t' st' :
  kind_step (K := ContainerStateType) (t, st) (t', st') -> requestStates st' = requestStates st.
Proof. intros H. inversion H; subst; [done..|]. by destruct o. Qed.

Definition tr_inv (s : trsys) : Prop :=
  kind_inv (requests s) (counters s) /\ kind_inv (containers s) (counters s).

Lemma tr_step_inv s s' : tr_inv s -> tr_step s s' -> tr_inv s'.
Proof.
  intros [Hr Hc] Hs. destruct Hs as [s t st H|s t st H]; split; cbn [requests containers counters].
  - by eapply kind_step_inv.
  - intros k Hk. simpl. rewrite (request_step_containers _ _ _ _ H). by apply Hc.
  - intros k Hk. simpl. rewrite (container_step_requests _ _ _ _ H). by apply Hr.
  - by eapply kind_step_inv.
Qed.

Lemma tr_reach_inv s : tr_reach s -> tr_inv s.
Proof.
  intros H. unfold tr_reach in H. remember tr_init as s0.
  assert (Hi : tr_inv s0) by (subst; split; intros k Hk; done). clear Heqs0.
  induction H as [|x y z Hxy Hyz IH]; [done|]. by eapply IH, tr_step_inv.
Qed.

(** ** Theorems *)

(** A sequence of [UpdateState] calls on one container. *)
Definition run_updates (l : list ContainerStateType) (s : ContainerStateType) : ContainerStateType :=
  foldl (fun s new => if ctr_allowed s new then new else s) s l.

(** The life of a container: not started, waiting, starting, running, done. *)
Definition phase (s : ContainerStateType) : Z :=
  match s with
  | ContainerStateNone => 0 | ContainerStateWait => 1 | ContainerStateStart => 2
  | ContainerStateIdle | ContainerStatePaused | ContainerStateBusy => 3
  | ContainerStateDone => 4
  end.

Lemma ctr_allowed_phase a b : ctr_allowed a b = true -> phase a <= phase b /\ a <> b.
Proof. by destruct a, b. Qed.

(** Whatever sequence of updates a container's state receives, its life only
    moves forward - waiting, starting, running, done - with idle, paused and
    busy freely interchangeable while it runs; an accepted update always
    changes the state; and once done it stays done. *)
Theorem container_state_machine l s :
  phase s <= phase (run_updates l s) /\
  (s = ContainerStateDone -> run_updates l s = ContainerStateDone) /\
  (forall new, ctr_allowed s new = true ->
     s <> new /\ (phase s < phase new \/ phase s = 3 /\ phase new = 3)) /\
  (forall new, phase s = 3 -> phase new = 3 -> s <> new -> ctr_allowed s new = true).
Proof.
  split_and!.
  - revert s. induction l as [|n l IH]; intros s; [done|]. cbn [run_updates foldl].
    destruct (ctr_allowed s n) eqn:E; [|apply IH].
    apply ctr_allowed_phase in E. specialize (IH n). unfold run_updates in IH. lia.
  - intros ->. induction l as [|n l IH]; [done|]. cbn [run_updates foldl]. by destruct n.
  - intros new H. destruct s, new; try done; simpl; (split; [done|lia]).
  - by destruct s, new.
Qed.

Lemma container_state_machine_witness :
  run_updates [ContainerStateIdle; ContainerStateStart] ContainerStateDone = ContainerStateDone.
Proof. by apply container_state_machine. Defined.

(** C24: the counters of a slot queue: under any interleaving of the updates of its
    requests and containers and their mirrored steps, the counter of every state
    equals, modulo 2^64, the number of requests (containers) in it less the
    mirrored steps still to come; so whenever no such step is outstanding every
    counter is exact. *)
Theorem container_counters_exact s :
  tr_reach s ->
  (forall k, k <> ContainerStateNone ->
     containerStates (counters s) k = u64 (in_state k (containers s) - outstanding k (containers s)) /\
     (Z.of_nat (length (states (containers s))) < w64 -> Forall (fun l => l = []) (pend (containers s)) ->
      containerStates (counters s) k = in_state k (containers s))) /\
  (forall k, k <> RequestStateNone ->
     requestStates (counters s) k = u64 (in_state k (requests s) - outstanding k (requests s)) /\
     (Z.of_nat (length (states (requests s))) < w64 -> Forall (fun l => l = []) (pend (requests s)) ->
      requestStates (counters s) k = in_state k (requests s))).
Proof.
  intros Hs. destruct (tr_reach_inv s Hs) as [Hr Hc].
  split; intros k Hk; (split; [by (apply Hc || apply Hr)|intros Hl Hp]).
  - exact (kind_exact _ _ k Hc Hk Hl Hp).
  - exact (kind_exact _ _ k Hr Hk Hl Hp).
Qed.

(** One container has been created and told to wait; its exit from the state
    None is still to be mirrored. *)
Definition one_waiting : trsys :=
  TrSys (Trackers [] []) (Trackers [ContainerStateWait] [[Exit ContainerStateNone]])
    (enterContainerState ContainerStateWait zero_stats).

Lemma one_waiting_reach : tr_reach one_waiting.
Proof.
  assert (H : ContainerStateWait <> ContainerStateNone) by discriminate.
  set (s1 := TrSys (Trackers [] []) (Trackers [ContainerStateNone] []) zero_stats).
  set (s2 := TrSys (Trackers [] []) (Trackers [ContainerStateWait] [[Enter ContainerStateWait; Exit ContainerStateNone]]) zero_stats).
  apply (rtc_l _ tr_init s1 one_waiting); [exact (tr_container tr_init _ _ (tr_new (Trackers [] []) zero_stats))|].
  apply (rtc_l _ s1 s2 one_waiting); [exact (tr_container s1 _ _ (tr_update (containers s1) zero_stats 0 ContainerStateWait H))|].
  apply rtc_once.
  exact (tr_container s2 _ _ (tr_mirror (containers s2) zero_stats 0 (Enter ContainerStateWait) [Exit ContainerStateNone] eq_refl)).
Defined.

Lemma container_counters_exact_witness : containerStates (counters one_waiting) ContainerStateWait = 1.
Proof.
  rewrite (proj1 (proj1 (container_counters_exact one_waiting one_waiting_reach) ContainerStateWait ltac:(discriminate))).
  vm_compute. reflexivity.
Defined.

(** When a slot queue counts as idle: with no mirrored step outstanding,
    [isIdle] holds exactly when every request is new or done and every
    container is new or done - nobody waits, runs or starts. *)
Theorem isIdle_spec s :
  tr_reach s ->
  Forall (fun l => l = []) (pend (requests s)) -> Forall (fun l => l = []) (pend (containers s)) ->
  Z.of_nat (length (states (requests s))) < w64 -> Z.of_nat (length (states (containers s))) < w64 ->
  isIdle (counters s) = true <->
  Forall (fun s => s = RequestStateNone \/ s = RequestStateDone) (states (requests s)) /\
  Forall (fun s => s = ContainerStateNone \/ s = ContainerStateDone) (states (containers s)).
Proof.
  intros Hs Pr Pc Lr Lc. destruct (tr_reach_inv s Hs) as [Hr Hc]. unfold isIdle.
  pose proof (fun k Hk => kind_exact _ _ k Hr Hk Lr Pr) as Er.
  pose proof (fun k Hk => kind_exact _ _ k Hc Hk Lc Pc) as Ec. simpl in Er, Ec.
  rewrite !Er, !Ec by done.
  assert (Hz : forall K `{EqDecision K} (k : K) (t : trackers K), (in_state k t =? 0) = true <-> ~ k ∈ states t).
  { intros K EK k t. rewrite Z.eqb_eq. unfold in_state. rewrite countZ_zero. split.
    - intros H Hk. specialize (H k Hk). by rewrite bool_decide_true in H.
    - intros H x Hx. apply bool_decide_false. by intros ->. }
  rewrite !andb_true_iff, !Hz, !Forall_forall. split.
  - intros H. destruct_and! H. split; intros [] Hx; auto; done.
  - intros [H1 H2]. split_and!; intros Hx;
      (apply H1 in Hx || apply H2 in Hx); naive_solver.
Qed.

Lemma isIdle_spec_witness : isIdle (counters tr_init) = true.
Proof.
  apply isIdle_spec; [apply rtc_refl|constructor|constructor|reflexivity|reflexivity|split; constructor].
Defined.

(** A container is started exactly when the waiting requests outnumber the
    idle, paused, starting and resource-waiting containers together (counters
    below 2^64 in sum). *)
Theorem isNewContainerNeeded_spec s :
  let c := containerStates s in
  (forall k, 0 <= c k) -> (forall k, is_u64 (requestStates s k)) ->
  c ContainerStateIdle + c ContainerStatePaused < w64 -> c ContainerStateStart + c ContainerStateWait < w64 ->
  isNewContainerNeeded s = true <->
  c ContainerStateIdle + c ContainerStatePaused + c ContainerStateStart + c ContainerStateWait <
    requestStates s RequestStateWait.
Proof.
  intros c Hc Hr H1 H2. unfold isNewContainerNeeded. fold c.
  pose proof (Hc ContainerStateIdle). pose proof (Hc ContainerStatePaused).
  pose proof (Hc ContainerStateStart). pose proof (Hc ContainerStateWait).
  pose proof (Hr RequestStateWait) as Hq.
  rewrite (u64_small (c ContainerStateIdle + _)), (u64_small (c ContainerStateStart + _)) by word_lia.
  destruct (Z.ltb_spec (c ContainerStateIdle + c ContainerStatePaused) (requestStates s RequestStateWait)).
  - rewrite u64_small by word_lia.
    destruct (Z.eqb_spec (requestStates s RequestStateWait - (c ContainerStateIdle + c ContainerStatePaused)) 0); [lia|].
    destruct (Z.ltb_spec 0 (c ContainerStateStart + c ContainerStateWait)),
      (Z.leb_spec (requestStates s RequestStateWait - (c ContainerStateIdle + c ContainerStatePaused))
        (c ContainerStateStart + c ContainerStateWait)); simpl; split; intros; try done; lia.
  - simpl. split; [done|lia].
Qed.

Lemma isNewContainerNeeded_spec_witness :
  isNewContainerNeeded (enterRequestState RequestStateWait zero_stats) = true.
Proof.
  apply isNewContainerNeeded_spec.
  - intros []; vm_compute; discriminate.
  - intros k. split; destruct k; vm_compute; first [reflexivity | discriminate].
  - vm_compute; reflexivity.
  - vm_compute; reflexivity.
  - vm_compute; reflexivity.
Defined.
