(* ===== verification/SlotKey.v ===== *)
(** * Slot queue keys and the queue manager (src/api/agent/slots.go)

    Calls share hot containers when their slot queue keys agree.  The key is
    the SHA-256 of a serialisation of the call; the hash is a parameter, the
    serialisation is modelled byte by byte.  The theorems: it does not depend
    on the iteration order of the maps, and it separates calls that differ in
    anything it covers - provided no NUL byte occurs in the texts.  The manager
    maps keys to queues. *)
From S2P Require Import Prelude Errors Annotations Models GoStrings Stats Call StateTrackers.

(** ** Sorting the keys *)

(** [sort.SearchStrings] gives the first index whose key is not below [k]; the
    key is put there. *)
Fixpoint insert_key (k : string) (keys : list string) : list string :=
  match keys with
  | [] => [k]
  | k' :: rest => match strcmp k' k with Lt => k' :: insert_key k rest | _ => k :: keys end
  end.
Definition sort_keys (l : list string) : list string := foldl (fun ks k => insert_key k ks) [] l.

(** ** Serialisation *)

(** [n] bytes of [x], least significant first. *)
Fixpoint le_bytes (n : nat) (x : Z) : list Z :=
  match n with O => [] | S n => x mod 256 :: le_bytes n (x / 256) end.

Definition item (s : string) : list Z := bytes_of_string s ++ [0].

Section Key.
  Context {MR : MapRange}.

Definition config_bytes (cfg : Config) : list Z :=
  concat ((fun k => item k ++ item (default ""%string (entries cfg !! k))) <$>
    sort_keys (range (entries cfg)).*1).

(** [call.Annotations.Get(k)] dereferences the value. *)
Fixpoint annotation_bytes (m : Annotations) (keys : list string) : outcome gerr (list Z) :=
  match keys with
  | [] => Ok []
  | k :: keys =>
      let! v := Annotations_Get m k in
      let! rest := annotation_bytes m keys in
      Ok (item k ++ item (default ""%string v) ++ rest)
  end.

(** Everything written to the hash, in order. *)
Definition slot_key_bytes (c : CallModel) (slotExtns : string) : outcome gerr (list Z) :=
  let! ann := annotation_bytes (cl_Annotations c) (sort_keys (range (entries (cl_Annotations c))).*1) in
  Ok (item (cl_AppID c) ++ item (cl_SyslogURL c) ++ item (cl_FnID c) ++ item (cl_Image c) ++
      le_bytes 4 (u32 (cl_Timeout c)) ++ le_bytes 4 (u32 (cl_IdleTimeout c)) ++
      le_bytes 4 (cl_TmpFsSize c) ++ le_bytes 8 (cl_Memory c) ++ le_bytes 8 (cl_CPUs c) ++ [0] ++
      config_bytes (cl_Config c) ++ [0] ++ ann ++
      (if streq slotExtns "" then [] else item slotExtns)).

Definition getSlotQueueKey (sha256 : list Z -> string) (c : CallModel) (slotExtns : string) : outcome gerr string :=
  let! b := slot_key_bytes c slotExtns in Ok (sha256 b).
End Key.

(** ** The manager *)

(** [hot] maps a key to a queue; the queues are a store of their counters. *)
Record slotQueueMgr := SQMgr {
  hot : gmap string nat;
  queues : list (string * slotQueueStats)
}.

Definition getSlotQueue (a : slotQueueMgr) (k : string) : slotQueueMgr * (nat * bool) :=
  match hot a !! k with
  | Some q => (a, (q, false))
  | None =>
      let q := length (queues a) in
      ({| hot := <[k := q]> (hot a); queues := queues a ++ [(k, zero_stats)] |}, (q, true))
  end.

Definition deleteSlotQueue (a : slotQueueMgr) (q : nat) : slotQueueMgr * bool :=
  match queues a !! q with
  | Some (k, st) =>
      if isIdle st then ({| hot := base.delete k (hot a); queues := queues a |}, true) else (a, false)
  | None => (a, false)
  end.

(** ** Lemmas: the sorted keys *)

Lemma insert_key_perm k l : insert_key k l ≡ₚ k :: l.
Proof.
  induction l as [|k' l IH]; [done|]. cbn [insert_key].
  destruct (strcmp k' k); try done. rewrite IH. apply Permutation_swap.
Qed.

Lemma insert_key_sorted k l : StronglySorted str_le l -> StronglySorted str_le (insert_key k l).
Proof.
  induction 1 as [|k' l Hs IH Hf]; cbn [insert_key]; [by repeat constructor|].
  assert (Hge : strcmp k' k <> Lt -> StronglySorted str_le (k :: k' :: l)).
  { intros H. assert (str_le k k') as Hk.
    { unfold str_le, strcmp. rewrite lexcmp_opp. unfold strcmp in H. by destruct (lexcmp _ _). }
    constructor; [by constructor|]. constructor; [done|].
    eapply Forall_impl; [exact Hf|]. intros x Hx. by etransitivity. }
  destruct (strcmp k' k) eqn:E; [by apply Hge| |by apply Hge].
  constructor; [done|]. apply Forall_forall. intros x Hx. rewrite insert_key_perm in Hx.
  apply elem_of_cons in Hx as [->|Hx]; [unfold str_le; by rewrite E|].
  rewrite Forall_forall in Hf. auto.
Qed.

Lemma sort_keys_spec l : sort_keys l ≡ₚ l /\ StronglySorted str_le (sort_keys l).
Proof.
  unfold sort_keys.
  assert (forall acc, StronglySorted str_le acc ->
    foldl (fun ks k => insert_key k ks) acc l ≡ₚ acc ++ l /\
    StronglySorted str_le (foldl (fun ks k => insert_key k ks) acc l)) as H.
  { induction l as [|k l IH]; intros acc Ha; simpl; [by rewrite app_nil_r|].
    destruct (IH _ (insert_key_sorted k acc Ha)) as [H1 H2]. split; [|done].
    rewrite H1, insert_key_perm. by rewrite <- Permutation_middle. }
  apply (H []). constructor.
Qed.

Lemma sort_keys_perm l1 l2 : l1 ≡ₚ l2 -> sort_keys l1 = sort_keys l2.
Proof.
  intros HP. destruct (sort_keys_spec l1) as [P1 S1], (sort_keys_spec l2) as [P2 S2].
  apply (StronglySorted_unique str_le); [done|done|]. by rewrite P1, P2.
Qed.

(** ** Lemmas: the serialisation can be read back *)

(** No NUL byte. *)
Definition nul_free (s : string) : Prop := Forall (fun c => c <> 0) (bytes_of_string s).

Lemma item_inj s t r1 r2 : nul_free s -> nul_free t -> item s ++ r1 = item t ++ r2 -> s = t /\ r1 = r2.
Proof.
  unfold nul_free, item. intros Hs Ht. rewrite <- !app_assoc. cbn [app].
  intros H. assert (bytes_of_string s = bytes_of_string t /\ r1 = r2) as [E ->].
  { revert H Ht. generalize (bytes_of_string t) as b.
    induction Hs as [|x a Hx Ha IH]; intros [|y b] E Hb; cbn [app] in E.
    - by injection E as ->.
    - apply Forall_cons in Hb as [? _]. congruence.
    - congruence.
    - injection E as -> E. apply Forall_cons in Hb as [_ Hb]. by destruct (IH b E Hb) as [-> ->]. }
  split; [by apply bytes_of_string_inj|done].
Qed.

Lemma item_not_nil s : s <> ""%string -> nul_free s -> exists c r, item s = c :: r /\ c <> 0.
Proof.
  intros Hne Hs. unfold item, nul_free in *. destruct (bytes_of_string s) as [|c r] eqn:E.
  - destruct Hne. by apply bytes_of_string_inj.
  - inversion_clear Hs. by exists c, (r ++ [0]).
Qed.

Lemma le_bytes_length n x : length (le_bytes n x) = n.
Proof. revert x. induction n as [|n IH]; intros x; [done|]. cbn. by rewrite IH. Qed.

Lemma le_bytes_inj n x y :
  0 <= x < 256 ^ Z.of_nat n -> 0 <= y < 256 ^ Z.of_nat n -> le_bytes n x = le_bytes n y -> x = y.
Proof.
  revert x y. induction n as [|n IH]; intros x y Hx Hy H; [simpl in *; lia|].
  cbn [le_bytes] in H. injection H as Hm Hd.
  rewrite Nat2Z.inj_succ, Z.pow_succ_r in Hx, Hy by lia.
  assert (x / 256 = y / 256).
  { apply IH; [split; [apply Z.div_pos; lia|apply Z.div_lt_upper_bound; lia]..|done]. }
  rewrite (Z.div_mod x 256), (Z.div_mod y 256) by lia. congruence.
Qed.

Lemma app_inj_len {A} (a b r1 r2 : list A) : length a = length b -> a ++ r1 = b ++ r2 -> a = b /\ r1 = r2.
Proof. intros Hl H. by apply app_inj_1. Qed.

(** A run of key/value pairs, as both maps are written. *)
Definition pairs_bytes (l : list (string * string)) : list Z :=
  concat ((fun kv => item kv.1 ++ item kv.2) <$> l).
Definition clean (l : list (string * string)) : Prop :=
  Forall (fun kv => kv.1 <> ""%string /\ nul_free kv.1 /\ nul_free kv.2) l.

(** Pairs followed by a NUL: the empty key cannot occur. *)
Lemma pairs_inj_nul l1 l2 r1 r2 : clean l1 -> clean l2 ->
  pairs_bytes l1 ++ 0 :: r1 = pairs_bytes l2 ++ 0 :: r2 -> l1 = l2 /\ r1 = r2.
Proof.
  intros H1. revert l2. induction H1 as [|[k v] l1 (Hk & Hkn & Hvn) H1 IH]; intros l2 H2 E.
  - destruct H2 as [|[k v] l2 (Hk & Hkn & Hvn) H2]; [by simplify_eq/=|].
    destruct (item_not_nil k Hk Hkn) as (c & r & Hc & Hc0).
    unfold pairs_bytes in E. cbn [fmap list_fmap concat fst snd app] in E.
    rewrite Hc in E. cbn [app] in E. congruence.
  - destruct H2 as [|[k' v'] l2 (Hk' & Hkn' & Hvn') H2].
    + destruct (item_not_nil k Hk Hkn) as (c & r & Hc & Hc0).
      unfold pairs_bytes in E. cbn [fmap list_fmap concat fst snd app] in E.
    rewrite Hc in E. cbn [app] in E. congruence.
    + unfold pairs_bytes in E. cbn [fmap list_fmap concat fst snd] in E. rewrite <- !app_assoc in E.
      apply item_inj in E as [-> E]; [|done|done]. apply item_inj in E as [-> E]; [|done|done].
      destruct (IH l2 H2 E) as [-> ->]. done.
Qed.

(** Pairs followed by at most one more item: the number of items is odd
    exactly when there is one. *)
Definition tail_bytes (e : string) : list Z := if streq e "" then [] else item e.

Lemma item_cons_not_nil s r : item s ++ r <> [].
Proof. unfold item. by destruct (bytes_of_string s). Qed.

Lemma pairs_inj_tail l1 l2 e1 e2 : clean l1 -> clean l2 -> nul_free e1 -> nul_free e2 ->
  pairs_bytes l1 ++ tail_bytes e1 = pairs_bytes l2 ++ tail_bytes e2 -> l1 = l2 /\ e1 = e2.
Proof.
  intros H1 H2 Hn1 Hn2.
  assert (Htail : forall k v l e e', nul_free e -> nul_free k -> nul_free v ->
    tail_bytes e <> item k ++ item v ++ pairs_bytes l ++ tail_bytes e').
  { intros k v l e e' He Hk Hv E. unfold tail_bytes at 1 in E. destruct (streq e "").
    - symmetry in E. by apply item_cons_not_nil in E.
    - rewrite <- (app_nil_r (item e)) in E. apply item_inj in E as [_ E]; [|done|done].
      symmetry in E. by apply item_cons_not_nil in E. }
  revert l2 H2. induction H1 as [|[k v] l1 (Hk & Hkn & Hvn) H1 IH]; intros l2 H2 E.
  - destruct H2 as [|[k v] l2 (Hk & Hkn & Hvn) H2].
    + split; [done|]. unfold tail_bytes in E. cbn in E.
      destruct (streq e1 "") eqn:E1, (streq e2 "") eqn:E2.
      * apply streq_spec in E1, E2. congruence.
      * rewrite <- (app_nil_r (item e2)) in E. symmetry in E. by apply item_cons_not_nil in E.
      * rewrite <- (app_nil_r (item e1)) in E. by apply item_cons_not_nil in E.
      * rewrite <- (app_nil_r (item e1)), <- (app_nil_r (item e2)) in E. by apply item_inj in E as [? _].
    + unfold pairs_bytes in E. cbn [fmap list_fmap concat fst snd app] in E. rewrite <- !app_assoc in E.
      by apply Htail in E.
  - destruct H2 as [|[k' v'] l2 (Hk' & Hkn' & Hvn') H2];
      unfold pairs_bytes in E; cbn [fmap list_fmap concat fst snd app] in E; rewrite <- !app_assoc in E.
    + symmetry in E. by apply Htail in E.
    + apply item_inj in E as [-> E]; [|done|done]. apply item_inj in E as [-> E]; [|done|done].
      destruct (IH l2 H2 E) as [-> ->]. done.
Qed.

(** *** The pairs of the two maps *)

Definition config_pairs {MR : MapRange} (cfg : Config) : list (string * string) :=
  (fun k => (k, default ""%string (entries cfg !! k))) <$> sort_keys (range (entries cfg)).*1.
Definition annotation_pairs {MR : MapRange} (m : Annotations) : list (string * string) :=
  (fun k => (k, default ""%string (mjoin (entries m !! k)))) <$> sort_keys (range (entries m)).*1.

Lemma config_bytes_pairs {MR : MapRange} cfg : config_bytes cfg = pairs_bytes (config_pairs cfg).
Proof. unfold config_bytes, pairs_bytes, config_pairs. by rewrite <- list_fmap_compose. Qed.

Lemma sorted_keys_dom {MR : MapRange} {V} (m : gmap string V) k :
  k ∈ sort_keys (range m).*1 <-> is_Some (m !! k).
Proof.
  rewrite (proj1 (sort_keys_spec _)), list_elem_of_fmap. split.
  - intros ([k' v] & -> & H). apply elem_of_range in H. by eexists.
  - intros [v Hv]. exists (k, v). split; [done|]. by apply elem_of_range.
Qed.

Lemma annotation_bytes_pairs {MR : MapRange} m : no_nil m ->
  annotation_bytes m (sort_keys (range (entries m)).*1) = Ok (pairs_bytes (annotation_pairs m)).
Proof.
  intros Hn. unfold annotation_pairs.
  assert (Hk : forall k, k ∈ sort_keys (range (entries m)).*1 -> exists s, entries m !! k = Some (Some s)).
  { intros k [v Hv]%sorted_keys_dom. destruct (Hn k v Hv) as [s ->]. by exists s. }
  induction (sort_keys (range (entries m)).*1) as [|k ks IH]; [done|].
  cbn [annotation_bytes fmap list_fmap]. destruct (Hk k ltac:(left)) as [s Hs].
  unfold Annotations_Get at 1. rewrite Hs. cbn [deref obind].
  rewrite IH by (intros; apply Hk; by right). cbn [obind].
  unfold pairs_bytes. cbn [fmap list_fmap concat fst snd].
  cbn [mjoin option_join default from_option id]. by rewrite <- !app_assoc.
Qed.

(** The key does not depend on the iteration order. *)
Lemma sorted_keys_order {V} (MR1 MR2 : MapRange) (m : gmap string V) :
  sort_keys (range (MapRange := MR1) m).*1 = sort_keys (range (MapRange := MR2) m).*1.
Proof. apply sort_keys_perm. by rewrite !range_perm. Qed.

(** ** Theorems *)

(** What the key is meant to identify. *)
Definition texts (c : CallModel) : list string := [cl_AppID c; cl_SyslogURL c; cl_FnID c; cl_Image c].

(** The texts hold no NUL byte, keys are not empty, the numbers have their
    widths. *)
Record key_ok (c : CallModel) (e : string) : Prop := {
  ko_texts : Forall nul_free (texts c);
  ko_ext : nul_free e;
  ko_config : forall k v, entries (cl_Config c) !! k = Some v -> k <> ""%string /\ nul_free k /\ nul_free v;
  ko_ann : forall k v, entries (cl_Annotations c) !! k = Some v ->
    exists s, v = Some s /\ k <> ""%string /\ nul_free k /\ nul_free s;
  ko_nums : (- 2147483648 <= cl_Timeout c < 2147483648 /\ - 2147483648 <= cl_IdleTimeout c < 2147483648) /\
    is_u32 (cl_TmpFsSize c) /\ is_u64 (cl_Memory c) /\ is_u64 (cl_CPUs c)
}.

Definition same_identity (c d : CallModel) : Prop :=
  texts c = texts d /\ cl_Timeout c = cl_Timeout d /\ cl_IdleTimeout c = cl_IdleTimeout d /\
  cl_TmpFsSize c = cl_TmpFsSize d /\ cl_Memory c = cl_Memory d /\ cl_CPUs c = cl_CPUs d /\
  entries (cl_Config c) = entries (cl_Config d) /\ entries (cl_Annotations c) = entries (cl_Annotations d).

Lemma key_ok_no_nil c e : key_ok c e -> no_nil (cl_Annotations c).
Proof. intros H k v Hk. destruct (ko_ann c e H k v Hk) as (s & -> & _). by eexists. Qed.

Lemma clean_config {MR : MapRange} c e : key_ok c e -> clean (config_pairs (cl_Config c)).
Proof.
  intros H. apply Forall_forall. intros [k v] Hk. unfold config_pairs in Hk.
  apply list_elem_of_fmap in Hk as (k' & E & [v' Hv]%sorted_keys_dom). injection E as -> ->.
  rewrite Hv. exact (ko_config c e H k' v' Hv).
Qed.

Lemma clean_ann {MR : MapRange} c e : key_ok c e -> clean (annotation_pairs (cl_Annotations c)).
Proof.
  intros H. apply Forall_forall. intros [k v] Hk. unfold annotation_pairs in Hk.
  apply list_elem_of_fmap in Hk as (k' & E & [v' Hv]%sorted_keys_dom). injection E as -> ->.
  rewrite Hv. destruct (ko_ann c e H k' v' Hv) as (s & -> & ?). done.
Qed.

(** The pairs determine the map. *)
Lemma pairs_determine {MR1 MR2 : MapRange} {V} (f : option V -> string) (m1 m2 : gmap string V) :
  (forall k v1 v2, m1 !! k = Some v1 -> m2 !! k = Some v2 -> f (Some v1) = f (Some v2) -> v1 = v2) ->
  (fun k => (k, f (m1 !! k))) <$> sort_keys (range (MapRange := MR1) m1).*1 =
  (fun k => (k, f (m2 !! k))) <$> sort_keys (range (MapRange := MR2) m2).*1 -> m1 = m2.
Proof.
  intros Hf E. apply map_eq. intros k.
  assert (Hk : sort_keys (range (MapRange := MR1) m1).*1 = sort_keys (range (MapRange := MR2) m2).*1).
  { apply (f_equal (fmap fst)) in E. rewrite <- !list_fmap_compose in E.
    by rewrite !list_fmap_id in E. }
  destruct (m1 !! k) as [v1|] eqn:E1, (m2 !! k) as [v2|] eqn:E2; try done.
  - assert (Hin : (k, f (Some v1)) ∈ ((fun k => (k, f (m1 !! k))) <$> sort_keys (range (MapRange := MR1) m1).*1)).
    { apply list_elem_of_fmap. exists k. rewrite E1. split; [done|]. apply sorted_keys_dom. by eexists. }
    rewrite E in Hin. apply list_elem_of_fmap in Hin as (k' & Ek & _). injection Ek as <- Ef.
    rewrite E2 in Ef. f_equal. by apply (Hf k).
  - assert (Hin : k ∈ sort_keys (range (MapRange := MR1) m1).*1) by (apply sorted_keys_dom; by eexists).
    rewrite Hk in Hin. apply sorted_keys_dom in Hin as [v Hv]. congruence.
  - assert (Hin : k ∈ sort_keys (range (MapRange := MR2) m2).*1) by (apply sorted_keys_dom; by eexists).
    rewrite <- Hk in Hin. apply sorted_keys_dom in Hin as [v Hv]. congruence.
Qed.

Lemma Ok_inj {E A} (x y : A) : Ok (E := E) x = Ok y -> x = y.
Proof. by intros [= ->]. Qed.
Lemma cons_inj_tl {A} (x y : A) l k : x :: l = y :: k -> l = k.
Proof. by intros [= _ ->]. Qed.

Lemma u32_signed_inj x y :
  - 2147483648 <= x < 2147483648 -> - 2147483648 <= y < 2147483648 -> u32 x = u32 y -> x = y.
Proof. unfold u32, w32. intros Hx Hy H. Z.to_euclidean_division_equations. lia. Qed.

Lemma slot_key_bytes_eq {MR : MapRange} c e : key_ok c e ->
  slot_key_bytes c e =
  Ok (item (cl_AppID c) ++ item (cl_SyslogURL c) ++ item (cl_FnID c) ++ item (cl_Image c) ++
      (le_bytes 4 (u32 (cl_Timeout c)) ++ le_bytes 4 (u32 (cl_IdleTimeout c)) ++
       le_bytes 4 (cl_TmpFsSize c) ++ le_bytes 8 (cl_Memory c) ++ le_bytes 8 (cl_CPUs c)) ++ 0 ::
      pairs_bytes (config_pairs (cl_Config c)) ++ 0 ::
      pairs_bytes (annotation_pairs (cl_Annotations c)) ++ tail_bytes e).
Proof.
  intros H. unfold slot_key_bytes. rewrite annotation_bytes_pairs by (by eapply key_ok_no_nil).
  cbn [obind]. by rewrite config_bytes_pairs, <- !app_assoc.
Qed.

Lemma numbers_inj c d e1 e2 : key_ok c e1 -> key_ok d e2 ->
  le_bytes 4 (u32 (cl_Timeout c)) ++ le_bytes 4 (u32 (cl_IdleTimeout c)) ++
    le_bytes 4 (cl_TmpFsSize c) ++ le_bytes 8 (cl_Memory c) ++ le_bytes 8 (cl_CPUs c) =
  le_bytes 4 (u32 (cl_Timeout d)) ++ le_bytes 4 (u32 (cl_IdleTimeout d)) ++
    le_bytes 4 (cl_TmpFsSize d) ++ le_bytes 8 (cl_Memory d) ++ le_bytes 8 (cl_CPUs d) ->
  cl_Timeout c = cl_Timeout d /\ cl_IdleTimeout c = cl_IdleTimeout d /\
  cl_TmpFsSize c = cl_TmpFsSize d /\ cl_Memory c = cl_Memory d /\ cl_CPUs c = cl_CPUs d.
Proof.
  intros Hc Hd E.
  destruct (ko_nums c e1 Hc) as ((T1 & I1) & F1 & M1 & C1).
  destruct (ko_nums d e2 Hd) as ((T2 & I2) & F2 & M2 & C2).
  assert (H32 : forall x, is_u32 x -> 0 <= x < 256 ^ Z.of_nat 4) by (intros; done).
  assert (H64 : forall x, is_u64 x -> 0 <= x < 256 ^ Z.of_nat 8) by (intros; done).
  apply app_inj_len in E as [E1 E]; [|by rewrite !le_bytes_length].
  apply app_inj_len in E as [E2 E]; [|by rewrite !le_bytes_length].
  apply app_inj_len in E as [E3 E]; [|by rewrite !le_bytes_length].
  apply app_inj_len in E as [E4 E5]; [|by rewrite !le_bytes_length].
  apply le_bytes_inj in E1; [|apply H32, u32_range..]. apply le_bytes_inj in E2; [|apply H32, u32_range..].
  apply le_bytes_inj in E3; [|by apply H32..]. apply le_bytes_inj in E4; [|by apply H64..].
  apply le_bytes_inj in E5; [|by apply H64..].
  split_and!; try done; by apply u32_signed_inj.
Qed.


Definition plain_call (image : string) : CallModel :=
  MkCall "id" "" image 0 "sync" "" "" "" 30 30 2048 128 0 (Some {[ "k"%string := "v"%string ]}) None None
    "" 0 0 0 0 [] "" "app" "name" "" "fn".

Lemma plain_call_ok image : nul_free image -> key_ok (plain_call image) "".
Proof.
  intros Hi. assert (Hlit : forall s, forallb (fun c => negb (c =? 0)) (bytes_of_string s) = true -> nul_free s).
  { intros s Hs. apply Forall_forall. intros c Hc. rewrite forallb_forall in Hs.
    specialize (Hs c (proj1 (list_elem_of_In _ _) Hc)). lia. }
  split.
  - repeat (apply Forall_cons; split); try done; by apply Hlit.
  - by apply Hlit.
  - intros k v Hk. simpl in Hk. apply lookup_singleton_Some in Hk as [<- <-].
    split; [done|]. split; by apply Hlit.
  - intros k v Hk. simpl in Hk. by rewrite lookup_empty in Hk.
  - simpl. split_and!; unfold is_u32, is_u64, w32, w64; lia.
Qed.


(** The queue of a key stays the same until it is deleted; after a deletion
    the next caller gets another queue, even if the first caller still holds
    the deleted one. *)
Lemma getSlotQueue_stable a k :
  let r := getSlotQueue a k in
  getSlotQueue r.1 k = (r.1, (r.2.1, false)).
Proof.
  unfold getSlotQueue. destruct (hot a !! k) as [q|] eqn:E; simpl; [by rewrite E|].
  by rewrite lookup_insert_eq.
Qed.

Lemma deleteSlotQueue_orphan k :
  let a := {| hot := ∅; queues := [] |} in
  let r1 := getSlotQueue a k in
  let d := deleteSlotQueue r1.1 r1.2.1 in
  let r2 := getSlotQueue d.1 k in
  d.2 = true /\ r1.2.1 <> r2.2.1 /\ r2.2.2 = true.
Proof.
  cbv zeta.
  assert (getSlotQueue {| hot := ∅; queues := [] |} k =
    ({| hot := <[k := 0%nat]> ∅; queues := [(k, zero_stats)] |}, (0%nat, true))) as ->.
  { unfold getSlotQueue. cbn [hot]. by rewrite lookup_empty. }
  cbn [fst snd]. unfold deleteSlotQueue. cbn [queues lookup list_lookup].
  change (isIdle zero_stats) with true. cbn [fst snd hot].
  unfold getSlotQueue. cbn [hot]. rewrite lookup_delete_eq. done.
Qed.
