(* ===== verification/Placer.v ===== *)
(** * Placement of calls on runners (src/api/runnerpool)

    The load balancer tries the runners of a pool until one accepts the call:
    the consistent-hash placer starts at a bucket computed from the function
    id, the naive placer at one taken from the clock; both walk the ring once
    per round, wait, and start over.  The pool, the runners, the contexts and
    the clock are the environment: a [round] holds what they answer.  The
    theorems: the hash ends with a bucket in range (and never bucket 1), a
    round tries each runner at most once and all of them unless stopped, and
    what the caller gets back. *)
From S2P Require Import Prelude Errors.

(** ** The consistent hash *)

(** The loop on fuel; a zero divisor panics, [None] is out of fuel. *)
Fixpoint jump_loop (fuel : nat) (key b j num_buckets : Z) : option (outcome unit Z) :=
  if j <? num_buckets then
    match fuel with
    | O => None
    | S fuel =>
        let b := j in
        let key := u64 (u64 (key * 2862933555777941757) + 1) in
        let d := Z.shiftr key 33 in
        if d =? 0 then Some Panic
        else jump_loop fuel key b (i64 ((b + 1) * i64 (u64 (Z.shiftl 1 31 / d + 1)))) num_buckets
    end
  else Some (Ok (i32 b)).

(** Each round at least doubles [j]: 33 rounds reach every [int32]. *)
Definition jumpConsistentHash (key num_buckets : Z) : option (outcome unit Z) :=
  jump_loop 33 key (-1) 0 num_buckets.

(** ** Placement *)

(** The environment of one round: the runners of the pool and its error, whether
    [IsDone] holds at each check, what each attempt answers (placed, error), the
    clock, and whether the retry timer fires before a context ends. *)
Record round (R : Type) := Round {
  r_runners : list R;
  r_err : option gerr;
  r_done : nat -> bool;
  r_try : nat -> R -> bool * option gerr;
  r_nanos : Z;
  r_timer : bool
}.
Arguments r_runners {R}. Arguments r_err {R}. Arguments r_done {R}.
Arguments r_try {R}. Arguments r_nanos {R}. Arguments r_timer {R}.
Arguments Round {R}.

Section Placer.
  Context {R : Type}.

(** The runners tried in a round, each with whether it took the call, and the
    error of the runner that did. *)
Definition tries : Type := list (R * bool) * option (option gerr).

(** The inner loop of [chPlacer.PlaceCall]: [k] attempts are left. *)
Fixpoint ch_loop (rd : round R) (k j i : nat) : tries :=
  match k with
  | O => ([], None)
  | S k =>
      if r_done rd j then ([], None)
      else match r_runners rd !! i with
           | None => ([], None)
           | Some r =>
               let (placed, err) := r_try rd j r in
               if placed then ([(r, true)], Some err)
               else
                 let (ts, res) := ch_loop rd k (S j) ((i + 1) mod length (r_runners rd))%nat in
                 ((r, false) :: ts, res)
           end
  end.

(** The inner loop of [naivePlacer.PlaceCall]. *)
Fixpoint naive_loop (rd : round R) (k j : nat) (rrIndex : Z) : tries :=
  match k with
  | O => ([], None)
  | S k =>
      if r_done rd j then ([], None)
      else
        let rrIndex := u64 (rrIndex + 1) in
        match r_runners rd !! Z.to_nat (rrIndex mod Z.of_nat (length (r_runners rd))) with
        | None => ([], None)
        | Some r =>
            let (placed, err) := r_try rd j r in
            if placed then ([(r, true)], Some err)
            else let (ts, res) := naive_loop rd k (S j) rrIndex in ((r, false) :: ts, res)
        end
  end.

(** [RetryAllBackoff]: fail fast for an empty pool whose error is a function
    error with status 502, else wait. *)
Definition RetryAllBackoff (rd : round R) : bool :=
  match r_runners rd, r_err rd with
  | [], Some e => if IsFuncError e && bool_decide (as_api e = Some 502) then false else r_timer rd
  | _, _ => r_timer rd
  end.

(** The error after the last round. *)
Definition no_placement (rd : round R) : gerr :=
  match r_err rd with Some e => e | None => EVar ErrCallTimeoutServerBusy end.

(** The result: every runner tried, whether the call was placed, and the error
    returned.  [None]: the environment has no further round. *)
Definition placement : Type := list (R * bool) * bool * option gerr.

Definition finish (rd : round R) (ts : tries) (again : option (outcome unit placement)) : option (outcome unit placement) :=
  match ts.2 with
  | Some err => Some (Ok (ts.1, true, err))
  | None =>
      if RetryAllBackoff rd then
        match again with
        | Some (Ok (ts', p, e)) => Some (Ok (ts.1 ++ ts', p, e))
        | x => x
        end
      else Some (Ok (ts.1, false, Some (no_placement rd)))
  end.

Fixpoint ch_PlaceCall (sum64 : Z) (rds : list (round R)) : option (outcome unit placement) :=
  match rds with
  | [] => None
  | rd :: rds =>
      let n := length (r_runners rd) in
      match jumpConsistentHash sum64 (i32 (Z.of_nat n)) with
      | Some (Ok i) => finish rd (ch_loop rd n 0 (Z.to_nat i)) (ch_PlaceCall sum64 rds)
      | Some Panic => Some Panic
      | Some (Err e) => Some (Err e)
      | None => None
      end
  end.

Fixpoint naive_PlaceCall (rds : list (round R)) : option (outcome unit placement) :=
  match rds with
  | [] => None
  | rd :: rds =>
      finish rd (naive_loop rd (length (r_runners rd)) 0 (r_nanos rd)) (naive_PlaceCall rds)
  end.
End Placer.

(** ** Lemmas: the hash *)

Lemma jump_step_key key : is_u64 (u64 (u64 (key * 2862933555777941757) + 1)).
Proof. apply u64_range. Qed.

(** The new [j] is at least twice the new [b] plus one. *)
Lemma jump_factor key d j :
  is_u64 key -> d = Z.shiftr key 33 -> d <> 0 -> 0 <= j < 2147483648 ->
  let j' := i64 ((j + 1) * i64 (u64 (Z.shiftl 1 31 / d + 1))) in
  2 * (j + 1) <= j' < w63.
Proof.
  intros Hk -> Hd Hj. rewrite Z.shiftr_div_pow2 in * by lia.
  change (Z.shiftl 1 31) with 2147483648. change (2 ^ 33) with 8589934592 in *.
  assert (Hb : 0 < key / 8589934592 < 2147483648).
  { assert (0 <= key / 8589934592) by (apply Z.div_pos; word_lia).
    split; [lia|]. apply Z.div_lt_upper_bound; word_lia. }
  set (d := key / 8589934592) in *.
  assert (Hq : 1 <= 2147483648 / d <= 2147483648).
  { split; [apply Z.div_le_lower_bound; lia|]. apply Z.div_le_upper_bound; nia. }
  set (q := 2147483648 / d) in *.
  cbv zeta. rewrite (u64_small (q + 1)) by word_lia. rewrite (i64_small (q + 1)) by word_lia.
  assert (Hj' : 2 * (j + 1) <= (j + 1) * (q + 1) <= 2147483648 * 2147483649) by nia.
  rewrite i64_small; word_lia.
Qed.

Lemma jump_loop_range fuel key b j n :
  is_u64 key -> 0 <= n < 2147483648 -> -1 <= b < j -> b <> 1 -> j <> 1 -> b < n \/ b = -1 ->
  n < (j + 1) * 2 ^ Z.of_nat fuel \/ n <= j ->
  (b = -1 -> j = 0) ->
  exists r, jump_loop fuel key b j n = Some r /\
    forall x, r = Ok x -> (n = 0 /\ x = -1 \/ 0 <= x < n) /\ x <> 1.
Proof.
  revert key b j. induction fuel as [|fuel IH]; intros key b j Hk Hn Hbj Hb1 Hj1 Hbn Hf Hj0; cbn [jump_loop].
  all: destruct (Z.ltb_spec j n) as [Hlt|Hge].
  - exfalso. simpl in Hf. lia.
  - eexists. split; [done|]. intros x [= <-]. unfold i32. rewrite Z.mod_small by word_lia. lia.
  - set (k' := u64 (u64 (key * 2862933555777941757) + 1)).
    destruct (Z.shiftr k' 33 =? 0) eqn:E; [by eexists|]. apply Z.eqb_neq in E.
    pose proof (jump_factor k' _ j (jump_step_key key) eq_refl E ltac:(lia)) as Hj'. cbv zeta in Hj'.
    apply IH; try done; try lia; [apply jump_step_key|].
    destruct Hf as [Hf|Hf]; [|lia]. left.
    rewrite Nat2Z.inj_succ, Z.pow_succ_r in Hf by lia.
    assert (0 < 2 ^ Z.of_nat fuel) by (apply Z.pow_pos_nonneg; lia). nia.
  - eexists. split; [done|]. intros x [= <-]. unfold i32. rewrite Z.mod_small by word_lia. lia.
Qed.

(** The bucket only grows while the loop runs. *)
Lemma jump_loop_ge fuel key b j n x :
  is_u64 key -> n < 2147483648 -> -1 <= b < j -> b < 2147483648 ->
  jump_loop fuel key b j n = Some (Ok x) -> b <= x /\ (j < n -> j <= x).
Proof.
  revert key b j. induction fuel as [|fuel IH]; intros key b j Hk Hn Hbj Hb H; cbn [jump_loop] in H.
  all: destruct (Z.ltb_spec j n) as [Hlt|Hge]; try done.
  1, 3: injection H as <-; unfold i32; rewrite Z.mod_small by word_lia; lia.
  set (k' := u64 (u64 (key * 2862933555777941757) + 1)) in *.
  destruct (Z.shiftr k' 33 =? 0) eqn:E; [done|]. apply Z.eqb_neq in E.
  pose proof (jump_factor k' _ j (jump_step_key key) eq_refl E ltac:(lia)) as Hj'. cbv zeta in Hj'.
  apply IH in H as [H _]; [lia|apply jump_step_key|done|lia|lia].
Qed.

Lemma jump_loop_consistent fuel key b j n m x y :
  is_u64 key -> n <= m < 2147483648 -> -1 <= b < j -> b < 2147483648 ->
  jump_loop fuel key b j n = Some (Ok x) -> jump_loop fuel key b j m = Some (Ok y) -> y = x \/ n <= y.
Proof.
  revert key b j. induction fuel as [|fuel IH]; intros key b j Hk Hm Hbj Hb Hx Hy.
  all: destruct (Z.ltb_spec j n) as [Hlt|Hge]; [|destruct (Z.ltb_spec j m) as [Hltm|Hgem]].
  2, 5: right; apply jump_loop_ge in Hy as [_ Hy]; [specialize (Hy Hltm); lia|done|lia..].
  - cbn [jump_loop] in Hx. by rewrite (proj2 (Z.ltb_lt _ _) Hlt) in Hx.
  - cbn [jump_loop] in Hx, Hy. rewrite (proj2 (Z.ltb_ge j n) Hge) in Hx.
    rewrite (proj2 (Z.ltb_ge j m) Hgem) in Hy. left. congruence.
  - cbn [jump_loop] in Hx, Hy. rewrite (proj2 (Z.ltb_lt j n) Hlt) in Hx.
    rewrite (proj2 (Z.ltb_lt j m)) in Hy by lia.
    set (k' := u64 (u64 (key * 2862933555777941757) + 1)) in *.
    destruct (Z.shiftr k' 33 =? 0) eqn:E; [done|]. apply Z.eqb_neq in E.
    pose proof (jump_factor k' _ j (jump_step_key key) eq_refl E ltac:(lia)) as Hj'. cbv zeta in Hj'.
    eapply (IH k' j); [apply jump_step_key|done| | |exact Hx|exact Hy]; lia.
  - cbn [jump_loop] in Hx, Hy. rewrite (proj2 (Z.ltb_ge j n) Hge) in Hx.
    rewrite (proj2 (Z.ltb_ge j m) Hgem) in Hy. left. congruence.
Qed.

(** The consistent hash of a 64-bit key over n buckets ends within 33 rounds
    with a bucket in range - or with a division by zero, as for one key below;
    it is -1 for no buckets, never bucket 1 (so of two runners only the first
    is ever the start); and adding buckets either keeps the bucket of a key or
    moves it to one of the new ones. *)
Theorem jumpConsistentHash_spec key n m :
  is_u64 key -> 0 <= n <= m -> m < 2147483648 ->
  (jumpConsistentHash key n = Some Panic \/
   exists x, jumpConsistentHash key n = Some (Ok x) /\ (n = 0 /\ x = -1 \/ 0 <= x < n) /\ x <> 1) /\
  (forall x y, jumpConsistentHash key n = Some (Ok x) -> jumpConsistentHash key m = Some (Ok y) ->
     y = x \/ n <= y) /\
  jumpConsistentHash 2313046976756913067 1 = Some Panic.
Proof.
  intros Hk Hn Hm. split_and!; [| |by vm_compute].
  - destruct (jump_loop_range 33 key (-1) 0 n) as (r & Hr & H); try done; try lia.
    unfold jumpConsistentHash. rewrite Hr. destruct r as [x|e|].
    + right. exists x. split; [done|]. by apply H.
    + exfalso. revert Hr. clear. generalize 33%nat, key, (-1), 0. intros f. induction f as [|f IH]; intros k b j; cbn [jump_loop].
      * by destruct (j <? n).
      * destruct (j <? n); [|done]. destruct (_ =? 0); [done|]. apply IH.
    + by left.
  - intros x y. apply jump_loop_consistent; [done|lia..].
Qed.

Lemma jumpConsistentHash_spec_witness :
  exists x, jumpConsistentHash 12345 10 = Some (Ok x) /\ 0 <= x < 10 /\ x <> 1.
Proof.
  destruct (jumpConsistentHash_spec 12345 10 10) as [[H|(x & Hx & Hr & H1)] _]; [word_lia|lia|lia|..].
  - vm_compute in H. discriminate.
  - exists x. split; [exact Hx|]. lia.
Defined.

(** ** Lemmas: placement *)

Section PlacerLemmas.
  Context {R : Type}.
  Implicit Types (rd : round R).

(** At most the last attempt took the call, and then its error is the result. *)
Definition committed (ts : list (R * bool)) (res : option (option gerr)) : Prop :=
  match res with
  | Some _ => exists pre r, ts = pre ++ [(r, true)] /\ Forall (fun a => a.2 = false) pre
  | None => Forall (fun a => a.2 = false) ts
  end.

(** The attempts walk the ring from [i]. *)
Definition on_ring rd (i : nat) (ts : list (R * bool)) : Prop :=
  forall t a, ts !! t = Some a ->
    r_runners rd !! ((i + t) mod length (r_runners rd))%nat = Some a.1.

(** The loop stops early only when the call was placed or a context ended. *)
Definition stopped rd (k : nat) (ts : @tries R) : Prop :=
  (length ts.1 <= k)%nat /\
  (ts.2 = None -> length ts.1 = k \/ exists j, r_done rd j = true).

Lemma committed_cons r ts res : committed ts res -> committed ((r, false) :: ts) res.
Proof.
  destruct res as [e|]; simpl.
  - intros (pre & r' & -> & Hf). exists ((r, false) :: pre), r'. split; [done|by constructor].
  - intros H. by constructor.
Qed.

Lemma ch_loop_spec rd k j i :
  (0 < length (r_runners rd))%nat ->
  let ts := ch_loop rd k j (i mod length (r_runners rd)) in
  committed ts.1 ts.2 /\ on_ring rd i ts.1 /\ stopped rd k ts.
Proof.
  intros Hn. revert j i. induction k as [|k IH]; intros j i; cbn [ch_loop].
  { split; [constructor|]. split; [by intros t a|]. split; [simpl; lia|by left]. }
  destruct (r_done rd j) eqn:Ed.
  { split; [constructor|]. split; [by intros t a|]. split; [simpl; lia|]. right. by exists j. }
  destruct (lookup_lt_is_Some_2 (r_runners rd) (i mod length (r_runners rd))%nat) as [r Hr].
  { apply Nat.mod_upper_bound. lia. }
  rewrite Hr. destruct (r_try rd j r) as [placed err]. destruct placed.
  { split; [by exists [], r|]. split; [|split; [simpl; lia|done]].
    intros [|t] a; simpl; [|done]. intros [= <-]. by rewrite Nat.add_0_r. }
  assert (Hi : ((i mod length (r_runners rd) + 1) mod length (r_runners rd))%nat = ((S i) mod length (r_runners rd))%nat).
  { rewrite Nat.Div0.add_mod_idemp_l. f_equal. lia. }
  rewrite Hi. destruct (IH (S j) (S i)) as (H1 & H2 & H3 & H4).
  destruct (ch_loop rd k (S j) _) as [ts res]. simpl in *.
  split; [by apply committed_cons|]. split; [|split; [simpl; lia|]].
  - intros [|t] a; simpl; [intros [= <-]; by rewrite Nat.add_0_r|].
    intros Ht. rewrite Nat.add_succ_r. by apply (H2 t).
  - intros Hres. destruct (H4 Hres); [left; simpl; lia|by right].
Qed.

(** The clock is below 2^30, so the index of the naive placer does not wrap. *)
Lemma naive_loop_spec rd k j (ns : nat) :
  (0 < length (r_runners rd))%nat -> Z.of_nat (ns + k) < w64 ->
  let ts := naive_loop rd k j (Z.of_nat ns) in
  committed ts.1 ts.2 /\ on_ring rd (S ns) ts.1 /\ stopped rd k ts.
Proof.
  intros Hn. revert j ns. induction k as [|k IH]; intros j ns Hw; cbn [naive_loop].
  { split; [constructor|]. split; [by intros t a|]. split; [simpl; lia|by left]. }
  destruct (r_done rd j) eqn:Ed.
  { split; [constructor|]. split; [by intros t a|]. split; [simpl; lia|]. right. by exists j. }
  assert (Hi : u64 (Z.of_nat ns + 1) = Z.of_nat (S ns)) by (rewrite u64_small; word_lia).
  rewrite Hi. rewrite <- Nat2Z.inj_mod, Nat2Z.id.
  destruct (lookup_lt_is_Some_2 (r_runners rd) (S ns mod length (r_runners rd))%nat) as [r Hr].
  { apply Nat.mod_upper_bound. lia. }
  rewrite Hr. destruct (r_try rd j r) as [placed err]. destruct placed.
  { split; [by exists [], r|]. split; [|split; [simpl; lia|done]].
    intros [|t] a; simpl; [|done]. intros [= <-]. by rewrite Nat.add_0_r. }
  destruct (IH (S j) (S ns)) as (H1 & H2 & H3 & H4); [lia|].
  destruct (naive_loop rd k (S j) _) as [ts res]. simpl in *.
  split; [by apply committed_cons|]. split; [|split; [simpl; lia|]].
  - intros [|t] a; cbn [lookup list_lookup]; [intros [= <-]; by rewrite Nat.add_0_r|].
    intros Ht. rewrite Nat.add_succ_r. by apply (H2 t).
  - intros Hres. destruct (H4 Hres); [left; simpl; lia|by right].
Qed.

(** Walking the ring meets every runner once. *)
Lemma ring_NoDup n i : NoDup ((fun t => (i + t) mod n)%nat <$> seq 0 n).
Proof.
  apply NoDup_fmap_2_strong; [|apply NoDup_seq].
  intros x y Hx Hy H. apply elem_of_seq in Hx, Hy.
  pose proof (Nat.div_mod_eq (i + x) n) as Ex. pose proof (Nat.div_mod_eq (i + y) n) as Ey.
  rewrite H in Ex. set (q1 := ((i + x) / n)%nat) in *. set (q2 := ((i + y) / n)%nat) in *.
  assert (q1 = q2 \/ (q1 + 1 <= q2)%nat \/ (q2 + 1 <= q1)%nat) as [->|[Hq|Hq]] by lia; [lia| |]; nia.
Qed.

(** What [finish] adds: the outcome of a whole placement. *)
Definition placement_ok (p : @placement R) : Prop :=
  match p with
  | (ts, true, err) => exists pre r, ts = pre ++ [(r, true)] /\ Forall (fun a => a.2 = false) pre
  | (ts, false, err) => Forall (fun a => a.2 = false) ts /\ is_Some err
  end.

Lemma finish_ok rd ts again p :
  committed ts.1 ts.2 -> (forall p, again = Some (Ok p) -> placement_ok p) ->
  finish rd ts again = Some (Ok p) -> placement_ok p.
Proof.
  unfold finish. destruct ts as [ts [err|]]; simpl; intros Hc Ha H.
  - by simplify_eq.
  - destruct (RetryAllBackoff rd); [|by simplify_eq; simpl; eauto].
    destruct again as [[[[ts' pl] e]| |]|]; try done. specialize (Ha _ eq_refl). simplify_eq.
    destruct pl; simpl in *.
    + destruct Ha as (pre & r & -> & Hf). exists (ts ++ pre), r. rewrite app_assoc. split; [done|].
      by apply Forall_app.
    + destruct Ha as [Hf He]. split; [by apply Forall_app|done].
Qed.
End PlacerLemmas.

Section PlacerWhole.
  Context {R : Type}.

Lemma ch_PlaceCall_ok sum64 (rds : list (round R)) p :
  ch_PlaceCall sum64 rds = Some (Ok p) ->
  placement_ok p /\ (p.1.2 = false -> exists rd, rd ∈ rds /\ p.2 = Some (no_placement rd)).
Proof.
  revert p. induction rds as [|rd rds IH]; intros p H; [done|]. cbn [ch_PlaceCall] in H.
  destruct (jumpConsistentHash _ _) as [[i| |]|]; try done.
  assert (Hc : committed (ch_loop rd (length (r_runners rd)) 0 (Z.to_nat i)).1
                         (ch_loop rd (length (r_runners rd)) 0 (Z.to_nat i)).2 ).
  { clear. generalize (length (r_runners rd)) as k, 0%nat as j, (Z.to_nat i) as i'.
    induction k as [|k IH]; intros j i'; cbn [ch_loop]; [constructor|].
    destruct (r_done rd j); [constructor|]. destruct (r_runners rd !! i'); [|constructor].
    destruct (r_try rd j r) as [[] err]; [by exists [], r|].
    specialize (IH (S j) ((i' + 1) mod length (r_runners rd))%nat).
    destruct (ch_loop rd k (S j) _) as [ts res]. by apply committed_cons. }
  split; [eapply finish_ok; [exact Hc| |exact H]; intros q Hq; by apply IH|].
  unfold finish in H. destruct (ch_loop rd _ 0 _) as [ts [err|]]; simpl in *.
  { by simplify_eq. }
  destruct (RetryAllBackoff rd).
  - destruct (ch_PlaceCall sum64 rds) as [[[[ts' pl] e]| |]|]; try done. simplify_eq. simpl.
    intros ->. destruct (IH _ eq_refl) as [_ H2]. destruct (H2 eq_refl) as (rd' & Hin & He).
    exists rd'. split; [by right|done].
  - simplify_eq. simpl. intros _. exists rd. split; [left|done].
Qed.

Lemma naive_PlaceCall_ok (rds : list (round R)) p :
  naive_PlaceCall rds = Some (Ok p) ->
  placement_ok p /\ (p.1.2 = false -> exists rd, rd ∈ rds /\ p.2 = Some (no_placement rd)).
Proof.
  revert p. induction rds as [|rd rds IH]; intros p H; [done|]. cbn [naive_PlaceCall] in H.
  assert (Hc : committed (naive_loop rd (length (r_runners rd)) 0 (r_nanos rd)).1
                         (naive_loop rd (length (r_runners rd)) 0 (r_nanos rd)).2 ).
  { clear. generalize (length (r_runners rd)) as k, 0%nat as j, (r_nanos rd) as x.
    induction k as [|k IH]; intros j x; cbn [naive_loop]; [constructor|].
    destruct (r_done rd j); [constructor|]. destruct (r_runners rd !! _) as [r|]; [|constructor].
    destruct (r_try rd j r) as [[] err]; [by exists [], r|].
    specialize (IH (S j) (u64 (x + 1))).
    destruct (naive_loop rd k (S j) _) as [ts res]. by apply committed_cons. }
  split; [eapply finish_ok; [exact Hc| |exact H]; intros q Hq; by apply IH|].
  unfold finish in H. destruct (naive_loop rd _ 0 _) as [ts [err|]]; simpl in *.
  { by simplify_eq. }
  destruct (RetryAllBackoff rd).
  - destruct (naive_PlaceCall rds) as [[[[ts' pl] e]| |]|]; try done. simplify_eq. simpl.
    intros ->. destruct (IH _ eq_refl) as [_ H2]. destruct (H2 eq_refl) as (rd' & Hin & He).
    exists rd'. split; [by right|done].
  - simplify_eq. simpl. intros _. exists rd. split; [left|done].
Qed.
(** The tries of a placement carry the answers of the runners tried, and a call that
    was placed ends with the answer of the runner that took it. *)
Definition answered (rds : list (round R)) (p : placement) : Prop :=
  Forall (fun a => exists rd j, rd ∈ rds /\ (r_try rd j a.1).1 = a.2) p.1.1 /\
  (p.1.2 = true -> exists pre r rd j, p.1.1 = pre ++ [(r, true)] /\ rd ∈ rds /\ r_try rd j r = (true, p.2)).

Definition round_answered (rd : round R) (ts : tries) : Prop :=
  Forall (fun a => exists j, (r_try rd j a.1).1 = a.2) ts.1 /\
  (forall err, ts.2 = Some err -> exists pre r j, ts.1 = pre ++ [(r, true)] /\ r_try rd j r = (true, err)).

Lemma round_answered_cons rd j r e ts : r_try rd j r = (false, e) -> round_answered rd ts -> round_answered rd ((r, false) :: ts.1, ts.2).
Proof.
  intros Hr [Hf Hl]. split; [constructor; [exists j; cbn; by rewrite Hr|done]|].
  intros err E. destruct (Hl err E) as (pre & r' & j' & E' & ?). exists ((r, false) :: pre), r', j'. cbn. by rewrite E'.
Qed.

Lemma round_answered_last rd j r e : r_try rd j r = (true, e) -> round_answered rd ([(r, true)], Some e).
Proof.
  intros Hr. split; [constructor; [exists j; cbn; by rewrite Hr|done]|]. intros err [= <-]. by exists [], r, j.
Qed.

Lemma ch_loop_answered (rd : round R) k j i : round_answered rd (ch_loop rd k j i).
Proof.
  revert j i. induction k as [|k IH]; intros j i; cbn [ch_loop]; [by split|].
  destruct (r_done rd j); [by split|]. destruct (r_runners rd !! i) as [r|]; [|by split].
  destruct (r_try rd j r) as [[] e] eqn:E; [by eapply round_answered_last|].
  pose proof (IH (S j) ((i + 1) mod length (r_runners rd))%nat) as H. destruct (ch_loop rd k (S j) _) as [ts res].
  by eapply (round_answered_cons rd j r e (ts, res)).
Qed.

Lemma naive_loop_answered (rd : round R) k j x : round_answered rd (naive_loop rd k j x).
Proof.
  revert j x. induction k as [|k IH]; intros j x; cbn [naive_loop]; [by split|].
  destruct (r_done rd j); [by split|]. destruct (r_runners rd !! _) as [r|]; [|by split].
  destruct (r_try rd j r) as [[] e] eqn:E; [by eapply round_answered_last|].
  pose proof (IH (S j) (u64 (x + 1))) as H. destruct (naive_loop rd k (S j) _) as [ts res].
  by eapply (round_answered_cons rd j r e (ts, res)).
Qed.

Lemma finish_answered rd rds ts again p : round_answered rd ts -> (forall q, again = Some (Ok q) -> answered rds q) ->
  finish rd ts again = Some (Ok p) -> answered (rd :: rds) p.
Proof.
  intros [Hf Hl] Ha H.
  assert (Forall (fun a => exists rd' j, rd' ∈ rd :: rds /\ (r_try rd' j a.1).1 = a.2) ts.1) as Hf'.
  { eapply Forall_impl; [exact Hf|]. intros a [j E]. exists rd, j. split; [left|done]. }
  unfold finish in H. destruct ts as [ts [err|]]; cbn [fst snd] in *.
  { injection H as <-. split; [done|]. intros _. destruct (Hl err eq_refl) as (pre & r & j & -> & E).
    exists pre, r, rd, j. split_and!; [done|left|done]. }
  destruct (RetryAllBackoff rd); [|injection H as <-; by split].
  destruct again as [[[[ts' pl] e]| |]|]; try done. injection H as <-. destruct (Ha _ eq_refl) as [Hf2 Hl2]. cbn [fst snd] in *. split.
  - apply Forall_app. split; [done|]. eapply Forall_impl; [exact Hf2|]. intros a (rd' & j & Hin & E). exists rd', j. split; [by right|done].
  - cbn. intros ->. destruct (Hl2 eq_refl) as (pre & r & rd' & j & -> & Hin & E). exists (ts ++ pre), r, rd', j.
    split_and!; [by rewrite app_assoc|by right|done].
Qed.

Lemma ch_PlaceCall_answered sum64 (rds : list (round R)) p : ch_PlaceCall sum64 rds = Some (Ok p) -> answered rds p.
Proof.
  revert p. induction rds as [|rd rds IH]; intros p H; [done|]. cbn [ch_PlaceCall] in H.
  destruct (jumpConsistentHash _ _) as [[i| |]|]; try done. eapply finish_answered; [apply ch_loop_answered|exact IH|exact H].
Qed.

Lemma naive_PlaceCall_answered (rds : list (round R)) p : naive_PlaceCall rds = Some (Ok p) -> answered rds p.
Proof.
  revert p. induction rds as [|rd rds IH]; intros p H; [done|]. cbn [naive_PlaceCall] in H.
  eapply finish_answered; [apply naive_loop_answered|exact IH|exact H].
Qed.
End PlacerWhole.

(** ** Theorems about placement *)

(** One round of either placer over a non-empty pool walks the ring from its
    starting runner: the attempts are at distinct positions, so no runner is
    tried twice; at most the last attempt takes the call; and when none does and
    no context ended, every runner was tried. *)
Theorem placer_round_spec {R : Type} (rd : round R) i ns :
  let n := length (r_runners rd) in
  (i < n)%nat -> Z.of_nat (ns + n) < w64 ->
  NoDup ((fun t => (i + t) mod n)%nat <$> seq 0 n) /\
  (let ts := ch_loop rd n 0 i in committed ts.1 ts.2 /\ on_ring rd i ts.1 /\ stopped rd n ts) /\
  (let ts := naive_loop rd n 0 (Z.of_nat ns) in committed ts.1 ts.2 /\ on_ring rd (S ns) ts.1 /\ stopped rd n ts).
Proof.
  intros n Hi Hw. split; [apply ring_NoDup|]. split.
  - pose proof (ch_loop_spec rd n 0 i ltac:(lia)) as H. fold n in H.
    by rewrite (Nat.mod_small i n Hi) in H.
  - apply naive_loop_spec; [lia|done].
Qed.

Lemma placer_round_spec_witness :
  let rd := Round ["a"; "b"; "c"]%string None (fun _ => false)
              (fun _ r => (bool_decide (r = "a"%string), None)) 0 false in
  on_ring rd 2 (ch_loop rd 3 0 2).1 /\ ch_loop rd 3 0 2 = ([("c", false); ("a", true)]%string, Some None).
Proof.
  intros rd. split; [|vm_compute; reflexivity].
  destruct (placer_round_spec rd 2 0) as (_ & (_ & H & _) & _); [simpl; lia|vm_compute; reflexivity|]. exact H.
Defined.

(** C26: what a caller gets from either placer: when the placement ends, either the
    last attempt of all took the call and no earlier one did - the call runs at
    most once - or no attempt did, and the error is the pool's error of one of
    the rounds or "server too busy". *)
Theorem PlaceCall_commits_once {R : Type} sum64 (rds : list (round R)) p :
  ch_PlaceCall sum64 rds = Some (Ok p) \/ naive_PlaceCall rds = Some (Ok p) ->
  placement_ok p /\
  (p.1.2 = false -> exists rd, rd ∈ rds /\
     p.2 = Some (match r_err rd with Some e => e | None => EVar ErrCallTimeoutServerBusy end)).
Proof. intros [H|H]; [by eapply ch_PlaceCall_ok|by apply naive_PlaceCall_ok]. Qed.

Lemma PlaceCall_commits_once_witness :
  let rd := Round ["a"; "b"]%string None (fun _ => false) (fun _ _ => (false, Some EDeadlineExceeded)) 0 false in
  let p := ([("a", false); ("b", false)]%string, false, Some (EVar ErrCallTimeoutServerBusy)) in
  ch_PlaceCall 7 [rd] = Some (Ok p) /\ placement_ok p.
Proof.
  intros rd p. assert (H : ch_PlaceCall 7 [rd] = Some (Ok p)) by (vm_compute; reflexivity).
  split; [exact H|]. exact (proj1 (PlaceCall_commits_once 7 [rd] p (or_introl H))).
Defined.
