(* ===== verification/Sync.v ===== *)
(** * Sessions and back-off (src/api/common/wait_utils.go, backoff.go)

    [WaitGroup] counts sessions and lets a closer wait for the last one;
    [wg_step] interleaves its critical sections, with the number of sessions
    the callers hold as a ghost.  [NextBackOff] computes the next retry delay;
    the random source is an argument.  The theorems: a closed group admits
    nobody and is drained when the closer returns, rightful calls never panic,
    a retry budget is spent exactly, and delays respect the configured range. *)
From S2P Require Import Prelude.

(** ** WaitGroup *)

Record WaitGroup := WG { isClosed : bool; sessions : Z; closer_closed : bool }.

Definition NewWaitGroup : WaitGroup := {| isClosed := false; sessions := 0; closer_closed := false |}.

Definition AddSession (r : WaitGroup) (delta : Z) : WaitGroup * bool :=
  if isClosed r then (r, false)
  else if sessions r =? u64 (maxU64 - delta) then (r, false)
  else ({| isClosed := false; sessions := u64 (sessions r + delta); closer_closed := closer_closed r |}, true).

Definition DoneSession (r : WaitGroup) : outcome unit WaitGroup :=
  if sessions r =? 0 then Panic
  else Ok {| isClosed := isClosed r; sessions := u64 (sessions r - 1); closer_closed := closer_closed r |}.

(** The first critical section of [CloseGroup] and [CloseGroupNB]. *)
Definition CloseGroup_enter (r : WaitGroup) : outcome unit WaitGroup :=
  if isClosed r then Ok r
  else if closer_closed r then Panic
  else Ok {| isClosed := true; sessions := sessions r; closer_closed := true |}.

(** The wait of [CloseGroup] ends. *)
Definition CloseGroup_returns (r : WaitGroup) : bool := sessions r =? 0.

(** The group, the sessions its callers hold, the goroutines waiting in
    [CloseGroup], and whether one of them has returned. *)
Record wgsys := WgSys { wg : WaitGroup; held : Z; closing : nat; closed_returned : bool }.

(** Sessions are added one at a time, as the code does, and ended by their
    holders. *)
Inductive wg_step : wgsys -> wgsys -> Prop :=
| wg_add s g : AddSession (wg s) 1 = (g, true) ->
    wg_step s {| wg := g; held := held s + 1; closing := closing s; closed_returned := closed_returned s |}
| wg_refused s g : AddSession (wg s) 1 = (g, false) ->
    wg_step s {| wg := g; held := held s; closing := closing s; closed_returned := closed_returned s |}
| wg_done s g : 0 < held s -> DoneSession (wg s) = Ok g ->
    wg_step s {| wg := g; held := held s - 1; closing := closing s; closed_returned := closed_returned s |}
| wg_close s g : CloseGroup_enter (wg s) = Ok g ->
    wg_step s {| wg := g; held := held s; closing := S (closing s); closed_returned := closed_returned s |}
| wg_return s c : closing s = S c -> CloseGroup_returns (wg s) = true ->
    wg_step s {| wg := wg s; held := held s; closing := c; closed_returned := true |}.

Definition wg_init : wgsys := {| wg := NewWaitGroup; held := 0; closing := 0; closed_returned := false |}.

Record wg_inv (s : wgsys) : Prop := {
  wi_count : sessions (wg s) = held s;
  wi_range : 0 <= held s < maxU64;
  wi_closer : closer_closed (wg s) = isClosed (wg s);
  wi_closing : (0 < closing s)%nat -> isClosed (wg s) = true;
  wi_returned : closed_returned s = true -> isClosed (wg s) = true /\ held s = 0
}.

Lemma wg_step_inv s s' : wg_inv s -> wg_step s s' -> wg_inv s'.
Proof.
  intros [Hc Hr Hcl Hcg Hre] Hs. destruct Hs as [s g H|s g H|s g Hp H|s g H|s c Hn H].
  - unfold AddSession in H. destruct (isClosed (wg s)) eqn:E; [done|].
    destruct (Z.eqb_spec (sessions (wg s)) (u64 (maxU64 - 1))) as [|Hne]; [done|]. simplify_eq.
    rewrite u64_small in Hne by word_lia. rewrite u64_small by word_lia.
    constructor; cbn [wg held closing closed_returned sessions isClosed closer_closed];
      [lia|word_lia|congruence|intros Hx; apply Hcg in Hx; congruence|intros Hx; destruct (Hre Hx); congruence].
  - unfold AddSession in H. assert (g = wg s) as ->.
    { destruct (isClosed (wg s)); [congruence|]. destruct (sessions (wg s) =? u64 (maxU64 - 1)); congruence. }
    by constructor.
  - unfold DoneSession in H. destruct (sessions (wg s) =? 0); [done|].
    assert (g = {| isClosed := isClosed (wg s); sessions := u64 (sessions (wg s) - 1); closer_closed := closer_closed (wg s) |})
      as -> by congruence.
    rewrite u64_small by word_lia.
    constructor; cbn [wg held closing closed_returned sessions isClosed closer_closed];
      [lia|lia|done|done|intros Hx; destruct (Hre Hx); lia].
  - unfold CloseGroup_enter in H. destruct (isClosed (wg s)) eqn:E.
    + assert (g = wg s) as -> by congruence. constructor; simpl; rewrite ?E; done.
    + rewrite Hcl in H.
      assert (g = {| isClosed := true; sessions := sessions (wg s); closer_closed := true |}) as -> by congruence.
      constructor; simpl; [done|done|done|done|intros Hx; destruct (Hre Hx); congruence].
  - unfold CloseGroup_returns in H. apply Z.eqb_eq in H.
    assert (Hcl' : isClosed (wg s) = true) by (apply Hcg; lia).
    constructor; cbn [wg held closing closed_returned sessions isClosed closer_closed];
      [done|done|done|done|intros _; split; [done|lia]].
Qed.

Lemma wg_reach_inv s s' : wg_inv s -> rtc wg_step s s' -> wg_inv s'.
Proof. intros Hi H. induction H as [|x y z Hxy Hyz IH]; [done|]. by eapply IH, wg_step_inv. Qed.

Lemma wg_init_inv : wg_inv wg_init.
Proof. constructor; simpl; try done; unfold maxU64; lia. Qed.

(** A wait group whose sessions are added one by one: its counter is the
    number of sessions held, ending a held session and closing (any number of
    times) never panic, a closed group admits nobody, and once a [CloseGroup]
    has returned no session is held then or ever after. *)
Theorem WaitGroup_safe s :
  rtc wg_step wg_init s ->
  sessions (wg s) = held s /\
  (0 < held s -> exists g, DoneSession (wg s) = Ok g) /\
  (exists g, CloseGroup_enter (wg s) = Ok g) /\
  (isClosed (wg s) = true -> forall d, (AddSession (wg s) d).2 = false) /\
  (closed_returned s = true -> forall s', rtc wg_step s s' -> held s' = 0 /\ isClosed (wg s') = true).
Proof.
  intros Hr. pose proof (wg_reach_inv _ _ wg_init_inv Hr) as Hi. destruct Hi as [Hc Hrg Hcl Hcg Hre].
  split_and!; [done|..].
  - intros Hp. unfold DoneSession. destruct (Z.eqb_spec (sessions (wg s)) 0); [lia|by eauto].
  - unfold CloseGroup_enter. rewrite Hcl. destruct (isClosed (wg s)); by eauto.
  - intros E d. unfold AddSession. by rewrite E.
  - intros Hret s' Hs'.
    assert (Hi' : wg_inv s') by (eapply wg_reach_inv; [|exact Hs']; by split).
    assert (closed_returned s' = true) as Hret'.
    { clear -Hret Hs'. induction Hs' as [|x y z Hxy Hyz IH]; [done|]. apply IH. by destruct Hxy. }
    destruct (wi_returned s' Hi' Hret'). done.
Qed.

Lemma WaitGroup_safe_witness :
  exists g, DoneSession (wg {| wg := {| isClosed := false; sessions := 1; closer_closed := false |};
    held := 1; closing := 0; closed_returned := false |}) = Ok g.
Proof.
  apply (WaitGroup_safe {| wg := {| isClosed := false; sessions := 1; closer_closed := false |};
    held := 1; closing := 0; closed_returned := false |}); [|simpl; lia].
  apply rtc_once. by apply (wg_add wg_init).
Defined.

(** With a delta of 2 the overflow test misses: the counter wraps to zero while
    the caller is told it holds two sessions. *)
Lemma AddSession_wraps :
  AddSession {| isClosed := false; sessions := maxU64 - 1; closer_closed := false |} 2 =
  ({| isClosed := false; sessions := 0; closer_closed := false |}, true).
Proof. by vm_compute. Qed.

(** ** Back-off *)

Record BackOffConfig := BOCfg { MaxRetries : Z; Interval : Z; MaxDelay : Z; MinDelay : Z }.
Definition RetryForever : Z := maxU64.

Record backoff := BO { cfg : BackOffConfig; attempts : Z; pow : Z }.

Definition NewBackOff (c : BackOffConfig) : outcome unit backoff :=
  if negb (MaxRetries c =? 0) && (negb (MaxDelay c =? 0) && (MaxDelay c <? MinDelay c)) then Panic
  else Ok {| cfg := c; attempts := 0; pow := 1 |}.

Definition Millisecond : Z := 1000000.

(** The delay in milliseconds for the new power; [r] is the next random word. *)
Definition backoff_delay (c : BackOffConfig) (pow r : Z) : outcome unit Z :=
  if Interval c =? 0 then Panic
  else
    let delay := maxU64 / Interval c in
    let delay := if pow - 1 <=? delay then (pow - 1) * Interval c else delay in
    let delay := if negb (MaxDelay c =? 0) && (u64 (MaxDelay c - MinDelay c) <? delay)
                 then u64 (MaxDelay c - MinDelay c) else delay in
    let delay := if negb (delay =? 0) then r mod delay else 0 in
    Ok (if delay <=? maxU64 - MinDelay c then delay + MinDelay c else delay).

Definition NextBackOff (b : backoff) (r : Z) : outcome unit (backoff * (Z * bool)) :=
  let c := cfg b in
  if MaxRetries c =? 0 then Ok (b, (0, false))
  else if negb (MaxRetries c =? RetryForever) && (MaxRetries c <=? attempts b) then Ok (b, (0, false))
  else
    let attempts := if negb (MaxRetries c =? RetryForever) then u64 (attempts b + 1) else attempts b in
    let pow := if pow b <? maxI64 then u64 (pow b * 2) else pow b in
    let b := {| cfg := c; attempts := attempts; pow := pow |} in
    let! delay := backoff_delay c pow r in
    Ok (b, (if maxI64 / Millisecond <? delay then maxI64 else delay * Millisecond, true)).

(** A run of calls, one random word each. *)
Fixpoint backoff_run (b : backoff) (rs : list Z) : outcome unit (list (Z * bool)) :=
  match rs with
  | [] => Ok []
  | r :: rs => let! x := NextBackOff b r in let! l := backoff_run x.1 rs in Ok (x.2 :: l)
  end.

Record cfg_ok (c : BackOffConfig) : Prop := {
  co_words : is_u64 (MaxRetries c) /\ 0 < Interval c < w64 /\ is_u64 (MaxDelay c) /\ is_u64 (MinDelay c);
  co_delays : MaxDelay c <> 0 /\ MinDelay c <= MaxDelay c /\ MaxDelay c <= maxI64 / Millisecond
}.

Lemma backoff_delay_range c pow r : cfg_ok c -> 1 <= pow < w64 -> is_u64 r ->
  exists d, backoff_delay c pow r = Ok d /\ MinDelay c <= d <= MaxDelay c.
Proof.
  intros [(Hr & Hi & Hx & Hn) (H0 & Hle & Hms)] Hp Hrr. unfold backoff_delay.
  assert ((Interval c =? 0) = false) as -> by lia.
  assert ((MaxDelay c =? 0) = false) as -> by lia.
  rewrite (u64_small (MaxDelay c - MinDelay c)) by word_lia. cbn [negb andb].
  set (d0 := if pow - 1 <=? maxU64 / Interval c then (pow - 1) * Interval c else maxU64 / Interval c).
  assert (Hd0 : 0 <= d0).
  { unfold d0. destruct (_ <=? _); [nia|]. apply Z.div_pos; [word_lia|lia]. }
  set (d1 := if MaxDelay c - MinDelay c <? d0 then MaxDelay c - MinDelay c else d0).
  assert (Hd1 : 0 <= d1 <= MaxDelay c - MinDelay c).
  { unfold d1. destruct (Z.ltb_spec (MaxDelay c - MinDelay c) d0); lia. }
  set (d2 := if negb (d1 =? 0) then r mod d1 else 0).
  assert (Hd2 : 0 <= d2 <= d1).
  { unfold d2. destruct (Z.eqb_spec d1 0); simpl; [lia|].
    pose proof (Z.mod_pos_bound r d1 ltac:(lia)). lia. }
  eexists. split; [reflexivity|].
  destruct (Z.leb_spec d2 (maxU64 - MinDelay c)); word_lia.
Qed.

Lemma NextBackOff_ok b r :
  cfg_ok (cfg b) -> 1 <= pow b < w64 -> is_u64 r ->
  0 < MaxRetries (cfg b) < RetryForever -> 0 <= attempts b <= MaxRetries (cfg b) ->
  exists b' d, cfg b' = cfg b /\ 1 <= pow b' < w64 /\
    (attempts b < MaxRetries (cfg b) ->
       NextBackOff b r = Ok (b', (d, true)) /\ attempts b' = attempts b + 1 /\
       MinDelay (cfg b) * Millisecond <= d <= MaxDelay (cfg b) * Millisecond) /\
    (attempts b = MaxRetries (cfg b) -> NextBackOff b r = Ok (b, (0, false))).
Proof.
  intros Hc Hp Hr Hm Ha. pose proof (co_words _ Hc) as (Hw & _).
  set (p' := if pow b <? maxI64 then u64 (pow b * 2) else pow b).
  assert (Hp' : 1 <= p' < w64).
  { unfold p'. destruct (Z.ltb_spec (pow b) maxI64); [rewrite u64_small|]; word_lia. }
  destruct (backoff_delay_range (cfg b) p' r Hc Hp' Hr) as (d & Hd & Hdr).
  pose proof (co_delays _ Hc) as (_ & _ & Hms).
  exists {| cfg := cfg b; attempts := u64 (attempts b + 1); pow := p' |}, (d * Millisecond).
  unfold NextBackOff. unfold RetryForever in *.
  assert ((MaxRetries (cfg b) =? 0) = false) as -> by lia.
  assert ((MaxRetries (cfg b) =? maxU64) = false) as -> by lia. cbn [negb andb].
  split; [done|]. split; [done|]. split.
  - intros Hlt. rewrite (proj2 (Z.leb_gt _ _) Hlt). fold p'. rewrite Hd. cbn [obind].
    rewrite (proj2 (Z.ltb_ge (maxI64 / Millisecond) d)) by lia.
    split; [done|]. split; [cbn [attempts]; apply u64_small; word_lia|].
    unfold Millisecond. lia.
  - intros E. by rewrite (proj2 (Z.leb_le _ _)) by lia.
Qed.

(** A back-off with a budget of n retries and a sound configuration answers
    the first n calls with a delay between the minimum and the maximum, and
    every later call with "no more"; it never panics. *)
Theorem backoff_run_spec c rs :
  cfg_ok c -> 0 < MaxRetries c < RetryForever -> Forall is_u64 rs ->
  exists l, (let! b := NewBackOff c in backoff_run b rs) = Ok l /\
    length l = length rs /\
    forall i x, l !! i = Some x ->
      (x.2 = true <-> Z.of_nat i < MaxRetries c) /\
      (x.2 = true -> MinDelay c * Millisecond <= x.1 <= MaxDelay c * Millisecond).
Proof.
  intros Hc Hm Hrs. pose proof (co_delays _ Hc) as (Hd0 & Hd1 & _).
  unfold NewBackOff. assert ((MaxDelay c <? MinDelay c) = false) as -> by lia.
  rewrite !andb_false_r. cbn [obind].
  assert (Hgen : forall rs b, Forall is_u64 rs -> cfg b = c -> 1 <= pow b < w64 -> 0 <= attempts b <= MaxRetries c ->
    exists l, backoff_run b rs = Ok l /\ length l = length rs /\
      forall i x, l !! i = Some x ->
        (x.2 = true <-> attempts b + Z.of_nat i < MaxRetries c) /\
        (x.2 = true -> MinDelay c * Millisecond <= x.1 <= MaxDelay c * Millisecond)).
  { clear rs Hrs. intros rs. induction rs as [|r rs IH]; intros b Hrs Hb Hp Ha.
    { exists []. split; [done|]. split; [done|]. by intros i x. }
    apply Forall_cons in Hrs as [Hr Hrs]. cbn [backoff_run].
    destruct (NextBackOff_ok b r) as (b' & d & Hb' & Hp' & Hlt & Heq); try (rewrite Hb; done); try done.
    rewrite Hb in Hlt, Heq, Hb'. destruct (decide (attempts b < MaxRetries c)) as [L|L].
    - destruct (Hlt L) as (-> & Ha' & Hr'). cbn [obind fst snd].
      destruct (IH b' Hrs Hb' Hp' ltac:(lia)) as (l & -> & Hl & Hx). cbn [obind].
      exists ((d, true) :: l). split; [done|]. split; [simpl; lia|].
      intros [|i] x Hix; simpl in Hix; [simplify_eq; simpl; split; [split; [lia|done]|done]|].
      destruct (Hx i x Hix) as [H1 H2]. split; [rewrite H1; lia|done].
    - rewrite (Heq ltac:(lia)). cbn [obind fst snd].
      destruct (IH b Hrs Hb Hp Ha) as (l & -> & Hl & Hx). cbn [obind].
      exists ((0, false) :: l). split; [done|]. split; [simpl; lia|].
      intros [|i] x Hix; simpl in Hix; [simplify_eq; simpl; split; [split; [done|lia]|done]|].
      destruct (Hx i x Hix) as [H1 H2]. split; [rewrite H1; lia|done]. }
  destruct (Hgen rs {| cfg := c; attempts := 0; pow := 1 |} Hrs) as (l & Hl & Hlen & Hx);
    [done|simpl; word_lia|simpl; lia|].
  exists l. split; [done|]. split; [done|]. intros i x Hi. specialize (Hx i x Hi). simpl in Hx. done.
Qed.

Lemma backoff_run_spec_witness :
  exists l, (let! b := NewBackOff (BOCfg 2 100 500 10) in backoff_run b [7; 12345; 3]) = Ok l /\ length l = 3%nat.
Proof.
  destruct (backoff_run_spec (BOCfg 2 100 500 10) [7; 12345; 3]) as (l & Hl & Hn & _).
  - split; simpl; [split_and!; word_lia|]. split; [lia|]. split; [lia|]. vm_compute. discriminate.
  - unfold RetryForever. simpl. word_lia.
  - repeat (constructor; [word_lia|]). constructor.
  - by exists l.
Defined.

(** A configuration without an interval panics at the first retry. *)
Lemma NextBackOff_zero_interval r :
  NextBackOff {| cfg := BOCfg 3 0 500 10; attempts := 0; pow := 1 |} r = Panic.
Proof. reflexivity. Qed.
