(* ===== verification/IoUtils.v ===== *)
(** * Streams: limits and lines (src/api/common/io_utils.go,
    src/api/agent/func_logger.go)

    The writers of the code wrap one another, so they are written against the
    contract of [io.Writer] (class [Writer]): a write takes a prefix of the
    buffer, says how long it was, and gives an error when it was short.  The
    clamp writer implements the contract again; the limit writer of the logs
    pretends every byte was written.  The theorems: what reaches the end of the
    stream, which error the caller sees, how user output is cut into log
    lines, and which headers are removed between hops. *)
From S2P Require Import Prelude Errors GoStrings.

Definition len (b : list Z) : Z := Z.of_nat (length b).

(** ** [io.Writer] and [io.Reader]

    [sent] is what has reached the destination. *)
Class Writer (S : Type) := {
  write : S -> list Z -> S * (Z * option gerr);
  sent : S -> list Z;
  write_count : forall s b, 0 <= (write s b).2.1 <= len b;
  write_sent : forall s b, sent (write s b).1 = sent s ++ take (Z.to_nat (write s b).2.1) b;
  write_short : forall s b, (write s b).2.1 < len b -> (write s b).2.2 <> None
}.

(** A writer that always succeeds, such as [bytes.Buffer]. *)
Class TotalWriter (S : Type) `{Writer S} := {
  write_total : forall s b, (write s b).2 = (len b, None)
}.

(** [bytes.Buffer] as a destination. *)
#[refine, export] Instance Buffer_Writer : Writer (list Z) := {|
  write := fun s b => (s ++ b, (len b, None));
  sent := fun s => s
|}.
Proof.
  - intros s b. simpl. unfold len. lia.
  - intros s b. simpl. by rewrite take_ge by (unfold len; lia).
  - intros s b. simpl. lia.
Defined.
#[export] Instance Buffer_Total : TotalWriter (list Z).
Proof. split. reflexivity. Qed.

(** Writing chunk after chunk until an error, as [io.Copy] does: the number of
    bytes accepted and the error. *)
Fixpoint write_all {S} `{Writer S} (s : S) (chunks : list (list Z)) : S * (Z * option gerr) :=
  match chunks with
  | [] => (s, (0, None))
  | b :: chunks =>
      let '(s, (n, err)) := write s b in
      match err with
      | Some e => (s, (n, Some e))
      | None => let '(s, (m, err)) := write_all s chunks in (s, (n + m, err))
      end
  end.

(** ** clampWriter *)

Record clampWriter (S : Type) := ClampWriter { cw_w : S; cw_remaining : Z; cw_overflowErr : gerr }.
Arguments ClampWriter {S}. Arguments cw_w {S}. Arguments cw_remaining {S}. Arguments cw_overflowErr {S}.

(** [NewClampWriter] returns the wrapper, or the writer itself without a limit. *)
Inductive clamped (S : Type) : Type :=
| Clamp (g : clampWriter S)
| NoClamp (w : S).
Arguments Clamp {S}. Arguments NoClamp {S}.

Definition NewClampWriter {S} (buf : S) (max : Z) (overflowErr : gerr) : clamped S :=
  if negb (max =? 0) then Clamp (ClampWriter buf (i64 max) overflowErr) else NoClamp buf.

Section Clamp.
  Context {S : Type} `{Writer S}.

Definition clampWriter_Write (g : clampWriter S) (p : list Z) : clampWriter S * (Z * option gerr) :=
  if cw_remaining g <=? 0 then (g, (0, Some (cw_overflowErr g)))
  else
    let overflowing := cw_remaining g <? len p in
    let p := if overflowing then take (Z.to_nat (cw_remaining g)) p else p in
    let '(w, (n, err)) := write (cw_w g) p in
    let err := if (n =? len p) && overflowing then Some (cw_overflowErr g) else err in
    (ClampWriter w (i64 (cw_remaining g - n)) (cw_overflowErr g), (n, err)).

Definition clamped_write (c : clamped S) (p : list Z) : clamped S * (Z * option gerr) :=
  match c with
  | Clamp g => let '(g, r) := clampWriter_Write g p in (Clamp g, r)
  | NoClamp w => let '(w, r) := write w p in (NoClamp w, r)
  end.

Definition clamped_sent (c : clamped S) : list Z :=
  match c with Clamp g => sent (cw_w g) | NoClamp w => sent w end.
End Clamp.

(** ** limitDiscardWriter *)

Record limitDiscardWriter (S : Type) := LimitWriter { lw_n : Z; lw_max : Z; lw_Writer : S }.
Arguments LimitWriter {S}. Arguments lw_n {S}. Arguments lw_max {S}. Arguments lw_Writer {S}.

Definition newLimitWriter {S} (max : Z) (w : S) : limitDiscardWriter S := LimitWriter 0 max w.

Definition newline : Z := 10.
Definition truncation_message (max : Z) : list Z :=
  newline :: bytes_of_string ("-----max log size " ++ FormatInt max ++ " bytes exceeded, truncating log-----")
  ++ [newline].

Section Limit.
  Context {S : Type} `{Writer S}.

Definition limitDiscardWriter_Write (l : limitDiscardWriter S) (b : list Z) : limitDiscardWriter S * (Z * option gerr) :=
  let inpLen := len b in
  if lw_max l <=? lw_n l then (l, (inpLen, None))
  else
    let b := if lw_max l <=? i64 (lw_n l + inpLen) then take (Z.to_nat (lw_max l - lw_n l)) b else b in
    let '(w, (n, err)) := write (lw_Writer l) b in
    let ln := i64 (lw_n l + n) in
    if lw_max l <=? ln then
      let '(w, _) := write w (truncation_message (lw_max l)) in
      (LimitWriter ln (lw_max l) w, (inpLen, err))
    else if negb (n =? len b) then (LimitWriter ln (lw_max l) w, (n, err))
    else (LimitWriter ln (lw_max l) w, (inpLen, err)).
End Limit.

(** ** lineWriter and logWriter *)

(** The debug log: one entry per call. *)
Record logWriter := LogWriter { Debug : list (list Z) }.
Definition logWriter_Write (l : logWriter) (b : list Z) : logWriter * (Z * option gerr) :=
  ({| Debug := Debug l ++ [b] |}, (len b, None)).

Record lineWriter (S : Type) := LineWriter { li_b : list Z; li_w : S }.
Arguments LineWriter {S}. Arguments li_b {S}. Arguments li_w {S}.

(** The first line of the buffer with its newline, and the rest. *)
Fixpoint cut_line (b : list Z) : option (list Z * list Z) :=
  match b with
  | [] => None
  | c :: b =>
      if c =? newline then Some ([c], b)
      else match cut_line b with Some (l, r) => Some (c :: l, r) | None => None end
  end.

Section Lines.
  Context {S : Type} `{Writer S}.

(** The loop of [Write]; every round consumes a byte at least, so the length of
    the buffer is fuel enough. *)
Fixpoint dispense (fuel : nat) (li : lineWriter S) : lineWriter S * option (Z * option gerr) :=
  match fuel with
  | O => (li, None)
  | Datatypes.S fuel =>
      match cut_line (li_b li) with
      | None => (li, None)
      | Some (l, rest) =>
          let '(w, (ns, err)) := write (li_w li) l in
          match err with
          | Some e => (LineWriter (li_b li) w, Some (ns, Some e))
          | None => dispense fuel (LineWriter rest w)
          end
      end
  end.

Definition lineWriter_Write (li : lineWriter S) (ogb : list Z) : lineWriter S * (Z * option gerr) :=
  let li := LineWriter (li_b li ++ ogb) (li_w li) in
  let '(li, r) := dispense (length (li_b li)) li in
  (li, match r with Some r => r | None => (len ogb, None) end).

(** [Close]: the closing of the underlying writer does nothing to a log. *)
Definition lineWriter_Close (li : lineWriter S) : lineWriter S * option gerr :=
  match li_b li with
  | [] => (li, None)
  | b =>
      let b := if negb (default newline (last b) =? newline) then b ++ [newline] else b in
      let '(w, (_, err)) := write (li_w li) b in
      (LineWriter (li_b li) w, err)
  end.
End Lines.

#[refine, export] Instance logWriter_Writer : Writer logWriter := {|
  write := logWriter_Write;
  sent := fun l => concat (Debug l)
|}.
Proof.
  - intros s b. simpl. unfold len. lia.
  - intros s b. simpl. rewrite concat_app, take_ge by (unfold len; lia). simpl. by rewrite app_nil_r.
  - intros s b. simpl. lia.
Defined.
#[export] Instance logWriter_Total : TotalWriter logWriter.
Proof. split. reflexivity. Qed.

(** ** The log of a call *)

(** What [setupLogger] returns: the optional line writer onto the debug log, and
    the limit writer onto the buffer that [Read], [String] and [Bytes] see. *)
Record rwc := Rwc { rwc_debug : option (lineWriter logWriter); rwc_limit : limitDiscardWriter (list Z) }.

Definition setupLogger (maxSize : Z) (debug : bool) : rwc :=
  {| rwc_debug := if debug then Some (LineWriter [] (LogWriter [])) else None;
     rwc_limit := newLimitWriter (i64 maxSize) [] |}.

(** [multiWriteCloser.Write]: every writer gets the bytes, all errors are ignored. *)
Definition rwc_Write (r : rwc) (b : list Z) : rwc * (Z * option gerr) :=
  ({| rwc_debug := (fun li => (lineWriter_Write li b).1) <$> rwc_debug r;
      rwc_limit := (limitDiscardWriter_Write (rwc_limit r) b).1 |}, (len b, None)).

Definition rwc_Bytes (r : rwc) : list Z := lw_Writer (rwc_limit r).

(** [multiWriteCloser.Close]: the line writer is flushed, then the buffers are
    reset for the pool. *)
Definition rwc_Close (r : rwc) : rwc :=
  {| rwc_debug := (fun li => LineWriter [] (li_w (lineWriter_Close li).1)) <$> rwc_debug r;
     rwc_limit := LimitWriter (lw_n (rwc_limit r)) (lw_max (rwc_limit r)) [] |}.

Definition rwc_run (r : rwc) (chunks : list (list Z)) : rwc := foldl (fun r b => (rwc_Write r b).1) r chunks.

(** The entries of the debug log. *)
Definition debug_lines (r : rwc) : list (list Z) :=
  match rwc_debug r with Some li => Debug (li_w li) | None => [] end.

(** ** clampReadCloser *)

(** [io.Reader]: [pending] is what is still to come. *)
Class Reader (S : Type) := {
  read : S -> Z -> S * (list Z * option gerr);
  pending : S -> list Z;
  read_count : forall s n, 0 <= n -> len (read s n).2.1 <= n;
  read_pending : forall s n, 0 <= n -> pending s = (read s n).2.1 ++ pending (read s n).1;
  read_eof : forall s n, 0 <= n -> (read s n).2.2 = Some EEOF -> pending (read s n).1 = []
}.

(** A [bytes.Reader]: end of file comes on a read of its own. *)
#[refine, export] Instance Bytes_Reader : Reader (list Z) := {|
  read := fun s n => match s with [] => ([], ([], Some EEOF)) | _ => (drop (Z.to_nat n) s, (take (Z.to_nat n) s, None)) end;
  pending := fun s => s
|}.
Proof.
  - intros [|x s] n Hn; [done|]. simpl. unfold len. rewrite length_take. lia.
  - intros [|x s] n Hn; [done|]. cbv beta iota. cbn [fst snd]. by rewrite take_drop.
  - by intros [|x s] n Hn.
Defined.

Record clampReadCloser (S : Type) := ClampReadCloser { cr_r : S; cr_remaining : Z; cr_overflowErr : gerr }.
Arguments ClampReadCloser {S}. Arguments cr_r {S}. Arguments cr_remaining {S}. Arguments cr_overflowErr {S}.

Section ClampRead.
  Context {S : Type} `{Reader S}.

Definition clampReadCloser_Read (g : clampReadCloser S) (n : Z) : clampReadCloser S * (list Z * option gerr) :=
  if cr_remaining g <=? 0 then (g, ([], Some (cr_overflowErr g)))
  else
    let n := if cr_remaining g <? n then cr_remaining g else n in
    let '(r, (data, err)) := read (cr_r g) n in
    (ClampReadCloser r (i64 (cr_remaining g - len data)) (cr_overflowErr g), (data, err)).

(** Reading with buffers of the given sizes until an error. *)
Fixpoint clamp_read_all (g : clampReadCloser S) (sizes : list Z) : clampReadCloser S * (list Z * option gerr) :=
  match sizes with
  | [] => (g, ([], None))
  | n :: sizes =>
      let '(g, (data, err)) := clampReadCloser_Read g n in
      match err with
      | Some e => (g, (data, Some e))
      | None => let '(g, (data', err)) := clamp_read_all g sizes in (g, (data ++ data', err))
      end
  end.
End ClampRead.

(** ** StripHopHeaders *)

Definition hopHeaders : list string :=
  ["Connection"; "Proxy-Connection"; "Keep-Alive"; "Proxy-Authenticate"; "Proxy-Authorization";
   "Te"; "Trailer"; "Transfer-Encoding"; "Upgrade"]%string.

(** [http.Header.Get] of a canonical name: the first value. *)
Definition Header_Get (hdr : gmap string (list string)) (h : string) : string :=
  match hdr !! h with Some (v :: _) => v | _ => "" end.

Definition strip_one (hdr : gmap string (list string)) (h : string) : gmap string (list string) :=
  let hv := Header_Get hdr h in
  if bool_decide (hv = ""%string) then hdr
  else if bool_decide (h = "Te"%string) && bool_decide (hv = "trailers"%string) then hdr
  else base.delete h hdr.

Definition StripHopHeaders (hdr : gmap string (list string)) : gmap string (list string) :=
  foldl strip_one hdr hopHeaders.

(** ** Lemmas: writers *)

Lemma len_app a b : len (a ++ b) = len a + len b.
Proof. unfold len. rewrite length_app. lia. Qed.
Lemma len_nonneg b : 0 <= len b.
Proof. unfold len. lia. Qed.
Lemma len_take n b : 0 <= n <= len b -> len (take (Z.to_nat n) b) = n.
Proof. unfold len. intros H. rewrite length_take. lia. Qed.
Lemma take_len b : take (Z.to_nat (len b)) b = b.
Proof. apply take_ge. unfold len. lia. Qed.
#[export] Hint Rewrite len_app take_len : go.

(** Any writer, written to until an error: what arrived is the accepted prefix,
    and all of it unless there was an error. *)
Lemma write_all_spec {S} `{Writer S} (s : S) chunks :
  let '(s', (n, err)) := write_all s chunks in
  sent s' = sent s ++ take (Z.to_nat n) (concat chunks) /\ 0 <= n <= len (concat chunks) /\
  (err = None -> n = len (concat chunks)).
Proof.
  revert s. induction chunks as [|b chunks IH]; intros s; cbn [write_all concat].
  { cbn. by rewrite app_nil_r. }
  pose proof (write_count s b) as Hc. pose proof (write_sent s b) as Hs. pose proof (write_short s b) as Hsh.
  destruct (write s b) as [s1 [n [e|]]]; cbn [fst snd] in *.
  - rewrite len_app, (take_app_le b) by (unfold len in Hc; lia).
    split; [done|]. split; [pose proof (len_nonneg (concat chunks)); lia|done].
  - assert (n = len b) as -> by (destruct (decide (n < len b)); [by destruct (Hsh l)|lia]).
    specialize (IH s1). destruct (write_all s1 chunks) as [s2 [m err]]. destruct IH as (H1 & H2 & H3).
    rewrite len_app. split; [|split; [pose proof (len_nonneg b); lia|intros E; rewrite (H3 E); lia]].
    rewrite H1, Hs, take_len, <- app_assoc. f_equal.
    rewrite take_app_ge by (unfold len; lia). do 2 f_equal. unfold len in *. lia.
Qed.

Lemma clampWriter_Write_ok {S} `{Writer S} (g : clampWriter S) p :
  let '(g', (n, err)) := clampWriter_Write g p in
  0 <= n <= len p /\ n <= Z.max 0 (cw_remaining g) /\
  sent (cw_w g') = sent (cw_w g) ++ take (Z.to_nat n) p /\
  (n < len p -> err <> None).
Proof.
  unfold clampWriter_Write. pose proof (len_nonneg p) as Hl.
  destruct (Z.leb_spec (cw_remaining g) 0) as [H0|H0].
  { split; [lia|]. split; [lia|]. split; [symmetry; apply app_nil_r|done]. }
  set (q := if cw_remaining g <? len p then take (Z.to_nat (cw_remaining g)) p else p).
  pose proof (write_count (cw_w g) q) as Hc. pose proof (write_sent (cw_w g) q) as Hs.
  pose proof (write_short (cw_w g) q) as Hsh.
  destruct (write (cw_w g) q) as [w [n err]]. cbn [fst snd cw_w] in *.
  assert (Hq : len q = Z.min (cw_remaining g) (len p)).
  { unfold q. destruct (Z.ltb_spec (cw_remaining g) (len p)); [rewrite len_take by lia|]; lia. }
  split; [lia|]. split; [lia|]. split.
  - rewrite Hs. f_equal. unfold q. destruct (Z.ltb_spec (cw_remaining g) (len p)); [|done].
    rewrite take_take. f_equal. lia.
  - intros Hlt. destruct (Z.eqb_spec n (len q)); [|apply Hsh; lia].
    rewrite (proj2 (Z.ltb_lt (cw_remaining g) (len p))) by lia. done.
Qed.

(** The clamp writer is a writer again, so clamps and limits stack. *)
#[refine, export] Instance clamped_Writer S `{Writer S} : Writer (clamped S) := {|
  write := clamped_write;
  sent := clamped_sent
|}.
Proof.
  1: intros [g|w] b; simpl; [pose proof (clampWriter_Write_ok g b) as Hw; destruct (clampWriter_Write g b) as [g' [n err]]
      |pose proof (write_count w b) as Hw; destruct (write w b) as [w' [n err]]].
  3: intros [g|w] b; simpl; [pose proof (clampWriter_Write_ok g b) as Hw; destruct (clampWriter_Write g b) as [g' [n err]]
      |pose proof (write_sent w b) as Hw; destruct (write w b) as [w' [n err]]].
  5: intros [g|w] b; simpl; [pose proof (clampWriter_Write_ok g b) as Hw; destruct (clampWriter_Write g b) as [g' [n err]]
      |pose proof (write_short w b) as Hw; destruct (write w b) as [w' [n err]]].
  all: cbn [fst snd] in *; try (destruct Hw as (Hw1 & Hw2 & Hw3 & Hw4)); assumption.
Defined.

(** A clamp with [r] bytes left over any writer. *)
Lemma clamp_all_bound {S} `{Writer S} (g : clampWriter S) chunks :
  0 <= cw_remaining g <= maxI64 ->
  (write_all (Clamp g) chunks).2.1 <= cw_remaining g.
Proof.
  revert g. induction chunks as [|b chunks IH]; intros g Hr; cbn [write_all write clamped_Writer clamped_write].
  { simpl. lia. }
  pose proof (clampWriter_Write_ok g b) as Hw. unfold clampWriter_Write in Hw |- *.
  destruct (Z.leb_spec (cw_remaining g) 0); [simpl; lia|].
  destruct (write (cw_w g) _) as [w [n err]]. destruct Hw as (H1 & H2 & _).
  destruct (if _ && _ then _ else _); [simpl; lia|].
  rewrite i64_small by word_lia.
  specialize (IH (ClampWriter w (cw_remaining g - n) (cw_overflowErr g)) ltac:(simpl; lia)).
  destruct (write_all _ chunks) as [c [m e]]. simpl in *. lia.
Qed.

(** Over a writer that never fails, the clamp counts exactly. *)
Lemma clamp_all_total {S} `{TotalWriter S} (g : clampWriter S) chunks :
  0 <= cw_remaining g <= maxI64 -> Forall (fun b => b <> []) chunks ->
  (write_all (Clamp g) chunks).2 =
  (Z.min (cw_remaining g) (len (concat chunks)),
   if cw_remaining g <? len (concat chunks) then Some (cw_overflowErr g) else None).
Proof.
  intros Hr Hne. revert g Hr. induction Hne as [|b chunks Hb Hne IH]; intros g Hr;
    cbn [write_all write clamped_Writer clamped_write concat].
  { change (len []) with 0. rewrite Z.min_r by lia. by rewrite (proj2 (Z.ltb_ge _ _)) by lia. }
  assert (Hlb : 0 < len b) by (destruct b; [done|unfold len; simpl; lia]).
  pose proof (len_nonneg (concat chunks)) as Hlc. rewrite len_app. unfold clampWriter_Write.
  destruct (Z.leb_spec (cw_remaining g) 0).
  { rewrite (proj2 (Z.ltb_lt _ _)) by lia. simpl. f_equal. lia. }
  set (q := if cw_remaining g <? len b then take (Z.to_nat (cw_remaining g)) b else b).
  pose proof (write_total (cw_w g) q) as Ht. destruct (write (cw_w g) q) as [w r]. simpl in Ht. subst r.
  rewrite Z.eqb_refl. unfold q. destruct (Z.ltb_spec (cw_remaining g) (len b)) as [L|L]; cbn [andb].
  - rewrite (proj2 (Z.ltb_lt _ _)) by lia. rewrite len_take by lia. simpl. f_equal. lia.
  - rewrite i64_small by word_lia.
    specialize (IH (ClampWriter w (cw_remaining g - len b) (cw_overflowErr g)) ltac:(simpl; lia)).
    destruct (write_all _ chunks) as [c [m e]]. simpl in *. injection IH as -> ->. f_equal; [lia|].
    destruct (Z.ltb_spec (cw_remaining g - len b) (len (concat chunks)));
      destruct (Z.ltb_spec (cw_remaining g) (len b + len (concat chunks))); by try lia.
Qed.

(** ** Lemmas: lines and limits *)

Definition is_line (l : list Z) : Prop := exists b, l = b ++ [newline] /\ newline ∉ b.

Lemma cut_line_None b : cut_line b = None -> newline ∉ b.
Proof.
  induction b as [|c b IH]; cbn [cut_line]; [intros _; apply not_elem_of_nil|].
  destruct (Z.eqb_spec c newline) as [->|Hc]; [done|]. destruct (cut_line b) as [[l r]|]; [done|].
  intros _. apply not_elem_of_cons. split; [done|]. by apply IH.
Qed.

Lemma cut_line_Some b l r : cut_line b = Some (l, r) -> is_line l /\ b = l ++ r /\ (length r < length b)%nat.
Proof.
  revert l. induction b as [|c b IH]; intros l; cbn [cut_line]; [done|].
  destruct (Z.eqb_spec c newline) as [->|Hc].
  - intros [= <- <-]. split; [|simpl; split; [done|lia]]. exists []. split; [done|apply not_elem_of_nil].
  - destruct (cut_line b) as [[l' r']|]; [|done]. intros [= <- <-].
    destruct (IH l' eq_refl) as ((b' & -> & Hb') & -> & Hl). split.
    + exists (c :: b'). split; [done|]. apply not_elem_of_cons. by split.
    + split; [done|simpl; simpl in Hl; lia].
Qed.

Lemma dispense_ok fuel (li : lineWriter logWriter) :
  (length (li_b li) <= fuel)%nat ->
  exists li' ls, dispense fuel li = (li', None) /\ Debug (li_w li') = Debug (li_w li) ++ ls /\
    Forall is_line ls /\ concat ls ++ li_b li' = li_b li /\ newline ∉ li_b li'.
Proof.
  revert li. induction fuel as [|fuel IH]; intros li Hf; cbn [dispense].
  { exists li, []. rewrite app_nil_r. destruct (li_b li); [|simpl in Hf; lia].
    split_and!; try done. apply not_elem_of_nil. }
  destruct (cut_line (li_b li)) as [[l r]|] eqn:E.
  - apply cut_line_Some in E as (Hl & Hb & Hlt). cbn [write logWriter_Writer logWriter_Write].
    destruct (IH (LineWriter r {| Debug := Debug (li_w li) ++ [l] |})) as (li' & ls & H1 & H2 & H3 & H4 & H5);
      [cbn [li_b]; lia|]. cbn [li_b li_w Debug] in *.
    exists li', (l :: ls). rewrite H1, H2, <- app_assoc. split; [done|]. split; [done|]. split; [by constructor|].
    split; [|done]. rewrite Hb. simpl. by rewrite <- app_assoc, H4.
  - exists li, []. rewrite app_nil_r. split_and!; try done. by apply cut_line_None.
Qed.

(** What the line writer has dispensed of the input [inp], and what it holds. *)
Definition lines_inv (inp : list Z) (li : lineWriter logWriter) : Prop :=
  Forall is_line (Debug (li_w li)) /\ concat (Debug (li_w li)) ++ li_b li = inp /\ newline ∉ li_b li.

Lemma lineWriter_Write_inv inp li b : lines_inv inp li -> lines_inv (inp ++ b) (lineWriter_Write li b).1.
Proof.
  intros (H1 & H2 & H3). unfold lineWriter_Write.
  destruct (dispense_ok (length (li_b li ++ b)) (LineWriter (li_b li ++ b) (li_w li))) as (li' & ls & E & D1 & D2 & D3 & D4);
    [cbn [li_b]; lia|]. cbn [li_b li_w] in *. rewrite E. cbn [fst]. split; [|split; [|done]].
  - rewrite D1. by apply Forall_app.
  - rewrite D1, concat_app, <- app_assoc, D3, app_assoc. by f_equal.
Qed.

(** The input with a newline at its end, unless it is empty. *)
Definition complete (b : list Z) : list Z :=
  match last b with None => [] | Some c => if c =? newline then b else b ++ [newline] end.

Lemma complete_app a b : b <> [] -> complete (a ++ b) = a ++ complete b.
Proof.
  intros Hb. unfold complete. rewrite last_app. destruct (last b) as [c|] eqn:E.
  - destruct (c =? newline); [done|]. by rewrite app_assoc.
  - by apply last_None in E.
Qed.

Lemma concat_lines_complete ls : Forall is_line ls -> complete (concat ls) = concat ls.
Proof.
  intros H. destruct ls as [|l ls] using rev_ind; [done|]. rewrite concat_app. simpl. rewrite app_nil_r.
  apply Forall_app in H as [_ H]. apply Forall_singleton in H as (b & -> & _).
  unfold complete. rewrite !last_app. done.
Qed.

Lemma lineWriter_Close_lines inp li :
  lines_inv inp li ->
  Forall is_line (Debug (li_w (lineWriter_Close li).1)) /\ concat (Debug (li_w (lineWriter_Close li).1)) = complete inp.
Proof.
  intros (H1 & <- & H3). unfold lineWriter_Close. destruct (li_b li) as [|c b] eqn:E.
  { rewrite app_nil_r. split; [done|]. symmetry. by apply concat_lines_complete. }
  assert (Hl : exists d, last (c :: b) = Some d /\ (d =? newline) = false).
  { destruct (last (c :: b)) as [d|] eqn:L; [|by apply last_None in L].
    exists d. split; [done|]. apply Z.eqb_neq. intros ->. apply H3. by apply last_Some_elem_of. }
  destruct Hl as (d & Hd & Hn). rewrite Hd. cbn [from_option id]. rewrite Hn. cbn [negb fst li_w write logWriter_Writer logWriter_Write Debug].
  split.
  - apply Forall_app. split; [done|]. apply Forall_singleton. by exists (c :: b).
  - rewrite complete_app by done. unfold complete. rewrite Hd, Hn, concat_app. simpl. by rewrite app_nil_r.
Qed.

(** The limit writer over a buffer, after the input [inp] with the limit [m]. *)
Definition limited (m : Z) (inp : list Z) : list Z :=
  if m <=? 0 then [] else if len inp <? m then inp else take (Z.to_nat m) inp ++ truncation_message m.

Definition limit_inv (m : Z) (inp : list Z) (l : limitDiscardWriter (list Z)) : Prop :=
  lw_max l = m /\ lw_Writer l = limited m inp /\ lw_n l = Z.max 0 (Z.min m (len inp)).

Lemma limitDiscardWriter_Write_inv m inp l b :
  m <= maxI64 -> len (inp ++ b) <= maxI64 -> limit_inv m inp l ->
  limit_inv m (inp ++ b) (limitDiscardWriter_Write l b).1 /\ (limitDiscardWriter_Write l b).2 = (len b, None).
Proof.
  intros Hm Hlen (E1 & E2 & E3). unfold limitDiscardWriter_Write, limit_inv. rewrite E1.
  pose proof (len_nonneg b) as Hb. pose proof (len_nonneg inp) as Hi. unfold limited in *.
  rewrite len_app in *. destruct (Z.leb_spec m 0) as [H0|H0].
  { rewrite (proj2 (Z.leb_le _ _)) by lia. simpl. split; [|done]. split_and!; [done|done|lia]. }
  destruct (Z.ltb_spec (len inp) m) as [L|L].
  2:{ rewrite (proj2 (Z.leb_le _ _)) by lia. rewrite (proj2 (Z.ltb_ge (len inp + len b) m)) by lia. cbn [fst snd].
      split; [|done]. split; [done|]. split; [|lia]. rewrite E2. f_equal. rewrite take_app_le; [done|unfold len in *; lia]. }
  rewrite (proj2 (Z.leb_gt m (lw_n l))) by lia. assert (lw_n l = len inp) as -> by lia.
  rewrite (i64_small (len inp + len b)) by word_lia. cbn [write Buffer_Writer].
  destruct (Z.leb_spec m (len inp + len b)) as [M|M].
  - rewrite len_take by lia. rewrite i64_small by word_lia. rewrite (proj2 (Z.leb_le m _)) by lia.
    rewrite (proj2 (Z.ltb_ge (len inp + len b) m)) by lia. cbn [fst snd lw_max lw_Writer lw_n].
    split; [|done]. split; [done|]. split; [|lia].
    rewrite E2, take_app_ge by (unfold len in *; lia).
    by replace (Z.to_nat m - length inp)%nat with (Z.to_nat (m - len inp)) by (unfold len in *; lia).
  - rewrite i64_small by word_lia. rewrite (proj2 (Z.leb_gt m _)) by lia. rewrite Z.eqb_refl.
    rewrite (proj2 (Z.ltb_lt (len inp + len b) m)) by lia. cbn [negb fst snd lw_max lw_Writer lw_n].
    split; [|done]. split; [done|]. split; [by rewrite E2|lia].
Qed.

Lemma rwc_run_inv m inp chunks r :
  m <= maxI64 -> len (inp ++ concat chunks) <= maxI64 ->
  limit_inv m inp (rwc_limit r) -> (forall li, rwc_debug r = Some li -> lines_inv inp li) ->
  limit_inv m (inp ++ concat chunks) (rwc_limit (rwc_run r chunks)) /\
  (forall li, rwc_debug (rwc_run r chunks) = Some li -> lines_inv (inp ++ concat chunks) li) /\
  (rwc_debug (rwc_run r chunks) = None <-> rwc_debug r = None).
Proof.
  intros Hm. revert inp r. induction chunks as [|b chunks IH]; intros inp r Hl H1 H2; cbn [rwc_run foldl concat].
  { rewrite app_nil_r. done. }
  cbn [concat] in Hl. rewrite app_assoc in Hl |- *.
  assert (Hlb : len (inp ++ b) <= maxI64) by (rewrite len_app in Hl; pose proof (len_nonneg (concat chunks)); lia).
  destruct (limitDiscardWriter_Write_inv m inp (rwc_limit r) b Hm Hlb H1) as [H1' _].
  destruct (IH (inp ++ b) (rwc_Write r b).1 Hl H1') as (R1 & R2 & R3).
  { intros li Hli. simpl in Hli. destruct (rwc_debug r) as [li0|]; [|done]. simpl in Hli. injection Hli as <-.
    by apply lineWriter_Write_inv, H2. }
  split; [exact R1|]. split; [exact R2|]. unfold rwc_run in R3. rewrite R3. simpl. by destruct (rwc_debug r).
Qed.

(** ** Lemmas: headers *)

Definition keeps (hdr : gmap string (list string)) (h : string) : bool :=
  bool_decide (Header_Get hdr h = ""%string) || bool_decide (h = "Te"%string) && bool_decide (Header_Get hdr h = "trailers"%string).

Lemma strip_one_lookup hdr h k :
  strip_one hdr h !! k = if decide (h = k) then (if keeps hdr h then hdr !! k else None) else hdr !! k.
Proof.
  unfold strip_one, keeps. case_bool_decide; cbn [orb]; [by destruct (decide (h = k))|].
  destruct (_ && _); [by destruct (decide (h = k))|].
  destruct (decide (h = k)) as [->|]; [by rewrite lookup_delete_eq|by rewrite lookup_delete_ne].
Qed.

Lemma strip_fold_lookup hs hdr k :
  NoDup hs ->
  foldl strip_one hdr hs !! k = if decide (k ∈ hs) then (if keeps hdr k then hdr !! k else None) else hdr !! k.
Proof.
  intros Hn. revert hdr. induction Hn as [|h hs Hh Hn IH]; intros hdr; cbn [foldl].
  { by rewrite decide_False by apply not_elem_of_nil. }
  assert (Hk : forall h', h' <> h -> keeps (strip_one hdr h) h' = keeps hdr h').
  { intros h' Hne. unfold keeps, Header_Get. by rewrite strip_one_lookup, decide_False by done. }
  rewrite IH, strip_one_lookup. destruct (decide (h = k)) as [->|Hne].
  - rewrite decide_False by done. by rewrite decide_True by left.
  - rewrite Hk by done. destruct (decide (k ∈ hs)).
    + by rewrite decide_True by (by right).
    + rewrite decide_False; [done|]. by intros [->|?]%elem_of_cons.
Qed.

Lemma hopHeaders_NoDup : NoDup hopHeaders.
Proof. apply (bool_decide_unpack _). vm_compute. exact I. Qed.

Lemma StripHopHeaders_lookup hdr k :
  StripHopHeaders hdr !! k =
  if decide (k ∈ hopHeaders) then (if keeps hdr k then hdr !! k else None) else hdr !! k.
Proof. apply strip_fold_lookup, hopHeaders_NoDup. Qed.

Lemma StripHopHeaders_sub hdr k vs : StripHopHeaders hdr !! k = Some vs -> hdr !! k = Some vs.
Proof. rewrite StripHopHeaders_lookup. destruct (decide _); [by destruct (keeps hdr k)|done]. Qed.

(** ** Lemmas: readers *)

Lemma clamp_read_all_ok {S} `{Reader S} (g : clampReadCloser S) sizes :
  0 <= cr_remaining g <= maxI64 -> Forall (fun n => 0 <= n) sizes ->
  let '(g', (data, err)) := clamp_read_all g sizes in
  pending (cr_r g) = data ++ pending (cr_r g') /\ len data <= cr_remaining g /\
  (err = Some EEOF -> cr_overflowErr g <> EEOF -> data = pending (cr_r g)).
Proof.
  intros Hr Hs. revert g Hr. induction Hs as [|n sizes Hn Hs IH]; intros g Hr; cbn [clamp_read_all].
  { split; [done|]. split; [apply Hr|done]. }
  unfold clampReadCloser_Read. destruct (Z.leb_spec (cr_remaining g) 0) as [H0|H0].
  { split; [done|]. split; [apply Hr|]. intros [= E] Ho. by destruct Ho. }
  set (n' := if cr_remaining g <? n then cr_remaining g else n).
  assert (Hn' : 0 <= n' <= cr_remaining g) by (unfold n'; destruct (Z.ltb_spec (cr_remaining g) n); lia).
  pose proof (read_count (cr_r g) n' ltac:(lia)) as Hc. pose proof (read_pending (cr_r g) n' ltac:(lia)) as Hp.
  pose proof (read_eof (cr_r g) n' ltac:(lia)) as He. pose proof (len_nonneg (read (cr_r g) n').2.1) as Hl.
  destruct (read (cr_r g) n') as [r [data [e|]]]; cbn [fst snd] in *.
  - cbn [cr_r]. split; [done|]. split; [lia|]. intros E _. rewrite Hp, (He E). by rewrite app_nil_r.
  - rewrite i64_small by word_lia.
    specialize (IH (ClampReadCloser r (cr_remaining g - len data) (cr_overflowErr g)) ltac:(simpl; lia)).
    destruct (clamp_read_all _ sizes) as [g' [data' err]]. cbn [cr_r cr_remaining cr_overflowErr] in *.
    destruct IH as (H1 & H2 & H3). rewrite Hp, H1, len_app, <- app_assoc. split; [done|]. split; [lia|].
    intros E Ho. rewrite <- H1. by rewrite (H3 E Ho).
Qed.

(** A body of exactly the limit, whose end of file comes on a read of its own,
    ends in the overflow error. *)
Lemma clamp_read_exact_overflows e :
  (clamp_read_all (ClampReadCloser [1; 2] 2 e) [8; 8]).2 = ([1; 2], Some e).
Proof. reflexivity. Qed.

(** ** Theorems *)

(** A limited response: through a clamp of [max] bytes the destination gets
    exactly a prefix of what was written, at most [max] bytes; without an error
    all of it arrived; and over a destination that never fails the first [max]
    bytes arrive and the error is the overflow error exactly when there were
    more. *)
Theorem NewClampWriter_spec {S} `{TotalWriter S} (buf : S) max e chunks :
  0 < max <= maxI64 -> Forall (fun b => b <> []) chunks ->
  let input := concat chunks in
  let '(c, (n, err)) := write_all (NewClampWriter buf max e) chunks in
  clamped_sent c = sent buf ++ take (Z.to_nat max) input /\ n = Z.min max (len input) /\
  (err = None <-> len input <= max) /\ (err <> None -> err = Some e).
Proof.
  intros Hm Hne input. unfold NewClampWriter. rewrite (proj2 (Z.eqb_neq max 0)) by lia. cbn [negb].
  rewrite i64_small by word_lia.
  pose proof (write_all_spec (Clamp (ClampWriter buf max e)) chunks) as Hw.
  pose proof (clamp_all_total (ClampWriter buf max e) chunks ltac:(simpl; lia) Hne) as Ht.
  destruct (write_all _ chunks) as [c [n err]]. simpl in Ht. injection Ht as -> ->.
  destruct Hw as (H1 & _ & _). cbn [sent clamped_Writer clamped_sent cw_w] in H1. fold input in H1; fold input.
  split; [|split; [done|]].
  - cbn [sent clamped_Writer clamped_sent] in H1 |- *. rewrite H1. f_equal.
    destruct (Z.min_spec max (len input)) as [[? ->]|[? ->]]; [done|].
    rewrite take_len, take_ge; [done|unfold len in *; lia].
  - destruct (Z.ltb_spec max (len input)); split; try done; split; intros; try done; lia.
Qed.

Lemma NewClampWriter_spec_witness :
  (write_all (NewClampWriter [] 3 (EPlain "too big")) [[1; 2]; [3; 4]]).1 = Clamp (ClampWriter [1; 2; 3] 0 (EPlain "too big")) /\
  clamped_sent (write_all (NewClampWriter [] 3 (EPlain "too big")) [[1; 2]; [3; 4]]).1 = [1; 2; 3].
Proof.
  split; [reflexivity|].
  pose proof (NewClampWriter_spec [] 3 (EPlain "too big") [[1; 2]; [3; 4]] ltac:(unfold maxI64; lia)
    ltac:(repeat constructor; discriminate)) as H.
  simpl in H. exact (proj1 H).
Defined.

(** The log of a call, whatever chunks the container writes: the buffer holds
    the input, cut at the limit and followed by one truncation message as soon as
    the input reaches the limit (a limit of zero keeps nothing); and when debug
    logging is on, closing the log leaves entries that are single lines, each
    with its newline, whose concatenation is the whole input with a newline at
    its end. *)
Theorem setupLogger_spec maxSize debug chunks :
  is_u64 maxSize -> len (concat chunks) <= maxI64 ->
  let r := rwc_run (setupLogger maxSize debug) chunks in
  rwc_Bytes r = limited (i64 maxSize) (concat chunks) /\
  (debug = true -> Forall is_line (debug_lines (rwc_Close r)) /\
     concat (debug_lines (rwc_Close r)) = complete (concat chunks)) /\
  (debug = false -> debug_lines (rwc_Close r) = []).
Proof.
  intros Hm Hl r.
  assert (Hi : i64 maxSize <= maxI64).
  { unfold i64. pose proof (Z.mod_pos_bound (maxSize + w63) w64). word_lia. }
  destruct (rwc_run_inv (i64 maxSize) [] chunks (setupLogger maxSize debug) Hi Hl) as ((_ & H1 & _) & H2 & H3).
  - unfold limit_inv, limited. cbn [setupLogger rwc_limit newLimitWriter lw_max lw_Writer lw_n].
    split; [done|]. change (len []) with 0. split; [|lia].
    destruct (Z.leb_spec (i64 maxSize) 0); [done|]. by rewrite (proj2 (Z.ltb_lt 0 _)).
  - intros li. cbn [setupLogger rwc_debug]. destruct debug; [|done]. intros [= <-].
    split; [constructor|]. split; [done|]. apply not_elem_of_nil.
  - fold r in H1, H2, H3. split; [exact H1|]. unfold debug_lines, rwc_Close. cbn [rwc_debug].
    destruct (rwc_debug r) as [li|] eqn:E; split; intros ->.
    + by apply lineWriter_Close_lines, H2.
    + by pose proof (proj2 H3 eq_refl).
    + by pose proof (proj1 H3 eq_refl).
    + done.
Qed.

Lemma setupLogger_spec_witness :
  let r := rwc_run (setupLogger 1000 true) [[97; 10; 98]; [99]] in
  rwc_Bytes r = [97; 10; 98; 99] /\ debug_lines (rwc_Close r) = [[97; 10]; [98; 99; 10]].
Proof.
  intros r. destruct (setupLogger_spec 1000 true [[97; 10; 98]; [99]]) as (H & _ & _);
    [word_lia|unfold maxI64, len; simpl; lia|]. split; [exact H|reflexivity].
Defined.

(** Between hops every transport header with a value is removed, except "Te:
    trailers"; all other headers, and a transport header whose first value is
    empty, stay as they were. *)
Theorem StripHopHeaders_spec hdr k :
  StripHopHeaders hdr !! k =
  if decide (k ∈ hopHeaders) then
    (if bool_decide (Header_Get hdr k = ""%string) || bool_decide (k = "Te"%string) && bool_decide (Header_Get hdr k = "trailers"%string)
     then hdr !! k else None)
  else hdr !! k.
Proof. apply StripHopHeaders_lookup. Qed.
