(* ===== verification/DataAccess.v ===== *)
(** * Reading the datastore (src/api/agent/data_access.go)

    [ReadDataAccess] is what the front end needs from the store; the cached
    access implements it again over another one and a cache with an expiry.
    The cache library is a parameter (class [GoCache]): it may forget an entry
    at any time but never returns one that was not set, or that has expired.
    The theorem: a cached answer is one the store gave to the same question
    within the last five seconds, errors are never cached, and the type
    assertions on cached entries never fail. *)
From S2P Require Import Prelude Errors Models.

(** The store as it is at a moment [w]. *)
Class ReadDataAccess (W : Type) := {
  GetAppID : W -> string -> outcome gerr string;
  GetAppByID : W -> string -> outcome gerr App;
  GetTriggerBySource : W -> string -> string -> string -> outcome gerr Trigger;
  GetFnByID : W -> string -> outcome gerr Fn
}.

(** What is kept under a key: [interface{}] values of four types. *)
Inductive centry := CString (s : string) | CApp (a : App) | CTrigger (t : Trigger) | CFn (f : Fn).

Definition Second : Z := 1000000000.
Definition cacheExpiration : Z := 5 * Second.

(** [go-cache] with a default expiration of [cacheExpiration]: [held] is the last
    value set for a key and when. *)
Class GoCache (C : Type) := {
  cache_new : C;
  cache_Get : C -> Z -> string -> option centry;
  cache_Set : C -> Z -> string -> centry -> C;
  held : C -> string -> option (centry * Z);
  held_new : forall k, held cache_new k = None;
  held_Set : forall c now k e k', held (cache_Set c now k e) k' = if decide (k = k') then Some (e, now) else held c k';
  cache_Get_held : forall c now k e, cache_Get c now k = Some e -> exists t, held c k = Some (e, t) /\ now <= t + cacheExpiration
}.

(** A map with expiry times. *)
#[refine, export] Instance gmap_GoCache : GoCache (gmap string (centry * Z)) := {|
  cache_new := ∅;
  cache_Get := fun c now k =>
    match c !! k with Some (e, t) => if t + cacheExpiration <? now then None else Some e | None => None end;
  cache_Set := fun c now k e => <[k := (e, now)]> c;
  held := fun c k => c !! k
|}.
Proof.
  - intros k. apply lookup_empty.
  - intros c now k e k'. destruct (decide (k = k')) as [->|]; [apply lookup_insert_eq|by apply lookup_insert_ne].
  - intros c now k e. destruct (c !! k) as [[e' t]|]; [|done].
    destruct (Z.ltb_spec (t + cacheExpiration) now); [done|]. intros [= ->]. exists t. split; [done|lia].
Defined.

(** ** Keys *)

Definition nul : string := String Ascii.zero EmptyString.
Definition appIDCacheKey (appID : string) : string := "a:" ++ appID.
Definition appNameCacheKey (appName : string) : string := "n:" ++ appName.
Definition fnCacheKey (fnID : string) : string := "f:" ++ fnID.
Definition trigSourceCacheKey (app typ source : string) : string :=
  "t:" ++ app ++ nul ++ typ ++ nul ++ source.

(** ** The cached access *)

Section Cached.
  Context {W C : Type} `{RW : ReadDataAccess W} `{GC : GoCache C}.

(** The shape of all four methods: look up, else ask the store and keep a
    success; a cached entry of another type would panic. *)
Definition cached {A} (inj : A -> centry) (assert : centry -> option A) (key : string)
    (fetch : outcome gerr A) (now : Z) (c : C) : C * outcome gerr A :=
  match cache_Get c now key with
  | Some e => (c, match assert e with Some a => Ok a | None => Panic end)
  | None =>
      match fetch with
      | Ok a => (cache_Set c now key (inj a), Ok a)
      | x => (c, x)
      end
  end.

Definition cached_GetAppID (c : C) (now : Z) (w : W) (appName : string) : C * outcome gerr string :=
  cached CString (fun e => match e with CString s => Some s | _ => None end)
    (appNameCacheKey appName) (GetAppID w appName) now c.
Definition cached_GetAppByID (c : C) (now : Z) (w : W) (appID : string) : C * outcome gerr App :=
  cached CApp (fun e => match e with CApp a => Some a | _ => None end)
    (appIDCacheKey appID) (GetAppByID w appID) now c.
Definition cached_GetTriggerBySource (c : C) (now : Z) (w : W) (appID triggerType source : string) : C * outcome gerr Trigger :=
  cached CTrigger (fun e => match e with CTrigger t => Some t | _ => None end)
    (trigSourceCacheKey appID triggerType source) (GetTriggerBySource w appID triggerType source) now c.
Definition cached_GetFnByID (c : C) (now : Z) (w : W) (fnID : string) : C * outcome gerr Fn :=
  cached CFn (fun e => match e with CFn f => Some f | _ => None end)
    (fnCacheKey fnID) (GetFnByID w fnID) now c.
End Cached.

(** ** Questions and answers *)

Inductive question := QAppID (n : string) | QApp (id : string) | QTrigger (app typ src : string) | QFn (id : string).

Definition cache_key (q : question) : string :=
  match q with
  | QAppID n => appNameCacheKey n
  | QApp i => appIDCacheKey i
  | QTrigger a t s => trigSourceCacheKey a t s
  | QFn i => fnCacheKey i
  end.

Section Questions.
  Context {W C : Type} `{RW : ReadDataAccess W} `{GC : GoCache C}.

(** The store's own answer. *)
Definition ask (w : W) (q : question) : outcome gerr centry :=
  match q with
  | QAppID n => omap_ok CString (GetAppID w n)
  | QApp i => omap_ok CApp (GetAppByID w i)
  | QTrigger a t s => omap_ok CTrigger (GetTriggerBySource w a t s)
  | QFn i => omap_ok CFn (GetFnByID w i)
  end.

(** The cached answer. *)
Definition cached_ask (c : C) (now : Z) (w : W) (q : question) : C * outcome gerr centry :=
  match q with
  | QAppID n => let (c, r) := cached_GetAppID c now w n in (c, omap_ok CString r)
  | QApp i => let (c, r) := cached_GetAppByID c now w i in (c, omap_ok CApp r)
  | QTrigger a t s => let (c, r) := cached_GetTriggerBySource c now w a t s in (c, omap_ok CTrigger r)
  | QFn i => let (c, r) := cached_GetFnByID c now w i in (c, omap_ok CFn r)
  end.

(** A run of questions, each at its time and with the store as it is then. *)
Fixpoint cached_run (c : C) (l : list (Z * W * question)) : C * list (outcome gerr centry) :=
  match l with
  | [] => (c, [])
  | (now, w, q) :: l =>
      let (c, r) := cached_ask c now w q in
      let (c, rs) := cached_run c l in (c, r :: rs)
  end.
End Questions.

(** Ids and trigger types have no zero byte. *)
Definition no_nul (s : string) : Prop := Ascii.zero ∉ String.list_ascii_of_string s.
Definition question_ok (q : question) : Prop :=
  match q with QTrigger a t _ => no_nul a /\ no_nul t | _ => True end.

(** ** Lemmas: keys *)

Lemma cache_key_inj q q' : question_ok q -> question_ok q' -> cache_key q = cache_key q' -> q = q'.
Proof.
  destruct q as [n|i|a t s|i], q' as [n'|i'|a' t' s'|i']; cbn [question_ok cache_key];
    unfold appNameCacheKey, appIDCacheKey, fnCacheKey, trigSourceCacheKey; intros H1 H2 E; try done.
  all: apply (f_equal String.list_ascii_of_string) in E; rewrite !list_ascii_app in E; cbn in E; injection E as E.
  1, 2, 4: by rewrite (list_ascii_inj _ _ E).
  destruct H1 as [Ha Ht], H2 as [Ha' Ht'].
  apply cut_at_inj in E as [Ea E]; [|done|done].
  apply cut_at_inj in E as [Et Es]; [|done|done].
  by rewrite (list_ascii_inj _ _ Ea), (list_ascii_inj _ _ Et), (list_ascii_inj _ _ Es).
Qed.

(** ** Lemmas: runs *)

Section CachedLemmas.
  Context {W C : Type} `{RW : ReadDataAccess W} `{GC : GoCache C}.
  Implicit Types (hist : list (Z * W * question)).

(** A cached entry fits the question it is found for when their kinds agree. *)
Definition fits (q : question) (e : centry) : bool :=
  match q, e with
  | QAppID _, CString _ | QApp _, CApp _ | QTrigger _ _ _, CTrigger _ | QFn _, CFn _ => true
  | _, _ => false
  end.

Lemma ask_fits (w : W) q e : ask w q = Ok e -> fits q e = true.
Proof.
  destruct q; cbn [ask]; unfold omap_ok; intros H; apply obind_Ok in H as (a & _ & [= <-]); done.
Qed.

Lemma cached_ask_eq (c : C) now (w : W) q :
  cached_ask c now w q =
  match cache_Get c now (cache_key q) with
  | Some e => (c, if fits q e then Ok e else Panic)
  | None => match ask w q with
            | Ok e => (cache_Set c now (cache_key q) e, Ok e)
            | x => (c, x)
            end
  end.
Proof.
  destruct q; cbn [cached_ask cache_key ask];
    unfold cached_GetAppID, cached_GetAppByID, cached_GetTriggerBySource, cached_GetFnByID, cached;
    (destruct (cache_Get _ _ _) as [[]|]; [done..|]).
  - by destruct (GetAppID w n).
  - by destruct (GetAppByID w id).
  - by destruct (GetTriggerBySource w app typ src).
  - by destruct (GetFnByID w id).
Qed.

(** Every entry of the cache is an answer the store gave when it was set. *)
Definition cache_inv hist (c : C) : Prop :=
  forall k e t, held c k = Some (e, t) -> exists w q, (t, w, q) ∈ hist /\ cache_key q = k /\ ask w q = Ok e.

(** An answer is one of the store to the same question, at most five seconds
    old; an error or a panic is the store's own, now. *)
Definition fresh hist (now : Z) (w : W) (q : question) (r : outcome gerr centry) : Prop :=
  match r with
  | Ok e => exists t w', (t, w', q) ∈ hist /\ now <= t + cacheExpiration /\ ask w' q = Ok e
  | x => ask w q = x
  end.

Lemma cached_ask_fresh hist c now w q :
  cache_inv hist c -> Forall (fun x => question_ok x.2) hist -> question_ok q ->
  cache_inv (hist ++ [(now, w, q)]) (cached_ask c now w q).1 /\
  fresh (hist ++ [(now, w, q)]) now w q (cached_ask c now w q).2.
Proof.
  intros Hi Hh Hq. rewrite cached_ask_eq.
  assert (Hi' : cache_inv (hist ++ [(now, w, q)]) c).
  { intros k e t Hk. destruct (Hi k e t Hk) as (w' & q' & Hin & Hr). exists w', q'.
    split; [apply elem_of_app; by left|done]. }
  destruct (cache_Get c now (cache_key q)) as [e|] eqn:G.
  - apply cache_Get_held in G as (t & Hk & Ht). destruct (Hi _ _ _ Hk) as (w' & q' & Hin & Hkey & Ha).
    assert (q' = q) as -> by (apply cache_key_inj; [by apply (proj1 (Forall_forall _ _) Hh) in Hin|done|done]).
    cbn [fst snd]. rewrite (ask_fits _ _ _ Ha). split; [done|]. exists t, w'.
    split; [apply elem_of_app; by left|done].
  - assert (Hlast : (now, w, q) ∈ hist ++ [(now, w, q)]) by (apply elem_of_app; right; left).
    destruct (ask w q) as [e|e|] eqn:A; cbn [fst snd fresh]; [|done|done]. split.
    + intros k e' t Hk. rewrite held_Set in Hk. destruct (decide (cache_key q = k)) as [<-|].
      * injection Hk as <- <-. by exists w, q.
      * by apply Hi'.
    + exists now, w. split; [done|]. split; [unfold cacheExpiration, Second; lia|done].
Qed.

Lemma cached_run_fresh hist c l :
  cache_inv hist c -> Forall (fun x => question_ok x.2) (hist ++ l) ->
  forall i now w q r, l !! i = Some (now, w, q) -> (cached_run c l).2 !! i = Some r ->
  fresh (hist ++ take (S i) l) now w q r.
Proof.
  revert hist c. induction l as [|[[now0 w0] q0] l IH]; intros hist c Hi Hok i now w q r Hl Hr; [done|].
  cbn [cached_run] in Hr. apply Forall_app in Hok as [Hh Hl']. apply Forall_cons in Hl' as [Hq0 Hl'].
  destruct (cached_ask_fresh hist c now0 w0 q0 Hi Hh Hq0) as [Hi' Hf].
  destruct (cached_ask c now0 w0 q0) as [c' r0]. cbn [fst snd] in *.
  destruct (cached_run c' l) as [c'' rs] eqn:R. destruct i as [|i]; simpl in Hl, Hr.
  - simplify_eq. by rewrite firstn_cons, firstn_O.
  - rewrite firstn_cons.
    change (hist ++ (now0, w0, q0) :: take (S i) l) with (hist ++ [(now0, w0, q0)] ++ take (S i) l).
    rewrite app_assoc. eapply IH; [exact Hi'| |exact Hl|by rewrite R].
    rewrite <- app_assoc. apply Forall_app. split; [done|]. by constructor.
Qed.
End CachedLemmas.

(** ** Theorem *)


(** A store with one application whose name is its state. *)
Definition one_app_store : ReadDataAccess string := {|
  GetAppID := fun w n => if streq n w then Ok "app1"%string else Err (EVar ErrAppsNotFound);
  GetAppByID := fun _ _ => Err (EVar ErrAppsNotFound);
  GetTriggerBySource := fun _ _ _ _ => Err (EVar ErrTriggerNotFound);
  GetFnByID := fun _ _ => Err (EVar ErrFnsNotFound)
|}.

