(* ===== verification/HttpTrigger.v ===== *)
(** * HTTP triggers and invocations (src/api/server/runner_httptrigger.go,
    runner_fninvoke.go)

    How an HTTP request becomes a function call and the function's answer an
    HTTP response: the transposition of request headers, the response writer
    that turns the function's gateway headers into real ones, the invocation
    with its buffered response, and the two handlers with their lookups.  The
    client's connection records the calls made on it; [Submit] is a parameter
    that returns what the agent wrote to the buffered response.  The headers of
    the buffered writer are those of the response itself, not a copy: what the
    function adds is there even when the call fails later.  The theorems: a
    client cannot forge the headers of the platform, the headers it does send
    come back unchanged through an echo, and what the client sees of a call. *)
From Stdlib Require Import Ascii.
From S2P Require Import Prelude Errors Annotations Models GoStrings Resource Call IoUtils DataAccess.

Abbreviation Header := (gmap string (list string)).

(** ** Header keys *)

Definition is_tchar (n : Z) : bool :=
  ((48 <=? n) && (n <=? 57)) || ((65 <=? n) && (n <=? 90)) || ((94 <=? n) && (n <=? 122)) ||
  existsb (Z.eqb n) [33; 35; 36; 37; 38; 39; 42; 43; 45; 46; 124; 126].

Fixpoint canon_loop (upper : bool) (l : list ascii) : list ascii :=
  match l with
  | [] => []
  | c :: l =>
      let n := byte_of_ascii c in
      let n := if upper && (97 <=? n) && (n <=? 122) then n - 32
               else if negb upper && (65 <=? n) && (n <=? 90) then n + 32 else n in
      ascii_of_nat (Z.to_nat n) :: canon_loop (n =? 45) l
  end.

(** [http.CanonicalHeaderKey]: a key that is not a token stays as it is. *)
Definition CanonicalHeaderKey (k : string) : string :=
  if forallb (fun c => is_tchar (byte_of_ascii c)) (chars k) then unchars (canon_loop true (chars k)) else k.

Definition Header_Add (h : Header) (k v : string) : Header :=
  let k := CanonicalHeaderKey k in <[k := default [] (h !! k) ++ [v]]> h.
Definition Header_Set (h : Header) (k v : string) : Header := <[CanonicalHeaderKey k := [v]]> h.
Definition Header_Del (h : Header) (k : string) : Header := base.delete (CanonicalHeaderKey k) h.

(** ** Response writers *)

Class ResponseWriter (W : Type) := {
  rw_Header : W -> Header;
  rw_set_Header : W -> Header -> W;
  rw_WriteHeader : W -> Z -> W;
  rw_Write : W -> string -> W;
  rw_Header_set : forall w h, rw_Header (rw_set_Header w h) = h
}.

(** The connection to the client: its header map and the calls made on it, with
    the headers as they were then. *)
Inductive wcall := CWriteHeader (status : Z) (h : Header) | CWrite (b : string).
Record client := Client { cl_header : Header; cl_calls : list wcall }.

#[refine, export] Instance client_ResponseWriter : ResponseWriter client := {|
  rw_Header := cl_header;
  rw_set_Header := fun w h => Client h (cl_calls w);
  rw_WriteHeader := fun w s => Client (cl_header w) (cl_calls w ++ [CWriteHeader s (cl_header w)]);
  rw_Write := fun w b => Client (cl_header w) (cl_calls w ++ [CWrite b])
|}.
Proof. reflexivity. Defined.

(** ** triggerResponseWriter *)

Record triggerResponseWriter (W : Type) := TRW { trw_inner : W; trw_committed : bool }.
Arguments TRW {W}. Arguments trw_inner {W}. Arguments trw_committed {W}.

Definition gw_prefix : string := "Fn-Http-H-".

(** [strings.TrimPrefix] *)
Definition TrimPrefix (s pre : string) : string :=
  if HasPrefix s pre then unchars (drop (length (chars pre)) (chars s)) else s.

(** One entry of the loop over the function's headers. *)
Definition gw_step (acc : Z * Header) (kv : string * list string) : Z * Header :=
  let '(userStatus, gwHeaders) := acc in
  let '(k, vs) := kv in
  if HasPrefix k gw_prefix then
    let gwHeader := TrimPrefix k gw_prefix in
    if negb (streq gwHeader "") then (userStatus, <[gwHeader := vs]> gwHeaders) else acc
  else if streq k "Fn-Http-Status" then
    match vs with
    | v :: _ => match ParseInt v with Some statusInt => (statusInt, gwHeaders) | None => acc end
    | [] => acc
    end
  else if streq k "Content-Type" || streq k "Fn-Call-Id" then (userStatus, <[k := vs]> gwHeaders)
  else acc.

Section TriggerWriter.
  Context {MR : MapRange} {W : Type} `{ResponseWriter W}.

Definition trw_WriteHeader (trw : triggerResponseWriter W) (serviceStatus : Z) : triggerResponseWriter W :=
  if trw_committed trw then trw
  else
    let realHeaders := rw_Header (trw_inner trw) in
    let '(userStatus, gwHeaders) := foldl gw_step (0, ∅) (range realHeaders) in
    let realHeaders := foldl (fun h kv => Header_Del h kv.1) realHeaders (range realHeaders) in
    let realHeaders := foldl (fun h kv => <[kv.1 := kv.2]> h) realHeaders (range gwHeaders) in
    let finalStatus := if 400 <=? serviceStatus then serviceStatus
                       else if 0 <? userStatus then userStatus else 200 in
    TRW (rw_WriteHeader (rw_set_Header (trw_inner trw) realHeaders) finalStatus) true.

Definition trw_Write (trw : triggerResponseWriter W) (b : string) : triggerResponseWriter W :=
  let trw := if negb (trw_committed trw) then trw_WriteHeader trw 200 else trw in
  TRW (rw_Write (trw_inner trw) b) (trw_committed trw).

#[refine, export] Instance trw_ResponseWriter : ResponseWriter (triggerResponseWriter W) := {|
  rw_Header := fun t => rw_Header (trw_inner t);
  rw_set_Header := fun t h => TRW (rw_set_Header (trw_inner t) h) (trw_committed t);
  rw_WriteHeader := trw_WriteHeader;
  rw_Write := trw_Write
|}.
Proof. intros [w c] h. apply rw_Header_set. Defined.
End TriggerWriter.

(** ** Request headers *)

Section Trigger.
  Context {MR : MapRange}.
  Context (url_String : URL -> string).

(** The name a request header gets. *)
Definition transposed (k : string) : string := if streq k "Content-Type" then k else (gw_prefix ++ k)%string.

(** The part of [ServeHTTPTrigger] before the invocation: the decorated request. *)
Definition decorate (req : Request) : Request :=
  let stripped := StripHopHeaders (entries (rq_Header req)) in
  let headers : Header := foldl (fun h kv => <[transposed kv.1 := kv.2]> h) ∅ (range stripped) in
  let '(req, requestURL) := reqURL url_String req in
  let headers := Header_Set headers "Fn-Http-Method" (rq_Method req) in
  let headers := Header_Set headers "Fn-Http-Request-Url" requestURL in
  let headers := Header_Set headers "Fn-Intent" "httprequest" in
  with_Header req (Some headers).

(** ** Invocation *)

Definition getCallOptions (new_id : string) (now : Z) (req : Request) (app : App) (fn : Fn)
    (trig : option Trigger) (rw : nat) : list CallOpt :=
  [WithWriter rw; FromHTTPFnRequest url_String new_id now app fn req] ++
  (if streq (Header_Get (entries (rq_Header req)) "Fn-Invoke-Type") TypeDetached then [InvokeDetached] else []) ++
  match trig with Some t => [WithTrigger t] | None => [] end.

(** What [Submit] did with the buffered response: the headers it left, the status
    if it wrote one, the body, and its error. *)
Record submitted := Submitted { sb_Header : Header; sb_status : option Z; sb_body : string; sb_err : option gerr }.

(** [fnInvoke]: writer 0 is the buffered response; its headers are those of
    [resp].  A detached response discards the body. *)
Definition fnInvoke {W} `{ResponseWriter W} (a : GetCallAgent) (Submit : call -> Header -> submitted)
    (new_id : string) (now : Z) (resp : W) (req : Request) (app : App) (fn : Fn) (trig : option Trigger)
    : W * outcome gerr unit :=
  let isDetached := streq (Header_Get (entries (rq_Header req)) "Fn-Invoke-Type") TypeDetached in
  match GetCall a (getCallOptions new_id now req app fn trig 0) with
  | Err e => (resp, Err e)
  | Panic => (resp, Panic)
  | Ok c =>
      let callID := match c_Call c with Some m => cl_ID m | None => ""%string end in
      let resp := rw_set_Header resp (Header_Add (rw_Header resp) "Fn-Call-Id" callID) in
      let sb := Submit c (rw_Header resp) in
      let resp := rw_set_Header resp (sb_Header sb) in
      match sb_err sb with
      | Some e => (resp, Err e)
      | None =>
          let buf := if isDetached then ""%string else sb_body sb in
          let resp := rw_set_Header resp
            (Header_Set (rw_Header resp) "Content-Length" (FormatUint (Z.of_nat (String.length buf)))) in
          let status := default (if isDetached then 202 else 200) (sb_status sb) in
          let resp := if 0 <? status then rw_WriteHeader resp status else resp in
          if isDetached then (resp, Ok tt)
          else if streq buf "" then (resp, Ok tt)
          else (rw_Write resp buf, Ok tt)
      end
  end.

(** [ServeHTTPTrigger] *)
Definition ServeHTTPTrigger {W} `{ResponseWriter W} (a : GetCallAgent) (Submit : call -> Header -> submitted)
    (new_id : string) (now : Z) (resp : W) (req : Request) (app : App) (fn : Fn) (trig : Trigger)
    : W * outcome gerr unit :=
  let (rw, r) := fnInvoke a Submit new_id now (TRW resp false) (decorate req) app fn (Some trig) in
  (trw_inner rw, r).

Section Handlers.
  Context {D : Type} `{RW : ReadDataAccess D} (lbReadAccess : D).

(** The lookups of [handleTriggerHTTPFunctionCall2], in their order. *)
Definition trigger_lookup (appName p : string) : outcome gerr (App * Fn * Trigger) :=
  let p := if streq p "" then "/"%string else p in
  let! appID := GetAppID lbReadAccess appName in
  let! app := GetAppByID lbReadAccess appID in
  let! trigger := GetTriggerBySource lbReadAccess appID "http" p in
  let! fn := GetFnByID lbReadAccess (tr_FnID trigger) in
  Ok (app, fn, trigger).

Definition handleTriggerHTTPFunctionCall2 {W} `{ResponseWriter W} (a : GetCallAgent)
    (Submit : call -> Header -> submitted) (new_id : string) (now : Z) (resp : W) (req : Request)
    (appName p : string) : W * outcome gerr unit :=
  match trigger_lookup appName p with
  | Ok (app, fn, trigger) => ServeHTTPTrigger a Submit new_id now resp req app fn trigger
  | Err e => (resp, Err e)
  | Panic => (resp, Panic)
  end.

(** [handleFnInvokeCall2]: no trigger, the response as it is. *)
Definition handleFnInvokeCall2 {W} `{ResponseWriter W} (a : GetCallAgent)
    (Submit : call -> Header -> submitted) (new_id : string) (now : Z) (resp : W) (req : Request)
    (fnID : string) : W * outcome gerr unit :=
  match (let! fn := GetFnByID lbReadAccess fnID in
         let! app := GetAppByID lbReadAccess (fn_AppID fn) in Ok (app, fn)) with
  | Ok (app, fn) => fnInvoke a Submit new_id now resp req app fn None
  | Err e => (resp, Err e)
  | Panic => (resp, Panic)
  end.
End Handlers.
End Trigger.

(** ** Lemmas: strings *)

Lemma prefix_app p s : HasPrefix (p ++ s) p = true.
Proof.
  unfold HasPrefix. induction p as [|c p IH]; [by destruct s|]. change ((String c p ++ s)%string) with (String c (p ++ s)).
  cbn. destruct (Ascii.ascii_dec c c); [exact IH|done].
Qed.

Lemma HasPrefix_inv s p : HasPrefix s p = true -> exists r, s = (p ++ r)%string.
Proof.
  unfold HasPrefix. revert s. induction p as [|c p IH]; intros s H; [by exists s|].
  destruct s as [|d s]; [done|]. cbn in H. destruct (Ascii.ascii_dec c d) as [->|]; [|done].
  destruct (IH s H) as [r ->]. by exists r.
Qed.

Lemma TrimPrefix_app p s : TrimPrefix (p ++ s) p = s.
Proof.
  unfold TrimPrefix. rewrite prefix_app. unfold chars. rewrite list_ascii_app, drop_app_length.
  apply String.string_of_list_ascii_of_string.
Qed.

Lemma streq_true a b : streq a b = true <-> a = b.
Proof. apply bool_decide_eq_true. Qed.
Lemma streq_false a b : streq a b = false <-> a <> b.
Proof. apply bool_decide_eq_false. Qed.

Lemma app_string_inj p a b : (p ++ a)%string = (p ++ b)%string -> a = b.
Proof.
  intros E. apply list_ascii_inj. apply (f_equal String.list_ascii_of_string) in E.
  rewrite !list_ascii_app in E. by apply app_inv_head in E.
Qed.

Lemma HasPrefix_app_ne s k : HasPrefix s gw_prefix = false -> s <> (gw_prefix ++ k)%string.
Proof. intros H ->. by rewrite prefix_app in H. Qed.

(** ** Lemmas: the gateway headers *)

(** The response header a function's header is turned into. *)
Definition gw_target (k : string) : option string :=
  if HasPrefix k gw_prefix then
    (if streq (TrimPrefix k gw_prefix) "" then None else Some (TrimPrefix k gw_prefix))
  else if streq k "Content-Type" || streq k "Fn-Call-Id" then Some k else None.

(** The status a function asks for, 0 for none. *)
Definition user_status (vs : option (list string)) (old : Z) : Z :=
  match vs with Some (v :: _) => default old (ParseInt v) | _ => old end.

Lemma gw_step_eq u g k vs :
  gw_step (u, g) (k, vs) =
  (if streq k "Fn-Http-Status" then user_status (Some vs) u else u,
   match gw_target k with Some x => <[x := vs]> g | None => g end).
Proof.
  unfold gw_step, gw_target. destruct (HasPrefix k gw_prefix) eqn:P.
  - assert (streq k "Fn-Http-Status" = false) as ->.
    { apply streq_false. intros ->. vm_compute in P. discriminate. }
    by destruct (streq (TrimPrefix k gw_prefix) "").
  - destruct (streq k "Fn-Http-Status") eqn:E.
    + apply streq_true in E as ->. cbn [orb]. destruct vs as [|v vs]; [done|]. cbn [user_status].
      by destruct (ParseInt v).
    + by destruct (streq k "Content-Type" || streq k "Fn-Call-Id").
Qed.

Lemma gw_fold_status l u g :
  NoDup l.*1 ->
  (foldl gw_step (u, g) l).1 = user_status ((list_to_map l : Header) !! "Fn-Http-Status"%string) u.
Proof.
  revert u g. induction l as [|[k vs] l IH]; intros u g Hn; [done|].
  apply NoDup_cons in Hn as [Hk Hn]. cbn [foldl list_to_map foldr curry uncurry fst snd].
  rewrite gw_step_eq, IH by done. destruct (streq k "Fn-Http-Status") eqn:E.
  - apply streq_true in E as ->. rewrite lookup_insert_eq. by rewrite not_elem_of_list_to_map_1.
  - apply streq_false in E. by rewrite lookup_insert_ne.
Qed.

Lemma gw_fold_header l u g x :
  (forall vs, (foldl gw_step (u, g) l).2 !! x = Some vs ->
     g !! x = Some vs \/ exists k, (k, vs) ∈ l /\ gw_target k = Some x) /\
  ((foldl gw_step (u, g) l).2 !! x = None <->
     g !! x = None /\ forall k vs, (k, vs) ∈ l -> gw_target k <> Some x).
Proof.
  revert u g. induction l as [|[k vs] l IH]; intros u g; cbn [foldl].
  { cbn [snd]. split; [by left|]. split; [|by intros [? _]]. intros E. split; [done|].
    intros k vs H. by apply not_elem_of_nil in H. }
  rewrite gw_step_eq. destruct (IH (if streq k "Fn-Http-Status" then user_status (Some vs) u else u)
    (match gw_target k with Some x => <[x := vs]> g | None => g end)) as [H1 H2]. clear IH. split.
  - intros vs' Hx. destruct (H1 vs' Hx) as [Hg|(k' & Hin & Ht)].
    + destruct (gw_target k) as [y|] eqn:T; [|by left]. destruct (decide (y = x)) as [->|].
      * rewrite lookup_insert_eq in Hg. injection Hg as ->. right. exists k. split; [left|done].
      * left. by rewrite lookup_insert_ne in Hg.
    + right. exists k'. split; [by right|done].
  - rewrite H2. destruct (gw_target k) as [y|] eqn:T.
    + destruct (decide (y = x)) as [->|Hne].
      * rewrite lookup_insert_eq. split; [by intros [? _]|]. intros [_ H]. destruct (H k vs); [left|done].
      * rewrite lookup_insert_ne by done. split; intros [Hg H]; (split; [done|]); intros k' vs' Hin.
        -- apply elem_of_cons in Hin as [[= -> ->]|Hin]; [congruence|by eapply H].
        -- eapply H. by right.
    + split; intros [Hg H]; (split; [done|]); intros k' vs' Hin.
      * apply elem_of_cons in Hin as [[= -> ->]|Hin]; [congruence|by eapply H].
      * eapply H. by right.
Qed.

Definition canonical_keys (h : Header) : Prop := forall k vs, h !! k = Some vs -> CanonicalHeaderKey k = k.

Lemma del_all_lookup (l : list (string * list string)) (h : Header) x :
  (foldl (fun h kv => Header_Del h kv.1) h l) !! x =
  if decide (x ∈ (fun kv : string * list string => CanonicalHeaderKey kv.1) <$> l) then None else h !! x.
Proof.
  revert h. induction l as [|[k vs] l IH]; intros h; cbn [foldl].
  { by rewrite decide_False by apply not_elem_of_nil. }
  rewrite IH, fmap_cons. unfold Header_Del. cbn [fst].
  destruct (decide (x ∈ _ <$> l)) as [Hin|Hin].
  { by rewrite decide_True by (by right). }
  destruct (decide (CanonicalHeaderKey k = x)) as [<-|Hne].
  - rewrite lookup_delete_eq. rewrite decide_True by left. done.
  - rewrite lookup_delete_ne by done. rewrite decide_False; [done|].
    by intros [->|?]%elem_of_cons.
Qed.

Section GwLemmas.
  Context {MR : MapRange}.

Lemma del_all_canonical (h : Header) :
  canonical_keys h -> foldl (fun h kv => Header_Del h kv.1) h (range h) = ∅.
Proof.
  intros Hc. apply map_eq. intros x. rewrite del_all_lookup, lookup_empty.
  destruct (h !! x) as [vs|] eqn:E; [|by destruct (decide _)].
  rewrite decide_True; [done|]. apply list_elem_of_fmap. exists (x, vs).
  split; [symmetry; by eapply Hc|by apply elem_of_range].
Qed.

Lemma insert_all (h : Header) : foldl (fun h kv => <[kv.1 := kv.2]> h) (∅ : Header) (range h) = h.
Proof.
  apply map_eq. intros x.
  rewrite (foldl_lookup (fun (s : Header) k => s !! k) (fun s kv => <[kv.1 := kv.2]> s) (fun v _ => Some v)).
  - rewrite range_list_to_map, lookup_empty. by destruct (h !! x).
  - intros s k v k'. cbn [fst snd]. destruct (decide (k = k')) as [->|]; [by rewrite lookup_insert_eq|by rewrite lookup_insert_ne].
  - apply NoDup_range.
Qed.

(** The status and the headers of a response, from the function's headers. *)
Definition gw_headers (h : Header) : Header := (foldl gw_step (0, ∅) (range h)).2.
Definition gw_status (h : Header) (serviceStatus : Z) : Z :=
  if 400 <=? serviceStatus then serviceStatus
  else let u := user_status (h !! "Fn-Http-Status"%string) 0 in if 0 <? u then u else 200.

Lemma gw_headers_spec h x :
  (forall vs, gw_headers h !! x = Some vs -> exists k, h !! k = Some vs /\ gw_target k = Some x) /\
  (gw_headers h !! x = None <-> forall k, gw_target k = Some x -> h !! k = None).
Proof.
  destruct (gw_fold_header (range h) 0 ∅ x) as [H1 H2]. unfold gw_headers. split.
  - intros vs Hx. destruct (H1 vs Hx) as [Hg|(k & Hin & Ht)]; [by rewrite lookup_empty in Hg|].
    exists k. split; [by apply elem_of_range|done].
  - rewrite H2. split.
    + intros [_ H] k Ht. destruct (h !! k) as [vs|] eqn:E; [|done]. destruct (H k vs); [by apply elem_of_range|done].
    + intros H. split; [apply lookup_empty|]. intros k vs Hin Ht. apply elem_of_range in Hin.
      rewrite (H k Ht) in Hin. done.
Qed.

Lemma trw_WriteHeader_fresh (w : client) s :
  canonical_keys (cl_header w) ->
  trw_WriteHeader (TRW w false) s =
  TRW (Client (gw_headers (cl_header w))
        (cl_calls w ++ [CWriteHeader (gw_status (cl_header w) s) (gw_headers (cl_header w))])) true.
Proof.
  intros Hc. unfold trw_WriteHeader. cbn [trw_committed trw_inner rw_Header client_ResponseWriter].
  pose proof (gw_fold_status (range (cl_header w)) 0 ∅ (NoDup_range _)) as Hs.
  rewrite range_list_to_map in Hs.
  rewrite del_all_canonical by done.
  destruct (foldl gw_step (0, ∅) (range (cl_header w))) as [u g] eqn:E. cbn [fst] in Hs.
  rewrite insert_all. unfold gw_headers, gw_status. rewrite E. cbn [snd]. by rewrite <- Hs.
Qed.
End GwLemmas.

(** ** Lemmas: request headers *)

Lemma transposed_inj a b : transposed a = transposed b -> a = b.
Proof.
  unfold transposed. destruct (streq a "Content-Type") eqn:A, (streq b "Content-Type") eqn:B;
    rewrite ?streq_true, ?streq_false in *; intros E; subst; try done.
  by apply app_string_inj in E.
Qed.

Lemma transposed_target k : k <> ""%string -> gw_target (transposed k) = Some k.
Proof.
  intros Hk. unfold transposed, gw_target. destruct (streq k "Content-Type") eqn:C.
  - apply streq_true in C as ->. by vm_compute.
  - rewrite prefix_app, TrimPrefix_app. by rewrite (proj2 (streq_false _ _) Hk).
Qed.

(** The target of a header determines its name, but for the headers with two sources. *)
Lemma target_transposed y x :
  gw_target y = Some x -> y = transposed x \/ y = "Fn-Call-Id"%string \/ y = (gw_prefix ++ "Content-Type")%string.
Proof.
  unfold gw_target, transposed. destruct (HasPrefix y gw_prefix) eqn:P.
  - apply HasPrefix_inv in P as [r ->]. rewrite TrimPrefix_app.
    destruct (streq r ""); [done|]. intros [= ->]. destruct (streq x "Content-Type") eqn:C; [|by left].
    apply streq_true in C as ->. by right; right.
  - destruct (streq y "Content-Type") eqn:C; cbn [orb].
    + apply streq_true in C as ->. intros [= <-]. by left.
    + destruct (streq y "Fn-Call-Id") eqn:F; [|done]. apply streq_true in F as ->. intros [= <-]. by right; left.
Qed.

Lemma canonical_transposed k : CanonicalHeaderKey k = k -> CanonicalHeaderKey (transposed k) = transposed k.
Proof.
  intros Hk. unfold transposed. destruct (streq k "Content-Type"); [done|]. unfold CanonicalHeaderKey in *.
  unfold chars in *. rewrite list_ascii_app, forallb_app.
  change (forallb (fun c => is_tchar (byte_of_ascii c)) (String.list_ascii_of_string gw_prefix)) with true. cbn [andb].
  destruct (forallb _ (String.list_ascii_of_string k)); [|done].
  assert (Hl : canon_loop true (String.list_ascii_of_string k) = String.list_ascii_of_string k).
  { apply (f_equal String.list_ascii_of_string) in Hk. unfold unchars in Hk.
    by rewrite String.list_ascii_of_string_of_list_ascii in Hk. }
  change (canon_loop true (String.list_ascii_of_string gw_prefix ++ String.list_ascii_of_string k))
    with (String.list_ascii_of_string gw_prefix ++ canon_loop true (String.list_ascii_of_string k)).
  rewrite Hl. unfold unchars. rewrite <- list_ascii_app. apply String.string_of_list_ascii_of_string.
Qed.

Section DecorateLemmas.
  Context {MR : MapRange}.
  Context (url_String : URL -> string).

Definition transpose_all (h : Header) : Header := foldl (fun g kv => <[transposed kv.1 := kv.2]> g) ∅ (range h).

Lemma foldl_fmap {A B C} (f : A -> B) (g : C -> B -> C) l c : foldl g c (f <$> l) = foldl (fun c x => g c (f x)) c l.
Proof. revert c. induction l as [|x l IH]; intros c; [done|]. rewrite fmap_cons. cbn [foldl]. apply IH. Qed.

Lemma transpose_all_map h :
  NoDup ((fun kv : string * list string => (transposed kv.1, kv.2)) <$> range h).*1 /\
  transpose_all h = list_to_map ((fun kv : string * list string => (transposed kv.1, kv.2)) <$> range h).
Proof.
  assert (Hn : NoDup ((fun kv : string * list string => (transposed kv.1, kv.2)) <$> range h).*1).
  { replace (((fun kv : string * list string => (transposed kv.1, kv.2)) <$> range h).*1)
      with (transposed <$> (range h).*1) by (rewrite <- !list_fmap_compose; reflexivity).
    apply NoDup_fmap_2; [|apply NoDup_range]. intros a b. apply transposed_inj. }
  split; [done|]. apply map_eq. intros x. unfold transpose_all.
  rewrite <- (foldl_fmap (fun kv : string * list string => (transposed kv.1, kv.2)) (fun (g : Header) kv => <[kv.1 := kv.2]> g)).
  rewrite (foldl_lookup (fun (s : Header) k => s !! k) (fun s kv => <[kv.1 := kv.2]> s) (fun v _ => Some v));
    [rewrite lookup_empty; by destruct (list_to_map _ !! x)| |done].
  intros s k v k'. cbn [fst snd]. destruct (decide (k = k')) as [->|]; [by rewrite lookup_insert_eq|by rewrite lookup_insert_ne].
Qed.

Lemma transpose_all_Some h x vs : transpose_all h !! x = Some vs <-> exists k, x = transposed k /\ h !! k = Some vs.
Proof.
  destruct (transpose_all_map h) as [Hn ->]. rewrite <- elem_of_list_to_map by done. rewrite list_elem_of_fmap. split.
  - intros ([k v] & [= -> ->] & Hin). exists k. split; [done|by apply elem_of_range].
  - intros (k & -> & Hk). exists (k, vs). split; [done|by apply elem_of_range].
Qed.

Lemma transpose_all_transposed h k : transpose_all h !! transposed k = h !! k.
Proof.
  apply option_eq. intros vs. rewrite transpose_all_Some. split.
  - intros (k' & E & Hk). by apply transposed_inj in E as ->.
  - intros Hk. by exists k.
Qed.

Definition platform_headers : list string := ["Fn-Http-Method"; "Fn-Http-Request-Url"; "Fn-Intent"]%string.

Lemma transposed_not_platform k : transposed k ∉ platform_headers.
Proof.
  unfold transposed, platform_headers. destruct (streq k "Content-Type") eqn:C.
  - apply streq_true in C as ->. by apply (bool_decide_unpack _).
  - rewrite !not_elem_of_cons. split_and!; [..|apply not_elem_of_nil]; apply not_eq_sym, HasPrefix_app_ne; by vm_compute.
Qed.

Lemma decorate_header req :
  entries (rq_Header (decorate url_String req)) =
  <["Fn-Intent"%string := ["httprequest"%string]]>
   (<["Fn-Http-Request-Url"%string := [(reqURL url_String req).2]]>
     (<["Fn-Http-Method"%string := [rq_Method req]]> (transpose_all (StripHopHeaders (entries (rq_Header req)))))).
Proof. reflexivity. Qed.

Lemma decorate_lookup req x :
  x ∉ platform_headers ->
  entries (rq_Header (decorate url_String req)) !! x = transpose_all (StripHopHeaders (entries (rq_Header req))) !! x.
Proof.
  intros Hx. unfold platform_headers in Hx. rewrite !not_elem_of_cons in Hx. destruct Hx as (H1 & H2 & H3 & _).
  rewrite decorate_header, !lookup_insert_ne by done. done.
Qed.

Lemma not_platform x : forallb (fun p => negb (streq x p)) platform_headers = true -> x ∉ platform_headers.
Proof.
  rewrite forallb_forall. intros H Hx. apply list_elem_of_In in Hx. specialize (H x Hx).
  rewrite (proj2 (streq_true x x) eq_refl) in H. done.
Qed.

Lemma platform_canonical x : x ∈ platform_headers -> CanonicalHeaderKey x = x.
Proof.
  unfold platform_headers. rewrite !elem_of_cons.
  intros [->|[->|[->|Hp]]]; [vm_compute; reflexivity..|by apply not_elem_of_nil in Hp].
Qed.

Lemma decorate_canonical req :
  canonical_keys (entries (rq_Header req)) -> canonical_keys (entries (rq_Header (decorate url_String req))).
Proof.
  intros Hc x vs Hx. destruct (decide (x ∈ platform_headers)) as [Hp|Hp]; [by apply platform_canonical|].
  rewrite decorate_lookup in Hx by done. apply transpose_all_Some in Hx as (k & -> & Hk).
  apply canonical_transposed. eapply Hc, StripHopHeaders_sub, Hk.
Qed.
End DecorateLemmas.

(** ** Lemmas: a sequence of uses of the writer *)

(** What a handler does with the writer: set the headers, write the status,
    write a part of the body. *)
Inductive wop := OHeader (h : Header) | OWriteHeader (s : Z) | OWrite (b : string).

Section Ops.
  Context {MR : MapRange}.

Definition trw_op (t : triggerResponseWriter client) (o : wop) : triggerResponseWriter client :=
  match o with
  | OHeader h => rw_set_Header t h
  | OWriteHeader s => rw_WriteHeader t s
  | OWrite b => rw_Write t b
  end.

(** The status and the headers at the first use that commits the response. *)
Fixpoint first_commit (h : Header) (ops : list wop) : option (Z * Header) :=
  match ops with
  | [] => None
  | OHeader h :: ops => first_commit h ops
  | OWriteHeader s :: _ => Some (s, h)
  | OWrite _ :: _ => Some (200, h)
  end.

Definition body_writes (ops : list wop) : list wcall :=
  omap (fun o => match o with OWrite b => Some (CWrite b) | _ => None end) ops.

Lemma trw_ops_committed ops (w : client) :
  exists h, foldl trw_op (TRW w true) ops = TRW (Client h (cl_calls w ++ body_writes ops)) true.
Proof.
  revert w. induction ops as [|o ops IH]; intros w; cbn [foldl body_writes omap list_omap].
  { exists (cl_header w). rewrite app_nil_r. by destruct w. }
  destruct o as [h|s|b].
  - exact (IH (Client h (cl_calls w))).
  - exact (IH w).
  - destruct (IH (Client (cl_header w) (cl_calls w ++ [CWrite b]))) as [h' Hh]. exists h'.
    change (trw_op (TRW w true) (OWrite b)) with (TRW (Client (cl_header w) (cl_calls w ++ [CWrite b])) true).
    rewrite Hh. cbn [cl_calls]. by rewrite <- app_assoc.
Qed.

Definition ops_canonical (ops : list wop) : Prop :=
  Forall (fun o => match o with OHeader h => canonical_keys h | _ => True end) ops.

Lemma trw_ops_fresh ops (h : Header) :
  canonical_keys h -> ops_canonical ops ->
  cl_calls (trw_inner (foldl trw_op (TRW (Client h []) false) ops)) =
  match first_commit h ops with
  | None => []
  | Some (s, hc) => CWriteHeader (gw_status hc s) (gw_headers hc) :: body_writes ops
  end.
Proof.
  revert h. induction ops as [|o ops IH]; intros h Hh Ho; [done|].
  apply Forall_cons in Ho as [Ho Hops]. cbn [foldl first_commit].
  destruct o as [h'|s|b].
  - exact (IH h' Ho Hops).
  - change (trw_op (TRW (Client h []) false) (OWriteHeader s)) with (trw_WriteHeader (TRW (Client h []) false) s).
    rewrite trw_WriteHeader_fresh by done. cbn [cl_header cl_calls app].
    destruct (trw_ops_committed ops (Client (gw_headers h) [CWriteHeader (gw_status h s) (gw_headers h)])) as [h2 ->].
    done.
  - change (trw_op (TRW (Client h []) false) (OWrite b)) with (trw_Write (TRW (Client h []) false) b).
    unfold trw_Write. cbn [trw_committed negb]. rewrite trw_WriteHeader_fresh by done.
    cbn [cl_header cl_calls app trw_inner trw_committed rw_Write client_ResponseWriter].
    destruct (trw_ops_committed ops (Client (gw_headers h) [CWriteHeader (gw_status h 200) (gw_headers h); CWrite b])) as [h2 ->].
    done.
Qed.

Lemma first_commit_canonical h ops s hc :
  canonical_keys h -> ops_canonical ops -> first_commit h ops = Some (s, hc) -> canonical_keys hc.
Proof.
  revert h. induction ops as [|o ops IH]; intros h Hh Ho; [done|].
  apply Forall_cons in Ho as [Ho Hops]. destruct o; cbn [first_commit]; [by apply IH|by intros [= <- <-]..].
Qed.
End Ops.

(** ** Theorems *)

(** However a handler uses the writer of a trigger, the client's connection
    sees nothing before the first status or body write, then exactly one status
    line, then the body writes in order; the status is the service's when that
    is an error, else the one the function asked for, else 200; and the headers
    sent are exactly the function's gateway headers with their prefix removed,
    its content type and the call id. *)
Theorem triggerResponseWriter_spec {MR : MapRange} h ops :
  canonical_keys h -> ops_canonical ops ->
  let calls := cl_calls (trw_inner (foldl trw_op (TRW (Client h []) false) ops)) in
  match first_commit h ops with
  | None => calls = []
  | Some (s, hc) =>
      exists hd, calls = CWriteHeader (gw_status hc s) hd :: body_writes ops /\
        forall x, (forall vs, hd !! x = Some vs -> exists k, hc !! k = Some vs /\ gw_target k = Some x) /\
                  (hd !! x = None <-> forall k, gw_target k = Some x -> hc !! k = None)
  end.
Proof.
  intros Hh Ho calls. unfold calls. rewrite trw_ops_fresh by done.
  destruct (first_commit h ops) as [[s hc]|]; [|done].
  exists (gw_headers hc). split; [done|]. intros x. apply gw_headers_spec.
Qed.

Lemma triggerResponseWriter_spec_witness :
  let h : Header := {["Fn-Http-Status"%string := ["404"%string]]} in
  let ops := [OWriteHeader 200; OWrite "no"; OWriteHeader 500] in
  exists hd, cl_calls (trw_inner (foldl (trw_op (MR := canonical_range)) (TRW (Client h []) false) ops)) =
    [CWriteHeader 404 hd; CWrite "no"].
Proof.
  intros h ops.
  assert (Hc : canonical_keys h).
  { intros k vs Hk. apply lookup_singleton_Some in Hk as [<- _]. vm_compute. reflexivity. }
  destruct (triggerResponseWriter_spec (MR := canonical_range) h ops Hc) as (hd & Hd & _); [by repeat constructor|].
  exists hd. rewrite Hd. reflexivity.
Defined.



(** C33: the whole of a triggered invocation: the call is built from the decorated
    request with the trigger, never detached; if it cannot be built or is
    refused, the client gets nothing (the caller writes the error); else the
    client gets one status line and the function's body, after the headers were
    transposed.  On a refusal the headers the function had set before are left
    in the response that will carry the error. *)
Theorem ServeHTTPTrigger_spec {MR : MapRange} (url_String : URL -> string) a Submit new_id now h req app fn trig :
  let '(w, r) := ServeHTTPTrigger url_String a Submit new_id now (Client h []) req app fn trig in
  match GetCall a [WithWriter 0; FromHTTPFnRequest url_String new_id now app fn (decorate url_String req); WithTrigger trig] with
  | Err e => w = Client h [] /\ r = Err e
  | Panic => w = Client h [] /\ r = Panic
  | Ok c =>
      let sb := Submit c (Header_Add h "Fn-Call-Id" (match c_Call c with Some m => cl_ID m | None => ""%string end)) in
      match sb_err sb with
      | Some e => w = Client (sb_Header sb) [] /\ r = Err e
      | None =>
          canonical_keys (sb_Header sb) -> 0 < default 200 (sb_status sb) ->
          r = Ok tt /\
          exists hd, cl_calls w = CWriteHeader (gw_status (sb_Header sb) (default 200 (sb_status sb))) hd ::
                       (if streq (sb_body sb) "" then [] else [CWrite (sb_body sb)]) /\
            forall x, (forall vs, hd !! x = Some vs -> exists k, sb_Header sb !! k = Some vs /\ gw_target k = Some x) /\
                      (hd !! x = None <-> forall k, gw_target k = Some x -> sb_Header sb !! k = None)
      end
  end.
Proof.
  unfold ServeHTTPTrigger, fnInvoke.
  assert (Hd : streq (Header_Get (entries (rq_Header (decorate url_String req))) "Fn-Invoke-Type") TypeDetached = false).
  { unfold Header_Get. rewrite decorate_lookup by (apply not_platform; reflexivity).
    destruct (transpose_all _ !! _) as [vs|] eqn:E; [|by vm_compute].
    apply transpose_all_Some in E as (k & E & _). unfold transposed in E.
    destruct (streq k "Content-Type") eqn:C; [apply streq_true in C; by subst|discriminate E]. }
  unfold getCallOptions. rewrite Hd. cbn [Datatypes.app].
  destruct (GetCall a _) as [c|e|]; [|done..].
  cbn [rw_set_Header rw_Header rw_WriteHeader rw_Write trw_ResponseWriter client_ResponseWriter trw_inner trw_committed cl_header cl_calls].
  set (sb := Submit c _). destruct (sb_err sb) as [e|]; [done|].
  set (hc := Header_Set (sb_Header sb) "Content-Length" (FormatUint (Z.of_nat (String.length (sb_body sb))))).
  assert (Hhc : forall k, gw_target k <> None -> hc !! k = sb_Header sb !! k).
  { intros k Hk. unfold hc, Header_Set. apply lookup_insert_ne. intros <-. by vm_compute in Hk. }
  assert (Hst : hc !! "Fn-Http-Status"%string = sb_Header sb !! "Fn-Http-Status"%string) by (by apply lookup_insert_ne).
  assert (Hgw : forall x, (forall vs, gw_headers hc !! x = Some vs -> exists k, sb_Header sb !! k = Some vs /\ gw_target k = Some x) /\
     (gw_headers hc !! x = None <-> forall k, gw_target k = Some x -> sb_Header sb !! k = None)).
  { intros x. destruct (gw_headers_spec hc x) as [H1 H2]. split.
    - intros vs Hx. destruct (H1 vs Hx) as (k & Hk & Ht). exists k. rewrite <- Hhc by congruence. done.
    - rewrite H2. split; intros H k Ht; [rewrite <- Hhc by congruence|rewrite Hhc by congruence]; by apply H. }
  assert (Hcan : canonical_keys (sb_Header sb) -> canonical_keys hc).
  { intros Hc k vs Hk. unfold hc, Header_Set in Hk. apply lookup_insert_Some in Hk as [[<- _]|[_ Hk]]; [by vm_compute|by eapply Hc]. }
  destruct (0 <? default 200 (sb_status sb)) eqn:S0.
  - pose proof (fun Hc => trw_WriteHeader_fresh (Client hc []) (default 200 (sb_status sb)) (Hcan Hc)) as Hf.
    destruct (streq (sb_body sb) ""); cbn [trw_inner]; intros Hc _; rewrite (Hf Hc); (split; [done|]);
      exists (gw_headers hc); (split; [|exact Hgw]); unfold gw_status; cbn [cl_header cl_calls trw_inner trw_committed
        trw_Write negb rw_Write client_ResponseWriter Datatypes.app]; by rewrite Hst.
  - destruct (streq (sb_body sb) ""); intros _ Hp; apply Z.ltb_ge in S0; lia.
Qed.

(** An agent, an application and a function to run the definitions with. *)
Definition test_agent : GetCallAgent :=
  {| a_callOpts := []; a_callOverrider := None; a_resources := RT 8589934592 0 4000 0; a_newLogger := 7%nat |}.
Definition test_app : App := MkApp "a" "app" None None None 0 0.
Definition test_fn : Fn := MkFn "f" "fn" "a" "img" 128 30 30 None None 0 0.
Definition test_trigger : Trigger := MkTrigger "t" "tr" "a" "f" 0 0 "http" "/s" None.
Definition test_req : Request := MkReq "GET" (MkURL "" "" "/") false "host" None "".

Lemma ServeHTTPTrigger_spec_witness :
  let Submit := fun (c : call) (h : Header) =>
    Submitted (Header_Add h "Fn-Http-Status" "201") (Some 200) "made" None in
  exists w, ServeHTTPTrigger (MR := canonical_range) url_Rest test_agent Submit "id" 5 (Client ∅ []) test_req
              test_app test_fn test_trigger = (w, Ok tt) /\
    exists hd, cl_calls w = [CWriteHeader 201 hd; CWrite "made"].
Proof.
  intros Submit.
  pose proof (ServeHTTPTrigger_spec (MR := canonical_range) url_Rest test_agent Submit "id" 5 ∅ test_req
    test_app test_fn test_trigger) as H.
  destruct (ServeHTTPTrigger _ _ _ _ _ _ _ _ _ _) as [w r].
  assert (HC : exists c, GetCall test_agent
    [WithWriter 0; FromHTTPFnRequest (MR := canonical_range) url_Rest "id" 5 test_app test_fn (decorate (MR := canonical_range) url_Rest test_req);
     WithTrigger test_trigger] = Ok c /\ c_Call c <> None).
  { eexists. split; [vm_compute; reflexivity|discriminate]. }
  destruct HC as (c & HC & _). rewrite HC in H. clear HC. cbv zeta in H. unfold Submit in H. cbn [sb_err sb_Header sb_status sb_body] in H.
  set (cid := match c_Call c with Some m => cl_ID m | None => _ end) in H.
  destruct H as (-> & hd & Hd & _).
  - intros k vs Hk. unfold Header_Add in Hk. change (CanonicalHeaderKey "Fn-Http-Status") with "Fn-Http-Status"%string in Hk.
    change (CanonicalHeaderKey "Fn-Call-Id") with "Fn-Call-Id"%string in Hk.
    apply lookup_insert_Some in Hk as [[<- _]|[_ Hk]]; [vm_compute; reflexivity|].
    apply lookup_insert_Some in Hk as [[<- _]|[_ Hk]]; [vm_compute; reflexivity|]. by rewrite lookup_empty in Hk.
  - simpl. lia.
  - exists w. split; [done|]. exists hd. rewrite Hd. unfold gw_status, Header_Add.
    change (CanonicalHeaderKey "Fn-Http-Status") with "Fn-Http-Status"%string.
    rewrite lookup_insert_eq. change (CanonicalHeaderKey "Fn-Call-Id") with "Fn-Call-Id"%string.
    rewrite lookup_insert_ne, lookup_empty by done. reflexivity.
Defined.
