(* ===== verification/Workflow.v ===== *)
(** * Workflows (src/api/models/state_machine.go,
    src/api/server/runner_httptrigger.go)

    A state machine is run state by state: a task invokes a function with the
    current text, a parallel state runs a nested machine once per element of an
    array of its input.  A function may answer anything at each invocation: an
    invocation has an address (which branch, which step), and the environment
    is a function of the address.  So the goroutines of a parallel state may
    interleave in any way without a change of the result.  [None] is out of
    fuel.  JSON is an interface.  The theorems: which machines always end, and
    that the others never answer when their functions succeed; and what is
    invoked and returned. *)
From S2P Require Import Prelude Errors Models.

(** ** Data *)

Inductive json :=
| JNull
| JBool (b : bool)
| JNumber (n : string)
| JString (s : string)
| JArray (l : list json)
| JObject (l : list (string * json)).

(** What the code uses of [encoding/json]: decoding into a
    [map[string]interface{}], and encoding such a map and a list of strings. *)
Class JSON := {
  Unmarshal : string -> outcome gerr (gomap json);
  Marshal_map : gmap string json -> outcome gerr string;
  Marshal_strings : list string -> outcome gerr string
}.

(** The states are a map of pointers; a JSON null makes a nil pointer.  The map
    is kept as its entries because the types are nested; it is only looked up. *)
Inductive StateMachine := MkSM (Comment StartAt : string) (States : list (string * option State))
with State := MkState (Type_ AppName FuncName Next Comment : string) (End_ : bool) (ParallelExecution : option PExecution)
with PExecution := MkPE (IterableItemsKey IterableItemName : string) (sm : StateMachine).

Definition StartAt (sm : StateMachine) : string := let 'MkSM _ s _ := sm in s.
Definition States (sm : StateMachine) : list (string * option State) := let 'MkSM _ _ l := sm in l.
Definition st_Type (st : State) : string := let 'MkState t _ _ _ _ _ _ := st in t.
Definition st_AppName (st : State) : string := let 'MkState _ a _ _ _ _ _ := st in a.
Definition st_FuncName (st : State) : string := let 'MkState _ _ f _ _ _ _ := st in f.
Definition st_Next (st : State) : string := let 'MkState _ _ _ n _ _ _ := st in n.
Definition st_End (st : State) : bool := let 'MkState _ _ _ _ _ e _ := st in e.
Definition st_ParallelExecution (st : State) : option PExecution := let 'MkState _ _ _ _ _ _ p := st in p.
Definition pe_Key (pe : PExecution) : string := let 'MkPE k _ _ := pe in k.
Definition pe_Name (pe : PExecution) : string := let 'MkPE _ n _ := pe in n.
Definition pe_sm (pe : PExecution) : StateMachine := let 'MkPE _ _ m := pe in m.

Definition StateTypeTask : string := "Task".
Definition StateTypeParallel : string := "Parallel".

(** [stateMachine.States[current]] *)
Fixpoint lookup_state (l : list (string * option State)) (k : string) : option (option State) :=
  match l with
  | [] => None
  | (k', st) :: l => if streq k k' then Some st else lookup_state l k
  end.

(** ** Running a machine *)

(** An invocation: its address (step and branch numbers, innermost first), the
    application, the function and the payload. *)
Definition address : Type := list nat.
Record invocation := Inv { iv_address : address; iv_app : string; iv_func : string; iv_payload : string }.
Definition run_result : Type := list invocation * outcome gerr string.

Section Run.
  Context {J : JSON}.
  (** [syncFunctionInvoke] of a task. *)
  Context (invoke : invocation -> outcome gerr string).

(** The payloads of a parallel state, up to the first that cannot be encoded. *)
Fixpoint parallel_payloads (name : string) (items : list json) : list string * option (outcome gerr string) :=
  match items with
  | [] => ([], None)
  | x :: items =>
      match Marshal_map {[name := x]} with
      | Ok p => let (ps, e) := parallel_payloads name items in (p :: ps, e)
      | e => ([], Some e)
      end
  end.

(** Waiting for the branches: the error of the last failing branch wins, and
    nothing is returned while a branch still runs. *)
Fixpoint collect (rs : list (option run_result)) : option (list invocation * outcome gerr (list string)) :=
  match rs with
  | [] => Some ([], Ok [])
  | r :: rs =>
      match r, collect rs with
      | Some (t, o), Some (ts, os) =>
          Some (t ++ ts,
            match o, os with
            | Panic, _ | _, Panic => Panic
            | _, Err e => Err e
            | Err e, Ok _ => Err e
            | Ok a, Ok l => Ok (a :: l)
            end)
      | _, _ => None
      end
  end.

(** The invocations of branches nobody waits for. *)
Definition background (rs : list (option run_result)) : list invocation :=
  concat ((fun r : option run_result => match r with Some (t, _) => t | None => [] end) <$> rs).

Definition panicked (r : option run_result) : bool :=
  match r with Some (_, Panic) => true | _ => false end.

(** [handleParallel]: one run of the nested machine per item; when an item cannot
    be encoded the branches started before go on without anyone waiting; and a panic in a branch ends the process. *)
Definition handleParallel (branch : nat -> string -> option run_result) (items : list json) (name : string)
    : option (list invocation * outcome gerr (list string)) :=
  let (payloads, failed) := parallel_payloads name items in
  let rs := imap branch payloads in
  match failed with
  | Some Panic => Some (background rs, Panic)
  | Some (Err e) => Some (background rs, Err e)
  | Some (Ok _) | None => if existsb panicked rs then Some (background rs, Panic) else collect rs
  end.

(** [%T] of a decoded value. *)
Definition go_type (x : json) : string :=
  match x with
  | JNull => "<nil>"
  | JBool _ => "bool"
  | JNumber _ => "float64"
  | JString _ => "string"
  | JArray _ => "[]interface {}"
  | JObject _ => "map[string]interface {}"
  end.

Definition handleTask (p : address) (st : State) (input : string) : run_result :=
  let iv := Inv p (st_AppName st) (st_FuncName st) input in ([iv], invoke iv).

(** The result of a state is the input of the next one; an error or a panic ends
    the run. *)
Definition after (result : option run_result) (k : string -> option run_result) : option run_result :=
  match result with
  | Some (t, Ok out) => match k out with Some (t', o) => Some (t ++ t', o) | None => None end
  | x => x
  end.

(** The loop of [handleStateMachine]: step [i] of the machine run at [p]. *)
Fixpoint run_states (fuel : nat) (p : address) (i : nat) (sm : StateMachine) (current input : string)
    : option run_result :=
  match fuel with
  | O => None
  | S fuel =>
      match lookup_state (States sm) current with
      | None => Some ([], Err (EPlain ("Unknown state name: " ++ current)))
      | Some None => Some ([], Panic)
      | Some (Some st) =>
          let result : option run_result :=
            if streq (st_Type st) StateTypeTask then Some (handleTask (i :: p) st input)
            else if streq (st_Type st) StateTypeParallel then
              match Unmarshal input with
              | Err e => Some ([], Err e)
              | Panic => Some ([], Panic)
              | Ok intermediateMap =>
                  match st_ParallelExecution st with
                  | None => Some ([], Err (EPlain "a parallel task requires ParallelExecution field"))
                  | Some pe =>
                      match entries intermediateMap !! pe_Key pe with
                      | None => Some ([], Err (EPlain ("required key " ++ pe_Key pe ++ " not found")))
                      | Some (JArray items) =>
                          match handleParallel
                                  (fun k payload => run_states fuel (k :: i :: p) 0 (pe_sm pe) (StartAt (pe_sm pe)) payload)
                                  items (pe_Name pe) with
                          | None => None
                          | Some (t, os) => Some (t, let! l := os in Marshal_strings l)
                          end
                      | Some x => Some ([], Err (EPlain ("required []interface{} type, get " ++ go_type x)))
                      end
                  end
              end
            else Some ([], Err (EPlain ("Unknown state type: " ++ st_Type st))) in
          if st_End st then result
          else after result (fun out => run_states fuel p (S i) sm (st_Next st) out)
      end
  end.

Definition handleStateMachine (fuel : nat) (sm : StateMachine) (input : string) : option run_result :=
  run_states fuel [] 0 sm (StartAt sm) input.
End Run.

(** ** Which machines end *)

(** The path from [current] ends within [fuel] states, and so do the nested
    machines on it: there is no choice in a machine, so its path is fixed. *)
Fixpoint ends (fuel : nat) (sm : StateMachine) (current : string) : bool :=
  match fuel with
  | O => false
  | S fuel =>
      match lookup_state (States sm) current with
      | Some (Some st) =>
          (if streq (st_Type st) StateTypeParallel then
             match st_ParallelExecution st with
             | Some pe => ends fuel (pe_sm pe) (StartAt (pe_sm pe))
             | None => true
             end
           else true) &&
          (st_End st || ends fuel sm (st_Next st))
      | _ => true
      end
  end.

(** Only tasks. *)
Definition flat (sm : StateMachine) : bool :=
  forallb (fun kv => match kv.2 with Some st => streq (st_Type st) StateTypeTask | None => false end) (States sm).

(** ** Lemmas: ends *)

Section EndsLemmas.
  Context {J : JSON}.

Lemma ends_S fuel sm cur : ends fuel sm cur = true -> ends (S fuel) sm cur = true.
Proof.
  revert sm cur. induction fuel as [|fuel IH]; intros sm cur; [done|].
  change (ends (S fuel) sm cur = true -> ends (S (S fuel)) sm cur = true).
  remember (S fuel) as f eqn:Ef. rewrite Ef at 1. cbn [ends].
  destruct (lookup_state (States sm) cur) as [[st|]|]; [|done..].
  intros H. apply andb_prop in H as [H1 H2]. apply andb_true_intro. split.
  - destruct (streq (st_Type st) StateTypeParallel); [|done].
    destruct (st_ParallelExecution st); [|done]. subst f. by apply IH.
  - apply orb_true_iff in H2 as [->|H2]; [done|]. apply orb_true_iff. right. subst f. by apply IH.
Qed.

Lemma ends_le n m sm cur : (n <= m)%nat -> ends n sm cur = true -> ends m sm cur = true.
Proof. induction 1 as [|m Hm IH]; [done|]. intros H. by apply ends_S, IH. Qed.

Lemma lookup_state_elem l k st : lookup_state l k = Some st -> k ∈ l.*1.
Proof.
  induction l as [|[k' st'] l IH]; cbn [lookup_state]; [done|]. rewrite fmap_cons. cbn [fst].
  destruct (streq k k') eqn:E; [apply bool_decide_eq_true in E as ->; left|]. intros H. right. by apply IH.
Qed.

Lemma flat_Task sm cur st :
  flat sm = true -> lookup_state (States sm) cur = Some st -> exists s, st = Some s /\ st_Type s = StateTypeTask.
Proof.
  unfold flat. rewrite forallb_forall. intros Hf.
  assert (Hf' : forall kv, kv ∈ States sm -> match kv.2 with Some st => streq (st_Type st) StateTypeTask | None => false end = true).
  { intros kv Hkv. apply Hf. by apply list_elem_of_In. }
  clear Hf. induction (States sm) as [|[k' st'] l IH]; cbn [lookup_state]; [done|].
  destruct (streq cur k').
  - intros [= ->]. specialize (Hf' (k', st) ltac:(left)). simpl in Hf'. destruct st as [s|]; [|done].
    exists s. split; [done|]. by apply bool_decide_eq_true in Hf'.
  - apply IH. intros kv Hkv. apply Hf'. by right.
Qed.

(** In a flat machine the path is that of one partial function on names. *)
Definition next_state (sm : StateMachine) (cur : string) : option string :=
  match lookup_state (States sm) cur with
  | Some (Some st) => if st_End st then None else Some (st_Next st)
  | _ => None
  end.

Lemma ends_flat fuel sm cur :
  flat sm = true ->
  ends (S fuel) sm cur = match next_state sm cur with None => true | Some c => ends fuel sm c end.
Proof.
  intros Hf. cbn [ends]. unfold next_state. destruct (lookup_state (States sm) cur) as [st|] eqn:E; [|done].
  destruct (flat_Task _ _ _ Hf E) as (s & -> & Ht). rewrite Ht.
  change (streq StateTypeTask StateTypeParallel) with false. cbn [andb]. by destruct (st_End s).
Qed.

(** A path that needs exactly [m + 1] rounds passes [m] different states. *)
Lemma ends_exact m sm cur :
  flat sm = true -> ends (S m) sm cur = true -> ends m sm cur = false ->
  exists l, length l = m /\ NoDup l /\ forall x, x ∈ l -> x ∈ (States sm).*1 /\ ends (S m) sm x = true.
Proof.
  intros Hf. revert cur. induction m as [|m IH]; intros cur H1 H0.
  { exists []. split; [done|]. split; [constructor|]. intros x Hx. by apply not_elem_of_nil in Hx. }
  pose proof H1 as H1'. rewrite ends_flat in H1', H0 by done.
  destruct (next_state sm cur) as [c|] eqn:E; [|done].
  destruct (IH c H1' H0) as (l & Hl & Hn & Hx). exists (cur :: l). split; [simpl; by f_equal|].
  assert (Hcur : ends (S m) sm cur = false) by (rewrite ends_flat, E by done; exact H0).
  split.
  - constructor; [|done]. intros Hin. destruct (Hx cur Hin) as [_ Hc]. congruence.
  - intros x [->|Hin]%elem_of_cons.
    + split; [|done]. unfold next_state in E. destruct (lookup_state (States sm) cur) eqn:L; [|done].
      by eapply lookup_state_elem.
    + destruct (Hx x Hin). split; [done|]. by apply ends_S.
Qed.

(** If the path of a flat machine ends at all, one round per state and one more
    for a missing name are enough. *)
Lemma ends_bound n sm cur :
  flat sm = true -> ends n sm cur = true -> ends (S (length (States sm))) sm cur = true.
Proof.
  intros Hf. induction n as [|n IH]; [done|]. intros H.
  destruct (ends n sm cur) eqn:E; [by apply IH|].
  destruct (ends_exact n sm cur Hf H E) as (l & Hl & Hn & Hx).
  apply (ends_le (S n)); [|done]. apply le_n_S. rewrite <- Hl.
  rewrite <- (length_fmap fst (States sm)). apply submseteq_length, NoDup_submseteq; [done|].
  intros x Hin. by apply Hx.
Qed.

(** ** Lemmas: runs *)

Context (invoke : invocation -> outcome gerr string).

Lemma collect_total rs : Forall is_Some rs -> exists r, collect rs = Some r.
Proof.
  induction 1 as [|r rs [[t o] ->] Hrs [[ts os] IH]]; cbn [collect]; [by eexists|]. rewrite IH. by eexists.
Qed.

Lemma handleParallel_total branch items name :
  (forall k x, exists r, branch k x = Some r) -> exists r, handleParallel branch items name = Some r.
Proof.
  intros Hb. unfold handleParallel. destruct (parallel_payloads name items) as [ps failed].
  assert (Hc : exists r, collect (imap branch ps) = Some r).
  { apply collect_total, Forall_lookup. intros k r Hk. rewrite list_lookup_imap in Hk.
    destruct (ps !! k) as [x|]; [|done]. simpl in Hk. injection Hk as <-. by destruct (Hb k x) as [r ->]. }
  destruct Hc as [r Hr]. destruct failed as [[|e|]|]; try (by eexists);
    destruct (existsb panicked _); by eexists.
Qed.

Lemma run_states_total fuel p i sm cur input :
  ends fuel sm cur = true -> exists r, run_states invoke fuel p i sm cur input = Some r.
Proof.
  revert p i sm cur input. induction fuel as [|fuel IH]; intros p i sm cur input; [done|]. cbn [ends run_states].
  destruct (lookup_state (States sm) cur) as [[st|]|]; [|by eexists..].
  intros H. apply andb_prop in H as [H1 H2].
  assert (Hres : forall r : option run_result, (exists x, r = Some x) -> exists y : run_result,
    (if st_End st then r else after r (fun out => run_states invoke fuel p (S i) sm (st_Next st) out)) = Some y).
  { intros r [[t o] ->]. destruct (st_End st); [by eexists|]. simpl in H2. destruct o as [out|e|]; [|by eexists..].
    cbn [after]. destruct (IH p (S i) sm (st_Next st) out H2) as [[t' o] ->]. by eexists. }
  destruct (streq (st_Type st) StateTypeTask); [apply Hres; by eexists|]. revert H1.
  destruct (streq (st_Type st) StateTypeParallel); intros H1; [|apply Hres; by eexists].
  destruct (Unmarshal input) as [im|e|]; [|apply Hres; by eexists..]. revert H1.
  destruct (st_ParallelExecution st) as [pe|]; intros H1; [|apply Hres; by eexists].
  destruct (entries im !! pe_Key pe) as [[]|]; try (apply Hres; by eexists).
  apply Hres. destruct (handleParallel_total
    (fun k payload => run_states invoke fuel (k :: i :: p) 0 (pe_sm pe) (StartAt (pe_sm pe)) payload) l (pe_Name pe)) as [[t os] ->];
    [|by eexists]. intros k x. by apply IH.
Qed.

Lemma run_states_never fuel p i sm cur input :
  flat sm = true -> (forall iv, is_ok (invoke iv) = true) ->
  ends fuel sm cur = false -> run_states invoke fuel p i sm cur input = None.
Proof.
  intros Hf Hok. revert i cur input. induction fuel as [|fuel IH]; intros i cur input; [done|].
  rewrite ends_flat by done. unfold next_state. cbn [run_states].
  destruct (lookup_state (States sm) cur) as [st|] eqn:E; [|done].
  destruct (flat_Task _ _ _ Hf E) as (s & -> & ->).
  change (streq StateTypeTask StateTypeTask) with true. unfold handleTask.
  set (iv := Inv _ _ _ _). specialize (Hok iv). destruct (invoke iv) as [out|e|]; [|done..].
  destruct (st_End s); [done|]. intros H. cbn [after]. by rewrite (IH (S i) (st_Next s) out H).
Qed.
End EndsLemmas.

(** ** Lemmas: addresses *)

Definition addresses (t : list invocation) : list address := iv_address <$> t.

(** The step of the run at [p] (or the branch) an address belongs to. *)
Definition idx (p a : address) : option nat := rev a !! length p.

Lemma idx_app q j p : idx p (q ++ j :: p) = Some j.
Proof.
  unfold idx. rewrite rev_app_distr. simpl. rewrite <- app_assoc.
  rewrite lookup_app_r by (by rewrite length_rev). by rewrite length_rev, Nat.sub_diag.
Qed.

Definition under (p : address) (lo : nat) (a : address) : Prop := exists q j, a = q ++ j :: p /\ (lo <= j)%nat.

Lemma under_step p i a : (exists q, a = q ++ i :: p) -> under p i a.
Proof. intros [q ->]. by exists q, i. Qed.

Section RunLemmas.
  Context {J : JSON} (invoke : invocation -> outcome gerr string).

Lemma collect_background rs t o : collect rs = Some (t, o) -> t = background rs.
Proof.
  revert t o. induction rs as [|r rs IH]; intros t o; cbn [collect]; [by intros [= <- _]|].
  destruct r as [[t1 o1]|]; [|done]. destruct (collect rs) as [[ts os]|]; [|done].
  intros [= <- _]. unfold background. rewrite fmap_cons. simpl. f_equal. by eapply IH.
Qed.

Lemma handleParallel_trace branch items name t o :
  handleParallel branch items name = Some (t, o) ->
  t = background (imap branch (parallel_payloads name items).1).
Proof.
  unfold handleParallel. destruct (parallel_payloads name items) as [ps failed]. cbn [fst].
  destruct failed as [[|e|]|]; try (by intros [= <- _]);
    (destruct (existsb panicked _); [by intros [= <- _]|apply collect_background]).
Qed.

Definition trace_of (r : option run_result) : list invocation := match r with Some (t, _) => t | None => [] end.

(** Branches whose addresses carry their number do not share an address. *)
Lemma background_NoDup (f : address -> option nat) rs off :
  (forall k r, rs !! k = Some r -> NoDup (addresses (trace_of r)) /\
     forall a, a ∈ addresses (trace_of r) -> f a = Some (off + k)%nat) ->
  NoDup (addresses (background rs)) /\ forall a, a ∈ addresses (background rs) -> exists k, f a = Some k /\ (off <= k)%nat.
Proof.
  revert off. induction rs as [|r rs IH]; intros off H.
  { split; [constructor|]. intros a Ha. by apply not_elem_of_nil in Ha. }
  destruct (H 0%nat r eq_refl) as [Hn Hf].
  destruct (IH (S off)) as [Hn' Hf'].
  { intros k r' Hk. destruct (H (S k) r' Hk) as [? Ha]. split; [done|]. intros a Hin. rewrite (Ha a Hin). f_equal. lia. }
  change (background (r :: rs)) with (trace_of r ++ background rs). unfold addresses. rewrite fmap_app.
  split.
  - apply NoDup_app. split; [done|]. split; [|done]. intros a Ha Hb.
    destruct (Hf' a Hb) as (k & Hk & Hle). rewrite (Hf a Ha) in Hk. injection Hk as Hk. lia.
  - intros a [Ha|Ha]%elem_of_app.
    + exists (off + 0)%nat. split; [by apply Hf|lia].
    + destruct (Hf' a Ha) as (k & Hk & Hle). exists k. split; [done|lia].
Qed.

Lemma background_elem rs iv : iv ∈ background rs -> exists k r, rs !! k = Some r /\ iv ∈ trace_of r.
Proof.
  induction rs as [|r rs IH]; [intros H; by apply not_elem_of_nil in H|].
  change (background (r :: rs)) with (trace_of r ++ background rs). intros [H|H]%elem_of_app.
  - by exists 0%nat, r.
  - destruct (IH H) as (k & r' & Hk & Hin). by exists (S k), r'.
Qed.

(** A property of the branches and of the tasks is one of the trace of a state. *)
Lemma handleParallel_NoDup branch items name p i t o :
  (forall k x, NoDup (addresses (trace_of (branch k x))) /\
     forall a, a ∈ addresses (trace_of (branch k x)) -> under (k :: i :: p) 0 a) ->
  handleParallel branch items name = Some (t, o) ->
  NoDup (addresses t) /\ forall a, a ∈ addresses t -> exists q, a = q ++ i :: p.
Proof.
  intros Hb Ht. apply handleParallel_trace in Ht as ->. set (ps := (parallel_payloads name items).1).
  assert (Hrs : forall k r, imap branch ps !! k = Some r -> NoDup (addresses (trace_of r)) /\
     forall a, a ∈ addresses (trace_of r) -> under (k :: i :: p) 0 a).
  { intros k r Hk. rewrite list_lookup_imap in Hk. destruct (ps !! k) as [x|]; [|done]. simpl in Hk.
    injection Hk as <-. apply Hb. }
  split.
  - apply (background_NoDup (idx (i :: p)) _ 0). intros k r Hk. destruct (Hrs k r Hk) as [Hn Hu]. split; [done|].
    intros a Ha. destruct (Hu a Ha) as (q & j & -> & _). change (q ++ j :: k :: i :: p) with (q ++ [j] ++ k :: i :: p).
    rewrite app_assoc. apply idx_app.
  - intros a Ha. unfold addresses in Ha. apply list_elem_of_fmap in Ha as (iv & -> & Hiv).
    apply background_elem in Hiv as (k & r & Hk & Hin). destruct (Hrs k r Hk) as [_ Hu].
    destruct (Hu (iv_address iv)) as (q & j & -> & _); [by apply list_elem_of_fmap_2|].
    exists (q ++ [j; k]). by rewrite <- app_assoc.
Qed.

Lemma after_NoDup p i result k t o :
  (forall t o, result = Some (t, o) -> NoDup (addresses t) /\ forall a, a ∈ addresses t -> exists q, a = q ++ i :: p) ->
  (forall out t o, k out = Some (t, o) -> NoDup (addresses t) /\ forall a, a ∈ addresses t -> under p (S i) a) ->
  after result k = Some (t, o) -> NoDup (addresses t) /\ forall a, a ∈ addresses t -> under p i a.
Proof.
  intros Hr Hk. unfold after. destruct result as [[t1 o1]|]; [|done]. destruct (Hr t1 o1 eq_refl) as [Hn1 Ha1].
  assert (Hu1 : forall a, a ∈ addresses t1 -> under p i a) by (intros a Ha; apply under_step; by apply Ha1).
  destruct o1 as [out|e|]; [|by intros [= <- _]..].
  destruct (k out) as [[t2 o2]|] eqn:K; [|done]. intros [= <- <-]. destruct (Hk out t2 o2 K) as [Hn2 Ha2].
  unfold addresses. rewrite fmap_app. split.
  - apply NoDup_app. split; [done|]. split; [|done]. intros a H1 H2.
    destruct (Ha1 a H1) as [q1 ->]. destruct (Ha2 _ H2) as (q2 & j & E & Hj).
    apply (f_equal (idx p)) in E. rewrite !idx_app in E. injection E as E. lia.
  - intros a [Ha|Ha]%elem_of_app; [by apply Hu1|]. destruct (Ha2 a Ha) as (q & j & -> & Hj).
    exists q, j. split; [done|lia].
Qed.

Lemma run_states_NoDup fuel p i sm cur input :
  NoDup (addresses (trace_of (run_states invoke fuel p i sm cur input))) /\
  forall a, a ∈ addresses (trace_of (run_states invoke fuel p i sm cur input)) -> under p i a.
Proof.
  assert (Hnil : NoDup (addresses []) /\ forall a, a ∈ addresses [] -> under p i a).
  { split; [constructor|]. intros a Ha. by apply not_elem_of_nil in Ha. }
  revert p i sm cur input Hnil. induction fuel as [|fuel IH]; intros p i sm cur input Hnil; [exact Hnil|]. cbn [run_states].
  destruct (lookup_state (States sm) cur) as [[st|]|]; [|exact Hnil..].
  set (result := if streq (st_Type st) StateTypeTask then _ else _).
  assert (Hr : forall t o, result = Some (t, o) -> NoDup (addresses t) /\ forall a, a ∈ addresses t -> exists q, a = q ++ i :: p).
  { assert (H0 : NoDup (addresses []) /\ forall a, a ∈ addresses [] -> exists q, a = q ++ i :: p).
    { split; [constructor|]. intros a Ha. by apply not_elem_of_nil in Ha. }
    intros t o. unfold result. clear result.
    destruct (streq (st_Type st) StateTypeTask).
    { intros [= <- _]. split; [apply NoDup_singleton|]. intros a Ha. apply list_elem_of_singleton in Ha as ->. by exists []. }
    destruct (streq (st_Type st) StateTypeParallel); [|by intros [= <- _]].
    destruct (Unmarshal input) as [im|e|]; [|by intros [= <- _]..].
    destruct (st_ParallelExecution st) as [pe|]; [|by intros [= <- _]].
    destruct (entries im !! pe_Key pe) as [[]|]; try (by intros [= <- _]).
    destruct (handleParallel _ _ _) as [[t1 os]|] eqn:HP; [|done]. intros [= <- _].
    eapply handleParallel_NoDup; [|exact HP]. intros k x. apply IH.
    split; [constructor|]. intros a Ha. by apply not_elem_of_nil in Ha. }
  destruct (st_End st).
  - destruct result as [[t o]|]; [|exact Hnil]. destruct (Hr t o eq_refl) as [Hn Ha]. split; [exact Hn|].
    intros a Hin. apply under_step. by apply Ha.
  - destruct (after result _) as [[t o]|] eqn:A; [|exact Hnil]. cbn [trace_of].
    eapply after_NoDup; [exact Hr| |exact A]. intros out t' o' Hk.
    specialize (IH p (S i) sm (st_Next st) out). rewrite Hk in IH. apply IH.
    split; [constructor|]. intros a Ha. by apply not_elem_of_nil in Ha.
Qed.

(** ** Lemmas: success *)

Definition all_ok (t : list invocation) : Prop := Forall (fun iv => is_ok (invoke iv) = true) t.

Lemma collect_Ok rs t l :
  collect rs = Some (t, Ok l) ->
  length l = length rs /\ forall k y, l !! k = Some y -> exists t', rs !! k = Some (Some (t', Ok y)).
Proof.
  revert t l. induction rs as [|r rs IH]; intros t l; cbn [collect]; [by intros [= <- <-]|].
  destruct r as [[t1 o1]|]; [|done]. destruct (collect rs) as [[ts os]|]; [|done].
  destruct o1 as [a|e|], os as [l'|e'|]; try done. intros [= <- <-].
  destruct (IH ts l' eq_refl) as [Hl Hk]. split; [simpl; by f_equal|].
  intros [|k] y Hy; [injection Hy as <-; by exists t1|]. by apply Hk.
Qed.

Lemma parallel_payloads_None name items ps failed :
  parallel_payloads name items = (ps, failed) -> (forall e, failed <> Some (Ok e)) /\
  (failed = None -> length ps = length items /\
     forall k x, items !! k = Some x -> exists p, Marshal_map {[name := x]} = Ok p /\ ps !! k = Some p).
Proof.
  revert ps failed. induction items as [|x items IH]; intros ps failed; cbn [parallel_payloads].
  { intros [= <- <-]. by split. }
  destruct (Marshal_map {[name := x]}) as [p|e|] eqn:M; [|by intros [= <- <-]..].
  destruct (parallel_payloads name items) as [ps' f'] eqn:E. intros [= <- <-].
  destruct (IH ps' f' eq_refl) as [H1 H2]. split; [done|]. intros Hf. destruct (H2 Hf) as [Hl Hk].
  split; [simpl; by f_equal|]. intros [|k] y Hy; [injection Hy as <-; by exists p|]. by apply Hk.
Qed.

(** A parallel state that succeeds: every item's branch succeeded and the results
    are in the order of the items. *)
Lemma handleParallel_Ok branch items name t l :
  handleParallel branch items name = Some (t, Ok l) ->
  length l = length items /\
  forall k x, items !! k = Some x -> exists payload t' y, Marshal_map {[name := x]} = Ok payload /\
    branch k payload = Some (t', Ok y) /\ l !! k = Some y.
Proof.
  unfold handleParallel. destruct (parallel_payloads name items) as [ps failed] eqn:P.
  destruct (parallel_payloads_None _ _ _ _ P) as [Hf HN]. destruct failed as [[a|e|]|]; [by destruct (Hf a)|done..|].
  destruct (HN eq_refl) as [Hlen Hps]. destruct (existsb panicked _); [done|]. intros Hc.
  destruct (collect_Ok _ _ _ Hc) as [Hl Hk]. rewrite length_imap in Hl. split; [lia|].
  intros k x Hx. destruct (Hps k x Hx) as (payload & Hm & Hpk).
  destruct (lookup_lt_is_Some_2 l k) as [y Hy]; [apply lookup_lt_Some in Hx; lia|].
  destruct (Hk k y Hy) as [t' Ht]. rewrite list_lookup_imap, Hpk in Ht. simpl in Ht. injection Ht as Ht.
  by exists payload, t', y.
Qed.

Lemma handleParallel_all_ok branch items name t l :
  (forall k x t' y, branch k x = Some (t', Ok y) -> all_ok t') ->
  handleParallel branch items name = Some (t, Ok l) -> all_ok t.
Proof.
  intros Hb Ht. unfold handleParallel in Ht.
  destruct (parallel_payloads name items) as [ps failed]. destruct failed as [[a|e|]|]; try done.
  all: destruct (existsb panicked _); [done|].
  all: pose proof (collect_Ok _ _ _ Ht) as [Hl Hk]; rewrite (collect_background _ _ _ Ht); apply Forall_forall;
    intros iv Hiv; apply background_elem in Hiv as (k & r & Hr & Hin).
  all: destruct (lookup_lt_is_Some_2 l k) as [y Hy]; [apply lookup_lt_Some in Hr; lia|].
  all: destruct (Hk k y Hy) as [t' Ht']; pose proof (eq_trans (eq_sym Hr) Ht') as Er; injection Er as ->; cbn [trace_of] in Hin.
  all: rewrite list_lookup_imap in Ht'; destruct (ps !! k) as [x|]; [|done]; simpl in Ht'; injection Ht' as Ht'.
  all: by apply (proj1 (Forall_forall _ _) (Hb k x t' y Ht') iv).
Qed.

Lemma run_states_all_ok fuel p i sm cur input t out :
  run_states invoke fuel p i sm cur input = Some (t, Ok out) -> all_ok t.
Proof.
  revert p i sm cur input t out. induction fuel as [|fuel IH]; intros p i sm cur input t out; [done|]. cbn [run_states].
  destruct (lookup_state (States sm) cur) as [[st|]|]; [|done..].
  set (result := if streq (st_Type st) StateTypeTask then _ else _).
  assert (Hr : forall t out, result = Some (t, Ok out) -> all_ok t).
  { intros t' out'. unfold result. clear result.
    destruct (streq (st_Type st) StateTypeTask).
    { intros [= <- E]. apply Forall_singleton. by rewrite E. }
    destruct (streq (st_Type st) StateTypeParallel); [|done].
    destruct (Unmarshal input) as [im|e|]; [|done..]. destruct (st_ParallelExecution st) as [pe|]; [|done].
    destruct (entries im !! pe_Key pe) as [[]|]; try done.
    destruct (handleParallel _ _ _) as [[t1 [l1|e|]]|] eqn:HP; [|done..]. intros [= <- _].
    eapply handleParallel_all_ok; [|exact HP]. intros k x t2 y. apply IH. }
  destruct (st_End st); [apply Hr|]. unfold after. destruct result as [[t1 [out1|e|]]|]; [|done..].
  destruct (run_states invoke fuel p (S i) sm (st_Next st) out1) as [[t2 o2]|] eqn:R; [|done].
  intros [= <- ->]. apply Forall_app. split; [by eapply Hr|by eapply IH].
Qed.

(** The tasks of a flat run hand their results on. *)
Fixpoint chained (input : string) (t : list invocation) (out : string) : Prop :=
  match t with
  | [] => input = out
  | iv :: t => iv_payload iv = input /\ exists mid, invoke iv = Ok mid /\ chained mid t out
  end.

Lemma run_states_chained fuel p i sm cur input t out :
  flat sm = true -> run_states invoke fuel p i sm cur input = Some (t, Ok out) -> chained input t out.
Proof.
  intros Hf. revert i cur input t. induction fuel as [|fuel IH]; intros i cur input t; [done|]. cbn [run_states].
  destruct (lookup_state (States sm) cur) as [st|] eqn:E; [|done].
  destruct (flat_Task _ _ _ Hf E) as (s & -> & ->). change (streq StateTypeTask StateTypeTask) with true.
  unfold handleTask. set (iv := Inv _ _ _ _). destruct (st_End s).
  - intros [= <- Ho]. split; [done|]. by exists out.
  - unfold after. destruct (invoke iv) as [mid|e|] eqn:I; [|done..].
    destruct (run_states invoke fuel p (S i) sm (st_Next s) mid) as [[t2 o2]|] eqn:R; [|done].
    intros [= <- ->]. split; [done|]. exists mid. split; [done|]. by eapply IH.
Qed.
End RunLemmas.

(** ** Theorems *)

(** C29: which workflows end: the path of a machine is fixed, and when it reaches an
    end state (or a missing one), and so do the nested machines on it, the run
    ends whatever the functions answer; and a machine of tasks only that does not
    get to the end within one round per state never answers, for any number of
    rounds, as long as its functions succeed. *)
Theorem workflow_ends {J : JSON} sm :
  (forall fuel, ends fuel sm (StartAt sm) = true ->
     forall invoke input, exists r, handleStateMachine invoke fuel sm input = Some r) /\
  (flat sm = true -> ends (S (length (States sm))) sm (StartAt sm) = false ->
     forall invoke input, (forall iv, is_ok (invoke iv) = true) ->
       forall fuel, handleStateMachine invoke fuel sm input = None).
Proof.
  split.
  - intros fuel He invoke input. by apply run_states_total.
  - intros Hf He invoke input Hok fuel. apply run_states_never; [done|done|].
    destruct (ends fuel sm (StartAt sm)) eqn:E; [|done]. apply (ends_bound fuel) in E; [|done]. congruence.
Qed.

(** A machine without JSON to run the definitions with, and two small machines. *)
Definition no_json : JSON :=
  {| Unmarshal := fun _ => Err (EPlain "json"); Marshal_map := fun _ => Err (EPlain "json");
     Marshal_strings := fun _ => Err (EPlain "json") |}.
Definition two_tasks : StateMachine :=
  MkSM "" "a" [("a", Some (MkState "Task" "app" "/f" "b" "" false None));
               ("b", Some (MkState "Task" "app" "/g" "" "" true None))]%string.
Definition looping : StateMachine :=
  MkSM "" "a" [("a", Some (MkState "Task" "app" "/f" "a" "" false None))]%string.

Lemma workflow_ends_witness :
  (exists r, handleStateMachine (J := no_json) (fun iv => Ok (iv_func iv)) 2 two_tasks "x" = Some r) /\
  forall fuel, handleStateMachine (J := no_json) (fun iv => Ok (iv_func iv)) fuel looping "x" = None.
Proof.
  split.
  - apply (proj1 (workflow_ends (J := no_json) two_tasks) 2%nat). reflexivity.
  - apply (proj2 (workflow_ends (J := no_json) looping)); reflexivity.
Defined.

(** C28: what a workflow does: no invocation is made twice (their addresses are
    different); a workflow succeeds only if every invocation it made did; in a
    machine of tasks each function gets the answer of the one before, the first
    the input, and the last answer is the result; and a final parallel state
    returns the results of its branches in the order of the items, each branch
    having run the nested machine on its own item. *)
Theorem workflow_runs {J : JSON} invoke fuel sm input t o :
  handleStateMachine invoke (S fuel) sm input = Some (t, o) ->
  NoDup (addresses t) /\
  forall out, o = Ok out ->
    Forall (fun iv => is_ok (invoke iv) = true) t /\
    (flat sm = true -> chained invoke input t out) /\
    (forall st pe, lookup_state (States sm) (StartAt sm) = Some (Some st) -> st_Type st = StateTypeParallel ->
       st_End st = true -> st_ParallelExecution st = Some pe ->
       exists m items l, Unmarshal input = Ok m /\ entries m !! pe_Key pe = Some (JArray items) /\
         Marshal_strings l = Ok out /\ length l = length items /\
         forall k x, items !! k = Some x -> exists payload t' y,
           Marshal_map {[pe_Name pe := x]} = Ok payload /\ l !! k = Some y /\
           run_states invoke fuel [k; 0%nat] 0 (pe_sm pe) (StartAt (pe_sm pe)) payload = Some (t', Ok y)).
Proof.
  intros H. split.
  { pose proof (proj1 (run_states_NoDup invoke (S fuel) [] 0 sm (StartAt sm) input)) as Hn.
    unfold handleStateMachine in H. by rewrite H in Hn. }
  intros out ->. split; [by eapply run_states_all_ok|]. split; [intros Hf; by eapply run_states_chained|].
  intros st pe Hst Hty Hend Hpe. unfold handleStateMachine in H. cbn [run_states] in H.
  rewrite Hst, Hty, Hend, Hpe in H. change (streq StateTypeParallel StateTypeTask) with false in H.
  change (streq StateTypeParallel StateTypeParallel) with true in H.
  destruct (Unmarshal input) as [m|e|]; [|done..].
  destruct (entries m !! pe_Key pe) as [[]|] eqn:K; try done.
  destruct (handleParallel _ _ _) as [[t1 [l1|e|]]|] eqn:HP; [|done..].
  cbn [obind] in H. injection H as <- Hm. apply handleParallel_Ok in HP as [Hl Hk].
  exists m, l, l1. split_and!; try done. intros k x Hx. destruct (Hk k x Hx) as (payload & t' & y & H1 & H2 & H3).
  by exists payload, t', y.
Qed.

Lemma workflow_runs_witness :
  let invoke := fun iv => Ok (iv_payload iv ++ iv_func iv)%string in
  handleStateMachine (J := no_json) invoke 2 two_tasks "x" =
    Some ([Inv [0%nat] "app" "/f" "x"; Inv [1%nat] "app" "/g" "x/f"], Ok "x/f/g"%string) /\
  NoDup (addresses [Inv [0%nat] "app" "/f" "x"; Inv [1%nat] "app" "/g" "x/f"]).
Proof.
  intros invoke. split; [reflexivity|].
  exact (proj1 (workflow_runs (J := no_json) invoke 1 two_tasks "x" _ (Ok "x/f/g"%string) eq_refl)).
Defined.

(** A null state in the machine panics when it is reached. *)
Lemma null_state_panics {J : JSON} invoke input :
  handleStateMachine invoke 1 (MkSM "" "a" [("a", None)]%string) input = Some ([], Panic).
Proof. reflexivity. Qed.
