(* ===== verification/Datastore.v ===== *)
(** * The datastore (src/api/models/datastore.go, src/api/datastore, src/fnext/datastore.go)

    The store of applications, functions and triggers: the interface as a class
    ([Datastore]), the in-memory store ([mock]), the wrapper that checks
    arguments ([validator]) and the one that tells listeners ([extds]).  The
    clock and the generator of ids are arguments of the operations that read
    them; a pointer to an argument is an option.  The theorems: the in-memory
    store implements maps from ids to resources, operation by operation; names
    stay unique and references valid; and a client that follows the cursors of
    a list gets every matching resource exactly once, in order. *)
From S2P Require Import Prelude Errors Annotations Models GoStrings Base64.

(** ** The interface *)

Record AppFilter := MkAppFilter { af_Name : string; af_PerPage : Z; af_Cursor : string }.
Record FnFilter := MkFnFilter { ff_AppID : string; ff_Name : string; ff_Cursor : string; ff_PerPage : Z }.
Record TriggerFilter := MkTriggerFilter {
  tf_AppID : string; tf_FnID : string; tf_Name : string; tf_Cursor : string; tf_PerPage : Z
}.

(** [AppList], [FnList], [TriggerList] *)
Record page (A : Type) := Page { NextCursor : string; Items : list A }.
Arguments Page {A}.
Arguments NextCursor {A}.
Arguments Items {A}.

(** An operation on a store: the store afterwards and what it returned. *)
Abbreviation dres D A := (D * outcome gerr A)%type.

Class Datastore (D : Type) := {
  ds_GetAppByID : D -> string -> dres D App;
  ds_GetAppID : D -> string -> dres D string;
  ds_GetApps : D -> AppFilter -> dres D (page App);
  ds_InsertApp : D -> Z -> string -> option App -> dres D App;
  ds_UpdateApp : D -> Z -> option App -> dres D App;
  ds_RemoveApp : D -> string -> dres D unit;
  ds_InsertFn : D -> Z -> string -> option Fn -> dres D Fn;
  ds_UpdateFn : D -> Z -> option Fn -> dres D Fn;
  ds_GetFns : D -> FnFilter -> dres D (page Fn);
  ds_GetFnByID : D -> string -> dres D Fn;
  ds_RemoveFn : D -> string -> dres D unit;
  ds_InsertTrigger : D -> Z -> string -> option Trigger -> dres D Trigger;
  ds_UpdateTrigger : D -> Z -> option Trigger -> dres D Trigger;
  ds_RemoveTrigger : D -> string -> dres D unit;
  ds_GetTriggerByID : D -> string -> dres D Trigger;
  ds_GetTriggers : D -> TriggerFilter -> dres D (page Trigger);
  ds_GetTriggerBySource : D -> string -> string -> string -> dres D Trigger
}.

(** [sort.Sort] by name: it need not be stable. *)
Class GoSort := {
  sort_Sort : forall {A : Type} (name : A -> string), list A -> list A;
  sort_perm : forall {A} (name : A -> string) (l : list A), sort_Sort name l ≡ₚ l;
  sort_sorted : forall {A} (name : A -> string) (l : list A),
    StronglySorted (fun x y => str_le (name x) (name y)) (sort_Sort name l)
}.

Fixpoint insert_by {A} (name : A -> string) (x : A) (l : list A) : list A :=
  match l with
  | [] => [x]
  | y :: l' => if strlt (name y) (name x) then y :: insert_by name x l' else x :: l
  end.

Lemma insert_by_perm {A} (name : A -> string) x l : insert_by name x l ≡ₚ x :: l.
Proof. induction l as [|y l IH]; [done|]. simpl. destruct (strlt _ _); [|done]. rewrite IH. apply Permutation_swap. Qed.

Lemma insert_by_sorted {A} (name : A -> string) x l :
  StronglySorted (fun x y => str_le (name x) (name y)) l ->
  StronglySorted (fun x y => str_le (name x) (name y)) (insert_by name x l).
Proof.
  induction 1 as [|y l Hs IH Hf]; simpl; [by repeat constructor|].
  destruct (strlt (name y) (name x)) eqn:E.
  - constructor; [done|]. rewrite insert_by_perm. constructor; [|done]. by apply strlt_str_le.
  - assert (Hxy : str_le (name x) (name y)).
    { unfold strlt, strcmp in E. unfold str_le, strcmp. rewrite lexcmp_opp.
      by destruct (lexcmp (bytes_of_string (name y)) (bytes_of_string (name x))). }
    constructor; [by constructor|]. constructor; [done|].
    eapply Forall_impl; [exact Hf|]. intros z Hz. simpl in *. by etransitivity.
Qed.

#[refine] Definition insertion_sort : GoSort := {| sort_Sort := fun A name l => foldr (insert_by name) [] l |}.
Proof.
  - intros A name l. induction l as [|x l IH]; [done|]. simpl. by rewrite insert_by_perm, IH.
  - intros A name l. induction l as [|x l IH]; [constructor|]. by apply insert_by_sorted.
Defined.

(** ** Lists by page *)

(** The base64 cursor of a filter; the empty one starts at the beginning. *)
Definition page_cursor (c : string) : outcome gerr string := if streq c "" then Ok ""%string else DecodeString c.

(** The loops of [GetApps], [GetFns] and [GetTriggers]. *)
Fixpoint page_loop {A} (full : Z -> bool) (keep : A -> bool) (acc l : list A) : list A :=
  match l with
  | [] => acc
  | x :: l =>
      if full (Z.of_nat (length acc)) then acc
      else if keep x then page_loop full keep (acc ++ [x]) l else page_loop full keep acc l
  end.

Definition nextCursor {A} (name : A -> string) (perPage : Z) (items : list A) : string :=
  match last items with
  | Some x => if Z.of_nat (length items) =? perPage then EncodeToString (name x) else ""
  | None => ""
  end.

Definition page_of {A} (name : A -> string) (perPage : Z) (items : list A) : page A :=
  Page (nextCursor name perPage items) items.

Definition matches (want have : string) : bool := streq want "" || streq want have.

(** ** The in-memory store *)

Record mock := Mock { m_Apps : list App; m_Fns : list Fn; m_Triggers : list Trigger }.

(** [NewMock] *)
Definition NewMock : mock := Mock [] [] [].

Definition id_is {A} (f : A -> string) (i : string) (x : A) : bool := streq (f x) i.

Section Mock.
Context {MR : MapRange} {U : UnicodeTables} {GS : GoSort}.
Context (url_scheme : string -> outcome string string) (lim : Limits).

Definition lookup_by {A} (f : A -> string) (i : string) (l : list A) (e : errvar) : outcome gerr A :=
  match find_first (id_is f i) l with Some x => Ok x | None => Err (EVar e) end.

Definition mock_GetTriggerBySource (m : mock) (appID typ source : string) : dres mock Trigger :=
  (m, match find_first (fun t => streq (tr_AppID t) appID && streq (tr_Type t) typ && streq (tr_Source t) source) (m_Triggers m) with
      | Some t => Ok t
      | None => Err (EVar ErrTriggerNotFound)
      end).

Definition mock_GetAppID (m : mock) (appName : string) : dres mock string :=
  (m, let! a := lookup_by app_Name appName (m_Apps m) ErrAppsNotFound in Ok (app_ID a)).

Definition mock_GetAppByID (m : mock) (appID : string) : dres mock App :=
  (m, let! a := lookup_by app_ID appID (m_Apps m) ErrAppsNotFound in Ok (App_Clone a)).

Definition mock_GetApps (m : mock) (f : AppFilter) : dres mock (page App) :=
  let m := Mock (sort_Sort app_Name (m_Apps m)) (m_Fns m) (m_Triggers m) in
  (m, let! cursor := page_cursor (af_Cursor f) in
      let apps := page_loop (fun n => n =? af_PerPage f)
                    (fun a => strlt cursor (app_Name a) && matches (af_Name f) (app_Name a)) [] (m_Apps m) in
      Ok (page_of app_Name (af_PerPage f) (App_Clone <$> apps))).

Definition mock_InsertApp (m : mock) (now : Z) (new_id : string) (newApp : option App) : dres mock App :=
  match newApp with
  | None => (m, Panic)
  | Some newApp =>
      if existsb (id_is app_Name (app_Name newApp)) (m_Apps m) then (m, Err (EVar ErrAppsAlreadyExists))
      else
        let app := App_Clone newApp in
        let app := MkApp new_id (app_Name app) (app_Config app) (app_Annotations app) (app_SyslogURL app) now now in
        (Mock (m_Apps m ++ [app]) (m_Fns m) (m_Triggers m), Ok (App_Clone app))
  end.

Definition mock_UpdateApp (m : mock) (now : Z) (app : option App) : dres mock App :=
  match app with
  | None => (m, Panic)
  | Some app =>
      match find_first (id_is app_ID (app_ID app)) (m_Apps m) with
      | None => (m, Err (EVar ErrAppsNotFound))
      | Some a =>
          if negb (streq (app_Name app) "") && negb (streq (app_Name app) (app_Name a))
          then (m, Err (EVar ErrAppsNameImmutable))
          else
            match (let! c := App_Update (App_Clone a) app now in
                   let! _ := App_Validate url_scheme c in Ok c) with
            | Ok c => (Mock (update_first (id_is app_ID (app_ID app)) (fun _ => c) (m_Apps m)) (m_Fns m) (m_Triggers m),
                       Ok (App_Clone c))
            | Err e => (m, Err e)
            | Panic => (m, Panic)
            end
      end
  end.

Definition mock_RemoveApp (m : mock) (appID : string) : dres mock unit :=
  match find_first (id_is app_ID appID) (m_Apps m) with
  | None => (m, Err (EVar ErrAppsNotFound))
  | Some _ =>
      (Mock (remove_first (id_is app_ID appID) (m_Apps m))
            (base.filter (fun f => fn_AppID f <> appID) (m_Fns m))
            (base.filter (fun t => tr_AppID t <> appID) (m_Triggers m)), Ok tt)
  end.

Definition mock_InsertFn (m : mock) (now : Z) (new_id : string) (fn : option Fn) : dres mock Fn :=
  match fn with
  | None => (m, Panic)
  | Some fn =>
      match (let! _ := (mock_GetAppByID m (fn_AppID fn)).2 in
             guard! negb (existsb (fun f => streq (fn_ID f) (fn_ID fn) ||
                            (streq (fn_AppID f) (fn_AppID fn) && streq (fn_Name f) (fn_Name fn))) (m_Fns m))
               else EVar ErrFnsExists in
             Fn_Validate lim fn) with
      | Ok _ =>
          let cl := Fn_Clone fn in
          let cl := MkFn new_id (fn_Name cl) (fn_AppID cl) (fn_Image cl) (fn_Memory cl) (fn_Timeout cl)
                      (fn_IdleTimeout cl) (fn_Config cl) (fn_Annotations cl) now now in
          (Mock (m_Apps m) (m_Fns m ++ [cl]) (m_Triggers m), Ok (Fn_Clone cl))
      | Err e => (m, Err e)
      | Panic => (m, Panic)
      end
  end.

(** The stored function is overwritten in place and handed out. *)
Definition mock_UpdateFn (m : mock) (now : Z) (fn : option Fn) : dres mock Fn :=
  match fn with
  | None => (m, Panic)
  | Some fn =>
      match find_first (id_is fn_ID (fn_ID fn)) (m_Fns m) with
      | None => (m, Err (EVar ErrFnsNotFound))
      | Some f =>
          match (let! c := Fn_Update (Fn_Clone f) fn now in let! _ := Fn_Validate lim c in Ok c) with
          | Ok c => (Mock (m_Apps m) (update_first (id_is fn_ID (fn_ID fn)) (fun _ => c) (m_Fns m)) (m_Triggers m), Ok c)
          | Err e => (m, Err e)
          | Panic => (m, Panic)
          end
      end
  end.

Definition mock_GetFns (m : mock) (f : FnFilter) : dres mock (page Fn) :=
  let m := Mock (m_Apps m) (sort_Sort fn_Name (m_Fns m)) (m_Triggers m) in
  (m, let! cursor := page_cursor (ff_Cursor f) in
      let funcs := page_loop (fun n => (0 <? ff_PerPage f) && (n =? ff_PerPage f))
        (fun x => strlt cursor (fn_Name x) && matches (ff_AppID f) (fn_AppID x) && matches (ff_Name f) (fn_Name x)) [] (m_Fns m) in
      Ok (page_of fn_Name (ff_PerPage f) funcs)).

Definition mock_GetFnByID (m : mock) (fnID : string) : dres mock Fn := (m, lookup_by fn_ID fnID (m_Fns m) ErrFnsNotFound).

Definition mock_RemoveFn (m : mock) (fnID : string) : dres mock unit :=
  match find_first (id_is fn_ID fnID) (m_Fns m) with
  | None => (m, Err (EVar ErrFnsNotFound))
  | Some f =>
      (Mock (m_Apps m) (remove_first (id_is fn_ID fnID) (m_Fns m))
            (base.filter (fun t => tr_FnID t <> fn_ID f) (m_Triggers m)), Ok tt)
  end.

(** The loop of [InsertTrigger] over the triggers that exist. *)
Fixpoint trigger_clash (t : Trigger) (l : list Trigger) : option errvar :=
  match l with
  | [] => None
  | u :: l =>
      if streq (tr_ID u) (tr_ID t) ||
         (streq (tr_AppID u) (tr_AppID t) && streq (tr_FnID u) (tr_FnID t) && streq (tr_Name u) (tr_Name t))
      then Some ErrTriggerExists
      else if streq (tr_AppID u) (tr_AppID t) && streq (tr_Source u) (tr_Source t) && streq (tr_Type u) (tr_Type t)
      then Some ErrTriggerSourceExists
      else trigger_clash t l
  end.

Definition mock_InsertTrigger (m : mock) (now : Z) (new_id : string) (trigger : option Trigger) : dres mock Trigger :=
  match trigger with
  | None => (m, Panic)
  | Some t =>
      match (let! _ := (mock_GetAppByID m (tr_AppID t)).2 in
             let! fn := (mock_GetFnByID m (tr_FnID t)).2 in
             guard! streq (fn_AppID fn) (tr_AppID t) else EVar ErrTriggerFnIDNotSameApp in
             let! _ := match trigger_clash t (m_Triggers m) with Some e => Err (EVar e) | None => Ok tt end in
             Trigger_Validate t) with
      | Ok _ =>
          let cl := Trigger_Clone t in
          let cl := MkTrigger new_id (tr_Name cl) (tr_AppID cl) (tr_FnID cl) now now (tr_Type cl) (tr_Source cl) (tr_Annotations cl) in
          (Mock (m_Apps m) (m_Fns m) (m_Triggers m ++ [cl]), Ok (Trigger_Clone cl))
      | Err e => (m, Err e)
      | Panic => (m, Panic)
      end
  end.

Definition mock_UpdateTrigger (m : mock) (now : Z) (trigger : option Trigger) : dres mock Trigger :=
  match trigger with
  | None => (m, Panic)
  | Some trigger =>
      match find_first (id_is tr_ID (tr_ID trigger)) (m_Triggers m) with
      | None => (m, Err (EVar ErrTriggerNotFound))
      | Some t =>
          match (let! c := Trigger_Update (Trigger_Clone t) trigger now in let! _ := Trigger_Validate c in Ok c) with
          | Ok c => (Mock (m_Apps m) (m_Fns m) (update_first (id_is tr_ID (tr_ID trigger)) (fun _ => c) (m_Triggers m)),
                     Ok (Trigger_Clone c))
          | Err e => (m, Err e)
          | Panic => (m, Panic)
          end
      end
  end.

Definition mock_GetTrigger (m : mock) (appId fnId triggerName : string) : dres mock Trigger :=
  (m, match find_first (fun t => streq (tr_AppID t) appId && streq (tr_FnID t) fnId && streq (tr_Name t) triggerName) (m_Triggers m) with
      | Some t => Ok (Trigger_Clone t)
      | None => Err (EVar ErrTriggerNotFound)
      end).

Definition mock_GetTriggerByID (m : mock) (triggerId : string) : dres mock Trigger :=
  (m, let! t := lookup_by tr_ID triggerId (m_Triggers m) ErrTriggerNotFound in Ok (Trigger_Clone t)).

Definition mock_GetTriggers (m : mock) (f : TriggerFilter) : dres mock (page Trigger) :=
  let m := Mock (m_Apps m) (m_Fns m) (sort_Sort tr_Name (m_Triggers m)) in
  (m, let! cursor := page_cursor (tf_Cursor f) in
      let res := page_loop (fun n => (0 <? tf_PerPage f) && (n =? tf_PerPage f))
        (fun t => (streq (tf_Cursor f) "" || strlt cursor (tr_Name t)) && streq (tr_AppID t) (tf_AppID f) &&
                  matches (tf_FnID f) (tr_FnID t) && matches (tf_Name f) (tr_Name t)) [] (m_Triggers m) in
      Ok (page_of tr_Name (tf_PerPage f) res)).

Definition mock_RemoveTrigger (m : mock) (triggerID : string) : dres mock unit :=
  match find_first (id_is tr_ID triggerID) (m_Triggers m) with
  | None => (m, Err (EVar ErrTriggerNotFound))
  | Some _ => (Mock (m_Apps m) (m_Fns m) (remove_first (id_is tr_ID triggerID) (m_Triggers m)), Ok tt)
  end.

#[export] Instance mock_Datastore : Datastore mock := {|
  ds_GetAppByID := mock_GetAppByID; ds_GetAppID := mock_GetAppID; ds_GetApps := mock_GetApps;
  ds_InsertApp := mock_InsertApp; ds_UpdateApp := mock_UpdateApp; ds_RemoveApp := mock_RemoveApp;
  ds_InsertFn := mock_InsertFn; ds_UpdateFn := mock_UpdateFn; ds_GetFns := mock_GetFns;
  ds_GetFnByID := mock_GetFnByID; ds_RemoveFn := mock_RemoveFn;
  ds_InsertTrigger := mock_InsertTrigger; ds_UpdateTrigger := mock_UpdateTrigger;
  ds_RemoveTrigger := mock_RemoveTrigger; ds_GetTriggerByID := mock_GetTriggerByID;
  ds_GetTriggers := mock_GetTriggers; ds_GetTriggerBySource := mock_GetTriggerBySource
|}.
End Mock.

(** ** Checking arguments ([validator]) *)

Record validator (D : Type) := Validator { v_ds : D }.
Arguments Validator {D}.
Arguments v_ds {D}.

(** A call of the store inside. *)
Definition inside {D V A} (wrap : D -> V) (r : dres D A) : dres V A := (wrap r.1, r.2).

Section Validator.
Context {MR : MapRange} {U : UnicodeTables}.
Context (url_scheme : string -> outcome string string).
Context {D : Type} `{Datastore D}.

(** The checks in order: the error of the first that fails. *)
Fixpoint first_failed (l : list (bool * errvar)) : option errvar :=
  match l with
  | [] => None
  | (failed, e) :: l => if failed then Some e else first_failed l
  end.
Definition checked {A} (v : validator D) (checks : list (bool * errvar)) (k : dres D A) : dres (validator D) A :=
  match first_failed checks with
  | Some e => (v, Err (EVar e))
  | None => inside Validator k
  end.

Definition validator_GetAppID (v : validator D) (appName : string) :=
  checked v [(streq appName "", ErrAppsMissingName)] (ds_GetAppID (v_ds v) appName).
Definition validator_GetAppByID (v : validator D) (appID : string) :=
  checked v [(streq appID "", ErrAppsMissingID)] (ds_GetAppByID (v_ds v) appID).

Definition validator_InsertApp (v : validator D) (now : Z) (new_id : string) (app : option App) : dres (validator D) App :=
  match app with
  | None => (v, Err (EVar ErrDatastoreEmptyApp))
  | Some a =>
      if negb (streq (app_ID a) "") then (v, Err (EVar ErrAppIDProvided))
      else match App_Validate url_scheme a with
           | Ok _ => inside Validator (ds_InsertApp (v_ds v) now new_id app)
           | Err e => (v, Err e)
           | Panic => (v, Panic)
           end
  end.

Definition validator_UpdateApp (v : validator D) (now : Z) (app : option App) : dres (validator D) App :=
  match app with
  | None => (v, Err (EVar ErrDatastoreEmptyApp))
  | Some a => checked v [(streq (app_ID a) "", ErrAppsMissingID)] (ds_UpdateApp (v_ds v) now app)
  end.

Definition validator_RemoveApp (v : validator D) (appID : string) :=
  checked v [(streq appID "", ErrAppsMissingID)] (ds_RemoveApp (v_ds v) appID).

Definition validator_InsertTrigger (v : validator D) (now : Z) (new_id : string) (t : option Trigger) : dres (validator D) Trigger :=
  match t with
  | None => (v, Panic)
  | Some x =>
      checked v [(negb (streq (tr_ID x) ""), ErrTriggerIDProvided); (negb (tr_CreatedAt x =? 0), ErrCreatedAtProvided);
                 (negb (tr_UpdatedAt x =? 0), ErrUpdatedAtProvided)] (ds_InsertTrigger (v_ds v) now new_id t)
  end.

Definition validator_GetTriggers (v : validator D) (f : TriggerFilter) :=
  checked v [(streq (tf_AppID f) "", ErrTriggerMissingAppID)] (ds_GetTriggers (v_ds v) f).
Definition validator_RemoveTrigger (v : validator D) (triggerID : string) :=
  checked v [(streq triggerID "", ErrMissingID)] (ds_RemoveTrigger (v_ds v) triggerID).

Definition validator_InsertFn (v : validator D) (now : Z) (new_id : string) (fn : option Fn) : dres (validator D) Fn :=
  match fn with
  | None => (v, Err (EVar ErrDatastoreEmptyFn))
  | Some f =>
      checked v [(negb (streq (fn_ID f) ""), ErrFnsIDProvided); (streq (fn_AppID f) "", ErrFnsMissingAppID);
                 (streq (fn_Name f) "", ErrFnsMissingName)] (ds_InsertFn (v_ds v) now new_id fn)
  end.

Definition validator_GetFnByID (v : validator D) (fnID : string) :=
  checked v [(streq fnID "", ErrDatastoreEmptyFnID)] (ds_GetFnByID (v_ds v) fnID).
Definition validator_GetFns (v : validator D) (f : FnFilter) :=
  checked v [(streq (ff_AppID f) "", ErrFnsMissingAppID)] (ds_GetFns (v_ds v) f).
Definition validator_RemoveFn (v : validator D) (fnID : string) :=
  checked v [(streq fnID "", ErrDatastoreEmptyFnID)] (ds_RemoveFn (v_ds v) fnID).

(** The methods it does not define are those of the embedded store. *)
#[export] Instance validator_Datastore : Datastore (validator D) := {|
  ds_GetAppByID := validator_GetAppByID; ds_GetAppID := validator_GetAppID;
  ds_GetApps := fun v f => inside Validator (ds_GetApps (v_ds v) f);
  ds_InsertApp := validator_InsertApp; ds_UpdateApp := validator_UpdateApp; ds_RemoveApp := validator_RemoveApp;
  ds_InsertFn := validator_InsertFn;
  ds_UpdateFn := fun v now f => inside Validator (ds_UpdateFn (v_ds v) now f);
  ds_GetFns := validator_GetFns; ds_GetFnByID := validator_GetFnByID; ds_RemoveFn := validator_RemoveFn;
  ds_InsertTrigger := validator_InsertTrigger;
  ds_UpdateTrigger := fun v now t => inside Validator (ds_UpdateTrigger (v_ds v) now t);
  ds_RemoveTrigger := validator_RemoveTrigger;
  ds_GetTriggerByID := fun v i => inside Validator (ds_GetTriggerByID (v_ds v) i);
  ds_GetTriggers := validator_GetTriggers;
  ds_GetTriggerBySource := fun v a t s => inside Validator (ds_GetTriggerBySource (v_ds v) a t s)
|}.
End Validator.

(** ** Telling listeners ([extds])

    What the extensions of the server are told, and when; a listener answers
    with an error to veto (before) or to report (after). *)
Inductive ds_event :=
| BeforeAppGet (id : string) | AfterAppGet (a : App)
| BeforeAppCreate (a : option App) | AfterAppCreate (a : App)
| BeforeAppUpdate (a : option App) | AfterAppUpdate (a : App)
| BeforeAppDelete (a : App) | AfterAppDelete (a : App)
| BeforeAppsList (f : AppFilter) | AfterAppsList (l : list App)
| BeforeFnCreate (f : option Fn) | AfterFnCreate (f : Fn)
| BeforeFnUpdate (f : option Fn) | AfterFnUpdate (f : Fn)
| BeforeFnDelete (id : string) | AfterFnDelete (id : string)
| BeforeTriggerCreate (t : option Trigger) | AfterTriggerCreate (t : Trigger)
| BeforeTriggerUpdate (t : option Trigger) | AfterTriggerUpdate (t : Trigger)
| BeforeTriggerDelete (id : string) | AfterTriggerDelete (id : string).

(** [appListeners], [fnListeners], [triggerListeners]: the first error ends the
    round. *)
Fixpoint tell {E} (ls : list (E -> option gerr)) (e : E) : option gerr :=
  match ls with
  | [] => None
  | l :: ls => match l e with Some err => Some err | None => tell ls e end
  end.

(** The store with the history of what the listeners were told, and what each
    listener answers. *)
Record extds (D : Type) := ExtDs { x_ds : D; x_told : list ds_event }.
Arguments ExtDs {D}.
Arguments x_ds {D}.
Arguments x_told {D}.

Section Ext.
Context {D : Type} `{Datastore D} (listeners : list (ds_event -> option gerr)).

(** Before, the operation, after: the result is returned with the error of the
    listeners, which hides it from the caller. *)
Definition around {A} (x : extds D) (before : ds_event) (op : D -> dres D A) (after : A -> ds_event) : dres (extds D) A :=
  let x1 := ExtDs (x_ds x) (x_told x ++ [before]) in
  match tell listeners before with
  | Some err => (x1, Err err)
  | None =>
      match op (x_ds x) with
      | (d, Ok a) =>
          (ExtDs d (x_told x1 ++ [after a]),
           match tell listeners (after a) with Some err => Err err | None => Ok a end)
      | (d, Err e) => (ExtDs d (x_told x1), Err e)
      | (d, Panic) => (ExtDs d (x_told x1), Panic)
      end
  end.

Definition unheard {A} (x : extds D) (r : dres D A) : dres (extds D) A := inside (fun d => ExtDs d (x_told x)) r.

(** The application of [BeforeAppDelete] has the id in the field of its name. *)
Definition removed_app (id : string) : App := MkApp "" id None None None 0 0.

Definition extds_InsertTrigger x now i t := around x (BeforeTriggerCreate t) (fun d => ds_InsertTrigger d now i t) AfterTriggerCreate.
Definition extds_UpdateTrigger x now t := around x (BeforeTriggerUpdate t) (fun d => ds_UpdateTrigger d now t) AfterTriggerUpdate.
Definition extds_RemoveTrigger x i := around x (BeforeTriggerDelete i) (fun d => ds_RemoveTrigger d i) (fun _ => AfterTriggerDelete i).
Definition extds_GetAppByID x i := around x (BeforeAppGet i) (fun d => ds_GetAppByID d i) AfterAppGet.
Definition extds_InsertApp x now i a := around x (BeforeAppCreate a) (fun d => ds_InsertApp d now i a) AfterAppCreate.
Definition extds_UpdateApp x now a := around x (BeforeAppUpdate a) (fun d => ds_UpdateApp d now a) AfterAppUpdate.
Definition extds_RemoveApp x i :=
  around x (BeforeAppDelete (removed_app i)) (fun d => ds_RemoveApp d i) (fun _ => AfterAppDelete (removed_app i)).
Definition extds_GetApps x f := around x (BeforeAppsList f) (fun d => ds_GetApps d f) (fun l => AfterAppsList (Items l)).
Definition extds_InsertFn x now i f := around x (BeforeFnCreate f) (fun d => ds_InsertFn d now i f) AfterFnCreate.
Definition extds_UpdateFn x now f := around x (BeforeFnUpdate f) (fun d => ds_UpdateFn d now f) AfterFnUpdate.
Definition extds_RemoveFn x i := around x (BeforeFnDelete i) (fun d => ds_RemoveFn d i) (fun _ => AfterFnDelete i).

#[export] Instance extds_Datastore : Datastore (extds D) := {|
  ds_GetAppByID := extds_GetAppByID;
  ds_GetAppID := fun x n => unheard x (ds_GetAppID (x_ds x) n);
  ds_GetApps := extds_GetApps; ds_InsertApp := extds_InsertApp; ds_UpdateApp := extds_UpdateApp;
  ds_RemoveApp := extds_RemoveApp; ds_InsertFn := extds_InsertFn; ds_UpdateFn := extds_UpdateFn;
  ds_GetFns := fun x f => unheard x (ds_GetFns (x_ds x) f);
  ds_GetFnByID := fun x i => unheard x (ds_GetFnByID (x_ds x) i);
  ds_RemoveFn := extds_RemoveFn; ds_InsertTrigger := extds_InsertTrigger; ds_UpdateTrigger := extds_UpdateTrigger;
  ds_RemoveTrigger := extds_RemoveTrigger;
  ds_GetTriggerByID := fun x i => unheard x (ds_GetTriggerByID (x_ds x) i);
  ds_GetTriggers := fun x f => unheard x (ds_GetTriggers (x_ds x) f);
  ds_GetTriggerBySource := fun x a t s => unheard x (ds_GetTriggerBySource (x_ds x) a t s)
|}.
End Ext.

(** ** The abstract store: maps from ids *)

Definition by_id {A} (f : A -> string) (l : list A) : gmap string A := list_to_map ((fun x => (f x, x)) <$> l).

Section ById.
Context {A : Type} (f : A -> string).
Implicit Types (l : list A).

Lemma id_is_spec i x : id_is f i x = true <-> f x = i.
Proof. apply streq_spec. Qed.

Lemma by_id_find l i : by_id f l !! i = find_first (id_is f i) l.
Proof.
  unfold by_id. induction l as [|x l IH]; [done|]. rewrite fmap_cons, list_to_map_cons. cbn [find_first].
  unfold id_is at 1, streq. case_bool_decide as E; [subst; by rewrite lookup_insert_eq|].
  by rewrite lookup_insert_ne, IH.
Qed.

Lemma by_id_elem l i x : NoDup (f <$> l) -> by_id f l !! i = Some x <-> x ∈ l /\ f x = i.
Proof.
  intros Hn. rewrite by_id_find. split.
  - intros [Hx Hi]%find_first_Some. split; [done|]. by apply id_is_spec.
  - intros [Hx <-]. induction l as [|y l IH]; [by apply not_elem_of_nil in Hx|].
    rewrite fmap_cons in Hn. apply NoDup_cons in Hn as [Hy Hn]. cbn [find_first].
    apply elem_of_cons in Hx as [->|Hx]; [by rewrite (proj2 (id_is_spec _ _))|].
    destruct (id_is f (f x) y) eqn:E; [|auto]. apply id_is_spec in E. destruct Hy. rewrite E.
    by apply list_elem_of_fmap_2.
Qed.

Lemma by_id_perm l l' : NoDup (f <$> l) -> l ≡ₚ l' -> by_id f l = by_id f l'.
Proof.
  intros Hn HP. apply map_eq. intros i. apply option_eq. intros x.
  rewrite !by_id_elem; [by rewrite HP|by rewrite <- HP|done].
Qed.

Lemma by_id_snoc l x : f x ∉ f <$> l -> by_id f (l ++ [x]) = <[f x := x]> (by_id f l).
Proof.
  intros Hx. unfold by_id. rewrite fmap_app, list_to_map_app. apply map_eq. intros i.
  rewrite lookup_union. destruct (decide (i = f x)) as [->|Hne].
  - rewrite lookup_insert_eq. rewrite (proj1 (not_elem_of_list_to_map _ _)).
    + simpl. by rewrite lookup_insert_eq, left_id by apply _.
    + by rewrite <- list_fmap_compose.
  - rewrite lookup_insert_ne by done. simpl. rewrite lookup_insert_ne by done. rewrite lookup_empty.
    by rewrite right_id by apply _.
Qed.

Lemma by_id_update l i c : f c = i -> is_Some (find_first (id_is f i) l) ->
  by_id f (update_first (id_is f i) (fun _ => c) l) = <[i := c]> (by_id f l).
Proof.
  intros Hc. unfold by_id. induction l as [|x l IH]; intros [y Hy]; [done|].
  cbn [find_first update_first] in *.
  destruct (id_is f i x) eqn:E; rewrite !fmap_cons, !list_to_map_cons.
  - apply id_is_spec in E as ->. by rewrite Hc, insert_insert_eq.
  - rewrite (IH (ex_intro _ y Hy)). apply insert_insert_ne. intros Hx. by rewrite (proj2 (id_is_spec i x) Hx) in E.
Qed.

Lemma by_id_remove l i : NoDup (f <$> l) -> by_id f (remove_first (id_is f i) l) = base.delete i (by_id f l).
Proof.
  intros Hn. assert (Hn' : NoDup (f <$> remove_first (id_is f i) l)).
  { rewrite (fmap_remove_first f (id_is f i) (fun j => streq j i)) by done. by apply remove_first_NoDup. }
  apply map_eq. intros j. apply option_eq. intros x. rewrite lookup_delete_Some, !by_id_elem by done. split.
  - intros [Hx <-]. split; [|split; [by eapply remove_first_elem_of|done]]. intros ->.
    assert (Hg : f x ∉ f <$> remove_first (id_is f (f x)) l).
    { rewrite (fmap_remove_first f _ (fun j => bool_decide (j = f x))) by done. by apply remove_first_NoDup_gone. }
    apply Hg. by apply list_elem_of_fmap_2.
  - intros (Hne & Hx & <-). split; [|done]. apply elem_of_remove_first_ne; [done|].
    destruct (id_is f i x) eqn:E; [|done]. apply id_is_spec in E. congruence.
Qed.

Lemma by_id_filter (P : A -> Prop) `{!forall x, Decision (P x)} l : NoDup (f <$> l) ->
  by_id f (base.filter P l) = base.filter (fun p => P p.2) (by_id f l).
Proof.
  intros Hn. assert (Hn' : NoDup (f <$> base.filter P l)).
  { eapply sublist_NoDup; [exact Hn|]. apply fmap_sublist, sublist_filter. }
  apply map_eq. intros i. apply option_eq. intros x.
  rewrite map_lookup_filter_Some, !by_id_elem by done. simpl. rewrite list_elem_of_filter. tauto.
Qed.

Lemma update_first_ids l i c : f c = i -> f <$> update_first (id_is f i) (fun _ => c) l = f <$> l.
Proof.
  intros Hc. induction l as [|x l IH]; [done|]. cbn [update_first]. destruct (id_is f i x) eqn:E; rewrite !fmap_cons.
  - apply id_is_spec in E. by rewrite E, Hc.
  - by rewrite IH.
Qed.

Lemma remove_first_ids l i : NoDup (f <$> l) -> NoDup (f <$> remove_first (id_is f i) l).
Proof.
  intros Hn. rewrite (fmap_remove_first f (id_is f i) (fun j => streq j i)) by done. by apply remove_first_NoDup.
Qed.
End ById.

(** What a store promises, on maps.  Lists are specified as one page: in the
    order of the names, all of them that match, unless the page is full and
    they come after it. *)
Record store := Store { s_apps : gmap string App; s_fns : gmap string Fn; s_trs : gmap string Trigger }.

Definition abs (m : mock) : store := Store (by_id app_ID (m_Apps m)) (by_id fn_ID (m_Fns m)) (by_id tr_ID (m_Triggers m)).

Inductive ds_op :=
| OGetAppByID (i : string) | OGetAppID (n : string) | OInsertApp (a : App) | OUpdateApp (a : App) | ORemoveApp (i : string)
| OInsertFn (f : Fn) | OUpdateFn (f : Fn) | OGetFnByID (i : string) | ORemoveFn (i : string)
| OInsertTrigger (t : Trigger) | OUpdateTrigger (t : Trigger) | ORemoveTrigger (i : string) | OGetTriggerByID (i : string)
| OGetTriggerBySource (a ty s : string)
| OGetApps (f : AppFilter) | OGetFns (f : FnFilter) | OGetTriggers (f : TriggerFilter).

Inductive ds_val :=
| VApp (a : App) | VFn (f : Fn) | VTrigger (t : Trigger) | VStr (s : string) | VUnit
| VApps (l : page App) | VFns (l : page Fn) | VTriggers (l : page Trigger).

Definition giving {D A} (f : A -> ds_val) (r : dres D A) : dres D ds_val := (r.1, omap_ok f r.2).

Definition ds_run {D} `{Datastore D} (d : D) (now : Z) (new_id : string) (o : ds_op) : dres D ds_val :=
  match o with
  | OGetAppByID i => giving VApp (ds_GetAppByID d i)
  | OGetAppID n => giving VStr (ds_GetAppID d n)
  | OInsertApp a => giving VApp (ds_InsertApp d now new_id (Some a))
  | OUpdateApp a => giving VApp (ds_UpdateApp d now (Some a))
  | ORemoveApp i => giving (fun _ => VUnit) (ds_RemoveApp d i)
  | OInsertFn f => giving VFn (ds_InsertFn d now new_id (Some f))
  | OUpdateFn f => giving VFn (ds_UpdateFn d now (Some f))
  | OGetFnByID i => giving VFn (ds_GetFnByID d i)
  | ORemoveFn i => giving (fun _ => VUnit) (ds_RemoveFn d i)
  | OInsertTrigger t => giving VTrigger (ds_InsertTrigger d now new_id (Some t))
  | OUpdateTrigger t => giving VTrigger (ds_UpdateTrigger d now (Some t))
  | ORemoveTrigger i => giving (fun _ => VUnit) (ds_RemoveTrigger d i)
  | OGetTriggerByID i => giving VTrigger (ds_GetTriggerByID d i)
  | OGetTriggerBySource a ty s => giving VTrigger (ds_GetTriggerBySource d a ty s)
  | OGetApps f => giving VApps (ds_GetApps d f)
  | OGetFns f => giving VFns (ds_GetFns d f)
  | OGetTriggers f => giving VTriggers (ds_GetTriggers d f)
  end.

Section Spec.
Context {MR : MapRange} {U : UnicodeTables}.
Context (url_scheme : string -> outcome string string) (lim : Limits).

(** A resource that is found, or the error that says it is not. *)
Definition found {A} (f : A -> ds_val) (e : errvar) (x : option A) : outcome gerr ds_val :=
  match x with Some x => Ok (f x) | None => Err (EVar e) end.

Definition nobody {A} (P : A -> Prop) (m : gmap string A) : Prop := map_Forall (fun _ x => ~ P x) m.
Definition somebody {A} (P : A -> Prop) (m : gmap string A) : Prop := exists i x, m !! i = Some x /\ P x.

(** An update: the new value [c] replaces the old one where it can be made. *)
Definition replaced {A} (f : A -> ds_val) (c : outcome gerr A) (s : store) (put : A -> store) (r : outcome gerr ds_val) (s' : store) : Prop :=
  match c with
  | Ok c => s' = put c /\ r = Ok (f c)
  | Err e => s' = s /\ r = Err e
  | Panic => s' = s /\ r = Panic
  end.

Definition new_app (a : App) (now : Z) (i : string) : App :=
  MkApp i (app_Name a) (app_Config a) (app_Annotations a) (app_SyslogURL a) now now.
Definition new_fn (f : Fn) (now : Z) (i : string) : Fn :=
  MkFn i (fn_Name f) (fn_AppID f) (fn_Image f) (fn_Memory f) (fn_Timeout f) (fn_IdleTimeout f) (fn_Config f) (fn_Annotations f) now now.
Definition new_trigger (t : Trigger) (now : Z) (i : string) : Trigger :=
  MkTrigger i (tr_Name t) (tr_AppID t) (tr_FnID t) now now (tr_Type t) (tr_Source t) (tr_Annotations t).

Definition same_fn (f g : Fn) : Prop := fn_ID g = fn_ID f \/ (fn_AppID g = fn_AppID f /\ fn_Name g = fn_Name f).
Definition same_trigger (t u : Trigger) : Prop :=
  tr_ID u = tr_ID t \/ (tr_AppID u = tr_AppID t /\ tr_FnID u = tr_FnID t /\ tr_Name u = tr_Name t).
Definition same_source (t u : Trigger) : Prop :=
  tr_AppID u = tr_AppID t /\ tr_Source u = tr_Source t /\ tr_Type u = tr_Type t.

(** One page of the resources in [m] on which [keep] holds. *)
Definition is_page {A} (name : A -> string) (keep : A -> bool) (full : Z -> bool) (per : Z) (m : gmap string A) (p : page A) : Prop :=
  p = page_of name per (Items p) /\ StronglySorted (fun x y => str_le (name x) (name y)) (Items p) /\ NoDup (Items p) /\
  (forall x, x ∈ Items p -> keep x = true /\ exists i, m !! i = Some x) /\
  (forall i x, m !! i = Some x -> keep x = true -> x ∈ Items p \/
     (full (Z.of_nat (length (Items p))) = true /\ forall y, y ∈ Items p -> str_le (name y) (name x))).

Definition listed {A} (f : page A -> ds_val) (c : outcome gerr string) (P : string -> page A -> Prop) (r : outcome gerr ds_val) : Prop :=
  match c with
  | Ok c => exists p, r = Ok (f p) /\ P c p
  | Err e => r = Err e
  | Panic => r = Panic
  end.

Definition app_kept (f : AppFilter) (c : string) (a : App) : bool := strlt c (app_Name a) && matches (af_Name f) (app_Name a).
Definition fn_kept (f : FnFilter) (c : string) (x : Fn) : bool :=
  strlt c (fn_Name x) && matches (ff_AppID f) (fn_AppID x) && matches (ff_Name f) (fn_Name x).
Definition trigger_kept (f : TriggerFilter) (c : string) (t : Trigger) : bool :=
  (streq (tf_Cursor f) "" || strlt c (tr_Name t)) && streq (tr_AppID t) (tf_AppID f) &&
  matches (tf_FnID f) (tr_FnID t) && matches (tf_Name f) (tr_Name t).
Definition bounded (per n : Z) : bool := (0 <? per) && (n =? per).

Definition ds_spec (s : store) (now : Z) (new_id : string) (o : ds_op) (r : outcome gerr ds_val) (s' : store) : Prop :=
  match o with
  | OGetAppByID i => s' = s /\ r = found VApp ErrAppsNotFound (s_apps s !! i)
  | OGetFnByID i => s' = s /\ r = found VFn ErrFnsNotFound (s_fns s !! i)
  | OGetTriggerByID i => s' = s /\ r = found VTrigger ErrTriggerNotFound (s_trs s !! i)
  | OGetAppID n => s' = s /\
      ((exists i a, s_apps s !! i = Some a /\ app_Name a = n /\ r = Ok (VStr i)) \/
       (nobody (fun a => app_Name a = n) (s_apps s) /\ r = Err (EVar ErrAppsNotFound)))
  | OGetTriggerBySource a ty src => s' = s /\
      let P t := tr_AppID t = a /\ tr_Type t = ty /\ tr_Source t = src in
      ((exists i t, s_trs s !! i = Some t /\ P t /\ r = Ok (VTrigger t)) \/
       (nobody P (s_trs s) /\ r = Err (EVar ErrTriggerNotFound)))
  | OInsertApp a =>
      let P b := app_Name b = app_Name a in
      (somebody P (s_apps s) /\ s' = s /\ r = Err (EVar ErrAppsAlreadyExists)) \/
      (nobody P (s_apps s) /\ s' = Store (<[new_id := new_app a now new_id]> (s_apps s)) (s_fns s) (s_trs s) /\
       r = Ok (VApp (new_app a now new_id)))
  | OUpdateApp a =>
      match s_apps s !! app_ID a with
      | None => s' = s /\ r = Err (EVar ErrAppsNotFound)
      | Some b =>
          if negb (streq (app_Name a) "") && negb (streq (app_Name a) (app_Name b))
          then s' = s /\ r = Err (EVar ErrAppsNameImmutable)
          else replaced VApp (let! c := App_Update b a now in let! _ := App_Validate url_scheme c in Ok c) s
                 (fun c => Store (<[app_ID a := c]> (s_apps s)) (s_fns s) (s_trs s)) r s'
      end
  | ORemoveApp i =>
      match s_apps s !! i with
      | None => s' = s /\ r = Err (EVar ErrAppsNotFound)
      | Some _ => s' = Store (base.delete i (s_apps s)) (base.filter (fun p => fn_AppID p.2 <> i) (s_fns s))
                        (base.filter (fun p => tr_AppID p.2 <> i) (s_trs s)) /\ r = Ok VUnit
      end
  | OInsertFn f =>
      match s_apps s !! fn_AppID f with
      | None => s' = s /\ r = Err (EVar ErrAppsNotFound)
      | Some _ =>
          (somebody (same_fn f) (s_fns s) /\ s' = s /\ r = Err (EVar ErrFnsExists)) \/
          (nobody (same_fn f) (s_fns s) /\
           replaced VFn (let! _ := Fn_Validate lim f in Ok (new_fn f now new_id)) s
             (fun c => Store (s_apps s) (<[new_id := c]> (s_fns s)) (s_trs s)) r s')
      end
  | OUpdateFn f =>
      match s_fns s !! fn_ID f with
      | None => s' = s /\ r = Err (EVar ErrFnsNotFound)
      | Some g => replaced VFn (let! c := Fn_Update g f now in let! _ := Fn_Validate lim c in Ok c) s
                    (fun c => Store (s_apps s) (<[fn_ID f := c]> (s_fns s)) (s_trs s)) r s'
      end
  | ORemoveFn i =>
      match s_fns s !! i with
      | None => s' = s /\ r = Err (EVar ErrFnsNotFound)
      | Some _ => s' = Store (s_apps s) (base.delete i (s_fns s)) (base.filter (fun p => tr_FnID p.2 <> i) (s_trs s)) /\ r = Ok VUnit
      end
  | OInsertTrigger t =>
      match s_apps s !! tr_AppID t, s_fns s !! tr_FnID t with
      | None, _ => s' = s /\ r = Err (EVar ErrAppsNotFound)
      | Some _, None => s' = s /\ r = Err (EVar ErrFnsNotFound)
      | Some _, Some f =>
          (fn_AppID f <> tr_AppID t /\ s' = s /\ r = Err (EVar ErrTriggerFnIDNotSameApp)) \/
          (fn_AppID f = tr_AppID t /\
           ((somebody (same_trigger t) (s_trs s) /\ s' = s /\ r = Err (EVar ErrTriggerExists)) \/
            (somebody (same_source t) (s_trs s) /\ s' = s /\ r = Err (EVar ErrTriggerSourceExists)) \/
            (nobody (same_trigger t) (s_trs s) /\ nobody (same_source t) (s_trs s) /\
             replaced VTrigger (let! _ := Trigger_Validate t in Ok (new_trigger t now new_id)) s
               (fun c => Store (s_apps s) (s_fns s) (<[new_id := c]> (s_trs s))) r s')))
      end
  | OUpdateTrigger t =>
      match s_trs s !! tr_ID t with
      | None => s' = s /\ r = Err (EVar ErrTriggerNotFound)
      | Some u => replaced VTrigger (let! c := Trigger_Update u t now in let! _ := Trigger_Validate c in Ok c) s
                    (fun c => Store (s_apps s) (s_fns s) (<[tr_ID t := c]> (s_trs s))) r s'
      end
  | ORemoveTrigger i =>
      match s_trs s !! i with
      | None => s' = s /\ r = Err (EVar ErrTriggerNotFound)
      | Some _ => s' = Store (s_apps s) (s_fns s) (base.delete i (s_trs s)) /\ r = Ok VUnit
      end
  | OGetApps f => s' = s /\
      listed VApps (page_cursor (af_Cursor f))
        (fun c => is_page app_Name (app_kept f c) (fun n => n =? af_PerPage f) (af_PerPage f) (s_apps s)) r
  | OGetFns f => s' = s /\
      listed VFns (page_cursor (ff_Cursor f))
        (fun c => is_page fn_Name (fn_kept f c) (bounded (ff_PerPage f)) (ff_PerPage f) (s_fns s)) r
  | OGetTriggers f => s' = s /\
      listed VTriggers (page_cursor (tf_Cursor f))
        (fun c => is_page tr_Name (trigger_kept f c) (bounded (tf_PerPage f)) (tf_PerPage f) (s_trs s)) r
  end.
End Spec.

(** ** Lemmas *)

Section Keeps.
Context {MR : MapRange} {U : UnicodeTables} (url_scheme : string -> outcome string string) (lim : Limits).

Lemma App_Clone_eq a : App_Clone a = a.
Proof. destruct a. unfold App_Clone. simpl. by rewrite Config_clone_eq. Qed.

(** A patch keeps the identity of what it patches. *)
Lemma App_Update_keeps a p now c : App_Update a p now = Ok c ->
  app_ID c = app_ID a /\ app_Name c = app_Name a /\ app_CreatedAt c = app_CreatedAt a.
Proof.
  unfold App_Update. intros (ann & _ & (eq & _ & H)%obind_Ok)%obind_Ok. destruct (negb eq); by injection H as <-.
Qed.

Lemma Fn_Update_keeps f p now c : Fn_Update f p now = Ok c ->
  fn_ID c = fn_ID f /\ fn_Name c = fn_Name f /\ fn_AppID c = fn_AppID f.
Proof.
  unfold Fn_Update. intros (ann & _ & (eq & _ & H)%obind_Ok)%obind_Ok. injection H as <-. by destruct (negb eq).
Qed.

Lemma Trigger_Update_keeps t p now c : Trigger_Update t p now = Ok c ->
  tr_ID c = tr_ID t /\ tr_Type c = tr_Type t /\ tr_Name c = pick (tr_Name p) (tr_Name t) /\
  tr_AppID c = pick (tr_AppID p) (tr_AppID t) /\ tr_FnID c = pick (tr_FnID p) (tr_FnID t) /\
  tr_Source c = pick (tr_Source p) (tr_Source t).
Proof.
  unfold Trigger_Update. intros (ann & _ & (eq & _ & H)%obind_Ok)%obind_Ok. injection H as <-. by destruct (negb eq).
Qed.
End Keeps.

(** What the loops that fill a page return. *)
Lemma page_loop_spec {A} full (keep : A -> bool) acc l : exists l1 l2, l = l1 ++ l2 /\
  page_loop full keep acc l = acc ++ base.filter (fun x => keep x = true) l1 /\
  (l2 = [] \/ full (Z.of_nat (length (acc ++ base.filter (fun x => keep x = true) l1))) = true).
Proof.
  revert acc. induction l as [|x l IH]; intros acc; [exists [], []; simpl; rewrite app_nil_r; split_and!; auto|]. cbn [page_loop].
  destruct (full (Z.of_nat (length acc))) eqn:F; [exists [], (x :: l); simpl; rewrite app_nil_r; split_and!; auto|].
  destruct (keep x) eqn:K.
  - destruct (IH (acc ++ [x])) as (l1 & l2 & -> & E & H). exists (x :: l1), l2. split; [done|].
    rewrite filter_cons_True by done. by rewrite <- app_assoc in E, H.
  - destruct (IH acc) as (l1 & l2 & -> & E & H). exists (x :: l1), l2. split; [done|].
    rewrite filter_cons_False by (by rewrite K). done.
Qed.

Lemma StronglySorted_app_le {A} (R : A -> A -> Prop) l1 l2 x y :
  StronglySorted R (l1 ++ l2) -> x ∈ l1 -> y ∈ l2 -> R x y.
Proof.
  induction l1 as [|z l1 IH]; intros Hs Hx Hy; [by apply not_elem_of_nil in Hx|].
  inversion_clear Hs as [|?? Hs' Hf]. rewrite Forall_forall in Hf.
  apply elem_of_cons in Hx as [->|Hx]; [|by apply IH]. apply Hf, elem_of_app. by right.
Qed.

Lemma StronglySorted_sub {A} (R : A -> A -> Prop) l k : sublist l k -> StronglySorted R k -> StronglySorted R l.
Proof.
  induction 1 as [|x l k H IH|x l k H IH]; intros Hs; [constructor|..]; inversion_clear Hs as [|?? Hs' Hf]; [|auto].
  constructor; [auto|]. rewrite Forall_forall in *. intros y Hy. apply Hf.
  eapply elem_of_submseteq; [exact Hy|]. by apply sublist_submseteq.
Qed.

Section Page.
Context {GS : GoSort} {A : Type} (f name : A -> string).

Lemma page_ok full keep per l : NoDup (f <$> l) ->
  is_page name keep full per (by_id f l) (page_of name per (page_loop full keep [] (sort_Sort name l))).
Proof.
  intros Hn. pose proof (sort_perm name l) as HP. pose proof (sort_sorted name l) as HS.
  assert (Hin : forall x, x ∈ sort_Sort name l <-> exists i, by_id f l !! i = Some x).
  { intros x. rewrite HP. split; [intros Hx; exists (f x); by apply by_id_elem|].
    intros [i Hi]. by apply by_id_elem in Hi as [? _]. }
  destruct (page_loop_spec full keep [] (sort_Sort name l)) as (l1 & l2 & E & El & Hf). rewrite El. simpl app.
  assert (Hsub : sublist (base.filter (fun x => keep x = true) l1) (sort_Sort name l)).
  { rewrite E. apply sublist_inserts_r, sublist_filter. }
  unfold is_page. cbn [Items page_of]. split; [done|]. split; [eapply StronglySorted_sub; [exact Hsub|done]|].
  split; [|split].
  - eapply sublist_NoDup; [|exact Hsub]. rewrite HP. by eapply NoDup_fmap_1.
  - intros x [Hk Hx]%list_elem_of_filter. split; [done|]. apply Hin. rewrite E. apply elem_of_app. by left.
  - intros i x Hx Hk. assert (Hx' : x ∈ sort_Sort name l) by (apply Hin; by exists i).
    rewrite E in Hx'. apply elem_of_app in Hx' as [Hx'|Hx']; [left; by apply list_elem_of_filter|].
    destruct Hf as [->|Hf]; [by apply not_elem_of_nil in Hx'|]. right. split; [done|].
    intros y [_ Hy]%list_elem_of_filter. rewrite E in HS. exact (StronglySorted_app_le _ l1 l2 y x HS Hy Hx').
Qed.
End Page.

Lemma existsb_somebody {A} (f : A -> string) (b : A -> bool) (P : A -> Prop) l : NoDup (f <$> l) ->
  (forall x, b x = true <-> P x) ->
  if existsb b l then somebody P (by_id f l) else nobody P (by_id f l).
Proof.
  intros Hn Hb. destruct (existsb b l) eqn:E.
  - apply existsb_exists in E as (x & Hx & Hbx). exists (f x), x. split; [|by apply Hb].
    apply by_id_elem; [done|]. split; [by apply list_elem_of_In|done].
  - intros i x [Hx _]%by_id_elem HP; [|done]. apply Hb in HP.
    assert (existsb b l = true) by (apply existsb_exists; exists x; split; [by apply list_elem_of_In|done]). congruence.
Qed.

Lemma find_first_somebody {A} (f : A -> string) (b : A -> bool) (P : A -> Prop) l : NoDup (f <$> l) ->
  (forall x, b x = true <-> P x) ->
  match find_first b l with Some x => by_id f l !! f x = Some x /\ P x | None => nobody P (by_id f l) end.
Proof.
  intros Hn Hb. destruct (find_first b l) as [x|] eqn:E.
  - apply find_first_Some in E as [Hx Hbx]. split; [|by apply Hb]. by apply by_id_elem.
  - intros i x [Hx _]%by_id_elem HP; [|done]. apply Hb in HP. apply (proj1 (find_first_None _ _) E) in Hx. congruence.
Qed.

(** Ids are unique. *)
Record ids_ok (m : mock) : Prop := {
  ids_apps : NoDup (app_ID <$> m_Apps m);
  ids_fns : NoDup (fn_ID <$> m_Fns m);
  ids_trs : NoDup (tr_ID <$> m_Triggers m)
}.

(** The generated id is new. *)
Definition fresh_id (m : mock) (i : string) : Prop :=
  (i ∉ app_ID <$> m_Apps m) /\ (i ∉ fn_ID <$> m_Fns m) /\ (i ∉ tr_ID <$> m_Triggers m).

Section Refine.
Context {MR : MapRange} {U : UnicodeTables} {GS : GoSort}.
Context (url_scheme : string -> outcome string string) (lim : Limits).
Context (m : mock) (Hi : ids_ok m).

#[local] Instance store_mock : Datastore mock := mock_Datastore url_scheme lim.

(** An operation does what the abstract store says. *)
Definition refines (now : Z) (i : string) (o : ds_op) : Prop :=
  let (m', r) := ds_run m now i o in ids_ok m' /\ ds_spec url_scheme lim (abs m) now i o r (abs m').

Lemma found_find {A} (g : A -> string) (f : A -> ds_val) l i e :
  omap_ok f (lookup_by g i l e) = found f e (by_id g l !! i).
Proof. unfold lookup_by. rewrite by_id_find. by destruct (find_first _ _). Qed.

Lemma refines_gets now i o :
  match o with OGetAppByID _ | OGetAppID _ | OGetFnByID _ | OGetTriggerByID _ | OGetTriggerBySource _ _ _ => True | _ => False end ->
  refines now i o.
Proof.
  destruct o as [j|n| | | | | |j| | | | |j|a ty src| | | ]; intros []; (split; [exact Hi|]); split; try reflexivity; simpl.
  - rewrite <- found_find. unfold lookup_by. destruct (find_first _ _); [|done]. simpl. by rewrite App_Clone_eq.
  - unfold lookup_by.
    pose proof (find_first_somebody app_ID (id_is app_Name n) (fun a => app_Name a = n) (m_Apps m) (ids_apps _ Hi) (id_is_spec app_Name n)) as H.
    destruct (find_first _ _) as [a|]; [|by right]. left. exists (app_ID a), a. destruct H. done.
  - apply found_find.
  - rewrite <- found_find. unfold lookup_by. by destruct (find_first _ _).
  - set (P t := tr_AppID t = a /\ tr_Type t = ty /\ tr_Source t = src).
    set (b t := streq (tr_AppID t) a && streq (tr_Type t) ty && streq (tr_Source t) src).
    assert (Hb : forall t, b t = true <-> P t).
    { intros t. unfold b, P. rewrite !andb_true_iff, !streq_spec. tauto. }
    pose proof (find_first_somebody tr_ID b P (m_Triggers m) (ids_trs _ Hi) Hb) as H.
    destruct (find_first b (m_Triggers m)) as [t|]; [|by right]. left. exists (tr_ID t), t. destruct H. done.
Qed.

Lemma sorted_like : let m' := Mock (sort_Sort app_Name (m_Apps m)) (m_Fns m) (m_Triggers m) in ids_ok m' /\ abs m' = abs m.
Proof.
  destruct Hi as [H1 H2 H3]. split; [by split; simpl; rewrite ?sort_perm|]. unfold abs. simpl.
  by rewrite <- (by_id_perm app_ID (m_Apps m)) by (done || symmetry; apply sort_perm).
Qed.
Lemma sorted_like_fns : let m' := Mock (m_Apps m) (sort_Sort fn_Name (m_Fns m)) (m_Triggers m) in ids_ok m' /\ abs m' = abs m.
Proof.
  destruct Hi as [H1 H2 H3]. split; [by split; simpl; rewrite ?sort_perm|]. unfold abs. simpl.
  by rewrite <- (by_id_perm fn_ID (m_Fns m)) by (done || symmetry; apply sort_perm).
Qed.
Lemma sorted_like_trs : let m' := Mock (m_Apps m) (m_Fns m) (sort_Sort tr_Name (m_Triggers m)) in ids_ok m' /\ abs m' = abs m.
Proof.
  destruct Hi as [H1 H2 H3]. split; [by split; simpl; rewrite ?sort_perm|]. unfold abs. simpl.
  by rewrite <- (by_id_perm tr_ID (m_Triggers m)) by (done || symmetry; apply sort_perm).
Qed.

Lemma GetApps_ok f c : page_cursor (af_Cursor f) = Ok c -> exists p, (mock_GetApps m f).2 = Ok p /\
  is_page app_Name (app_kept f c) (fun n => n =? af_PerPage f) (af_PerPage f) (s_apps (abs m)) p.
Proof.
  intros Hc. unfold mock_GetApps. cbn [snd]. rewrite Hc. cbn [obind]. eexists. split; [reflexivity|].
  rewrite (list_fmap_ext _ id) by (intros; apply App_Clone_eq). rewrite list_fmap_id. apply page_ok, Hi.
Qed.
Lemma GetFns_ok f c : page_cursor (ff_Cursor f) = Ok c -> exists p, (mock_GetFns m f).2 = Ok p /\
  is_page fn_Name (fn_kept f c) (bounded (ff_PerPage f)) (ff_PerPage f) (s_fns (abs m)) p.
Proof.
  intros Hc. unfold mock_GetFns. cbn [snd]. rewrite Hc. cbn [obind]. eexists. split; [reflexivity|]. apply page_ok, Hi.
Qed.
Lemma GetTriggers_ok f c : page_cursor (tf_Cursor f) = Ok c -> exists p, (mock_GetTriggers m f).2 = Ok p /\
  is_page tr_Name (trigger_kept f c) (bounded (tf_PerPage f)) (tf_PerPage f) (s_trs (abs m)) p.
Proof.
  intros Hc. unfold mock_GetTriggers. cbn [snd]. rewrite Hc. cbn [obind]. eexists. split; [reflexivity|]. apply page_ok, Hi.
Qed.

Lemma refines_lists now i o :
  match o with OGetApps _ | OGetFns _ | OGetTriggers _ => True | _ => False end -> refines now i o.
Proof.
  destruct o as [| | | | | | | | | | | | | |f|f|f]; intros [].
  - destruct sorted_like as [Hi' Ha]. split; [exact Hi'|]. split; [exact Ha|].
    destruct (page_cursor (af_Cursor f)) as [c|e|] eqn:Hc; [|simpl; by rewrite Hc..].
    destruct (GetApps_ok f c Hc) as (p & E & Hp). exists p. split; [|done]. by apply (f_equal (omap_ok VApps)) in E.
  - destruct sorted_like_fns as [Hi' Ha]. split; [exact Hi'|]. split; [exact Ha|].
    destruct (page_cursor (ff_Cursor f)) as [c|e|] eqn:Hc; [|simpl; by rewrite Hc..].
    destruct (GetFns_ok f c Hc) as (p & E & Hp). exists p. split; [|done]. by apply (f_equal (omap_ok VFns)) in E.
  - destruct sorted_like_trs as [Hi' Ha]. split; [exact Hi'|]. split; [exact Ha|].
    destruct (page_cursor (tf_Cursor f)) as [c|e|] eqn:Hc; [|simpl; by rewrite Hc..].
    destruct (GetTriggers_ok f c Hc) as (p & E & Hp). exists p. split; [|done]. by apply (f_equal (omap_ok VTriggers)) in E.
Qed.

Lemma refines_apps now i o : fresh_id m i ->
  match o with OInsertApp _ | OUpdateApp _ | ORemoveApp _ => True | _ => False end -> refines now i o.
Proof.
  intros (Hf & _ & _). pose proof Hi as [H1 H2 H3]. destruct o as [| |a|a|j| | | | | | | | | | | | ]; intros []; unfold refines; simpl.
  - pose proof (existsb_somebody app_ID (id_is app_Name (app_Name a)) (fun b => app_Name b = app_Name a) (m_Apps m) H1
      (id_is_spec app_Name (app_Name a))) as H.
    destruct (existsb _ _); [split; [done|]; by left|]. rewrite App_Clone_eq, Config_clone_eq. split.
    + split; simpl; [|done|done]. rewrite fmap_app. apply NoDup_snoc; [|done]. done.
    + right. split; [done|]. split; [|done]. unfold abs. simpl. by rewrite by_id_snoc.
  - unfold ds_spec. cbn [s_apps abs]. rewrite by_id_find.
    destruct (find_first (id_is app_ID (app_ID a)) (m_Apps m)) as [b|] eqn:E; [|done].
    destruct (_ && _); [done|]. rewrite App_Clone_eq.
    destruct (App_Update b a now) as [c|e|] eqn:Hu; cbn [obind]; [|done..].
    destruct (App_Validate url_scheme c); cbn [obind]; [|done..].
    apply App_Update_keeps in Hu as (Hid & _). apply find_first_Some in E as E'. destruct E' as [_ Hb%id_is_spec].
    assert (Hc : app_ID c = app_ID a) by congruence. split.
    + split; simpl; [by rewrite update_first_ids|done|done].
    + simpl. rewrite App_Clone_eq. split; [|done]. unfold abs. simpl. by rewrite (by_id_update app_ID _ _ c Hc) by (rewrite E; by eexists).
  - unfold ds_spec. cbn [s_apps abs]. rewrite by_id_find. unfold mock_RemoveApp.
    destruct (find_first (id_is app_ID j) (m_Apps m)) as [b|] eqn:E; [|done]. split.
    + split; simpl; [by apply remove_first_ids|..]; (eapply sublist_NoDup; [|apply fmap_sublist, sublist_filter]); done.
    + split; [|done]. unfold abs. simpl. by rewrite by_id_remove, !by_id_filter.
Qed.

Lemma refines_fns now i o : fresh_id m i ->
  match o with OInsertFn _ | OUpdateFn _ | ORemoveFn _ => True | _ => False end -> refines now i o.
Proof.
  intros (_ & Hf & _). pose proof Hi as [H1 H2 H3]. destruct o as [| | | | |f|f| |j| | | | | | | | ]; intros []; unfold refines; simpl.
  - unfold ds_spec. cbn [s_apps s_fns abs]. unfold mock_InsertFn. cbn [snd mock_GetAppByID]. unfold lookup_by. rewrite by_id_find.
    destruct (find_first (id_is app_ID (fn_AppID f)) (m_Apps m)); cbn [obind]; [|done].
    set (b g := streq (fn_ID g) (fn_ID f) || (streq (fn_AppID g) (fn_AppID f) && streq (fn_Name g) (fn_Name f))).
    assert (Hb : forall g, b g = true <-> same_fn f g).
    { intros g. unfold b, same_fn. rewrite orb_true_iff, andb_true_iff, !streq_spec. done. }
    pose proof (existsb_somebody fn_ID b (same_fn f) (m_Fns m) H2 Hb) as H.
    destruct (existsb b (m_Fns m)); cbn [negb]; [split; [done|]; by left|].
    destruct (Fn_Validate lim f) as [[]|e|] eqn:Hv; (split; [|right; split; [done|]; cbn [obind replaced]]); try done.
    + split; simpl; [done| |done]. rewrite fmap_app. by apply NoDup_snoc.
    + simpl. rewrite Fn_Clone_eq, Config_clone_eq, Annotations_clone_eq. split; [|done]. unfold abs. simpl. by rewrite by_id_snoc.
  - unfold ds_spec. cbn [s_fns abs]. rewrite by_id_find. unfold mock_UpdateFn.
    destruct (find_first (id_is fn_ID (fn_ID f)) (m_Fns m)) as [b|] eqn:E; [|done].
    rewrite Fn_Clone_eq. destruct (Fn_Update b f now) as [c|e|] eqn:Hu; cbn [obind]; [|done..].
    destruct (Fn_Validate lim c); cbn [obind]; [|done..].
    apply Fn_Update_keeps in Hu as (Hid & _). apply find_first_Some in E as E'. destruct E' as [_ Hb%id_is_spec].
    assert (Hc : fn_ID c = fn_ID f) by congruence. split.
    + split; simpl; [done|by rewrite update_first_ids|done].
    + simpl. split; [|done]. unfold abs. simpl. by rewrite (by_id_update fn_ID _ _ c Hc) by (rewrite E; by eexists).
  - unfold ds_spec. cbn [s_fns abs]. rewrite by_id_find. unfold mock_RemoveFn.
    destruct (find_first (id_is fn_ID j) (m_Fns m)) as [b|] eqn:E; [|done].
    apply find_first_Some in E as E'. destruct E' as [_ Hb%id_is_spec]. rewrite Hb. split.
    + split; simpl; [done|by apply remove_first_ids|]. eapply sublist_NoDup; [|apply fmap_sublist, sublist_filter]. done.
    + split; [|done]. unfold abs. simpl. by rewrite by_id_remove, !by_id_filter.
Qed.

Lemma trigger_clash_spec t l : NoDup (tr_ID <$> l) ->
  match trigger_clash t l with
  | Some e => (e = ErrTriggerExists /\ somebody (same_trigger t) (by_id tr_ID l)) \/
              (e = ErrTriggerSourceExists /\ somebody (same_source t) (by_id tr_ID l))
  | None => nobody (same_trigger t) (by_id tr_ID l) /\ nobody (same_source t) (by_id tr_ID l)
  end.
Proof.
  intros Hn.
  assert (Hs : forall P, (exists u, u ∈ l /\ P u) -> somebody P (by_id tr_ID l)).
  { intros P (u & Hu & HP). exists (tr_ID u), u. split; [by apply by_id_elem|done]. }
  assert (Hk : forall P, (forall u, u ∈ l -> ~ P u) -> nobody P (by_id tr_ID l)).
  { intros P H j u [Hu _]%by_id_elem HP; [by eapply H|done]. }
  assert (H : match trigger_clash t l with
    | Some e => (e = ErrTriggerExists /\ exists u, u ∈ l /\ same_trigger t u) \/
                (e = ErrTriggerSourceExists /\ exists u, u ∈ l /\ same_source t u)
    | None => forall u, u ∈ l -> ~ same_trigger t u /\ ~ same_source t u
    end).
  { clear Hn Hs Hk. induction l as [|u l IH]; [intros u Hu; by apply not_elem_of_nil in Hu|]. cbn [trigger_clash].
    match goal with |- context [if ?b then Some ErrTriggerExists else _] => assert (Hb1 : b = true <-> same_trigger t u) end.
    { unfold same_trigger. rewrite orb_true_iff, !andb_true_iff, !streq_spec. tauto. }
    match goal with |- context [if ?b then Some ErrTriggerSourceExists else _] => assert (Hb2 : b = true <-> same_source t u) end.
    { unfold same_source. rewrite !andb_true_iff, !streq_spec. tauto. }
    destruct (_ || _); [left; split; [done|]; exists u; split; [by left|by apply Hb1]|].
    destruct (_ && _); [right; split; [done|]; exists u; split; [by left|by apply Hb2]|].
    assert (N1 : ~ same_trigger t u) by (by intros H%Hb1). assert (N2 : ~ same_source t u) by (by intros H%Hb2).
    destruct (trigger_clash t l) as [e|].
    - destruct IH as [[-> (v & Hv & HP)]|[-> (v & Hv & HP)]]; [left|right]; (split; [done|]); exists v; (split; [by right|done]).
    - intros v [->|Hv]%elem_of_cons; auto. }
  destruct (trigger_clash t l) as [e|].
  - destruct H as [[-> H]|[-> H]]; [left|right]; split; auto.
  - split; apply Hk; intros u Hu; by apply H.
Qed.

Lemma refines_triggers now i o : fresh_id m i ->
  match o with OInsertTrigger _ | OUpdateTrigger _ | ORemoveTrigger _ => True | _ => False end -> refines now i o.
Proof.
  intros (_ & _ & Hf). pose proof Hi as [H1 H2 H3]. destruct o as [| | | | | | | | |t|t|j| | | | | ]; intros []; unfold refines; simpl.
  - unfold ds_spec. cbn [s_apps s_fns s_trs abs]. unfold mock_InsertTrigger. cbn [snd mock_GetAppByID mock_GetFnByID].
    unfold lookup_by. rewrite !by_id_find.
    destruct (find_first (id_is app_ID (tr_AppID t)) (m_Apps m)); cbn [obind]; [|done].
    destruct (find_first (id_is fn_ID (tr_FnID t)) (m_Fns m)) as [fn|]; cbn [obind]; [|done].
    destruct (streq (fn_AppID fn) (tr_AppID t)) eqn:Es.
    2: { split; [done|]. left. split; [|done]. intros E%streq_spec. congruence. }
    apply streq_spec in Es. pose proof (trigger_clash_spec t (m_Triggers m) H3) as Hc.
    destruct (trigger_clash t (m_Triggers m)) as [e|]; cbn [obind].
    { split; [done|]. right. split; [done|]. destruct Hc as [[-> H]|[-> H]]; [left|right; left]; done. }
    destruct Hc as [N1 N2]. destruct (Trigger_Validate t) as [[]|e|];
      (split; [|right; split; [done|]; right; right; split; [done|]; split; [done|]; cbn [obind replaced]]); try done.
    + split; simpl; [done|done|]. rewrite fmap_app. by apply NoDup_snoc.
    + simpl. split; [|done]. unfold abs. simpl. by rewrite by_id_snoc.
  - unfold ds_spec. cbn [s_trs abs]. rewrite by_id_find. unfold mock_UpdateTrigger, Trigger_Clone.
    destruct (find_first (id_is tr_ID (tr_ID t)) (m_Triggers m)) as [b|] eqn:E; [|done].
    destruct (Trigger_Update b t now) as [c|e|] eqn:Hu; cbn [obind]; [|done..].
    destruct (Trigger_Validate c); cbn [obind]; [|done..].
    apply Trigger_Update_keeps in Hu as (Hid & _). apply find_first_Some in E as E'. destruct E' as [_ Hb%id_is_spec].
    assert (Hc : tr_ID c = tr_ID t) by congruence. split.
    + split; simpl; [done|done|by rewrite update_first_ids].
    + simpl. split; [|done]. unfold abs. simpl. by rewrite (by_id_update tr_ID _ _ c Hc) by (rewrite E; by eexists).
  - unfold ds_spec. cbn [s_trs abs]. rewrite by_id_find. unfold mock_RemoveTrigger.
    destruct (find_first (id_is tr_ID j) (m_Triggers m)) as [b|] eqn:E; [|done]. split.
    + split; simpl; [done|done|by apply remove_first_ids].
    + split; [|done]. unfold abs. simpl. by rewrite by_id_remove.
Qed.

Lemma refines_all now i o : fresh_id m i -> refines now i o.
Proof.
  intros Hf. destruct o; first [by apply refines_gets|by apply refines_lists|by apply refines_apps|by apply refines_fns|by apply refines_triggers].
Qed.
End Refine.

(** ** Integrity: unique names, valid references *)

Record integrity (s : store) : Prop := {
  in_app_name : forall i j a b, s_apps s !! i = Some a -> s_apps s !! j = Some b -> app_Name a = app_Name b -> i = j;
  in_app_named : forall i a, s_apps s !! i = Some a -> app_Name a <> ""%string;
  in_fn_app : forall i f, s_fns s !! i = Some f -> is_Some (s_apps s !! fn_AppID f);
  in_fn_name : forall i j f g, s_fns s !! i = Some f -> s_fns s !! j = Some g ->
    fn_AppID f = fn_AppID g -> fn_Name f = fn_Name g -> i = j;
  in_fn_named : forall i f, s_fns s !! i = Some f -> fn_Name f <> ""%string;
  in_tr_fn : forall i t, s_trs s !! i = Some t -> exists f, s_fns s !! tr_FnID t = Some f /\ fn_AppID f = tr_AppID t;
  in_tr_name : forall i j t u, s_trs s !! i = Some t -> s_trs s !! j = Some u ->
    tr_AppID t = tr_AppID u -> tr_FnID t = tr_FnID u -> tr_Name t = tr_Name u -> i = j;
  in_tr_source : forall i j t u, s_trs s !! i = Some t -> s_trs s !! j = Some u -> same_source t u -> i = j;
  in_tr_named : forall i t, s_trs s !! i = Some t -> tr_Name t <> ""%string
}.

(** A patch of a trigger that changes nothing a constraint is about. *)
Definition keeps_keys (s : store) (o : ds_op) : Prop :=
  match o with
  | OUpdateTrigger p => forall t, s_trs s !! tr_ID p = Some t ->
      pick (tr_Name p) (tr_Name t) = tr_Name t /\ pick (tr_AppID p) (tr_AppID t) = tr_AppID t /\
      pick (tr_FnID p) (tr_FnID t) = tr_FnID t /\ pick (tr_Source p) (tr_Source t) = tr_Source t
  | _ => True
  end.

Ltac look := repeat match goal with
  | H : <[_ := _]> _ !! _ = Some _ |- _ => apply lookup_insert_Some in H as [[? ?]|[? ?]]
  | H : base.delete _ _ !! _ = Some _ |- _ => apply lookup_delete_Some in H as [? ?]
  | H : base.filter _ _ !! _ = Some _ |- _ => apply map_lookup_filter_Some in H as [? ?]
  end; subst; simpl in *.

(** The resource that [Hno] says is not there. *)
Ltac clash Hno := match goal with H : _ !! _ = Some _ |- _ => exfalso; apply (Hno _ _ H); solve [done|congruence|right; split_and!; congruence|split_and!; congruence] end.

Section Integrity.
Context {MR : MapRange} {U : UnicodeTables}.
Context (url_scheme : string -> outcome string string) (lim : Limits).
Context (s : store) (Hi : integrity s).

(** The constraints on functions and triggers do not look at the rest of an
    application, nor those on triggers at the rest of a function. *)
Lemma integrity_apps m : (forall i a, m !! i = Some a -> app_Name a <> ""%string) ->
  (forall i j a b, m !! i = Some a -> m !! j = Some b -> app_Name a = app_Name b -> i = j) ->
  (forall i, is_Some (s_apps s !! i) -> is_Some (m !! i)) -> integrity (Store m (s_fns s) (s_trs s)).
Proof. intros H1 H2 H3. destruct Hi. split; simpl; eauto. Qed.

Lemma integrity_fns m : (forall i f, m !! i = Some f -> is_Some (s_apps s !! fn_AppID f) /\ fn_Name f <> ""%string) ->
  (forall i j f g, m !! i = Some f -> m !! j = Some g -> fn_AppID f = fn_AppID g -> fn_Name f = fn_Name g -> i = j) ->
  (forall i f, s_fns s !! i = Some f -> exists g, m !! i = Some g /\ fn_AppID g = fn_AppID f) ->
  integrity (Store (s_apps s) m (s_trs s)).
Proof.
  intros H1 H2 H3. destruct Hi. split; simpl; try done; try (intros; by eapply H1).
  intros i t Ht. destruct (in_tr_fn0 i t Ht) as (f & Hf & Ha). destruct (H3 _ _ Hf) as (g & ? & ?). exists g. by rewrite <- Ha.
Qed.

Lemma integrity_trs m :
  (forall i t, m !! i = Some t -> tr_Name t <> ""%string /\ exists f, s_fns s !! tr_FnID t = Some f /\ fn_AppID f = tr_AppID t) ->
  (forall i j t u, m !! i = Some t -> m !! j = Some u -> tr_AppID t = tr_AppID u -> tr_FnID t = tr_FnID u -> tr_Name t = tr_Name u -> i = j) ->
  (forall i j t u, m !! i = Some t -> m !! j = Some u -> same_source t u -> i = j) ->
  integrity (Store (s_apps s) (s_fns s) m).
Proof. intros H1 H2 H3. destruct Hi. split; simpl; try done; intros; by eapply H1. Qed.

Lemma integrity_apps_spec now i o r s' : s_apps s !! i = None ->
  match o with OInsertApp a => app_Name a <> ""%string | OUpdateApp _ | ORemoveApp _ => True | _ => False end ->
  ds_spec url_scheme lim s now i o r s' -> integrity s'.
Proof.
  intros Hf Ho H. destruct o as [| |a|a|j| | | | | | | | | | | | ]; try done; simpl in H.
  - destruct H as [(_ & -> & _)|(Hno & -> & _)]; [done|]. apply integrity_apps.
    + intros j b Hb. look; [done|]. by eapply in_app_named.
    + intros j k b c Hb Hc E. look; try done.
      * clash Hno.
      * clash Hno.
      * by eapply in_app_name.
    + intros j [b Hb]. destruct (decide (j = i)) as [->|]; [by rewrite lookup_insert_eq|by rewrite lookup_insert_ne; [eexists|]].
  - destruct (s_apps s !! app_ID a) as [b|] eqn:E; [|by destruct H as [-> _]]. destruct (_ && _); [by destruct H as [-> _]|].
    destruct (App_Update b a now) as [c|e|] eqn:Hu; cbn [obind replaced] in H; [|by destruct H as [-> _]..].
    destruct (App_Validate url_scheme c); cbn [obind replaced] in H; [|by destruct H as [-> _]..]. destruct H as [-> _].
    apply App_Update_keeps in Hu as (_ & Hn & _). apply integrity_apps.
    + intros j d Hd. look; [rewrite Hn|]; by eapply in_app_named.
    + intros j k d e Hd He Ee. look; try done; [| |by eapply in_app_name]; rewrite Hn in Ee; by eapply in_app_name.
    + intros j [d Hd]. destruct (decide (j = app_ID a)) as [->|]; [by rewrite lookup_insert_eq|by rewrite lookup_insert_ne; [eexists|]].
  - destruct (s_apps s !! j) as [b|] eqn:E; [|by destruct H as [-> _]]. destruct H as [-> _]. destruct Hi. split; simpl; intros; look; eauto.
    + destruct (in_fn_app0 _ _ H) as [d Hd]. exists d. by apply lookup_delete_Some.
    + destruct (in_tr_fn0 _ _ H) as (f & Hff & Ha). exists f. split; [|done]. apply map_lookup_filter_Some. split; [done|]. simpl. congruence.
Qed.

Lemma integrity_fns_spec now i o r s' : s_fns s !! i = None ->
  match o with OInsertFn _ | OUpdateFn _ | ORemoveFn _ => True | _ => False end ->
  ds_spec url_scheme lim s now i o r s' -> integrity s'.
Proof.
  intros Hf Ho H. destruct o as [| | | | |f|f| |j| | | | | | | | ]; try done; simpl in H.
  - destruct (s_apps s !! fn_AppID f) as [a|] eqn:Ea; [|by destruct H as [-> _]].
    destruct H as [(_ & -> & _)|(Hno & H)]; [done|].
    destruct (Fn_Validate lim f) as [[]|e|] eqn:Hv; cbn [obind replaced] in H; [|by destruct H as [-> _]..]. destruct H as [-> _].
    assert (Hnm : fn_Name f <> ""%string).
    { unfold Fn_Validate, Fn_ValidateName in Hv. intros E. by rewrite E in Hv. }
    apply integrity_fns.
    + intros j g Hg. look; [by rewrite Ea|]. split; [by eapply in_fn_app|by eapply in_fn_named].
    + intros j k g h Hg Hh Eg En. look; try done.
      * clash Hno.
      * clash Hno.
      * by eapply in_fn_name.
    + intros j g Hg. exists g. rewrite lookup_insert_ne; [done|]. congruence.
  - destruct (s_fns s !! fn_ID f) as [g|] eqn:E; [|by destruct H as [-> _]].
    destruct (Fn_Update g f now) as [c|e|] eqn:Hu; cbn [obind replaced] in H; [|by destruct H as [-> _]..].
    destruct (Fn_Validate lim c); cbn [obind replaced] in H; [|by destruct H as [-> _]..]. destruct H as [-> _].
    apply Fn_Update_keeps in Hu as (_ & Hn & Ha). apply integrity_fns.
    + intros j h Hh. look; [rewrite Hn, Ha|]; (split; [by eapply in_fn_app|by eapply in_fn_named]).
    + intros j k h h' Hh Hh' Ea En. look; try done; [rewrite Ha, ?Hn in *..|]; by eapply in_fn_name.
    + intros j h Hh. destruct (decide (j = fn_ID f)) as [->|].
      * exists c. rewrite lookup_insert_eq. split; [done|]. congruence.
      * exists h. by rewrite lookup_insert_ne.
  - destruct (s_fns s !! j) as [g|] eqn:E; [|by destruct H as [-> _]]. destruct H as [-> _]. destruct Hi. split; simpl; intros; look; eauto.
    destruct (in_tr_fn0 _ _ H) as (f & Hff & Ha). exists f. split; [|done]. by apply lookup_delete_Some.
Qed.

Lemma integrity_trs_spec now i o r s' : s_trs s !! i = None -> keeps_keys s o ->
  match o with OInsertTrigger _ | OUpdateTrigger _ | ORemoveTrigger _ => True | _ => False end ->
  ds_spec url_scheme lim s now i o r s' -> integrity s'.
Proof.
  intros Hf Hkeep Ho H. destruct o as [| | | | | | | | |t|t|j| | | | | ]; try done; simpl in H.
  - destruct (s_apps s !! tr_AppID t) as [a|] eqn:Ea; [|by destruct H as [-> _]].
    destruct (s_fns s !! tr_FnID t) as [f|] eqn:Ef; [|by destruct H as [-> _]].
    destruct H as [(_ & -> & _)|(Ha & [(_ & -> & _)|[(_ & -> & _)|(N1 & N2 & H)]])]; try done.
    destruct (Trigger_Validate t) as [[]|e|] eqn:Hv; cbn [obind replaced] in H; [|by destruct H as [-> _]..]. destruct H as [-> _].
    assert (Hnm : tr_Name t <> ""%string).
    { unfold Trigger_Validate, Trigger_ValidateName in Hv. intros E. rewrite E in Hv. by destruct (streq (tr_AppID t) ""). }
    apply integrity_trs.
    + intros j u Hu. look; [split; [done|by exists f]|]. split; [by eapply in_tr_named|by eapply in_tr_fn].
    + intros j k u v Hu Hv' E1 E2 E3. look; try done; [clash N1..|by eapply in_tr_name].
    + intros j k u v Hu Hv' (E1 & E2 & E3). look; try done; [clash N2..|].
      eapply (in_tr_source _ Hi); [done..|by split].
  - destruct (s_trs s !! tr_ID t) as [u|] eqn:E; [|by destruct H as [-> _]].
    destruct (Trigger_Update u t now) as [c|e|] eqn:Hu; cbn [obind replaced] in H; [|by destruct H as [-> _]..].
    destruct (Trigger_Validate c); cbn [obind replaced] in H; [|by destruct H as [-> _]..]. destruct H as [-> _].
    apply Trigger_Update_keeps in Hu as (_ & Hty & Hn & Ha & Hfn & Hs). destruct (Hkeep u E) as (K1 & K2 & K3 & K4).
    rewrite K1 in Hn. rewrite K2 in Ha. rewrite K3 in Hfn. rewrite K4 in Hs. apply integrity_trs.
    + intros j v Hv. look; [rewrite Hn, Ha, Hfn|]; (split; [by eapply in_tr_named|by eapply in_tr_fn]).
    + intros j k v w Hv Hw E1 E2 E3. look; try done; [rewrite ?Hn, ?Ha, ?Hfn in *..|]; by eapply in_tr_name.
    + intros j k v w Hv Hw (E1 & E2 & E3). look; try done; [rewrite ?Hty, ?Ha, ?Hs in *..|]; by eapply (in_tr_source _ Hi).
  - destruct (s_trs s !! j) as [u|] eqn:E; [|by destruct H as [-> _]]. destruct H as [-> _]. destruct Hi. split; simpl; intros; look; eauto.
Qed.

Lemma integrity_spec now i o r s' : s_apps s !! i = None -> s_fns s !! i = None -> s_trs s !! i = None -> keeps_keys s o ->
  match o with OInsertApp a => app_Name a <> ""%string | _ => True end ->
  ds_spec url_scheme lim s now i o r s' -> integrity s'.
Proof.
  intros F1 F2 F3 Hk Ho H.
  destruct o as [| |a|a|j|f|f| |j|t|t|j| | | | | ]; try (by destruct H as [-> _]).
  - by apply (integrity_apps_spec now i (OInsertApp a) r).
  - by apply (integrity_apps_spec now i (OUpdateApp a) r).
  - by apply (integrity_apps_spec now i (ORemoveApp j) r).
  - by apply (integrity_fns_spec now i (OInsertFn f) r).
  - by apply (integrity_fns_spec now i (OUpdateFn f) r).
  - by apply (integrity_fns_spec now i (ORemoveFn j) r).
  - by apply (integrity_trs_spec now i (OInsertTrigger t) r).
  - by apply (integrity_trs_spec now i (OUpdateTrigger t) r).
  - by apply (integrity_trs_spec now i (ORemoveTrigger j) r).
Qed.
End Integrity.

(** ** The store behind the checks *)

Section Checked.
Context {MR : MapRange} {U : UnicodeTables} {GS : GoSort}.
Context (url_scheme : string -> outcome string string) (lim : Limits).

#[local] Instance store_mock' : Datastore mock := mock_Datastore url_scheme lim.
#[local] Instance store_validator : Datastore (validator mock) := validator_Datastore url_scheme.

(** The wrapper refuses, or passes the operation on. *)
Lemma validator_run v now i o v' r : ds_run v now i o = (v', r) ->
  v' = v \/ (ds_run (v_ds v) now i o = (v_ds v', r) /\ match o with OInsertApp a => app_Name a <> ""%string | _ => True end).
Proof.
  assert (Hin : forall A (f : A -> ds_val) (x : dres mock A), giving f (inside Validator x) = (v', r) -> giving f x = (v_ds v', r)).
  { intros A f [d x]. unfold giving, inside. simpl. by intros [= <- <-]. }
  assert (Hck : forall A (f : A -> ds_val) l (x : dres mock A), giving f (checked v l x) = (v', r) -> v' = v \/ giving f x = (v_ds v', r)).
  { intros A f l x. unfold checked. destruct (first_failed l); [|by right; eauto]. intros [= <- _]. by left. }
  destruct o; cbn [ds_run ds_GetAppByID ds_GetAppID ds_GetApps ds_InsertApp ds_UpdateApp ds_RemoveApp ds_InsertFn ds_UpdateFn
    ds_GetFns ds_GetFnByID ds_RemoveFn ds_InsertTrigger ds_UpdateTrigger ds_RemoveTrigger ds_GetTriggerByID ds_GetTriggers
    ds_GetTriggerBySource store_validator validator_Datastore validator_GetAppByID validator_GetAppID validator_UpdateApp
    validator_RemoveApp validator_InsertFn validator_GetFnByID validator_RemoveFn validator_InsertTrigger
    validator_RemoveTrigger validator_GetFns validator_GetTriggers];
    try (intros [H|H]%Hck; [by left|by right]); try (intros H%Hin; by right).
  unfold validator_InsertApp. destruct (negb _); [intros [= <- _]; by left|].
  destruct (App_Validate url_scheme a) as [u|e|] eqn:Hv; [|intros [= <- _]; by left..].
  intros H%Hin. right. split; [done|]. intros E. unfold App_Validate, App_ValidateName in Hv. by rewrite E in Hv.
Qed.

(** One operation of a client, with an id that is new. *)
Inductive ds_step : validator mock -> validator mock -> Prop :=
| ds_do v now i o v' r : fresh_id (v_ds v) i -> keeps_keys (abs (v_ds v)) o -> ds_run v now i o = (v', r) -> ds_step v v'.

Lemma fresh_abs m i : fresh_id m i -> s_apps (abs m) !! i = None /\ s_fns (abs m) !! i = None /\ s_trs (abs m) !! i = None.
Proof.
  intros (H1 & H2 & H3). unfold abs, by_id. simpl. split_and!; apply not_elem_of_list_to_map_1; by rewrite <- list_fmap_compose.
Qed.

Definition db_ok (m : mock) : Prop := ids_ok m /\ integrity (abs m).

Lemma ds_step_ok v v' : ds_step v v' -> db_ok (v_ds v) -> db_ok (v_ds v').
Proof.
  intros [v0 now i o v1 r Hf Hk H] [Hi Hn]. destruct (validator_run _ _ _ _ _ _ H) as [->|[H' Ho]]; [done|].
  pose proof (refines_all url_scheme lim (v_ds v0) Hi now i o Hf) as Hr. unfold refines in Hr.
  change (store_mock url_scheme lim) with store_mock' in Hr. rewrite H' in Hr. destruct Hr as [Hi' Hs]. split; [done|].
  destruct (fresh_abs _ _ Hf) as (F1 & F2 & F3). by eapply integrity_spec.
Qed.

Lemma NewMock_ok : db_ok NewMock.
Proof. split; [split; constructor|]. split; unfold abs, by_id; simpl; intros *; rewrite ?lookup_empty; done. Qed.

Lemma ds_reach_ok v : rtc ds_step (Validator NewMock) v -> db_ok (v_ds v).
Proof.
  intros H. remember (Validator NewMock) as v0. assert (Hi : db_ok (v_ds v0)) by (subst; apply NewMock_ok).
  clear Heqv0. induction H as [|x y z Hxy Hyz IH]; [done|]. by eapply IH, ds_step_ok.
Qed.
End Checked.

(** ** Following the cursors of a list *)

(** A client that asks for pages until the cursor is empty. *)
Fixpoint all_pages {D A} (get : D -> string -> dres D (page A)) (fuel : nat) (d : D) (cursor : string) : option (dres D (list A)) :=
  match fuel with
  | O => None
  | S fuel =>
      match get d cursor with
      | (d, Ok p) =>
          if streq (NextCursor p) "" then Some (d, Ok (Items p))
          else match all_pages get fuel d (NextCursor p) with
               | Some (d, Ok l) => Some (d, Ok (Items p ++ l))
               | r => r
               end
      | (d, Err e) => Some (d, Err e)
      | (d, Panic) => Some (d, Panic)
      end
  end.

Lemma filter_length_lt {A} (P Q : A -> bool) l x : (forall y, P y = true -> Q y = true) -> x ∈ l -> Q x = true -> P x = false ->
  (length (base.filter (fun y => P y = true) l) < length (base.filter (fun y => Q y = true) l))%nat.
Proof.
  intros Hpq Hx HQ HP.
  assert (Hle : forall l, (length (base.filter (fun y => P y = true) l) <= length (base.filter (fun y => Q y = true) l))%nat).
  { clear l Hx. intros l. induction l as [|y l IH]; [done|]. rewrite !filter_cons. specialize (Hpq y).
    destruct (decide (P y = true)) as [E|]; [rewrite decide_True by auto; simpl; lia|].
    destruct (decide (Q y = true)); simpl; lia. }
  induction l as [|y l IH]; [by apply not_elem_of_nil in Hx|]. rewrite !filter_cons.
  apply elem_of_cons in Hx as [<-|Hx].
  - rewrite (decide_False (P := P x = true)), (decide_True (P := Q x = true)) by congruence. specialize (Hle l). simpl. lia.
  - specialize (IH Hx). specialize (Hpq y). destruct (decide (P y = true)) as [E|]; [rewrite decide_True by auto; simpl; lia|].
    destruct (decide (Q y = true)); simpl; lia.
Qed.

Definition by_name {A} (name : A -> string) (x y : A) : Prop := strlt (name x) (name y) = true.

Lemma StronglySorted_app2 {A} (R : A -> A -> Prop) l k : StronglySorted R l -> StronglySorted R k ->
  (forall x y, x ∈ l -> y ∈ k -> R x y) -> StronglySorted R (l ++ k).
Proof.
  intros Hl Hk H. induction Hl as [|x l Hl IH Hf]; [done|]. simpl. constructor.
  - apply IH. intros y z Hy Hz. apply H; [by right|done].
  - apply Forall_app. split; [done|]. apply Forall_forall. intros y Hy. apply H; [by left|done].
Qed.

Section Paging.
Context {D A : Type} (get : D -> string -> dres D (page A)) (Inv : D -> Prop).
Context (name : A -> string) (keep : A -> bool) (full : Z -> bool) (per : Z) (M : gmap string A).
Context (Hget : forall d cur c, Inv d -> page_cursor cur = Ok c -> (c = ""%string -> cur = ""%string) ->
  exists d' p, get d cur = (d', Ok p) /\ Inv d' /\ is_page name (fun x => strlt c (name x) && keep x) full per M p).
Context (Hper : 0 < per) (Hfull : forall n, full n = true -> n = per).
Context (Huniq : forall i j x y, M !! i = Some x -> M !! j = Some y -> keep x = true -> keep y = true -> name x = name y -> i = j).
Context (Hnamed : forall i x, M !! i = Some x -> name x <> ""%string).

(** What is still to come after the name [c]. *)
Definition rest (c : string) : nat := length (base.filter (fun x => strlt c (name x) && keep x = true) (map_to_list M).*2).

Lemma in_values x : x ∈ (map_to_list M).*2 <-> exists i, M !! i = Some x.
Proof.
  rewrite list_elem_of_fmap. split.
  - intros ([i y] & -> & Hy). exists i. by apply elem_of_map_to_list.
  - intros [i Hi]. exists (i, x). split; [done|]. by apply elem_of_map_to_list.
Qed.

Lemma page_sorted c p : is_page name (fun x => strlt c (name x) && keep x) full per M p -> StronglySorted (by_name name) (Items p).
Proof.
  intros (_ & Hs & Hn & Hin & _).
  assert (H : forall x y, x ∈ Items p -> y ∈ Items p -> x <> y -> str_le (name x) (name y) -> by_name name x y).
  { intros x y Hx Hy Hne Hle. apply str_le_lt; [done|]. intros E. apply Hne.
    destruct (Hin x Hx) as [[_ Kx]%andb_prop [i Hix]]. destruct (Hin y Hy) as [[_ Ky]%andb_prop [j Hjy]].
    assert (i = j) as -> by by eapply Huniq. congruence. }
  clear Hin. induction Hs as [|x l Hs IH Hf]; [constructor|]. apply NoDup_cons in Hn as [Hx Hn]. constructor.
  - apply IH; [done|]. intros y z Hy Hz. apply H; by right.
  - rewrite Forall_forall in *. intros y Hy. apply H; [by left|by right|by intros ->|by apply Hf].
Qed.

Lemma all_pages_ok fuel : forall d cur c, Inv d -> page_cursor cur = Ok c -> (c = ""%string -> cur = ""%string) -> (rest c < fuel)%nat ->
  exists d' l, all_pages get fuel d cur = Some (d', Ok l) /\ Inv d' /\ StronglySorted (by_name name) l /\
    forall x, x ∈ l <-> strlt c (name x) && keep x = true /\ exists i, M !! i = Some x.
Proof.
  induction fuel as [|fuel IH]; intros d cur c Hd Hc Hc0 Hr; [lia|]. cbn [all_pages].
  destruct (Hget d cur c Hd Hc Hc0) as (d1 & p & -> & Hd1 & Hp). pose proof (page_sorted c p Hp) as Hso.
  destruct Hp as (Ep & _ & Hn & Hin & Hout).
  assert (Hlast : forall y, last (Items p) = Some y -> y ∈ Items p).
  { intros y [l' E]%last_Some. rewrite E. apply elem_of_app. right. by left. }
  assert (EN : NextCursor p = nextCursor name per (Items p)) by (by rewrite Ep). clear Ep.
  rewrite EN. unfold nextCursor in *.
  destruct (last (Items p)) as [y|] eqn:El.
  - destruct (Hin y (Hlast y eq_refl)) as [Ky [j Hj]].
    destruct (Z.eqb_spec (Z.of_nat (length (Items p))) per) as [Elen|Elen].
    2: { exists d1, (Items p). split; [done|]. split; [done|]. split; [done|]. intros x. split; [apply Hin|].
         intros [Hk [i Hi]]. destruct (Hout i x Hi Hk) as [?|[Hf _]]; [done|]. by apply Hfull in Hf. }
    assert (En : EncodeToString (name y) <> ""%string).
    { intros E%EncodeToString_empty. by eapply Hnamed. }
    destruct (streq (EncodeToString (name y)) "") eqn:Es; [by apply streq_spec in Es|].
    assert (Hcy : strlt c (name y) = true) by by apply andb_prop in Ky as [? _].
    destruct (IH d1 (EncodeToString (name y)) (name y)) as (d2 & l & E2 & Hd2 & Hs2 & Hl); [done|..].
    + unfold page_cursor. by rewrite Es, DecodeString_EncodeToString.
    + intros E. by destruct (Hnamed j y).
    + enough (rest (name y) < rest c)%nat by lia. unfold rest. eapply (filter_length_lt _ _ _ y).
      * intros z [H1 H2]%andb_prop. rewrite (strlt_trans c (name y) (name z) Hcy H1). by rewrite H2.
      * apply in_values. by exists j.
      * done.
      * by rewrite strlt_irrefl.
    + rewrite E2. exists d2, (Items p ++ l). split; [done|]. split; [done|].
      assert (Hyl : forall x, x ∈ Items p -> x = y \/ by_name name x y).
      { apply last_Some in El as [l' El]. rewrite El in Hso |- *. intros x [Hx|Hx]%elem_of_app; [right|left; by apply list_elem_of_singleton].
        eapply StronglySorted_app_le; [exact Hso|done|by left]. }
      split.
      * apply StronglySorted_app2; [done|done|]. intros x z Hx [[Hz _]%andb_prop _]%Hl.
        destruct (Hyl x Hx) as [->|H]; [done|]. by eapply strlt_trans.
      * intros x. rewrite elem_of_app, Hl. split.
        -- intros [Hx|[[H1 H2]%andb_prop H3]]; [by apply Hin|]. by rewrite (strlt_trans _ _ _ Hcy H1), H2.
        -- intros [Hk [i Hi]]. destruct (Hout i x Hi Hk) as [?|[_ Hle]]; [by left|].
           apply andb_prop in Hk as [_ Hk]. apply andb_prop in Ky as [_ Ky].
           destruct (decide (name y = name x)) as [E|E].
           ++ left. assert (i = j) as -> by by eapply Huniq. simplify_eq. by apply Hlast.
           ++ right. rewrite Hk, andb_true_r. split; [|by exists i]. apply str_le_lt; [by apply Hle, Hlast|done].
  - exists d1, (Items p). split; [done|]. split; [done|]. split; [done|]. intros x. split; [apply Hin|].
    intros [Hk [i Hi]]. destruct (Hout i x Hi Hk) as [?|[Hf _]]; [done|].
    apply Hfull in Hf. apply last_None in El. rewrite El in Hf. simpl in Hf. lia.
Qed.
End Paging.

(** ** Theorems *)

Section Lists.
Context {MR : MapRange} {GS : GoSort}.

Definition like (m m' : mock) : Prop := ids_ok m' /\ abs m' = abs m.

Lemma is_page_ext {A} (name : A -> string) k k' full per M p : (forall i x, M !! i = Some x -> k x = k' x) ->
  is_page name k full per M p -> is_page name k' full per M p.
Proof.
  intros E (H1 & H2 & H3 & H4 & H5). split; [done|]. split; [done|]. split; [done|]. split.
  - intros x Hx. destruct (H4 x Hx) as [Hk [i Hi]]. rewrite (E i x Hi) in Hk. split; [done|by exists i].
  - intros i x Hx Hk. rewrite <- (E i x Hx) in Hk. by eapply H5.
Qed.

Lemma rest_length {A} (name : A -> string) keep (f : A -> string) l c : NoDup (f <$> l) ->
  (rest name keep (by_id f l) c < S (length l))%nat.
Proof.
  intros Hn. unfold rest, by_id. rewrite map_to_list_to_map by (by rewrite <- list_fmap_compose).
  rewrite <- list_fmap_compose, list_fmap_id. pose proof (length_filter (fun x => strlt c (name x) && keep x = true) l). lia.
Qed.

Lemma in_by_id {A} (f : A -> string) l x : NoDup (f <$> l) -> (exists i, by_id f l !! i = Some x) <-> x ∈ l.
Proof.
  intros Hn. split; [by intros [i [Hx _]%by_id_elem]|]. intros Hx. exists (f x). by apply by_id_elem.
Qed.

Lemma listed_elem {A} (f name : A -> string) keep (l0 l : list A) : NoDup (f <$> l0) ->
  (forall i x, by_id f l0 !! i = Some x -> name x <> ""%string) ->
  (forall x, x ∈ l <-> strlt "" (name x) && keep x = true /\ exists i, by_id f l0 !! i = Some x) ->
  forall x, x ∈ l <-> x ∈ l0 /\ keep x = true.
Proof.
  intros Hn Hnm Hl x. rewrite Hl, andb_true_iff, (in_by_id f) by done. split; [tauto|]. intros [Hx Hk].
  split; [split; [|done]|done]. apply strlt_empty, (Hnm (f x)). by apply by_id_elem.
Qed.

Lemma bounded_full per n : 0 < per -> bounded per n = true -> n = per.
Proof. unfold bounded. intros Hp [_ H%Z.eqb_eq]%andb_prop. done. Qed.

Lemma apps_complete m name per : db_ok m -> 0 < per ->
  exists m' l, all_pages (fun m c => mock_GetApps m (MkAppFilter name per c)) (S (length (m_Apps m))) m "" = Some (m', Ok l) /\
    like m m' /\ StronglySorted (by_name app_Name) l /\
    forall a, a ∈ l <-> a ∈ m_Apps m /\ matches name (app_Name a) = true.
Proof.
  intros [Hi Hn] Hp.
  destruct (all_pages_ok (fun m c => mock_GetApps m (MkAppFilter name per c)) (like m) app_Name (fun a => matches name (app_Name a))
    (fun n => n =? per) per (s_apps (abs m))) with (fuel := S (length (m_Apps m))) (d := m) (cur := ""%string) (c := ""%string)
    as (m' & l & E & Hm' & Hs & Hl); try done.
  - intros d cur c [Hd Ha] Hc _. destruct (GetApps_ok d Hd (MkAppFilter name per cur) c Hc) as (p & E & Hpg).
    rewrite Ha in Hpg. exists (mock_GetApps d (MkAppFilter name per cur)).1, p. split; [by rewrite <- E|]. split; [|done].
    destruct (sorted_like d Hd). split; [done|]. by rewrite <- Ha.
  - intros n. by apply Z.eqb_eq.
  - intros i j x y Hx Hy _ _ E. by eapply (in_app_name _ Hn).
  - apply (in_app_named _ Hn).
  - apply rest_length, Hi.
  - exists m', l. split; [exact E|]. split; [done|]. split; [done|].
    apply (listed_elem app_ID app_Name _ _ _ (ids_apps _ Hi) (in_app_named _ Hn) Hl).
Qed.

Lemma fns_complete m app name per : db_ok m -> app <> ""%string -> 0 < per ->
  exists m' l, all_pages (fun m c => mock_GetFns m (MkFnFilter app name c per)) (S (length (m_Fns m))) m "" = Some (m', Ok l) /\
    like m m' /\ StronglySorted (by_name fn_Name) l /\
    forall f, f ∈ l <-> f ∈ m_Fns m /\ fn_AppID f = app /\ matches name (fn_Name f) = true.
Proof.
  intros [Hi Hn] Happ Hp. set (keep f := matches app (fn_AppID f) && matches name (fn_Name f)).
  assert (Hk : forall f, keep f = true <-> fn_AppID f = app /\ matches name (fn_Name f) = true).
  { intros f. unfold keep, matches at 1. rewrite andb_true_iff, orb_true_iff, !streq_spec. naive_solver. }
  destruct (all_pages_ok (fun m c => mock_GetFns m (MkFnFilter app name c per)) (like m) fn_Name keep (bounded per) per (s_fns (abs m)))
    with (fuel := S (length (m_Fns m))) (d := m) (cur := ""%string) (c := ""%string) as (m' & l & E & Hm' & Hs & Hl); try done.
  - intros d cur c [Hd Ha] Hc _. destruct (GetFns_ok d Hd (MkFnFilter app name cur per) c Hc) as (p & E & Hpg).
    rewrite Ha in Hpg. exists (mock_GetFns d (MkFnFilter app name cur per)).1, p. split; [by rewrite <- E|]. split.
    + destruct (sorted_like_fns d Hd). split; [done|]. by rewrite <- Ha.
    + eapply is_page_ext; [|exact Hpg]. intros i x _. unfold fn_kept, keep. by rewrite andb_assoc.
  - intros n. by apply bounded_full.
  - intros i j x y Hx Hy [Kx _]%Hk [Ky _]%Hk E. eapply (in_fn_name _ Hn); try done. congruence.
  - apply (in_fn_named _ Hn).
  - apply rest_length, Hi.
  - exists m', l. split; [exact E|]. split; [done|]. split; [done|]. intros f. rewrite <- Hk.
    apply (listed_elem fn_ID fn_Name _ _ _ (ids_fns _ Hi) (in_fn_named _ Hn) Hl).
Qed.

Lemma triggers_complete m app fn name per : db_ok m -> fn <> ""%string -> 0 < per ->
  exists m' l, all_pages (fun m c => mock_GetTriggers m (MkTriggerFilter app fn name c per)) (S (length (m_Triggers m))) m "" = Some (m', Ok l) /\
    like m m' /\ StronglySorted (by_name tr_Name) l /\
    forall t, t ∈ l <-> t ∈ m_Triggers m /\ tr_AppID t = app /\ tr_FnID t = fn /\ matches name (tr_Name t) = true.
Proof.
  intros [Hi Hn] Hfn Hp. set (keep t := streq (tr_AppID t) app && matches fn (tr_FnID t) && matches name (tr_Name t)).
  assert (Hk : forall t, keep t = true <-> tr_AppID t = app /\ tr_FnID t = fn /\ matches name (tr_Name t) = true).
  { intros t. unfold keep, matches at 1. rewrite !andb_true_iff, orb_true_iff, !streq_spec. naive_solver. }
  destruct (all_pages_ok (fun m c => mock_GetTriggers m (MkTriggerFilter app fn name c per)) (like m) tr_Name keep (bounded per) per (s_trs (abs m)))
    with (fuel := S (length (m_Triggers m))) (d := m) (cur := ""%string) (c := ""%string) as (m' & l & E & Hm' & Hs & Hl); try done.
  - intros d cur c [Hd Ha] Hc H0. destruct (GetTriggers_ok d Hd (MkTriggerFilter app fn name cur per) c Hc) as (p & E & Hpg).
    rewrite Ha in Hpg. exists (mock_GetTriggers d (MkTriggerFilter app fn name cur per)).1, p. split; [by rewrite <- E|]. split.
    + destruct (sorted_like_trs d Hd). split; [done|]. by rewrite <- Ha.
    + eapply is_page_ext; [|exact Hpg]. intros i t Ht. unfold trigger_kept, keep. cbn [tf_Cursor tf_AppID tf_FnID tf_Name].
      rewrite !andb_assoc. do 3 f_equal. destruct (streq cur "") eqn:Ec; [|done]. apply streq_spec in Ec as ->.
      injection Hc as <-. symmetry. apply strlt_empty. by eapply (in_tr_named _ Hn).
  - intros n. by apply bounded_full.
  - intros i j x y Hx Hy (K1 & K2 & _)%Hk (L1 & L2 & _)%Hk E. eapply (in_tr_name _ Hn); try done; congruence.
  - apply (in_tr_named _ Hn).
  - apply rest_length, Hi.
  - exists m', l. split; [exact E|]. split; [done|]. split; [done|]. intros t. rewrite <- Hk.
    apply (listed_elem tr_ID tr_Name _ _ _ (ids_trs _ Hi) (in_tr_named _ Hn) Hl).
Qed.
End Lists.

Lemma replaced_error {A} (f : A -> ds_val) c s put r s' : replaced f c s put r s' -> (forall v, r <> Ok v) -> s' = s.
Proof. destruct c; intros [-> ->] H; try done. by destruct (H (f a)). Qed.

Lemma spec_error {MR : MapRange} {U : UnicodeTables} url_scheme lim s now i o r s' :
  ds_spec url_scheme lim s now i o r s' -> (forall v, r <> Ok v) -> s' = s.
Proof.
  intros H Hr. destruct o; simpl in H; try (by destruct H as [-> _]);
    repeat match type of H with
           | match ?x with Some _ => _ | None => _ end => destruct x
           | if ?b then _ else _ => destruct b
           end; try (by destruct H as [-> _]);
    try (by destruct H as [_ ->]; destruct (Hr VUnit)); try (by eapply replaced_error).
  - destruct H as [(_ & -> & _)|(_ & _ & ->)]; [done|]. by edestruct Hr.
  - destruct H as [(_ & -> & _)|(_ & H)]; [done|]. by eapply replaced_error.
  - destruct H as [(_ & -> & _)|(_ & [(_ & -> & _)|[(_ & -> & _)|(_ & _ & H)]])]; try done. by eapply replaced_error.
Qed.

(** C20: the in-memory store implements maps from ids to resources: in a store
    whose ids are unique, each of the seventeen operations does and returns
    exactly what [ds_spec] says of the maps, keeps ids unique when it makes one
    up that is new, and changes nothing when it fails. *)
Theorem mock_refines_store {MR : MapRange} {U : UnicodeTables} {GS : GoSort} url_scheme lim m now i o :
  ids_ok m -> fresh_id m i ->
  let (m', r) := @ds_run mock (mock_Datastore url_scheme lim) m now i o in
  ids_ok m' /\ ds_spec url_scheme lim (abs m) now i o r (abs m') /\ ((forall v, r <> Ok v) -> abs m' = abs m).
Proof.
  intros Hi Hf. pose proof (refines_all url_scheme lim m Hi now i o Hf) as H. unfold refines in H.
  destruct (ds_run m now i o) as [m' r]. destruct H as [Hi' Hs]. split; [done|]. split; [done|]. by eapply spec_error.
Qed.

Definition demo_tables : UnicodeTables := {| letter_table := fun _ => false; number_table := fun _ => false |}.
Definition demo_app : App := MkApp "" "myapp" None None None 0 0.
Definition demo_scheme (u : string) : outcome string string := Ok "tcp"%string.

Definition demo_mock : Datastore mock := mock_Datastore (MR := canonical_range) (U := demo_tables) (GS := insertion_sort) demo_scheme default_limits.
#[local] Existing Instance demo_mock.

Lemma mock_refines_store_witness :
  ds_run NewMock 7 "01" (OInsertApp demo_app) =
    (Mock [MkApp "01" "myapp" None None None 7 7] [] [], Ok (VApp (MkApp "01" "myapp" None None None 7 7))) /\
  let (m', r) := ds_run NewMock 7 "01" (OInsertApp demo_app) in
  ids_ok m' /\ ds_spec (MR := canonical_range) (U := demo_tables) demo_scheme default_limits (abs NewMock) 7 "01" (OInsertApp demo_app) r (abs m') /\
  ((forall v, r <> Ok v) -> abs m' = abs NewMock).
Proof.
  split; [vm_compute; reflexivity|].
  apply (@mock_refines_store canonical_range demo_tables insertion_sort demo_scheme default_limits);
    [split; constructor|split_and!; apply not_elem_of_nil].
Defined.


Definition demo_validator : Datastore (validator mock) := validator_Datastore (MR := canonical_range) (U := demo_tables) demo_scheme.
#[local] Existing Instance demo_validator.


(** [UpdateTrigger] renames a trigger to a name that is taken, or moves it to an
    application that does not own its function. *)
Definition demo_trigger (i name app : string) : Trigger := MkTrigger i name app "f1" 0 0 "http" ("/" ++ i) None.
Definition demo_fn (i app : string) : Fn := MkFn i i app "image" 128 30 30 None None 0 0.
Definition two_triggers : mock :=
  Mock [MkApp "a1" "one" None None None 0 0; MkApp "a2" "two" None None None 0 0] [demo_fn "f1" "a1"; demo_fn "f2" "a1"]
    [demo_trigger "t1" "x" "a1"; demo_trigger "t2" "y" "a1"].

Example UpdateTrigger_breaks :
  let patch name app := MkTrigger "t2" name app "" 0 0 "" "" None in
  (tr_Name <$> m_Triggers (ds_run two_triggers 7 "" (OUpdateTrigger (patch "x" ""))).1) = ["x"; "x"]%string /\
  (tr_AppID <$> m_Triggers (ds_run two_triggers 7 "" (OUpdateTrigger (patch "" "a2"))).1) = ["a1"; "a2"]%string.
Proof. split; vm_compute; reflexivity. Qed.


Definition demo_store : mock := Mock [MkApp "01" "myapp" None None None 7 7] [] [].

Lemma demo_store_ok : db_ok demo_store.
Proof.
  change demo_store with (v_ds (Validator demo_store)).
  apply (@ds_step_ok canonical_range demo_tables insertion_sort demo_scheme default_limits (Validator NewMock)); [|apply NewMock_ok].
  eapply (ds_do _ _ _ 7 "01" (OInsertApp demo_app)); [split_and!; apply not_elem_of_nil|exact I|vm_compute; reflexivity].
Qed.


(** Without a function the triggers of an application need not have different
    names: the page after a name skips the triggers that share it. *)
Definition same_names : mock :=
  Mock [MkApp "a1" "one" None None None 0 0] [demo_fn "f1" "a1"; demo_fn "f2" "a1"]
    [demo_trigger "t1" "x" "a1"; MkTrigger "t2" "x" "a1" "f2" 0 0 "http" "/t2" None].

Example GetTriggers_skips :
  omap_ok (fmap tr_ID) (default (same_names, Panic)
    (all_pages (fun m c => mock_GetTriggers (GS := insertion_sort) m (MkTriggerFilter "a1" "" "" c 1)) 5 same_names "")).2 = Ok ["t1"%string] /\
  omap_ok (fmap tr_ID) (default (same_names, Panic)
    (all_pages (fun m c => mock_GetTriggers (GS := insertion_sort) m (MkTriggerFilter "a1" "" "" c 2)) 5 same_names "")).2 = Ok ["t1"; "t2"]%string.
Proof. split; vm_compute; reflexivity. Qed.
