(* ===== verification/ApiHandlers.v ===== *)
(** * The resource API (src/api/server: apps_*.go, fns_*.go, trigger_*.go, *_annotator.go)

    The handlers that create, read, list, update and delete applications,
    functions and triggers over HTTP, against the class [Datastore]; gin's
    response writer (vendored) is modelled with its delayed status line.  A
    request is its route with its parameters and the result of binding its
    body.  The theorems: over the in-memory store every handler ends with a
    response, a request that is refused changes nothing - but for the updates
    whose ids disagree, which answer twice - and lists carry every resource
    with its address. *)
From S2P Require Import Prelude Errors Annotations Models GoStrings Base64 IoUtils DataAccess HttpTrigger Datastore.

(** ** The response writer of gin *)

Inductive body :=
| BApp (a : App) | BFn (f : Fn) | BTrigger (t : Trigger)
| BApps (p : page App) | BFns (p : page Fn) | BTriggers (p : page Trigger)
| BError (msg : string).

(** [g_status]: the status to be written; [g_sent]: the status line once written. *)
Record gw := Gw { g_status : Z; g_sent : option Z; g_bodies : list body }.

Definition gw_new : gw := Gw 200 None [].
Definition gw_WriteHeader (g : gw) (code : Z) : gw :=
  if 0 <? code then Gw code (g_sent g) (g_bodies g) else g.
Definition gw_WriteHeaderNow (g : gw) : gw :=
  match g_sent g with Some _ => g | None => Gw (g_status g) (Some (g_status g)) (g_bodies g) end.
Definition gw_Write (g : gw) (b : body) : gw :=
  let g := gw_WriteHeaderNow g in Gw (g_status g) (g_sent g) (g_bodies g ++ [b]).

Definition bodyAllowedForStatus (status : Z) : bool :=
  negb ((100 <=? status) && (status <=? 199)) && negb (status =? 204) && negb (status =? 304).

(** [c.JSON] and [c.String]. *)
Definition c_JSON (g : gw) (code : Z) (b : body) : gw :=
  let g := gw_WriteHeader g code in
  if bodyAllowedForStatus code then gw_Write g b else gw_WriteHeaderNow g.
Definition c_NoContent (g : gw) : gw := gw_WriteHeaderNow (gw_WriteHeader g 204).

(** [handleErrorResponse] *)
Definition handleErrorResponse (g : gw) (canceled : bool) (e : gerr) : gw :=
  let r := HandleErrorResponse canceled e in
  let g := gw_WriteHeader g (rs_status r) in
  match rs_body r with Some m => gw_Write g (BError m) | None => g end.

(** [c.BindJSON] answers 400 itself before the handler looks at the error. *)
Definition bind_failed (canceled : bool) (e : gerr) : gw :=
  handleErrorResponse (gw_WriteHeaderNow (gw_WriteHeader gw_new 400)) canceled
    (if IsAPIError e then e else EVar ErrInvalidJSON).

(** gin writes the status line at the end if nothing did: what the client gets. *)
Definition http_response (g : gw) : Z * list body :=
  (default (g_status g) (g_sent g), g_bodies g).

(** ** Addresses *)

(** [strings.TrimSuffix] *)
Definition TrimSuffix (s suf : string) : string :=
  unchars (rev (chars (TrimPrefix (unchars (rev (chars s))) (unchars (rev (chars suf)))))).

Definition FnInvokeEndpointAnnotation : string := "fnproject.io/fn/invokeEndpoint".
Definition TriggerHTTPEndpointAnnotation : string := "fnproject.io/trigger/httpEndpoint".

(** [requestBasedFnAnnotator], [requestBasedTriggerAnnotator] *)
Definition request_base (tls : bool) (host : string) : string := (if tls then "https" else "http") ++ "://" ++ host.

Section Annotate.
Context {MR : MapRange}.
(** [json.Marshal] of a string. *)
Context (json_string : string -> string).

Definition with_fn_annotations (f : Fn) (a : Annotations) : Fn :=
  MkFn (fn_ID f) (fn_Name f) (fn_AppID f) (fn_Image f) (fn_Memory f) (fn_Timeout f) (fn_IdleTimeout f) (fn_Config f) a
    (fn_CreatedAt f) (fn_UpdatedAt f).
Definition with_trigger_annotations (t : Trigger) (a : Annotations) : Trigger :=
  MkTrigger (tr_ID t) (tr_Name t) (tr_AppID t) (tr_FnID t) (tr_CreatedAt t) (tr_UpdatedAt t) (tr_Type t) (tr_Source t) a.

Definition fn_address (baseURL : string) (f : Fn) : string :=
  TrimSuffix baseURL "/" ++ "/invoke/" ++ TrimPrefix (fn_ID f) "/".
Definition annotateFnWithBaseURL (baseURL : string) (app : App) (f : Fn) : outcome gerr Fn :=
  let newT := Fn_Clone f in
  let! a := Annotations_With (fn_Annotations newT) FnInvokeEndpointAnnotation (streq (fn_address baseURL f) "")
              (Ok (json_string (fn_address baseURL f))) in
  Ok (with_fn_annotations newT a).

Definition trigger_address (baseURL : string) (app : App) (t : Trigger) : string :=
  TrimSuffix baseURL "/" ++ "/t/" ++ app_Name app ++ "/" ++ TrimPrefix (tr_Source t) "/".
Definition annotateTriggerWithBaseURL (baseURL : string) (app : App) (t : Trigger) : outcome gerr Trigger :=
  if negb (streq (tr_Type t) TriggerTypeHTTP) then Ok t
  else
    let newT := Trigger_Clone t in
    let! a := Annotations_With (tr_Annotations newT) TriggerHTTPEndpointAnnotation (streq (trigger_address baseURL app t) "")
                (Ok (json_string (trigger_address baseURL app t))) in
    Ok (with_trigger_annotations newT a).
End Annotate.

(** ** Requests *)

(** [strconv.Atoi] whose error is dropped: 0 for a syntax error, the nearest
    [int] out of range. *)
Definition Atoi_or_zero (s : string) : Z :=
  match chars s with
  | [] => 0
  | c :: l =>
      let n := byte_of_ascii c in
      let '(neg, ds) := if n =? 45 then (true, l) else if n =? 43 then (false, l) else (false, c :: l) in
      match ds with
      | [] => 0
      | _ => match digits_value 0 ds with
             | Some v => if neg then Z.max (- v) (- w63) else Z.min v (w63 - 1)
             | None => 0
             end
      end
  end.

Definition pageParams (cursor per_page : string) : string * Z :=
  let perPage := Atoi_or_zero per_page in
  (cursor, if 100 <? perPage then 100 else if perPage <=? 0 then 30 else perPage).

(** A request by its route; a body is the result of reading it as JSON. *)
Inductive api_request :=
| AppCreate (bind : outcome gerr App) | AppGet (id : string) | AppList (cursor per_page name : string)
| AppUpdate (id : string) (bind : outcome gerr App) | AppDelete (id : string)
| FnCreate (bind : outcome gerr Fn) | FnGet (id : string) | FnList (cursor per_page app name : string)
| FnUpdate (id : string) (bind : outcome gerr Fn) | FnDelete (id : string)
| TriggerCreate (bind : outcome gerr Trigger) | TriggerGet (id : string)
| TriggerList (cursor per_page app fn name : string)
| TriggerUpdate (id : string) (bind : outcome gerr Trigger) | TriggerDelete (id : string).

Definition app_with_ID (a : App) (i : string) : App :=
  MkApp i (app_Name a) (app_Config a) (app_Annotations a) (app_SyslogURL a) (app_CreatedAt a) (app_UpdatedAt a).
Definition fn_with_ID (f : Fn) (i : string) : Fn :=
  MkFn i (fn_Name f) (fn_AppID f) (fn_Image f) (fn_Memory f) (fn_Timeout f) (fn_IdleTimeout f) (fn_Config f) (fn_Annotations f)
    (fn_CreatedAt f) (fn_UpdatedAt f).
Definition trigger_with_ID (t : Trigger) (i : string) : Trigger :=
  MkTrigger i (tr_Name t) (tr_AppID t) (tr_FnID t) (tr_CreatedAt t) (tr_UpdatedAt t) (tr_Type t) (tr_Source t) (tr_Annotations t).

Section Handlers.
Context {MR : MapRange} {D : Type} `{Datastore D}.
Context (json_string : string -> string) (baseURL : string) (canceled : bool) (now : Z) (new_id : string).

Abbreviation handled := (D * outcome gerr gw)%type.

Definition answer (d : D) (g : gw) : handled := (d, Ok g).

(** The body is read, or the request refused. *)
Definition bound {A} (d : D) (bind : outcome gerr A) (k : A -> handled) : handled :=
  match bind with
  | Ok a => k a
  | Err e => answer d (bind_failed canceled e)
  | Panic => (d, Panic)
  end.

(** The store answers, or its error goes to the client. *)
Definition respond {A} (g : gw) (r : dres D A) (k : D -> A -> handled) : handled :=
  match r with
  | (d, Ok a) => k d a
  | (d, Err e) => answer d (handleErrorResponse g canceled e)
  | (d, Panic) => (d, Panic)
  end.

(** An error in a sentence of its own ([fmt.Errorf]). *)
Definition explained {A} (what : string) (r : dres D A) : dres D A :=
  (r.1, match r.2 with Err e => Err (EPlain (what ++ error_msg e)) | x => x end).

Definition handleAppCreate (d : D) (bind : outcome gerr App) : handled :=
  bound d bind (fun app =>
  respond gw_new (ds_InsertApp d now new_id (Some app)) (fun d app => answer d (c_JSON gw_new 200 (BApp app)))).

Definition handleAppGet (d : D) (id : string) : handled :=
  respond gw_new (ds_GetAppByID d id) (fun d app => answer d (c_JSON gw_new 200 (BApp app))).

Definition handleAppList (d : D) (cursor per_page name : string) : handled :=
  let (cursor, perPage) := pageParams cursor per_page in
  respond gw_new (ds_GetApps d (MkAppFilter name perPage cursor)) (fun d apps => answer d (c_JSON gw_new 200 (BApps apps))).

Definition handleAppUpdate (d : D) (id : string) (bind : outcome gerr App) : handled :=
  bound d bind (fun app =>
  let app := if streq (app_ID app) "" then app_with_ID app id else app in
  if negb (streq (app_ID app) id) then answer d (handleErrorResponse gw_new canceled (EVar ErrAppsIDMismatch))
  else respond gw_new (ds_UpdateApp d now (Some app)) (fun d app => answer d (c_JSON gw_new 200 (BApp app)))).

Definition handleAppDelete (d : D) (id : string) : handled :=
  respond gw_new (ds_RemoveApp d id) (fun d _ => answer d (c_NoContent gw_new)).

(** The created resource goes out without its address when that cannot be made. *)
Definition handleFnCreate (d : D) (bind : outcome gerr Fn) : handled :=
  bound d bind (fun fn =>
  respond gw_new (ds_InsertFn d now new_id (Some (Fn_SetDefaults fn now))) (fun d fnCreated =>
  match ds_GetAppByID d (fn_AppID fnCreated) with
  | (d, Ok app) =>
      match annotateFnWithBaseURL json_string baseURL app fnCreated with
      | Ok f => answer d (c_JSON gw_new 200 (BFn f))
      | Err _ => answer d (c_JSON gw_new 200 (BFn fnCreated))
      | Panic => (d, Panic)
      end
  | (d, Err _) => answer d (c_JSON gw_new 200 (BFn fnCreated))
  | (d, Panic) => (d, Panic)
  end)).

Definition handleFnGet (d : D) (id : string) : handled :=
  respond gw_new (ds_GetFnByID d id) (fun d f =>
  respond gw_new (explained "unexpected error - fn app not available: " (ds_GetAppByID d (fn_AppID f))) (fun d app =>
  respond gw_new (d, annotateFnWithBaseURL json_string baseURL app f) (fun d f => answer d (c_JSON gw_new 200 (BFn f))))).

(** The loop of the lists over the items, with the applications looked up so far. *)
Fixpoint list_loop {A} (appOf : A -> string) (annotate : App -> A -> outcome gerr A) (what : string)
    (d : D) (cache : gmap string App) (items : list A) : dres D (list A) :=
  match items with
  | [] => (d, Ok [])
  | x :: items =>
      let '(d, got) := match cache !! appOf x with
                       | Some app => (d, Ok (app, cache))
                       | None => let '(d, r) := explained what (ds_GetAppByID d (appOf x)) in
                                 (d, let! app := r in Ok (app, <[app_ID app := app]> cache))
                       end in
      match (let! ac := got in let! y := annotate ac.1 x in Ok (y, ac.2)) with
      | Ok (y, cache) =>
          let '(d, r) := list_loop appOf annotate what d cache items in (d, let! ys := r in Ok (y :: ys))
      | Err e => (d, Err e)
      | Panic => (d, Panic)
      end
  end.

Definition handleFnList (d : D) (cursor per_page app name : string) : handled :=
  let (cursor, perPage) := pageParams cursor per_page in
  respond gw_new (ds_GetFns d (MkFnFilter app name cursor perPage)) (fun d fns =>
  respond gw_new (list_loop fn_AppID (annotateFnWithBaseURL json_string baseURL) "failed to get app for fn " d ∅ (Items fns))
    (fun d items => answer d (c_JSON gw_new 200 (BFns (Page (NextCursor fns) items))))).

(** The mismatch is answered, and the update made. *)
Definition handleFnUpdate (d : D) (id : string) (bind : outcome gerr Fn) : handled :=
  bound d bind (fun fn =>
  let '(fn, g) := if streq (fn_ID fn) "" then (fn_with_ID fn id, gw_new)
                  else if negb (streq id (fn_ID fn)) then (fn, handleErrorResponse gw_new canceled (EVar ErrFnsIDMismatch))
                  else (fn, gw_new) in
  respond g (ds_UpdateFn d now (Some fn)) (fun d f => answer d (c_JSON g 200 (BFn f)))).

Definition handleFnDelete (d : D) (id : string) : handled :=
  respond gw_new (ds_RemoveFn d id) (fun d _ => answer d (c_NoContent gw_new)).

Definition handleTriggerCreate (d : D) (bind : outcome gerr Trigger) : handled :=
  bound d bind (fun trigger =>
  respond gw_new (ds_InsertTrigger d now new_id (Some trigger)) (fun d created =>
  match ds_GetAppByID d (tr_AppID created) with
  | (d, Ok app) =>
      match annotateTriggerWithBaseURL json_string baseURL app created with
      | Ok t => answer d (c_JSON gw_new 200 (BTrigger t))
      | Err _ => answer d (c_JSON gw_new 200 (BTrigger created))
      | Panic => (d, Panic)
      end
  | (d, Err _) => answer d (c_JSON gw_new 200 (BTrigger created))
  | (d, Panic) => (d, Panic)
  end)).

Definition handleTriggerGet (d : D) (id : string) : handled :=
  respond gw_new (ds_GetTriggerByID d id) (fun d t =>
  respond gw_new (explained "unexpected error - trigger app not available: " (ds_GetAppByID d (tr_AppID t))) (fun d app =>
  respond gw_new (d, annotateTriggerWithBaseURL json_string baseURL app t) (fun d t => answer d (c_JSON gw_new 200 (BTrigger t))))).

(** A missing application is answered, and the store asked all the same. *)
Definition handleTriggerList (d : D) (cursor per_page app fn name : string) : handled :=
  let (cursor, perPage) := pageParams cursor per_page in
  let g := if streq app "" then handleErrorResponse gw_new canceled (EVar ErrTriggerMissingAppID) else gw_new in
  respond g (ds_GetTriggers d (MkTriggerFilter app fn name cursor perPage)) (fun d triggers =>
  respond g (list_loop tr_AppID (annotateTriggerWithBaseURL json_string baseURL) "failed to get app for trigger " d ∅ (Items triggers))
    (fun d items => answer d (c_JSON g 200 (BTriggers (Page (NextCursor triggers) items))))).

Definition handleTriggerUpdate (d : D) (id : string) (bind : outcome gerr Trigger) : handled :=
  bound d bind (fun trigger =>
  let '(trigger, g) := if streq (tr_ID trigger) "" then (trigger_with_ID trigger id, gw_new)
                       else if negb (streq id (tr_ID trigger)) then (trigger, handleErrorResponse gw_new canceled (EVar ErrTriggerIDMismatch))
                       else (trigger, gw_new) in
  respond g (ds_UpdateTrigger d now (Some trigger)) (fun d t => answer d (c_JSON g 200 (BTrigger t)))).

Definition handleTriggerDelete (d : D) (id : string) : handled :=
  respond gw_new (ds_RemoveTrigger d id) (fun d _ => answer d (c_NoContent gw_new)).

(** The routes. *)
Definition handle (d : D) (r : api_request) : handled :=
  match r with
  | AppCreate b => handleAppCreate d b
  | AppGet i => handleAppGet d i
  | AppList c p n => handleAppList d c p n
  | AppUpdate i b => handleAppUpdate d i b
  | AppDelete i => handleAppDelete d i
  | FnCreate b => handleFnCreate d b
  | FnGet i => handleFnGet d i
  | FnList c p a n => handleFnList d c p a n
  | FnUpdate i b => handleFnUpdate d i b
  | FnDelete i => handleFnDelete d i
  | TriggerCreate b => handleTriggerCreate d b
  | TriggerGet i => handleTriggerGet d i
  | TriggerList c p a f n => handleTriggerList d c p a f n
  | TriggerUpdate i b => handleTriggerUpdate d i b
  | TriggerDelete i => handleTriggerDelete d i
  end.
End Handlers.

(** ** Lemmas *)

Lemma pageParams_range c p : 0 < (pageParams c p).2 <= 100.
Proof. unfold pageParams. simpl. destruct (Z.ltb_spec 100 (Atoi_or_zero p)), (Z.leb_spec (Atoi_or_zero p) 0); lia. Qed.

Example pageParams_examples :
  (snd ∘ pageParams "" <$> [""; "7"; "+7"; "0"; "-1"; "101"; "99999999999999999999"; "-99999999999999999999"; "7x"]%string) =
  [30; 7; 7; 30; 30; 100; 100; 30; 30].
Proof. reflexivity. Qed.

Example address_example :
  fn_address (request_base false "localhost:8080") (demo_fn "01" "a") = "http://localhost:8080/invoke/01"%string /\
  fn_address "https://my.domain/" (demo_fn "01" "a") = "https://my.domain/invoke/01"%string /\
  trigger_address "https://my.domain" demo_app (demo_trigger "src" "x" "a") = "https://my.domain/t/myapp/src"%string.
Proof. split_and!; reflexivity. Qed.

Section Api.
Context {MR : MapRange} {U : UnicodeTables} {GS : GoSort}.
Context (url_scheme : string -> outcome string string) (lim : Limits).
Context (json_string : string -> string) (baseURL : string) (canceled : bool) (now : Z) (new_id : string).

#[local] Instance api_mock : Datastore mock := mock_Datastore url_scheme lim.
#[local] Instance api_store : Datastore (validator mock) := validator_Datastore url_scheme.

Implicit Types (v : validator mock).

(** The same resources, perhaps in another order. *)
Definition same_store v v' : Prop := ids_ok (v_ds v') /\ abs (v_ds v') = abs (v_ds v).

Definition reads (o : ds_op) : bool :=
  match o with
  | OGetAppByID _ | OGetAppID _ | OGetFnByID _ | OGetTriggerByID _ | OGetTriggerBySource _ _ _
  | OGetApps _ | OGetFns _ | OGetTriggers _ => true
  | _ => false
  end.

Lemma run_safe v o v' r : ids_ok (v_ds v) -> fresh_id (v_ds v) new_id -> ds_run v now new_id o = (v', r) ->
  ids_ok (v_ds v') /\ ((forall x, r <> Ok x) -> same_store v v') /\ (reads o = true -> same_store v v').
Proof.
  intros Hi Hf H. destruct (validator_run url_scheme lim v now new_id o v' r H) as [->|[H' _]]; [by split_and!|].
  pose proof (refines_all url_scheme lim (v_ds v) Hi now new_id o Hf) as Hr. unfold refines in Hr.
  change (store_mock url_scheme lim) with (store_mock' url_scheme lim) in Hr. rewrite H' in Hr. destruct Hr as [Hi' Hs].
  split; [done|]. split; [intros E; split; [done|by eapply spec_error]|].
  intros Hrd. split; [done|]. destruct o; try done; by destruct Hs as [-> _].
Qed.

Section From.
Context (v : validator mock) (Hi : ids_ok (v_ds v)) (Hf : fresh_id (v_ds v) new_id).

(** What every handler guarantees: it ends without a panic of its own making,
    and unless it says 200 or 204 the store is as it was. *)
Definition accepted (g : gw) : bool := let s := (http_response g).1 in (s =? 200) || (s =? 204).
Definition good (h : validator mock * outcome gerr gw) : Prop :=
  ids_ok (v_ds h.1) /\
  match h.2 with Ok g => accepted g = true \/ same_store v h.1 | Err _ => False | Panic => same_store v h.1 end.

Lemma good_same v' o : same_store v v' -> match o with Err _ => False | _ => True end -> good (v', o).
Proof. intros [H1 H2]. split; [done|]. simpl. destruct o; [by right|done|done]. Qed.

Lemma op_safe {A} (f : A -> ds_val) (x : dres (validator mock) A) o : ds_run v now new_id o = giving f x ->
  ids_ok (v_ds x.1) /\ ((forall a, x.2 <> Ok a) -> same_store v x.1) /\ (reads o = true -> same_store v x.1).
Proof.
  intros E. destruct (run_safe v o _ _ Hi Hf E) as (H1 & H2 & H3). split; [done|]. split; [|done].
  intros Hx. apply H2. intros y. destruct (x.2) as [a|e|]; try done. by destruct (Hx a).
Qed.

Lemma respond_good {A} g (f : A -> ds_val) (x : dres (validator mock) A) o k : ds_run v now new_id o = giving f x ->
  (forall a, x.2 = Ok a -> good (k x.1 a)) -> good (respond canceled g x k).
Proof.
  intros E Hk. destruct (op_safe f x o E) as (H1 & H2 & _). destruct x as [v' [a|e|]]; simpl in *.
  - by apply Hk.
  - apply good_same; [|done]. by apply H2.
  - apply good_same; [|done]. by apply H2.
Qed.

Lemma respond_read {A} g (x : dres (validator mock) A) k : same_store v x.1 ->
  (forall a, x.2 = Ok a -> good (k x.1 a)) -> good (respond canceled g x k).
Proof.
  intros Hs Hk. destruct x as [v' [a|e|]]; simpl in *; [by apply Hk|by apply good_same|by apply good_same].
Qed.

Lemma same_trans v1 v2 : same_store v v1 -> same_store v1 v2 -> same_store v v2.
Proof. intros [_ E1] [H2 E2]. split; [done|congruence]. Qed.

(** A look at an application: the store is as it was, and it does not panic. *)
Lemma get_app v1 i : ids_ok (v_ds v1) ->
  exists r, ds_GetAppByID v1 i = (v1, r) /\ r <> Panic /\ (forall a, r = Ok a -> s_apps (abs (v_ds v1)) !! i = Some a) /\
    (forall a, i <> ""%string -> s_apps (abs (v_ds v1)) !! i = Some a -> r = Ok a).
Proof.
  intros Hi1. simpl. unfold validator_GetAppByID, checked. cbn [first_failed]. destruct (streq i "") eqn:Es.
  { eexists. split; [reflexivity|]. split; [done|]. split; [done|]. intros a Hne. by apply streq_spec in Es. }
  unfold inside. simpl. destruct v1 as [m]. simpl in *. eexists. split; [reflexivity|]. unfold lookup_by. rewrite by_id_find.
  destruct (find_first (id_is app_ID i) (m_Apps m)) as [a|]; simpl; rewrite ?App_Clone_eq; naive_solver.
Qed.

Lemma annotate_fn_total app f : annotateFnWithBaseURL json_string baseURL app f <> Panic.
Proof.
  unfold annotateFnWithBaseURL, Annotations_With. destruct (negb _); [|done]. cbn [obind].
  destruct (validateField _ _) as [u|e|] eqn:E; [done|done|]. by apply validateField_no_panic in E.
Qed.
Lemma annotate_trigger_total app t : annotateTriggerWithBaseURL json_string baseURL app t <> Panic.
Proof.
  unfold annotateTriggerWithBaseURL, Annotations_With. destruct (negb (streq (tr_Type t) _)); [done|].
  destruct (negb _); [|done]. cbn [obind].
  destruct (validateField _ _) as [u|e|] eqn:E; [done|done|]. by apply validateField_no_panic in E.
Qed.

Lemma list_loop_same {A} (appOf : A -> string) annotate what items : forall v1 cache, ids_ok (v_ds v1) ->
  same_store v1 (list_loop appOf annotate what v1 cache items).1.
Proof.
  induction items as [|x items IH]; intros v1 cache H1; [by split|]. cbn [list_loop]. destruct (cache !! appOf x) as [app|].
  - simpl. destruct (annotate app x) as [y|e|]; simpl; [|by split..].
    specialize (IH v1 cache H1). by destruct (list_loop _ _ _ _ _ _) as [v2 r].
  - unfold explained. destruct (get_app v1 (appOf x) H1) as (r & -> & _). cbn [fst snd]. destruct r as [a|e|]; simpl; [|by split..].
    destruct (annotate a x) as [y|e|]; simpl; [|by split..].
    specialize (IH v1 (<[app_ID a := a]> cache) H1). by destruct (list_loop _ _ _ _ _ _) as [v2 r].
Qed.

(** With the applications at hand, every item gets its address. *)
Lemma list_loop_ok {A} (appOf : A -> string) annotate (ann : App -> A -> A) what items : forall v1 cache, ids_ok (v_ds v1) ->
  map_Forall (fun i a => s_apps (abs (v_ds v1)) !! i = Some a) cache ->
  (forall x, x ∈ items -> appOf x <> ""%string /\ exists a, s_apps (abs (v_ds v1)) !! appOf x = Some a /\ annotate a x = Ok (ann a x)) ->
  exists ys, list_loop appOf annotate what v1 cache items = (v1, Ok ys) /\
    Forall2 (fun x y => exists a, s_apps (abs (v_ds v1)) !! appOf x = Some a /\ y = ann a x) items ys.
Proof.
  induction items as [|x items IH]; intros v1 cache H1 Hc Hx; [by eexists|]. cbn [list_loop].
  destruct (Hx x ltac:(by left)) as (Hne & a & Ha & Hann).
  assert (Hgot : exists cache', map_Forall (fun i a => s_apps (abs (v_ds v1)) !! i = Some a) cache' /\
    (match cache !! appOf x with
     | Some app => (v1, Ok (app, cache))
     | None => let '(d, r) := explained what (ds_GetAppByID v1 (appOf x)) in (d, let! app := r in Ok (app, <[app_ID app := app]> cache))
     end) = (v1, Ok (E := gerr) (a, cache'))).
  { destruct (cache !! appOf x) as [app|] eqn:Ec.
    - assert (E : s_apps (abs (v_ds v1)) !! appOf x = Some app) by exact (Hc _ _ Ec). rewrite Ha in E. injection E as <-. by exists cache.
    - destruct (get_app v1 (appOf x) H1) as (r & E & _ & _ & Hr). specialize (Hr a Hne Ha) as ->.
      unfold explained. rewrite E. simpl. exists (<[app_ID a := a]> cache). split; [|done].
      apply map_Forall_insert_2; [|done]. unfold abs in Ha. simpl in Ha. apply by_id_elem in Ha as Ha'; [|apply H1].
      destruct Ha' as [_ Eid]. by rewrite Eid. }
  destruct Hgot as (cache' & Hc' & ->). cbn [obind fst snd]. rewrite Hann. cbn [obind fst snd].
  destruct (IH v1 cache' H1 Hc') as (ys & -> & Hys); [intros z Hz; apply Hx; by right|].
  eexists. split; [reflexivity|]. constructor; [by exists a|done].
Qed.

(** The id in the path and the one in the body agree. *)
Definition ids_agree (r : api_request) : Prop :=
  match r with
  | FnUpdate i (Ok f) => fn_ID f = ""%string \/ fn_ID f = i
  | TriggerUpdate i (Ok t) => tr_ID t = ""%string \/ tr_ID t = i
  | _ => True
  end.

Lemma bound_good {A} (b : outcome gerr A) k : (forall a, b = Ok a -> good (k a)) -> good (bound canceled v b k).
Proof. destruct b; intros H; [by apply H|apply good_same; [by split|done]..]. Qed.

Lemma done_good v' g : ids_ok (v_ds v') -> accepted g = true -> good (answer v' g).
Proof. intros H1 H2. split; [done|by left]. Qed.

Lemma read_good {A} (f : A -> ds_val) (x : dres (validator mock) A) o g k : ds_run v now new_id o = giving f x -> reads o = true ->
  (forall v' a, same_store v v' -> good (k v' a)) -> good (respond canceled g x k).
Proof. intros E Hr Hk. destruct (op_safe f x o E) as (_ & _ & H). apply respond_read; [by apply H|]. intros a _. apply Hk. by apply H. Qed.

Lemma explain_read v1 what i : same_store v v1 -> same_store v (explained what (ds_GetAppByID v1 i)).1.
Proof. intros Hs. destruct (get_app v1 i (proj1 Hs)) as (r & E & _). unfold explained. by rewrite E. Qed.

Lemma handle_apps_good r : match r with AppCreate _ | AppGet _ | AppList _ _ _ | AppUpdate _ _ | AppDelete _ => True | _ => False end ->
  good (handle json_string baseURL canceled now new_id v r).
Proof.
  destruct r as [b|i|c p n|i b|i| | | | | | | | | | ]; intros []; cbn [handle].
  - apply bound_good. intros a _. apply (respond_good _ VApp _ (OInsertApp a)); [done|]. intros a' _.
    apply done_good; [|done]. exact (proj1 (op_safe VApp _ (OInsertApp a) eq_refl)).
  - apply (read_good VApp _ (OGetAppByID i)); [done..|]. intros v' a Hs. by apply good_same.
  - unfold handleAppList. destruct (pageParams c p) as [c' p']. apply (read_good VApps _ (OGetApps (MkAppFilter n p' c'))); [done..|].
    intros v' a Hs. by apply good_same.
  - apply bound_good. intros a _. set (a' := if streq (app_ID a) "" then app_with_ID a i else a). cbv zeta.
    destruct (negb (streq (app_ID a') i)); [apply good_same; [by split|done]|]. apply (respond_good _ VApp _ (OUpdateApp a')); [done|]. intros a2 _.
    apply done_good; [|done]. exact (proj1 (op_safe VApp _ (OUpdateApp a') eq_refl)).
  - apply (respond_good _ (fun _ => VUnit) _ (ORemoveApp i)); [done|]. intros a _.
    apply done_good; [|done]. exact (proj1 (op_safe (fun _ => VUnit) _ (ORemoveApp i) eq_refl)).
Qed.

Lemma handle_fns_good r : ids_agree r ->
  match r with FnCreate _ | FnGet _ | FnList _ _ _ _ | FnUpdate _ _ | FnDelete _ => True | _ => False end ->
  good (handle json_string baseURL canceled now new_id v r).
Proof.
  intros Ha. destruct r as [ | | | | |b|i|c p a n|i b|i| | | | | ]; intros []; cbn [handle].
  - apply bound_good. intros f _. set (f' := Fn_SetDefaults f now).
    apply (respond_good _ VFn _ (OInsertFn f')); [done|]. intros f2 _.
    destruct (op_safe VFn (ds_InsertFn v now new_id (Some f')) (OInsertFn f') eq_refl) as (H1 & _).
    destruct (get_app _ (fn_AppID f2) H1) as (r & -> & Hp & _). destruct r as [app|e|]; [|by apply done_good|done].
    pose proof (annotate_fn_total app f2) as Ht. destruct (annotateFnWithBaseURL _ _ _ _) as [x|e|]; [by apply done_good..|done].
  - apply (read_good VFn _ (OGetFnByID i)); [done..|]. intros v1 f Hs. apply respond_read; [by apply explain_read|].
    intros app _. pose proof (explain_read v1 "unexpected error - fn app not available: " (fn_AppID f) Hs) as Hs2.
    apply respond_read; [done|]. intros y _. by apply good_same.
  - unfold handleFnList. destruct (pageParams c p) as [c' p'].
    apply (read_good VFns _ (OGetFns (MkFnFilter a n c' p'))); [done..|]. intros v1 l Hs.
    assert (Hs2 : same_store v (list_loop fn_AppID (annotateFnWithBaseURL json_string baseURL) "failed to get app for fn " v1 ∅ (Items l)).1).
    { apply (same_trans v1); [done|]. by apply list_loop_same, Hs. }
    apply respond_read; [done|]. intros ys _. by apply good_same.
  - apply bound_good. intros f ->. simpl in Ha.
    assert (E : (if streq (fn_ID f) "" then (fn_with_ID f i, gw_new)
       else if negb (streq i (fn_ID f)) then (f, handleErrorResponse gw_new canceled (EVar ErrFnsIDMismatch)) else (f, gw_new)) =
       (if streq (fn_ID f) "" then fn_with_ID f i else f, gw_new)).
    { destruct (streq (fn_ID f) "") eqn:Es; [done|]. destruct Ha as [Ha|Ha]; [by apply streq_spec in Ha; congruence|].
      by rewrite (proj2 (streq_spec i (fn_ID f)) (eq_sym Ha)). }
    rewrite E. set (f' := if streq _ _ then fn_with_ID f i else f). apply (respond_good _ VFn _ (OUpdateFn f')); [done|]. intros f2 _.
    apply done_good; [|done]. exact (proj1 (op_safe VFn _ (OUpdateFn f') eq_refl)).
  - apply (respond_good _ (fun _ => VUnit) _ (ORemoveFn i)); [done|]. intros a _.
    apply done_good; [|done]. exact (proj1 (op_safe (fun _ => VUnit) _ (ORemoveFn i) eq_refl)).
Qed.

Lemma handle_triggers_good r : ids_agree r ->
  match r with TriggerCreate _ | TriggerGet _ | TriggerList _ _ _ _ _ | TriggerUpdate _ _ | TriggerDelete _ => True | _ => False end ->
  good (handle json_string baseURL canceled now new_id v r).
Proof.
  intros Ha. destruct r as [ | | | | | | | | | |b|i|c p a f n|i b|i]; intros []; cbn [handle].
  - apply bound_good. intros t _. apply (respond_good _ VTrigger _ (OInsertTrigger t)); [done|]. intros t2 _.
    destruct (op_safe VTrigger (ds_InsertTrigger v now new_id (Some t)) (OInsertTrigger t) eq_refl) as (H1 & _).
    destruct (get_app _ (tr_AppID t2) H1) as (r & -> & Hp & _). destruct r as [app|e|]; [|by apply done_good|done].
    pose proof (annotate_trigger_total app t2) as Ht.
    destruct (annotateTriggerWithBaseURL _ _ _ _) as [x|e|]; [by apply done_good..|done].
  - apply (read_good VTrigger _ (OGetTriggerByID i)); [done..|]. intros v1 t Hs. apply respond_read; [by apply explain_read|].
    intros app _. pose proof (explain_read v1 "unexpected error - trigger app not available: " (tr_AppID t) Hs) as Hs2.
    apply respond_read; [done|]. intros y _. by apply good_same.
  - unfold handleTriggerList. destruct (pageParams c p) as [c' p'].
    apply (read_good VTriggers _ (OGetTriggers (MkTriggerFilter a f n c' p'))); [done..|]. intros v1 l Hs.
    assert (Hs2 : same_store v (list_loop tr_AppID (annotateTriggerWithBaseURL json_string baseURL) "failed to get app for trigger " v1 ∅ (Items l)).1).
    { apply (same_trans v1); [done|]. by apply list_loop_same, Hs. }
    apply respond_read; [done|]. intros ys _. by apply good_same.
  - apply bound_good. intros t ->. simpl in Ha.
    assert (E : (if streq (tr_ID t) "" then (trigger_with_ID t i, gw_new)
       else if negb (streq i (tr_ID t)) then (t, handleErrorResponse gw_new canceled (EVar ErrTriggerIDMismatch)) else (t, gw_new)) =
       (if streq (tr_ID t) "" then trigger_with_ID t i else t, gw_new)).
    { destruct (streq (tr_ID t) "") eqn:Es; [done|]. destruct Ha as [Ha|Ha]; [by apply streq_spec in Ha; congruence|].
      by rewrite (proj2 (streq_spec i (tr_ID t)) (eq_sym Ha)). }
    rewrite E. set (t' := if streq _ _ then trigger_with_ID t i else t). apply (respond_good _ VTrigger _ (OUpdateTrigger t')); [done|]. intros t2 _.
    apply done_good; [|done]. exact (proj1 (op_safe VTrigger _ (OUpdateTrigger t') eq_refl)).
  - apply (respond_good _ (fun _ => VUnit) _ (ORemoveTrigger i)); [done|]. intros a _.
    apply done_good; [|done]. exact (proj1 (op_safe (fun _ => VUnit) _ (ORemoveTrigger i) eq_refl)).
Qed.
End From.

Lemma fn_address_ne f : streq (fn_address baseURL f) "" = false.
Proof. apply streq_false. unfold fn_address. by destruct (TrimSuffix baseURL "/"). Qed.
Lemma trigger_address_ne app t : streq (trigger_address baseURL app t) "" = false.
Proof. apply streq_false. unfold trigger_address. by destruct (TrimSuffix baseURL "/"). Qed.

Definition annotated_fn (f : Fn) : Fn :=
  with_fn_annotations f (map_set FnInvokeEndpointAnnotation (Some (json_string (fn_address baseURL f))) (fn_Annotations f)).
Definition annotated_trigger (app : App) (t : Trigger) : Trigger :=
  if streq (tr_Type t) TriggerTypeHTTP
  then with_trigger_annotations t
         (map_set TriggerHTTPEndpointAnnotation (Some (json_string (trigger_address baseURL app t))) (tr_Annotations t))
  else t.

Lemma annotate_fn_ok app f :
  validateField FnInvokeEndpointAnnotation (json_string (fn_address baseURL f)) = Ok tt ->
  annotateFnWithBaseURL json_string baseURL app f = Ok (annotated_fn f).
Proof.
  intros H. unfold annotateFnWithBaseURL, Annotations_With. rewrite Fn_Clone_eq, fn_address_ne. cbn [negb obind].
  rewrite H. cbn [obind]. by rewrite Annotations_clone_eq.
Qed.

Lemma annotate_trigger_ok app t :
  validateField TriggerHTTPEndpointAnnotation (json_string (trigger_address baseURL app t)) = Ok tt ->
  annotateTriggerWithBaseURL json_string baseURL app t = Ok (annotated_trigger app t).
Proof.
  intros H. unfold annotateTriggerWithBaseURL, annotated_trigger, Annotations_With, Trigger_Clone.
  destruct (streq (tr_Type t) TriggerTypeHTTP); cbn [negb]; [|done].
  rewrite trigger_address_ne. cbn [negb obind]. rewrite H. cbn [obind]. by rewrite Annotations_clone_eq.
Qed.

(** C22: a request that is refused changes nothing: over the in-memory store behind
    its checks, every route of the API ends with one response for every
    request; unless the status is 200 or 204 (or the handler panicked on a
    null annotation) the store holds what it held.  The exception is the update
    of a function or trigger whose body names another id than the path. *)
Theorem api_atomic v r : ids_ok (v_ds v) -> fresh_id (v_ds v) new_id -> ids_agree r ->
  let (v', out) := handle json_string baseURL canceled now new_id v r in
  ids_ok (v_ds v') /\
  ((exists g, out = Ok g /\ ((http_response g).1 = 200 \/ (http_response g).1 = 204)) \/
   ((exists g, out = Ok g) \/ out = Panic) /\ abs (v_ds v') = abs (v_ds v)).
Proof.
  intros Hi Hf Ha.
  assert (H : good v (handle json_string baseURL canceled now new_id v r)).
  { destruct r; first [by apply handle_apps_good|by apply handle_fns_good|by apply handle_triggers_good]. }
  destruct (handle _ _ _ _ _ _ _) as [v' out]. destruct H as [H1 H2]. split; [done|]. simpl in *.
  destruct out as [g|e|]; [|done|right; split; [by right|apply H2]].
  destruct H2 as [H2|[_ H2]]; [left; exists g; split; [done|]|right; split; [left; by exists g|done]].
  unfold accepted in H2. by rewrite orb_true_iff, !Z.eqb_eq in H2.
Qed.

(** The two lists, from the pages of the store. *)
Section ListHandlers.
Context (m : mock) (Hi : ids_ok m) (Hn : integrity (abs m)).
Context (c p app name cur : string) (Happ : app <> ""%string) (Hc : page_cursor c = Ok cur).

Lemma list_fns_ok (per := (pageParams c p).2) :
  (forall f, f ∈ m_Fns m -> validateField FnInvokeEndpointAnnotation (json_string (fn_address baseURL f)) = Ok tt) ->
  exists v' g pg, handle json_string baseURL canceled now new_id (Validator m) (FnList c p app name) = (v', Ok g) /\
    is_page fn_Name (fn_kept (MkFnFilter app name c per) cur) (bounded per) per (s_fns (abs m)) pg /\
    http_response g = (200, [BFns (Page (NextCursor pg) (annotated_fn <$> Items pg))]).
Proof.
  intros Hf. assert (Es : streq app "" = false) by by apply streq_false.
  destruct (GetFns_ok m Hi (MkFnFilter app name c per) cur Hc) as (pg & Eg & Hp). destruct (sorted_like_fns m Hi) as [Hi1 Ha1].
  set (m1 := Mock (m_Apps m) (sort_Sort fn_Name (m_Fns m)) (m_Triggers m)) in *.
  assert (E : ds_GetFns (Validator m) (MkFnFilter app name c per) = (Validator m1, Ok pg)).
  { simpl. unfold validator_GetFns, checked. cbn [first_failed ff_AppID]. rewrite Es. unfold inside. simpl. by rewrite <- Eg. }
  destruct (list_loop_ok fn_AppID (annotateFnWithBaseURL json_string baseURL) (fun _ => annotated_fn) "failed to get app for fn "
    (Items pg) (Validator m1) ∅ Hi1) as (ys & El & Hys); [apply map_Forall_empty|..].
  { intros x Hx. destruct Hp as (_ & _ & _ & Hin & _). destruct (Hin x Hx) as [Hk [i Hxi]].
    destruct (in_fn_app _ Hn i x Hxi) as [a Hxa]. split.
    - unfold fn_kept, matches in Hk. simpl in Hk. rewrite Es in Hk. simpl in Hk. intros E0. rewrite E0, Es, andb_false_r in Hk. done.
    - exists a. simpl v_ds. rewrite Ha1. split; [done|]. apply annotate_fn_ok, Hf. by apply by_id_elem in Hxi as [? _]; [|apply Hi]. }
  assert (Ey : ys = annotated_fn <$> Items pg).
  { clear -Hys. induction Hys as [|x y l k (a & _ & ->) _ IH]; [done|]. by rewrite fmap_cons, IH. }
  subst ys. exists (Validator m1), (c_JSON gw_new 200 (BFns (Page (NextCursor pg) (annotated_fn <$> Items pg)))), pg.
  split; [|done]. cbn [handle]. unfold handleFnList. change (pageParams c p) with (c, per). cbv beta iota zeta. rewrite E. cbn [respond].
  by rewrite El.
Qed.

Lemma list_triggers_ok fn (per := (pageParams c p).2) :
  (forall a t, t ∈ m_Triggers m -> validateField TriggerHTTPEndpointAnnotation (json_string (trigger_address baseURL a t)) = Ok tt) ->
  exists v' g pg ts, handle json_string baseURL canceled now new_id (Validator m) (TriggerList c p app fn name) = (v', Ok g) /\
    is_page tr_Name (trigger_kept (MkTriggerFilter app fn name c per) cur) (bounded per) per (s_trs (abs m)) pg /\
    Forall2 (fun t t' => exists a, s_apps (abs m) !! tr_AppID t = Some a /\ t' = annotated_trigger a t) (Items pg) ts /\
    http_response g = (200, [BTriggers (Page (NextCursor pg) ts)]).
Proof.
  intros Ht. assert (Es : streq app "" = false) by by apply streq_false.
  destruct (GetTriggers_ok m Hi (MkTriggerFilter app fn name c per) cur Hc) as (pg & Eg & Hp). destruct (sorted_like_trs m Hi) as [Hi1 Ha1].
  set (m1 := Mock (m_Apps m) (m_Fns m) (sort_Sort tr_Name (m_Triggers m))) in *.
  assert (E : ds_GetTriggers (Validator m) (MkTriggerFilter app fn name c per) = (Validator m1, Ok pg)).
  { simpl. unfold validator_GetTriggers, checked. cbn [first_failed tf_AppID]. rewrite Es. unfold inside. simpl. by rewrite <- Eg. }
  destruct (list_loop_ok tr_AppID (annotateTriggerWithBaseURL json_string baseURL) annotated_trigger "failed to get app for trigger "
    (Items pg) (Validator m1) ∅ Hi1) as (ys & El & Hys); [apply map_Forall_empty|..].
  { intros x Hx. destruct Hp as (_ & _ & _ & Hin & _). destruct (Hin x Hx) as [Hk [i Hxi]].
    destruct (in_tr_fn _ Hn i x Hxi) as (f & Hff & Hfa). destruct (in_fn_app _ Hn _ f Hff) as [a Hxa]. rewrite Hfa in Hxa. split.
    - unfold trigger_kept in Hk. simpl in Hk. apply andb_prop in Hk as [[[_ Hk%streq_spec]%andb_prop _]%andb_prop _]. by rewrite Hk.
    - exists a. simpl v_ds. rewrite Ha1. split; [done|]. apply annotate_trigger_ok, Ht. by apply by_id_elem in Hxi as [? _]; [|apply Hi]. }
  exists (Validator m1), (c_JSON gw_new 200 (BTriggers (Page (NextCursor pg) ys))), pg, ys.
  split; [|split; [done|split; [|done]]].
  - cbn [handle]. unfold handleTriggerList. change (pageParams c p) with (c, per). cbv beta iota zeta. rewrite Es, E. cbn [respond]. by rewrite El.
  - simpl v_ds in Hys. by rewrite Ha1 in Hys.
Qed.
End ListHandlers.

End Api.

#[local] Existing Instance demo_validator.
Abbreviation demo_handle := (handle (MR := canonical_range) (D := validator mock) (fun s => s) "http://fn" false 7 "09").

Lemma api_atomic_witness :
  let (v', out) := demo_handle (Validator NewMock) (AppCreate (Ok demo_app)) in
  ids_ok (v_ds v') /\
  ((exists g, out = Ok g /\ ((http_response g).1 = 200 \/ (http_response g).1 = 204)) \/
   ((exists g, out = Ok g) \/ out = Panic) /\ abs (v_ds v') = abs NewMock).
Proof.
  apply (@api_atomic canonical_range demo_tables insertion_sort demo_scheme default_limits);
    [split; constructor|split_and!; apply not_elem_of_nil|exact I].
Defined.


(** The handler that finds two ids answers 400, makes the update, and answers a
    second time. *)
Example update_mismatch :
  let m := Mock (m_Apps two_triggers) (m_Fns two_triggers) [] in
  let patch := MkFn "f1" "" "" "other" 0 0 0 None None 0 0 in
  let (v', out) := demo_handle (Validator m) (FnUpdate "f2" (Ok patch)) in
  (fn_Image <$> m_Fns (v_ds v')) = ["other"; "image"]%string /\
  (omap_ok http_response out) = Ok (400, [BError (var_msg ErrFnsIDMismatch); BFn (MkFn "f1" "f1" "a1" "other" 128 30 30 None None 0 7)]).
Proof. vm_compute. split; reflexivity. Qed.

(** A list of triggers without an application is answered twice. *)
Example trigger_list_twice :
  omap_ok http_response (demo_handle (Validator two_triggers) (TriggerList "" "" "" "" "")).2 =
    Ok (400, [BError (var_msg ErrTriggerMissingAppID); BError (var_msg ErrTriggerMissingAppID)]).
Proof. vm_compute. reflexivity. Qed.
