(* ===== verification/HotSlot.v ===== *)
(** * One call in a hot container (src/api/agent/agent.go)

    The slot of a hot container runs one call: the request to the function over
    its socket, the contract on the function's answer, the copy to the client
    under a size limit, the hooks before and after, and the verdict the
    container waits for on the slot's channel.  Around it [submit] and
    [handleCallEnd] turn every way a call can end into the caller's error, and
    close what they opened.  The environment's answers (the socket, the hooks,
    which of two channels is ready first) are arguments.  The client's
    connection is the class [HttpConn] over [ResponseWriter] and [Writer].  The
    theorems: when the container goes on and when it dies, what the client and
    the function see, and what every ending does to sessions, states and
    errors. *)
From S2P Require Import Prelude Errors Annotations Models GoStrings Resource Stats Call IoUtils.
From S2P Require Import DataAccess HttpTrigger StateTrackers Sync.

(** ** The verdict channel of a slot

    [hotSlot.done] has room for one value; [Some None] is a nil error. *)
Abbreviation done_chan := (option (option gerr)).

Definition SetError (done : done_chan) (err : option gerr) : done_chan :=
  match done with None => Some err | Some _ => done end.
Definition hotSlot_Close (done : done_chan) : done_chan := SetError done None.

(** ** The container's log and statistics sinks *)

(** [ghost]: the container logs through a ghost writer (logs are enabled). *)
Record ctr_logs := CtrLogs { ghost : bool; c_log : nat; c_stats : option nat }.

(** [container.swap]: the new sinks and the function that puts the old ones back. *)
Definition swap (c : ctr_logs) (stderr : nat) (cs : option nat) : ctr_logs * (ctr_logs -> ctr_logs) :=
  let ostderr := if ghost c then Some (c_log c) else None in
  let ocs := c_stats c in
  ({| ghost := ghost c; c_log := if ghost c then stderr else c_log c; c_stats := cs |},
   fun c => {| ghost := ghost c; c_log := default (c_log c) ostderr; c_stats := ocs |}).

(** ** The client's connection *)

(** [committed]: the status line and headers once they are sent. *)
Class HttpConn (W : Type) `{ResponseWriter W} `{Writer W} := {
  committed : W -> option (Z * Header);
  committed_set : forall w h, committed (rw_set_Header w h) = committed w;
  committed_WriteHeader : forall w s,
    committed (rw_WriteHeader w s) = match committed w with Some c => Some c | None => Some (s, rw_Header w) end;
  committed_write : forall w b c, committed w = Some c -> committed (write w b).1 = Some c;
  sent_set : forall w h, sent (rw_set_Header w h) = sent w;
  sent_WriteHeader : forall w s, sent (rw_WriteHeader w s) = sent w
}.

(** A connection that breaks after [cn_room] more bytes. *)
Record conn := Conn { cn_header : Header; cn_committed : option (Z * Header); cn_body : list Z; cn_room : Z }.

Definition conn_commit (w : conn) (s : Z) : conn :=
  {| cn_header := cn_header w;
     cn_committed := match cn_committed w with Some c => Some c | None => Some (s, cn_header w) end;
     cn_body := cn_body w; cn_room := cn_room w |}.
Definition conn_write (w : conn) (b : list Z) : conn * (Z * option gerr) :=
  let n := Z.max 0 (Z.min (len b) (cn_room w)) in
  let w := conn_commit w 200 in
  ({| cn_header := cn_header w; cn_committed := cn_committed w;
      cn_body := cn_body w ++ take (Z.to_nat n) b; cn_room := cn_room w - n |},
   (n, if n <? len b then Some (EPlain "write: broken pipe") else None)).

#[refine, export] Instance conn_Writer : Writer conn := {| write := conn_write; sent := cn_body |}.
Proof.
  - intros s b. simpl. pose proof (len_nonneg b). lia.
  - intros s b. done.
  - intros s b. simpl. intros Hl. by rewrite (proj2 (Z.ltb_lt _ _) Hl).
Defined.
#[refine, export] Instance conn_ResponseWriter : ResponseWriter conn := {|
  rw_Header := cn_header;
  rw_set_Header := fun w h => Conn h (cn_committed w) (cn_body w) (cn_room w);
  rw_WriteHeader := conn_commit;
  rw_Write := fun w b => (conn_write w (bytes_of_string b)).1
|}.
Proof. reflexivity. Defined.
#[refine, export] Instance conn_HttpConn : HttpConn conn := {| committed := cn_committed |}.
Proof. all: intros; simpl; try done. by rewrite H. Defined.

(** ** The function's answer *)

(** A response on the function's socket: the body as the chunks [io.Copy] reads
    and the error of the last read ([None]: end of file); [ur_wire] is the form
    [http.Response.Write] gives it, used when the output is not an HTTP
    connection. *)
Record uds_response := UResp {
  ur_StatusCode : Z;
  ur_Header : Header;
  ur_body : list (list Z);
  ur_err : option gerr;
  ur_wire : list (list Z)
}.

(** What [udsClient.Do] returns. *)
Inductive uds_do := DoErr (text : string) | DoResp (r : uds_response).

Definition FDK_error (code : Z) : gerr := EPlain ("FDK Error, invalid status code " ++ FormatInt code).

Section HotSlot.
  Context {MR : MapRange} {W S : Type} `{HttpConn W} `{Writer S}.

(** [call.respWriter]: an HTTP connection, or another writer. *)
Abbreviation output := (W + S)%type.

(** The loop that copies headers, [rw.Header().Add(k, v)]. *)
Definition add_values (h : Header) (k : string) (vs : list string) : Header :=
  foldl (fun h v => Header_Add h k v) h vs.
Definition add_headers (h src : Header) : Header :=
  foldl (fun h kv => add_values h kv.1 kv.2) h (range src).

(** [io.Copy] to a clamped writer. *)
Definition io_Copy {T} `{Writer T} (w : T) (body : list (list Z)) (rerr : option gerr) : T * option gerr :=
  let '(w, (_, err)) := write_all w body in
  (w, match err with Some e => Some e | None => rerr end).

Definition unclamp {T} (c : clamped T) : T := match c with Clamp g => cw_w g | NoClamp w => w end.

Definition writeResp (done : done_chan) (max : Z) (resp : uds_response) (w : output)
  : done_chan * output * option gerr :=
  match w with
  | inr s =>
      let '(c, (_, err)) := write_all (NewClampWriter s max (EVar ErrFunctionResponseTooBig)) (ur_wire resp) in
      (done, inr (unclamp c), err)
  | inl rw =>
      if ur_StatusCode resp =? 200 then
        let rw := rw_set_Header rw (add_headers (rw_Header rw) (StripHopHeaders (ur_Header resp))) in
        let rw := rw_WriteHeader rw 200 in
        let '(c, ioErr) := io_Copy (NewClampWriter rw max (EVar ErrFunctionResponseTooBig)) (ur_body resp) (ur_err resp) in
        (done, inl (unclamp c), ioErr)
      else if ur_StatusCode resp =? 502 then (done, w, Some (EVar ErrFunctionFailed))
      else if ur_StatusCode resp =? 504 then (done, w, Some EDeadlineExceeded)
      else (SetError done (Some (FDK_error (ur_StatusCode resp))), w, Some (EVar ErrFunctionInvalidResponse))
  end.

(** The copying goroutine when the context ends first: it has not looked at the
    response yet, or has copied some chunks. *)
Definition first_chunks (m : nat) (resp : uds_response) : uds_response :=
  {| ur_StatusCode := ur_StatusCode resp; ur_Header := ur_Header resp; ur_body := take m (ur_body resp);
     ur_err := None; ur_wire := take m (ur_wire resp) |}.
Definition writeResp_begun (n : nat) (done : done_chan) (max : Z) (resp : uds_response) (w : output)
  : done_chan * output :=
  match n with
  | O => (done, w)
  | Datatypes.S m => let '(done, w, _) := writeResp done max (first_chunks m resp) w in (done, w)
  end.

(** Which case of the select in [dispatch] is taken. *)
Inductive race := WriterFirst | CtxFirst (n : nat) (e : gerr).

(** [ctx_err] is [ctx.Err()] when the request on the socket fails. *)
Definition dispatch (done : done_chan) (max : Z) (c : ctr_logs) (stderr : nat) (stats : nat)
    (do : uds_do) (ctx_err : option gerr) (r : race) (w : output)
  : done_chan * ctr_logs * output * option gerr :=
  let '(c, swapBack) := swap c stderr (Some stats) in
  match do with
  | DoErr text =>
      let done := SetError done (Some (EPlain text)) in
      (done, swapBack c, w,
       Some (if bool_decide (ctx_err = Some EDeadlineExceeded) then EDeadlineExceeded
             else if Contains text "server response headers exceeded " then EVar ErrFunctionResponseHdrTooBig
             else EVar ErrFunctionResponse))
  | DoResp resp =>
      match r with
      | WriterFirst => let '(done, w, err) := writeResp done max resp w in (done, swapBack c, w, err)
      | CtxFirst n e =>
          let '(done, w) := writeResp_begun n done max resp w in
          (if bool_decide (e = EDeadlineExceeded) then SetError done (Some e) else done, swapBack c, w, Some e)
      end
  end.

(** What the environment does during [exec]. *)
Record exec_env := ExecEnv {
  x_before : option gerr;
  x_do : uds_do;
  x_ctx_err : option gerr;
  x_race : race;
  x_after : option gerr
}.

Definition req_update (old new : RequestStateType) : RequestStateType := if req_allowed old new then new else old.

(** A call with its slot: the verdict, the container's sinks, the output and the
    request's state. *)
Record running := Running { ru_done : done_chan; ru_logs : ctr_logs; ru_out : output; ru_req : RequestStateType }.

Definition exec (max : Z) (stderr stats : nat) (x : exec_env) (s : running) : running * option gerr :=
  let req := req_update (ru_req s) RequestStateExec in
  match x_before x with
  | Some err => (Running (SetError (ru_done s) (Some err)) (ru_logs s) (ru_out s) req, Some err)
  | None =>
      let '(done, c, w, err) := dispatch (ru_done s) max (ru_logs s) stderr stats (x_do x) (x_ctx_err x) (x_race x) (ru_out s) in
      let err2 := x_after x in
      let err := match err with None => err2 | Some _ => err end in
      let done := match err2 with Some _ => SetError done err2 | None => done end in
      (Running done c w req, err)
  end.

(** ** The end of a call *)

(** [ended]: what [call.End] was called with, if it was. *)
Record end_result := EndResult { er_slot : option done_chan; er_ended : option (option gerr); er_err : option gerr }.

Definition handleCallEnd (slot : option done_chan) (err : option gerr) (isStarted : bool) : end_result :=
  let slot := hotSlot_Close <$> slot in
  if isStarted then
    EndResult slot (Some err)
      (match err with Some EDeadlineExceeded => Some (EVar ErrCallTimeout) | _ => err end)
  else
    EndResult slot None
      (if bool_decide (err = Some (EVar ErrCallTimeoutServerBusy)) || bool_decide (err = Some EDeadlineExceeded)
       then Some (EVar ErrCallTimeoutServerBusy) else err).

(** What [submit] meets: the error of [getSlot] or the container of the slot,
    the error of [call.Start], the run. *)
Record submit_env := SubmitEnv {
  se_slot : gerr + ctr_logs;
  se_start : option gerr;
  se_exec : exec_env
}.

Record submit_result := SubmitResult {
  su_wg : WaitGroup;
  su_req : RequestStateType;
  su_out : output;
  su_end : end_result
}.

(** Between [AddSession] and the deferred [DoneSession]: [getSlot] puts the
    request in the waiting state, a slot comes with an empty verdict channel. *)
Definition submit_body (max : Z) (stderr stats : nat) (e : submit_env) (w : output)
  : RequestStateType * output * end_result :=
  let req := req_update RequestStateNone RequestStateWait in
  match se_slot e with
  | inl err => (req, w, handleCallEnd None (Some err) false)
  | inr logs =>
      match se_start e with
      | Some err => (req, w, handleCallEnd (Some None) (Some err) false)
      | None =>
          let '(s, err) := exec max stderr stats (se_exec e) (Running None logs w req) in
          (ru_req s, ru_out s, handleCallEnd (Some (ru_done s)) err true)
      end
  end.

Definition submit (g : WaitGroup) (max : Z) (stderr stats : nat) (e : submit_env) (w : output)
  : outcome unit submit_result :=
  let (g, ok) := AddSession g 1 in
  if negb ok then
    Ok (SubmitResult g RequestStateNone w (EndResult None None (Some (EVar ErrCallTimeoutServerBusy))))
  else
    let '(req, w, r) := submit_body max stderr stats e w in
    let req := req_update req RequestStateDone in
    let! g := DoneSession g in
    Ok (SubmitResult g req w r).

(** ** The request to the function *)

(** [createUDSRequest]: [deadline] is the formatted deadline of the context. *)
Definition createUDSRequest (hdr : Header) (call_id : string) (deadline : option string) : Header :=
  let h := add_headers ∅ (StripHopHeaders hdr) in
  let h := Header_Set h "Fn-Call-Id" call_id in
  match deadline with Some d => Header_Set h "Fn-Deadline" d | None => h end.

(** ** Lemmas *)

Lemma SetError_Some d e : exists r, SetError d e = Some r.
Proof. destruct d; by eexists. Qed.

Lemma SetError_kept d e e' : d <> None -> SetError d e' = d /\ SetError (SetError d e) e' = d.
Proof. by destruct d. Qed.

Lemma swap_back c stderr cs : (swap c stderr cs).2 (swap c stderr cs).1 = c.
Proof. unfold swap. destruct c as [[] l st]; done. Qed.

(** The statuses after which a container may go on. *)
Definition status_ok (z : Z) : bool := (z =? 200) || (z =? 502) || (z =? 504).

Definition is_http (w : output) : bool := match w with inl _ => true | inr _ => false end.

(** Whether the copying goroutine has looked at the status. *)
Definition looked (r : race) : bool := match r with CtxFirst O _ => false | _ => true end.

(** Nothing went wrong that ends the container: the hooks succeeded, the socket
    answered, the deadline did not pass before the answer was copied, and the
    function kept to the contract on statuses. *)
Definition healthy (x : exec_env) (http : bool) : Prop :=
  x_before x = None /\ x_after x = None /\
  match x_do x with
  | DoErr _ => False
  | DoResp r =>
      (http && looked (x_race x) = true -> status_ok (ur_StatusCode r) = true) /\
      match x_race x with CtxFirst _ e => e <> EDeadlineExceeded | WriterFirst => True end
  end.

(** What [writeResp] says to the container. *)
Lemma writeResp_done done max resp w :
  let '(done', w', err) := writeResp done max resp w in
  done' = (if is_http w && negb (status_ok (ur_StatusCode resp))
           then SetError done (Some (FDK_error (ur_StatusCode resp))) else done) /\
  is_http w' = is_http w /\ (err = None -> is_http w = true -> ur_StatusCode resp = 200).
Proof.
  unfold writeResp, status_ok. destruct w as [rw|s]; cbn [is_http].
  - destruct (Z.eqb_spec (ur_StatusCode resp) 200) as [E|].
    { destruct (io_Copy _ _ _) as [c e]. done. }
    destruct (Z.eqb_spec (ur_StatusCode resp) 502) as [E|]; [done|].
    by destruct (Z.eqb_spec (ur_StatusCode resp) 504).
  - destruct (write_all _ _) as [c [n e]]. done.
Qed.

Lemma dispatch_verdict max c stderr stats do ctx_err r w :
  let '(done, c', w', err) := dispatch None max c stderr stats do ctx_err r w in
  (done = None <-> match do with
    | DoErr _ => False
    | DoResp resp =>
        (is_http w && looked r = true -> status_ok (ur_StatusCode resp) = true) /\
        match r with CtxFirst _ e => e <> EDeadlineExceeded | WriterFirst => True end
    end) /\ (forall e, done = Some e -> e <> None) /\
  c' = c /\ (err = None -> done = None).
Proof.
  unfold dispatch. pose proof (swap_back c stderr (Some stats)) as Hsw.
  destruct (swap c stderr (Some stats)) as [c' back]. cbn [fst snd] in Hsw.
  destruct do as [text|resp]; [split; [done|]; split; [naive_solver|done]|].
  assert (Hw : forall resp', ur_StatusCode resp' = ur_StatusCode resp ->
    let '(d, w', err) := writeResp None max resp' w in
    (d = None <-> (is_http w = true -> status_ok (ur_StatusCode resp) = true)) /\ (forall e, d = Some e -> e <> None) /\
    (err = None -> d = None)).
  { intros resp' E. pose proof (writeResp_done None max resp' w) as H'.
    destruct (writeResp None max resp' w) as [[d w'] err]. destruct H' as (-> & _ & H200). rewrite E in *.
    destruct (is_http w); cbn [andb]; [|naive_solver].
    destruct (status_ok (ur_StatusCode resp)) eqn:Es; cbn [negb]; [naive_solver|].
    split; [naive_solver|]. split; [naive_solver|]. intros He. rewrite H200 in Es by done. done. }
  destruct r as [|n e].
  - specialize (Hw resp eq_refl). destruct (writeResp None max resp w) as [[d w'] err].
    cbn [looked]. rewrite andb_true_r. naive_solver.
  - destruct n as [|m]; cbn [writeResp_begun looked].
    + rewrite andb_false_r. case_bool_decide; naive_solver.
    + specialize (Hw (first_chunks m resp) eq_refl). destruct (writeResp None max _ w) as [[d w'] err].
      rewrite andb_true_r. destruct Hw as (H1' & H2' & _). case_bool_decide as He.
      * split; [split; [|naive_solver]|]. { by destruct d. }
        split; [|naive_solver]. intros e'. destruct d; [apply H2'|]. by intros [= <-].
      * naive_solver.
Qed.

(** What the copy to the client does under the limit [max]. *)
Lemma io_Copy_client rw max body rerr c :
  0 <= max <= maxI64 -> committed rw = Some c ->
  let '(g, err) := io_Copy (NewClampWriter rw max (EVar ErrFunctionResponseTooBig)) body rerr in
  committed (unclamp g) = Some c /\
  exists n, sent (unclamp g) = sent rw ++ take (Z.to_nat n) (concat body) /\ 0 <= n <= len (concat body) /\
    (0 < max -> n <= max) /\ (err = None -> n = len (concat body) /\ rerr = None).
Proof.
  intros Hm Hc. unfold io_Copy.
  pose proof (write_all_spec (NewClampWriter rw max (EVar ErrFunctionResponseTooBig)) body) as Hw.
  assert (Hb : 0 < max -> (write_all (NewClampWriter rw max (EVar ErrFunctionResponseTooBig)) body).2.1 <= max).
  { intros Hp. unfold NewClampWriter. rewrite (proj2 (Z.eqb_neq max 0)) by lia. cbn [negb].
    rewrite i64_small by word_lia. apply (clamp_all_bound (ClampWriter rw max _)). simpl. lia. }
  assert (Hcm : committed (unclamp (write_all (NewClampWriter rw max (EVar ErrFunctionResponseTooBig)) body).1) = Some c).
  { assert (Hu : committed (unclamp (NewClampWriter rw max (EVar ErrFunctionResponseTooBig))) = Some c).
    { unfold NewClampWriter. by destruct (negb (max =? 0)). }
    revert Hu. generalize (NewClampWriter rw max (EVar ErrFunctionResponseTooBig)) as g. clear -body.
    induction body as [|b body IH]; intros g Hu; [done|]. cbn [write_all].
    assert (Hu' : committed (unclamp (write g b).1) = Some c).
    { destruct g as [g|w']; cbn [write clamped_Writer clamped_write] in *.
      - unfold clampWriter_Write. destruct (cw_remaining g <=? 0); [done|].
        pose proof (committed_write (cw_w g) (if cw_remaining g <? len b then take (Z.to_nat (cw_remaining g)) b else b) c Hu) as Hx.
        by destruct (write (cw_w g) _) as [w' [n err]].
      - pose proof (committed_write w' b c Hu) as Hx. by destruct (write w' b) as [w2 [n err]]. }
    destruct (write g b) as [g' [n [e|]]]; [done|]. specialize (IH g' Hu').
    by destruct (write_all g' body) as [g2 [m err]]. }
  destruct (write_all _ body) as [g [n err]]. destruct Hw as (H1' & H2' & H3').
  assert (Hs : forall (g : clamped W), sent g = sent (unclamp g)) by (by intros [?|?]).
  assert (Hs0 : sent (NewClampWriter rw max (EVar ErrFunctionResponseTooBig)) = sent rw).
  { unfold NewClampWriter. by destruct (negb (max =? 0)). }
  split; [done|]. exists n. rewrite Hs, Hs0 in H1'. split; [done|]. split; [done|]. split; [done|].
  destruct err; [done|]. intros ->. split; [by apply H3'|done].
Qed.

(** The client's side of one answer. *)
Definition answered (max : Z) (resp : uds_response) (rw rw' : W) : Prop :=
  (committed rw' = None /\ rw' = rw) \/
  (ur_StatusCode resp = 200 /\
   committed rw' = Some (200, add_headers (rw_Header rw) (StripHopHeaders (ur_Header resp))) /\
   exists n, sent rw' = sent rw ++ take (Z.to_nat n) (concat (ur_body resp)) /\
     0 <= n <= len (concat (ur_body resp)) /\ (0 < max -> n <= max)).

(** Nothing is left out: the whole body arrived. *)
Definition complete_answer (resp : uds_response) (rw rw' : W) : Prop :=
  ur_StatusCode resp = 200 /\ ur_err resp = None /\ sent rw' = sent rw ++ concat (ur_body resp).

Lemma writeResp_client done max resp rw :
  0 <= max <= maxI64 -> committed rw = None ->
  exists done' rw' err, writeResp done max resp (inl rw) = (done', inl rw', err) /\
    answered max resp rw rw' /\ (err = None -> complete_answer resp rw rw').
Proof.
  intros Hm Hc. unfold writeResp. destruct (Z.eqb_spec (ur_StatusCode resp) 200) as [E|].
  2: { destruct (Z.eqb_spec (ur_StatusCode resp) 502); [|destruct (Z.eqb_spec (ur_StatusCode resp) 504)];
       do 3 eexists; (split; [reflexivity|]); (split; [by left|done]). }
  set (rw1 := rw_WriteHeader _ 200).
  assert (Hc1 : committed rw1 = Some (200, add_headers (rw_Header rw) (StripHopHeaders (ur_Header resp)))).
  { unfold rw1. by rewrite committed_WriteHeader, committed_set, Hc, rw_Header_set. }
  assert (Hs1 : sent rw1 = sent rw) by (unfold rw1; by rewrite sent_WriteHeader, sent_set).
  pose proof (io_Copy_client rw1 max (ur_body resp) (ur_err resp) _ Hm Hc1) as Hcp.
  destruct (io_Copy _ _ _) as [g err]. destruct Hcp as (Hcm & n & Hs & Hn & Hmx & Hok).
  do 3 eexists. split; [reflexivity|]. rewrite Hs1 in Hs. split; [right; eauto 10|].
  intros He. destruct (Hok He) as [-> Hr]. rewrite take_len in Hs. done.
Qed.

Lemma concat_take_prefix m (l : list (list Z)) n : 0 <= n <= len (concat (take m l)) ->
  take (Z.to_nat n) (concat (take m l)) = take (Z.to_nat n) (concat l) /\ n <= len (concat l).
Proof.
  intros Hn. rewrite <- (take_drop m l) at 2 3. rewrite concat_app. split.
  - rewrite take_app_le; [done|unfold len in Hn; lia].
  - rewrite len_app. pose proof (len_nonneg (concat (drop m l))). lia.
Qed.

(** ** Theorems *)


(** C8: what the client sees of a call that ran, on any connection that was not
    written to: either nothing at all, or - only after a status 200 of the
    function - status 200, the function's headers without the transport headers
    added to those already set, and a prefix of the function's body of at most
    the configured size; on success the whole body, in full; and a call the
    hook refused or whose socket failed leaves the connection untouched, so
    that the server can still answer with an error. *)
Theorem exec_client max stderr stats x logs rw req :
  0 <= max <= maxI64 -> committed rw = None ->
  exists s err rw', exec max stderr stats x (Running None logs (inl rw) req) = (s, err) /\ ru_out s = inl rw' /\
    match x_before x, x_do x with
    | None, DoResp resp =>
        answered max resp rw rw' /\ (err = None -> complete_answer resp rw rw')
    | _, _ => rw' = rw /\ err <> None
    end.
Proof.
  intros Hm Hc. unfold exec. cbn [ru_done ru_logs ru_out ru_req].
  destruct (x_before x) as [eb|]; [do 3 eexists; by split_and!|].
  unfold dispatch. destruct (swap logs stderr (Some stats)) as [c back].
  destruct (x_do x) as [text|resp].
  { do 3 eexists. split; [reflexivity|]. done. }
  destruct (x_race x) as [|n e].
  - destruct (writeResp_client None max resp rw Hm Hc) as (d & rw' & err & -> & Ha & Hok).
    do 3 eexists. split; [reflexivity|]. split; [done|]. split; [done|].
    destruct err; [done|]. intros _. by apply Hok.
  - destruct n as [|m]; cbn [writeResp_begun].
    + do 3 eexists. split; [reflexivity|]. split; [done|]. split; [by left|done].
    + destruct (writeResp_client None max (first_chunks m resp) rw Hm Hc) as (d & rw' & err & -> & Ha & _).
      do 3 eexists. split; [reflexivity|]. split; [done|]. split; [|done].
      destruct Ha as [?|(E & Hcm & n & Hs & Hn & Hmx)]; [by left|right].
      cbn [first_chunks ur_body ur_StatusCode ur_Header] in *.
      destruct (concat_take_prefix m (ur_body resp) n Hn) as [Ht Hl]. rewrite Ht in Hs.
      split; [done|]. split; [done|]. exists n. split; [done|]. split; [lia|done].
Qed.

(** How an error that came before the call was started reads to the caller. *)
Definition busy_or (err : gerr) : gerr :=
  match err with EDeadlineExceeded => EVar ErrCallTimeoutServerBusy | _ => err end.

(** C6: every way through [submit] on a server that is not at the limit of its
    sessions: the session is given back and the request's state ends in "done";
    a closed server refuses with "too busy" and does nothing.  Without a slot or when
    the call's start is refused the output is untouched, [End] is not called, a
    slot that was obtained tells its container to go on, and a passed deadline
    reads "too busy"; otherwise the call ran, [End] is called once with the
    error of the run, and a passed deadline reads "timed out".  The caller
    never sees a bare deadline error, and no slot is left without a verdict. *)
Theorem submit_spec g max stderr stats e w :
  0 <= sessions g < maxU64 - 1 ->
  exists r, submit g max stderr stats e w = Ok r /\ su_wg r = g /\
  er_err (su_end r) <> Some EDeadlineExceeded /\ er_slot (su_end r) <> Some None /\
  if isClosed g then
    su_out r = w /\ su_end r = EndResult None None (Some (EVar ErrCallTimeoutServerBusy))
  else
    su_req r = RequestStateDone /\
    match se_slot e, se_start e with
    | inl err, _ => su_out r = w /\ su_end r = EndResult None None (Some (busy_or err))
    | inr _, Some err => su_out r = w /\ su_end r = EndResult (Some (Some None)) None (Some (busy_or err))
    | inr logs, None =>
        exists s err, exec max stderr stats (se_exec e) (Running None logs w RequestStateWait) = (s, err) /\
          su_out r = ru_out s /\ er_slot (su_end r) = Some (hotSlot_Close (ru_done s)) /\
          er_ended (su_end r) = Some err /\
          er_err (su_end r) = match err with Some EDeadlineExceeded => Some (EVar ErrCallTimeout) | _ => err end
    end.
Proof.
  intros Hg. unfold submit, AddSession. destruct (isClosed g) eqn:Ec; cbn [negb].
  { eexists. split; [reflexivity|]. done. }
  rewrite (proj2 (Z.eqb_neq _ _)) by (rewrite u64_small by word_lia; lia). cbn [negb].
  assert (Hd : DoneSession {| isClosed := false; sessions := u64 (sessions g + 1); closer_closed := closer_closed g |} = Ok g).
  { unfold DoneSession. cbn [sessions isClosed closer_closed]. rewrite u64_small by word_lia.
    rewrite (proj2 (Z.eqb_neq _ _)) by lia. rewrite u64_small by word_lia.
    destruct g as [c n cc]. cbn [sessions isClosed closer_closed] in *. subst c. do 2 f_equal. lia. }
  assert (Hbusy : forall err, (if bool_decide (Some err = Some (EVar ErrCallTimeoutServerBusy)) || bool_decide (Some err = Some EDeadlineExceeded)
       then Some (EVar ErrCallTimeoutServerBusy) else Some err) = Some (busy_or err)).
  { intros err. unfold busy_or. case_bool_decide as E1; [by injection E1 as ->|].
    case_bool_decide as E2; cbn [orb]; [by injection E2 as ->|]. by destruct err. }
  assert (Hnd : forall err, Some (busy_or err) <> Some EDeadlineExceeded) by (by intros []).
  unfold submit_body. change (req_update RequestStateNone RequestStateWait) with RequestStateWait.
  destruct (se_slot e) as [err|logs].
  { rewrite Hd. eexists. split; [reflexivity|]. unfold handleCallEnd. cbn [su_wg su_end su_req su_out].
    rewrite Hbusy. split; [done|]. split; [apply Hnd|]. split; [done|]. split; done. }
  destruct (se_start e) as [err|].
  { rewrite Hd. eexists. split; [reflexivity|]. unfold handleCallEnd. cbn [su_wg su_end su_req su_out].
    rewrite Hbusy. split; [done|]. split; [apply Hnd|]. split; [done|]. split; done. }
  destruct (exec max stderr stats (se_exec e) (Running None logs w RequestStateWait)) as [s err] eqn:Ex.
  rewrite Hd. eexists. split; [reflexivity|]. cbn [su_wg su_end su_req su_out handleCallEnd er_err er_slot er_ended].
  split; [done|]. split; [by destruct err as [[]|]|]. split.
  { unfold hotSlot_Close. simpl. by destruct (SetError_Some (ru_done s) None) as [r ->]. }
  split; [|eauto 10].
  assert (ru_req s = RequestStateExec) as ->; [|reflexivity].
  revert Ex. unfold exec. cbn [ru_done ru_logs ru_out ru_req].
  destruct (x_before _); [by intros [= <- _]|]. destruct (dispatch _ _ _ _ _ _ _ _ _) as [[[? ?] ?] ?].
  by intros [= <- _].
Qed.

(** *** The request to the function *)

Lemma add_values_lookup h k vs x : CanonicalHeaderKey k = k ->
  add_values h k vs !! x =
  if decide (x = k) then match vs with [] => h !! k | _ => Some (default [] (h !! k) ++ vs) end else h !! x.
Proof.
  intros Hk. unfold add_values. revert h. induction vs as [|v vs IH]; intros h; cbn [foldl].
  { by destruct (decide (x = k)) as [->|]. }
  rewrite IH. unfold Header_Add. rewrite Hk. destruct (decide (x = k)) as [->|]; [|by rewrite lookup_insert_ne].
  rewrite lookup_insert_eq. simpl. destruct vs; [done|]. by rewrite <- app_assoc.
Qed.

Lemma add_headers_lookup h src x : canonical_keys src ->
  add_headers h src !! x =
  match src !! x with Some (v :: vs) => Some (default [] (h !! x) ++ v :: vs) | _ => h !! x end.
Proof.
  intros Hc. unfold add_headers.
  assert (Hl : Forall (fun kv => CanonicalHeaderKey kv.1 = kv.1) (range src)).
  { apply Forall_forall. intros [k vs] Hk%elem_of_range. by eapply Hc. }
  assert (src !! x = list_to_map (M := gmap string _) (range src) !! x) as -> by (by rewrite range_list_to_map).
  pose proof (NoDup_range src) as Hn. revert Hl Hn h.
  generalize (range src) as l. induction l as [|[k vs] l IH]; intros Hl Hn h; [done|].
  apply Forall_cons in Hl as [Hk Hl]. apply NoDup_cons in Hn as [Hkn Hn].
  cbn [foldl list_to_map foldr curry uncurry fst snd]. rewrite IH, add_values_lookup by done.
  destruct (decide (x = k)) as [->|Hne].
  - rewrite lookup_insert_eq, not_elem_of_list_to_map_1 by done. by destruct vs.
  - by rewrite lookup_insert_ne by done.
Qed.

(** The request the container gets: its "Fn-Call-Id" is the id of the call and
    its "Fn-Deadline" the deadline of the context when there is one, whatever the
    client sent under these names; a transport header is passed on only when its
    first value is empty or it is "Te: trailers"; every other header with a value
    arrives as it was, values in order, and nothing else does. *)
Theorem createUDSRequest_spec hdr call_id deadline :
  canonical_keys hdr ->
  let h := createUDSRequest hdr call_id deadline in
  h !! "Fn-Call-Id"%string = Some [call_id] /\
  (forall d, deadline = Some d -> h !! "Fn-Deadline"%string = Some [d]) /\
  (forall k vs, k ∈ hopHeaders -> h !! k = Some vs ->
     exists l, vs = ""%string :: l \/ (k = "Te"%string /\ vs = "trailers"%string :: l)) /\
  (forall k, k ∉ hopHeaders -> k <> "Fn-Call-Id"%string -> k <> "Fn-Deadline"%string ->
     h !! k = match hdr !! k with Some (v :: vs) => Some (v :: vs) | _ => None end).
Proof.
  intros Hc h.
  assert (Hcs : canonical_keys (StripHopHeaders hdr)) by (intros k vs Hk%StripHopHeaders_sub; by eapply Hc).
  assert (E1 : CanonicalHeaderKey "Fn-Call-Id" = "Fn-Call-Id"%string) by (vm_compute; reflexivity).
  assert (E2 : CanonicalHeaderKey "Fn-Deadline" = "Fn-Deadline"%string) by (vm_compute; reflexivity).
  assert (Hoth : forall k, k <> "Fn-Call-Id"%string -> k <> "Fn-Deadline"%string ->
    h !! k = match StripHopHeaders hdr !! k with Some (v :: vs) => Some (v :: vs) | _ => None end).
  { intros k H1' H2'. unfold h, createUDSRequest, Header_Set. rewrite E1, E2.
    assert (Ha : (<["Fn-Call-Id"%string:=[call_id]]> (add_headers ∅ (StripHopHeaders hdr))) !! k =
      match StripHopHeaders hdr !! k with Some (v :: vs) => Some (v :: vs) | _ => None end).
    { rewrite lookup_insert_ne, add_headers_lookup, lookup_empty by done. done. }
    destruct deadline; [by rewrite lookup_insert_ne by done|done]. }
  split_and!.
  - unfold h, createUDSRequest, Header_Set. rewrite E1, E2.
    destruct deadline; [rewrite lookup_insert_ne by done|]; apply lookup_insert_eq.
  - intros d ->. unfold h, createUDSRequest, Header_Set. rewrite E2. apply lookup_insert_eq.
  - intros k vs Hk. rewrite Hoth by (intros ->; revert Hk; by apply (bool_decide_unpack _)).
    rewrite StripHopHeaders_lookup, decide_True by done. unfold keeps, Header_Get. clear E1 E2.
    destruct (hdr !! k) as [[|v l]|]; [by destruct (_ || _)|..|by destruct (_ || _)].
    intros Hv. exists l. case_bool_decide; cbn [orb] in Hv; [left; subst v; injection Hv as <-; reflexivity|].
    case_bool_decide; cbn [andb] in Hv; [|discriminate Hv]. case_bool_decide; cbn [orb] in Hv; [right; subst k v; injection Hv as <-; split; reflexivity|discriminate Hv].
  - intros k Hk H1' H2'. rewrite Hoth, StripHopHeaders_lookup, decide_False by done. done.
Qed.
End HotSlot.

(** ** The theorems at work *)

Definition test_resp (code : Z) : uds_response :=
  {| ur_StatusCode := code; ur_Header := {[ "X-A"%string := ["1"%string]; "Connection"%string := ["close"%string] ]};
     ur_body := [[1; 2]; [3]]; ur_err := None; ur_wire := [] |}.
Definition test_env (code : Z) (r : race) : exec_env :=
  {| x_before := None; x_do := DoResp (test_resp code); x_ctx_err := None; x_race := r; x_after := None |}.
Definition test_conn : conn := Conn ∅ None [] 100.
Definition test_logs : ctr_logs := CtrLogs true 7 None.

Lemma exec_client_witness :
  let MR := canonical_range in
  exists s, exec (S := list Z) 1024 1 2 (test_env 200 WriterFirst) (Running None test_logs (inl test_conn) RequestStateWait) = (s, None) /\
    exists rw', ru_out s = inl rw' /\ cn_body rw' = [1; 2; 3].
Proof.
  intros MR.
  destruct (exec_client (S := list Z) 1024 1 2 (test_env 200 WriterFirst) test_logs test_conn RequestStateWait)
    as (s & err & rw' & H & Ho & _ & Hok); [unfold maxI64; lia|reflexivity|].
  assert (err = None) as -> by (vm_compute in H; congruence).
  exists s. split; [exact H|]. exists rw'. split; [exact Ho|].
  destruct (Hok eq_refl) as (_ & _ & Hs). exact Hs.
Defined.

Lemma submit_spec_witness :
  let MR := canonical_range in
  exists r, submit (S := list Z) NewWaitGroup 1024 1 2 (SubmitEnv (inl EDeadlineExceeded) None (test_env 200 WriterFirst)) (inl test_conn) = Ok r /\
    er_err (su_end r) = Some (EVar ErrCallTimeoutServerBusy).
Proof.
  intros MR.
  destruct (submit_spec (S := list Z) NewWaitGroup 1024 1 2 (SubmitEnv (inl EDeadlineExceeded) None (test_env 200 WriterFirst)) (inl test_conn))
    as (r & H & _ & _ & _ & _ & _ & He); [unfold maxU64; simpl; lia|].
  exists r. split; [exact H|]. by rewrite He.
Defined.

Lemma createUDSRequest_spec_witness :
  let MR := canonical_range in
  createUDSRequest {[ "Fn-Call-Id"%string := ["forged"%string] ]} "real" None !! "Fn-Call-Id"%string = Some ["real"%string].
Proof.
  intros MR. refine (proj1 (createUDSRequest_spec _ _ _ _)). intros k vs [<- _]%lookup_singleton_Some. vm_compute. reflexivity.
Defined.

(** A call that times out in the container ends it, one that the function
    reports as timed out does not. *)
Example timeout_verdicts :
  let MR := canonical_range in
  let run x := hotSlot_Close (ru_done (exec (S := list Z) 1024 1 2 x (Running None test_logs (inl test_conn) RequestStateWait)).1) in
  run (test_env 200 (CtxFirst 1 EDeadlineExceeded)) = Some (Some EDeadlineExceeded) /\
  run (test_env 504 WriterFirst) = Some None.
Proof. split; reflexivity. Qed.
