(* ===== verification/RunnerStream.v ===== *)
(** * What an engagement sends and feeds (src/api/agent/pure_runner.go)

    The invariants of the data that flows through an engagement of
    [RunnerProtocol]: what is queued and sent to the load balancer, the verdict of
    the finish message, what [Engage] returns, what the function reads, and when a
    response may start; and the theorem on what a load balancer receives. *)
From S2P Require Import Prelude Errors Annotations Models GoStrings Base64 Resource Stats Call IoUtils DataAccess HttpTrigger RunnerProtocol.
Import Prelude.

Hint Rewrite stream_part_snoc finishes_snoc stream_bytes_snoc : handle.

Section EngagementData.
  Context {MR : MapRange} {RL : RunnerLib}.

(** ** The output *)

Record stream_inv (s : engagement) : Prop := {
  si_wire : match g_send s with
            | SIdle => queued (hist s) = wire (hist s)
            | SSend m => queued (hist s) = wire (hist s) ++ [m]
            | SDone => wire (hist s) `prefix_of` queued (hist s)
            end;
  si_shape : stream_shape (stream_part (queued (hist s))) = true;
  si_out : match g_out s with
           | WIdle => hd_headerOnce (hdl s) = true -> stream_part (queued (hist s)) <> [] \/ hd_done (hdl s) = true
           | WStart m _ => hd_headerOnce (hdl s) = true /\ stream_part (queued (hist s)) = [] /\ exists meta, m = MStart (Some meta)
           | WData l => hd_headerOnce (hdl s) = true /\ l <> [] /\ stream_part (queued (hist s)) <> []
           end;
  si_once : hd_headerOnce (hdl s) = false -> stream_part (queued (hist s)) = [];
  si_bytes : stream_bytes (queued (hist s)) = accepted (hist s);
  si_fin : match g_answer s with
           | ANil => finishes (queued (hist s)) = 1
           | ADone => 0 <= finishes (queued (hist s)) <= 1
           | _ => finishes (queued (hist s)) = 0
           end
}.

Lemma stream_init : stream_inv new_engagement.
Proof. split; simpl; auto; done. Qed.

Lemma stream_step b s s' : control s -> stream_inv s -> step b s s' -> stream_inv s'.
Proof.
  intros Hc [H1 H2 H3 H4 H5 H6] Hs. pose proof (ct_main _ Hc) as Hm. clear Hc. step_cases Hs; phases; rewrite ?ended_true in *.
  all: repeat match goal with
              | H : _ /\ _ = [] /\ exists _, _ |- _ => destruct H as (? & Hnil & meta & ->)
              | H : stopped _ = false |- _ => apply stopped_false in H; fields
              end.
  all: split; fields; rewrite ?Hnil; try done; try tauto; try (intuition congruence).
  all: try match goal with |- match ?f ?s with _ => _ end => destruct (f s); intuition (congruence || lia) end.
  all: rewrite ?Hm, ?Hnil, ?app_nil_r in *; try done; try lia.
  all: try (rewrite H1; first [done|by apply prefix_app_r]).
  all: try (by destruct H6; lia).
  all: try (intros; left; apply snoc_ne).
  all: try (apply stream_shape_snoc; [intuition..|apply chunk_taken; intuition]).
  all: try (destruct H3 as (? & ? & ?); split_and!; [done..|apply snoc_ne]).
  all: try (split_and!; eauto).
  all: match goal with H : g_answer _ = _ \/ _ |- _ => destruct H as [Ha|Ha]; rewrite Ha in H6; lia end.
Qed.

Lemma stream_reachable s : reachable s -> stream_inv s.
Proof.
  apply reachable_inv; [apply stream_init|]. intros b x y Hx. apply stream_step. by apply control_reachable.
Qed.

(** ** The verdict *)

(** A finish message says what the verdict is. *)
Definition reports (f : CallFinished) (v : option gerr) : Prop := exists now c, f = call_finished lib_DateTime_String now c v.

Record verdict_inv (s : engagement) : Prop := {
  vi_phase : match g_answer s with
             | ANone | ARun => verdict (hist s) = None /\ returned (hist s) = None
             | AFin f => exists v, verdict (hist s) = Some v /\ reports f v
             | _ => verdict (hist s) <> None
             end;
  vi_fin : forall f, MFinished f ∈ queued (hist s) -> exists v, verdict (hist s) = Some v /\ reports f v;
  vi_ok : verdict (hist s) = Some None -> returned (hist s) = Some None;
  vi_closed : returned (hist s) = Some None -> g_out s = WIdle /\ w_open s = false;
  vi_busy : forall e, verdict (hist s) = Some (Some e) -> says_busy e = true -> wrote (hist s) = false /\ w_open s = false;
  vi_callErr : forall e, hd_callErr (hdl s) = Some e -> says_busy e = false;
  vi_none : g_answer s = ANone -> wrote (hist s) = false /\ w_open s = false;
  vi_wrote : wrote (hist s) = false -> hd_headerOnce (hdl s) = false /\ g_out s = WIdle;
  vi_last : verdict (hist s) = Some None -> (exists f q, queued (hist s) = q ++ [MFinished f]) \/ finishes (queued (hist s)) = 0
}.

Lemma verdict_init : verdict_inv new_engagement.
Proof. split; simpl; auto; try done. intros f Hf. by apply not_elem_of_nil in Hf. Qed.

Lemma verdict_step b s s' : control s -> stream_inv s -> verdict_inv s -> step b s s' -> verdict_inv s'.
Proof.
  intros Hc Hi [H1 H2 H3 H4 H5 H6 H7 H8 H9] Hs. pose proof (ct_main _ Hc) as Hm. pose proof (si_fin _ Hi) as Hf. pose proof (si_out _ Hi) as Ho. clear Hc Hi.
  step_cases Hs; phases; rewrite ?ended_true in *.
  all: split; fields; try done; try tauto; try (intuition congruence).
  all: try (intros g' Hg'; apply try_queue_in in Hg' as [Hg'| ->]; [by apply H6|done]).
  all: try (intros g' Hg' Hb'; destruct (H5 _ Hg' Hb'); congruence).
  all: try (intros f' Hf'; exfalso; eapply no_finish; [|exact Hf']; congruence || lia).
  all: try match goal with |- exists v, Some _ = Some v /\ _ => eexists; split; [reflexivity|by eexists _, _] end.
  all: try match goal with |- match ?f ?s with _ => _ end => destruct (f s); intuition congruence end.
  all: try (intros [= ->]; by split).
  all: try (intros g' [= ->] Hb'; split; [|simpl; by rewrite Hb']; match goal with H : may_return _ _ |- _ => by apply H end).
  all: try (intros g' [= ->] Hb'; by rewrite H6 in Hb').
  all: try (intros f' [Hf'|Hf'%list_elem_of_singleton]%elem_of_app; [by apply H2|]; destruct Ho as (_ & _ & meta & ->); discriminate).
  all: try (intros f' [Hf'|Hf'%list_elem_of_singleton]%elem_of_app; [by apply H2|]; by simplify_eq).
  all: try (by destruct H1 as (v & -> & _)).
  - intros _. left. by exists f, (queued (hist s)).
  - match goal with H : g_answer _ = _ \/ _ |- _ => destruct H as [Ha|Ha]; rewrite Ha in H1; [by destruct H1 as (v & -> & _)|done] end.
Qed.

Lemma verdict_reachable s : reachable s -> verdict_inv s.
Proof.
  apply reachable_inv; [apply verdict_init|]. intros b x y Hx. apply verdict_step; [by apply control_reachable|by apply stream_reachable].
Qed.

(** ** What Engage returns *)

(** The status that makes a load balancer try another runner. *)
Definition status_busy (e : gerr) : bool := match e with EGRPC c _ => c =? busy_code | _ => false end.

Lemma stream_error_not_busy e : stream_error e -> status_busy e = false.
Proof. intros (c & m & -> & Hc). apply Z.eqb_neq. unfold busy_code. simpl. lia. Qed.

Record return_inv (s : engagement) : Prop := {
  ri_queue : hd_done (hdl s) = false -> hd_errQueue (hdl s) = None;
  ri_ctx : forall e, hd_ctx (hdl s) = Some e -> status_busy e = false;
  ri_clean : hd_done (hdl s) = true -> hd_errQueue (hdl s) = None -> (forall err, g_main s <> EDone err) ->
    g_send s = SDone /\ finishes (wire (hist s)) = 1;
  ri_nil : g_main s = EDone None -> g_send s = SDone /\ finishes (wire (hist s)) = 1;
  ri_busy : forall e, hd_errQueue (hdl s) = Some e -> status_busy e = true -> g_answer s = ANone /\ g_main s = EWait;
  ri_done_busy : forall e, g_main s = EDone (Some e) -> status_busy e = true -> g_answer s = ANone
}.

Lemma return_init : return_inv new_engagement.
Proof. split; simpl; auto; done. Qed.

Lemma return_step b s s' : control s -> stream_inv s -> return_inv s -> step b s s' -> return_inv s'.
Proof.
  intros Hc Hi [H1 H2 H3 H4 H5 H6] Hs. pose proof (ct_main _ Hc) as Hm. pose proof (ct_none _ Hc) as Hn.
  pose proof (si_fin _ Hi) as Hf. pose proof (si_wire _ Hi) as Hw. clear Hc Hi.
  step_cases Hs; phases; rewrite ?ended_true in *.
  all: split; fields; try done; try tauto; try (intuition congruence).
  all: try match goal with |- context [if hd_done (hdl ?s) then _ else _] =>
             destruct (hd_done (hdl s)) eqn:Ed; [|rewrite (H1 eq_refl); cbn [try_queue]] end.
  all: try (intros g' Hg' Hb'; by destruct (H5 g' Hg' Hb'); intuition congruence).
  all: try (intros g' [= <-] Hb'; by rewrite stream_error_not_busy in Hb').
  all: try (intros g' Hg' Hb'; pose proof (H6 g' Hg' Hb'); congruence).
  all: try (intros g' [= Hg'] Hb'; by rewrite (H2 g' Hg') in Hb').
  all: try (intros Hd' Hq' He'; apply H3; [done..|intros err' ?; congruence]).
  all: try (intros Hd' Hq' He'; exfalso; by eapply He').
  all: try (intros g' [= <-] Hb'; by apply (H5 _ eq_refl)).
  all: try (intros [= Hx']; apply H3; [intuition congruence|done|intros err' ?; congruence]).
  all: try (intros g' [= <-]; intuition (by subst)).
  all: try (intros g' Hg' Hb'; pose proof (H6 g' Hg' Hb'); intuition congruence).
  - intros Hd' Hq' He'. by destruct (H3 Hd' Hq' He').
  - intros Hx. apply H4. congruence.
  - intros g' Hx. apply H6. congruence.
Qed.

Lemma return_reachable s : reachable s -> return_inv s.
Proof.
  apply reachable_inv; [apply return_init|]. intros b x y Hx. apply return_step; [by apply control_reachable|by apply stream_reachable].
Qed.

(** ** The body of the request *)

Definition frame_bytes (l : list DataFrame) : list Z := concat (df_Data <$> l).
Definition no_eof (l : list DataFrame) : Prop := Forall (fun d => df_Eof d = false) l.

Lemma frame_bytes_snoc l d : frame_bytes (l ++ [d]) = frame_bytes l ++ df_Data d.
Proof. unfold frame_bytes. rewrite fmap_app, concat_app. simpl. by rewrite app_nil_r. Qed.
Lemma no_eof_snoc l d : no_eof l -> df_Eof d = false -> no_eof (l ++ [d]).
Proof. intros Hl Hd. apply Forall_app. split; [done|by constructor]. Qed.

Record input_inv (s : engagement) : Prop := {
  ii_recv : match g_recv s with
            | RRecv => arrived (hist s) = taken (hist s) ++ inbox s
            | RPut m => arrived (hist s) = taken (hist s) ++ m :: inbox s
            | RDone => (taken (hist s)) `prefix_of` (arrived (hist s))
            end;
  ii_main : match g_main s with
            | ETry => taken (hist s) = [] /\ fed (hist s) = []
            | EData => no_eof (fed (hist s)) /\ exists tc, taken (hist s) = CTry tc :: (CData <$> fed (hist s))
            | EFeed d => no_eof (fed (hist s)) /\ exists tc, taken (hist s) = CTry tc :: (CData <$> fed (hist s) ++ [d])
            | _ => fed (hist s) = [] \/ exists tc rest, taken (hist s) = CTry tc :: (CData <$> fed (hist s)) ++ rest
            end;
  ii_pump : match g_pump s with
            | PNone => fed (hist s) = [] /\ piped (hist s) = []
            | PIdle => frame_bytes (fed (hist s)) = piped (hist s)
            | PWrite rest eof => frame_bytes (fed (hist s)) = piped (hist s) ++ rest /\
                exists l d, fed (hist s) = l ++ [d] /\ df_Eof d = eof
            | PDone => (piped (hist s)) `prefix_of` (frame_bytes (fed (hist s)))
            end;
  ii_eof : hd_eofSeen (hdl s) = true -> g_pump s = PDone /\ frame_bytes (fed (hist s)) = piped (hist s) /\
             exists l d, fed (hist s) = l ++ [d] /\ df_Eof d = true;
  ii_once : no_eof (fed (hist s)) \/ exists l d, fed (hist s) = l ++ [d] /\ no_eof l /\ df_Eof d = true
}.

Lemma input_init : input_inv new_engagement.
Proof. split; simpl; [done|by split|by split|done|left; constructor]. Qed.

Lemma input_step b s s' : control s -> input_inv s -> step b s s' -> input_inv s'.
Proof.
  intros Hc [H1 H2 H3 H4 H5] Hs. pose proof (ct_main _ Hc) as Hm. pose proof (ct_none _ Hc) as Hn. clear Hc.
  step_cases Hs; phases; rewrite ?ended_true in *.
  all: split; fields; try done; try tauto; try (intuition congruence).
  all: try (rewrite H1; by apply prefix_app_r).
  all: try (rewrite <- app_assoc; exact H1).
  all: try (destruct H2 as [Ht Hd]; rewrite Ht, Hd; split; [constructor|by eexists]).
  all: try (destruct (Hn Hm) as [Hp _]; rewrite Hp in H3; destruct H3 as [H3 H3']; by rewrite H3, H3').
  all: try (destruct H2 as [_ [tc Ht]]; rewrite Ht; right; by eexists tc, [_]).
  all: try (destruct H2 as [_ [tc Ht]]; rewrite Ht, ?fmap_app; right; eexists tc, _; by rewrite ?app_nil_r).
  all: try (destruct H2 as [Hd [tc Ht]]; rewrite Ht, ?fmap_app; split; [first [done|by apply no_eof_snoc]|by exists tc]).
  all: try (rewrite frame_bytes_snoc, H3; match goal with E : df_Data _ = _ |- _ => rewrite E end; rewrite ?app_nil_r; by eauto).
  all: try (destruct (Hn eq_refl) as [Hp _]; rewrite Hp in H3; destruct H3 as [H3 H3']; by rewrite H3, H3').
  all: try (destruct H2 as [Hd _]; destruct (df_Eof d) eqn:?; [right; by exists (fed (hist s)), d|left; by apply no_eof_snoc]).
  all: try (destruct H2 as [_ [tc Ht]]; rewrite Ht, ?fmap_app; right; exists tc; first [by exists []; rewrite app_nil_r|by eexists [_]]).
  all: try (intros _; rewrite frame_bytes_snoc, H3; match goal with E : df_Data _ = _ |- _ => rewrite E end; rewrite app_nil_r; split_and!; by eauto).
  all: try (match goal with E : g_main _ = _ |- _ => rewrite E end; exact H2).
  all: try (by rewrite H3).
  all: try (destruct H3 as [H3 H3']; rewrite ?app_nil_r in H3; first [by rewrite H3|rewrite H3; by apply prefix_app_r|by eauto]).
  all: try (destruct H3 as [H3 H3']; split; [by rewrite H3, <- app_assoc, take_drop|done]).
  all: try (destruct (g_recv s); [by rewrite H1, <- app_assoc..|by apply prefix_app_r]).
Qed.

Lemma input_reachable s : reachable s -> input_inv s.
Proof. apply reachable_inv; [apply input_init|]. intros b x y Hx. apply input_step. by apply control_reachable. Qed.

(** A 200 is not sent before the whole body was read. *)
Definition after_body (eof : bool) (m : RunnerMsg) : Prop :=
  match m with MStart (Some meta) => hm_StatusCode meta = 200 -> eof = true | _ => True end.

Record start_inv (s : engagement) : Prop := {
  ti_status : 100 <= hd_status (hdl s) <= 599;
  ti_out : match g_out s with WStart m _ => after_body (hd_eofSeen (hdl s)) m | _ => True end;
  ti_queued : Forall (after_body (hd_eofSeen (hdl s))) (queued (hist s))
}.

Lemma start_init : start_inv new_engagement.
Proof. split; simpl; [lia|done|constructor]. Qed.

Lemma after_body_mono m b : after_body b m -> after_body true m.
Proof. by destruct m as [[]| | |]. Qed.

Lemma after_body_status st b hs : 100 <= st <= 599 -> (st =? 200) && negb b = false ->
  after_body b (MStart (Some (MkMeta (i32 st) hs))).
Proof.
  intros Hr Hb. cbn. unfold i32, w32. rewrite Z.mod_small by lia. intros H.
  rewrite (proj2 (Z.eqb_eq _ _)) in Hb by lia. by destruct b.
Qed.

Lemma start_step b s s' : start_inv s -> step b s s' -> start_inv s'.
Proof.
  intros [H1 H2 H3] Hs. step_cases Hs; phases.
  all: split; fields; try done.
  all: try (by apply after_body_status).
  all: try (by destruct (g_out s); try by eapply after_body_mono).
  all: try (eapply Forall_impl; [exact H3|intros ?; apply after_body_mono]).
  all: apply Forall_app; split; [done|]; by constructor.
Qed.

Lemma start_reachable s : reachable s -> start_inv s.
Proof. apply reachable_inv; [apply start_init|]. intros b x y _. apply start_step. Qed.

(** ** The theorems *)

Lemma wire_prefix s : stream_inv s -> wire (hist s) `prefix_of` queued (hist s).
Proof.
  intros H. pose proof (si_wire _ H) as Hw. destruct (g_send s) as [|m|]; rewrite ?Hw; [done|by apply prefix_app_r|done].
Qed.

Lemma finishes_le s : stream_inv s -> finishes (queued (hist s)) <= 1.
Proof. intros H. pose proof (si_fin _ H). destruct (g_answer s); lia. Qed.

(** A finish message that reports success is the last message. *)
Lemma success_last s f : reachable s -> MFinished f ∈ wire (hist s) -> verdict (hist s) = Some None ->
  wire (hist s) = queued (hist s) /\ last (wire (hist s)) = Some (MFinished f).
Proof.
  intros Hr Hf Hv. pose proof (stream_reachable s Hr) as Hs. pose proof (verdict_reachable s Hr) as Hi.
  pose proof (wire_prefix s Hs) as Hp. pose proof (finishes_le s Hs) as Hle.
  destruct (vi_last _ Hi Hv) as [(f' & q & Hq)|H0]; [|exfalso; eapply no_finish; [exact H0|]; by eapply prefix_elem].
  rewrite Hq in Hp, Hle. rewrite finishes_snoc in Hle. cbn [is_fin] in Hle.
  assert (Hq0 : finishes q = 0) by (pose proof (countZ_nonneg is_fin q); unfold finishes in *; lia).
  assert (E : wire (hist s) = q ++ [MFinished f']).
  { apply prefix_snoc_inv in Hp as [?|Hp]; [done|]. exfalso. eapply no_finish; [exact Hq0|]. by eapply prefix_elem. }
  rewrite E in Hf |- *. rewrite last_snoc, Hq. split; [done|].
  apply elem_of_app in Hf as [Hf|Hf%list_elem_of_singleton]; [by destruct (no_finish _ _ Hq0 Hf)|by rewrite Hf].
Qed.

Lemma stream_shape_prefix l k : l `prefix_of` k -> stream_shape k = true -> stream_shape l = true.
Proof.
  intros [r ->]. destruct l as [|[[meta|]| | |] l]; simpl; try done. rewrite forallb_app. by intros [? _]%andb_true_iff.
Qed.

Lemma stream_part_prefix l k : l `prefix_of` k -> stream_part l `prefix_of` stream_part k.
Proof. intros [r ->]. unfold stream_part. rewrite filter_app. by apply prefix_app_r. Qed.

Lemma stream_bytes_prefix l k : l `prefix_of` k -> stream_bytes l `prefix_of` stream_bytes k.
Proof. intros [r ->]. unfold stream_bytes. rewrite fmap_app, concat_app. by apply prefix_app_r. Qed.

(** C9: what a load balancer receives, at any time of any engagement: one start
    message at most, with HTTP metadata, then data in non-empty chunks of at most
    10 KB that are a prefix of what the function wrote; a 200 only after the
    function has read the whole body; at most one finish message, which reports
    the verdict; and if it reports success, [Submit] returned nil, the finish
    message is the last message and every byte the function wrote came before. *)
Theorem engagement_stream s : reachable s ->
  stream_shape (stream_part (wire (hist s))) = true /\ finishes (wire (hist s)) <= 1 /\
  stream_bytes (wire (hist s)) `prefix_of` accepted (hist s) /\
  (forall meta, MStart (Some meta) ∈ wire (hist s) -> hm_StatusCode meta = 200 ->
     frame_bytes (fed (hist s)) = piped (hist s) /\ exists l d, fed (hist s) = l ++ [d] /\ df_Eof d = true) /\
  (forall f, MFinished f ∈ wire (hist s) -> exists v, verdict (hist s) = Some v /\ reports f v /\
     (v = None -> returned (hist s) = Some None /\ last (wire (hist s)) = Some (MFinished f) /\
        stream_bytes (wire (hist s)) = accepted (hist s))).
Proof.
  intros Hr. pose proof (stream_reachable s Hr) as Hs. pose proof (verdict_reachable s Hr) as Hi.
  pose proof (wire_prefix s Hs) as Hp. split_and!.
  - eapply stream_shape_prefix; [by apply stream_part_prefix|apply Hs].
  - pose proof (finishes_le s Hs) as Hle. destruct Hp as [r E]. rewrite E in Hle. unfold finishes in *.
    rewrite countZ_app in Hle. pose proof (countZ_nonneg is_fin r). lia.
  - rewrite <- (si_bytes _ Hs). by apply stream_bytes_prefix.
  - intros meta Hm H200. pose proof (ti_queued _ (start_reachable s Hr)) as Hq. rewrite Forall_forall in Hq.
    by destruct (ii_eof _ (input_reachable s Hr) (Hq _ (prefix_elem _ _ _ Hm Hp) H200)) as (_ & ? & ?).
  - intros f Hf. destruct (vi_fin _ Hi f (prefix_elem _ _ _ Hf Hp)) as (v & Hv & Hrep). exists v. split_and!; [done..|].
    intros ->. destruct (success_last s f Hr Hf Hv) as [Hq Hl]. split_and!; [by apply Hi|done|].
    by rewrite Hq, (si_bytes _ Hs).
Qed.

End EngagementData.

Lemma engagement_stream_witness :
  wire (hist demo_over) = demo_out /\ last (wire (hist demo_over)) = Some (MFinished (demo_fin None)) /\
  stream_bytes (wire (hist demo_over)) = [7; 8].
Proof.
  split; [reflexivity|].
  destruct (engagement_stream (MR := canonical_range) (RL := demo_lib) demo_over demo_over_reachable) as (_ & _ & _ & _ & H).
  destruct (H (demo_fin None)) as (v & Hv & _ & Hok); [right; right; left|].
  injection Hv as <-. destruct (Hok eq_refl) as (_ & ? & ?). by split.
Defined.
