(* ===== verification/RunnerClient.v ===== *)
(** * The load balancer's end of an engagement (src/api/agent/runner_client.go)

    [TryExec] opens a stream to a runner, sends the call and the body, and turns
    what comes back into "placed" and an error.  The gRPC library is the
    environment: the results of opening and sending, the events of the receiving
    side, the reads of the body.  [delivered] is what gRPC promises of the events
    when the other end is an engagement of [RunnerProtocol]: messages in order,
    and the status after them only when the handler has returned.  The theorems
    put the two ends together: success means that the function succeeded and the
    client has all of its output; a call is handed to another runner only when
    this one wrote nothing; and the function reads the body that was sent. *)
From S2P Require Import Prelude Errors Annotations Models GoStrings Base64 Resource Stats Call IoUtils DataAccess HttpTrigger.
From S2P Require Import Sync StateTrackers ApiHandlers HotSlot RunnerProtocol RunnerStream.

Definition ErrorRunnerClosed : gerr := EPlain "Runner is closed".
Definition ErrorPureRunnerNoEOF : gerr := EPlain "Purerunner missing EOF response".

(** [codes.Unavailable], and the code of [status.Code] and [status.Convert]. *)
Definition Unavailable : Z := 14.
Definition status_code (e : gerr) : Z := match e with EGRPC c _ => c | _ => 2 end.

Definition isTooBusy (err : option gerr) : bool :=
  match err with
  | Some e => (GetAPIErrorCode e =? busy_code) || (status_code e =? busy_code)
  | None => false
  end.

Definition parseError (f : CallFinished) : option gerr :=
  if fin_Success f then None
  else
    let eStr := if streq (fin_ErrorStr f) "" then "Unknown Error From Pure Runner"%string else fin_ErrorStr f in
    let err := NewAPIError (fin_ErrorCode f) eStr in
    Some (if fin_ErrorUser f then NewFuncError err else err).

(** ** Sending the body *)

(** [reads] are the results of [bodyReader.Read], [sends] those of [Send] (nil when
    the list is over); the frames whose [Send] returned nil.  The loop blocks when
    there is no read left. *)
Fixpoint sendToRunner (reads : list (list Z * option gerr)) (sends : list (option gerr)) : list DataFrame :=
  match reads with
  | [] => []
  | (data, err) :: reads =>
      let isEOF := bool_decide (err <> None) || (len data =? 0) in
      match sends with
      | Some _ :: _ => []
      | _ => MkFrame data isEOF :: (if isEOF then [] else sendToRunner reads (tail sends))
      end
  end.

(** The body as the reader gives it: its bytes until the read that ends it, and
    whether there is such a read. *)
Fixpoint body_of (reads : list (list Z * option gerr)) : list Z * bool :=
  match reads with
  | [] => ([], false)
  | (data, err) :: reads =>
      if bool_decide (err <> None) || (len data =? 0) then (data, true)
      else let '(b, e) := body_of reads in (data ++ b, e)
  end.

(** ** Receiving *)

(** What [Recv] returns. *)
Inductive recv_event := RMsg (m : RunnerMsg) | REOF | RErr (e : gerr).

Section Client.
  Context {W : Type} `{Writer W}.

(** The writer of the client, the queue of one error that [TryExec] reads and
    whether it is closed, the execution times reported to the call. *)
Record receiving := Receiving { rv_w : W; rv_done : option gerr; rv_closed : bool; rv_exec : list Z }.

Definition tryQueueError (r : receiving) (e : gerr) : receiving :=
  Receiving (rv_w r) (try_queue (rv_done r) e) (rv_closed r) (rv_exec r).
Definition close_done (r : receiving) : receiving := Receiving (rv_w r) (rv_done r) true (rv_exec r).

Definition recordFinishStats (r : receiving) (f : CallFinished) : receiving :=
  Receiving (rv_w r) (rv_done r) (rv_closed r) (rv_exec r ++ (if fin_ExecutionDuration f =? 0 then [] else [fin_ExecutionDuration f])).

(** The data of a message, while no write came out short. *)
Definition write_data (r : receiving) (partial : bool) (data : list Z) : receiving * bool :=
  if partial then (r, true)
  else
    let '(w, (n, err)) := write (rv_w r) data in
    let r := Receiving w (rv_done r) (rv_closed r) (rv_exec r) in
    if n =? len data then (r, false) else (tryQueueError r (default ErrShortWrite err), true).

(** The loop after the finish message; it ends with the stream. *)
Fixpoint eof_loop (evs : list recv_event) (r : receiving) : receiving :=
  match evs with
  | [] => r
  | REOF :: _ => close_done r
  | RErr e :: _ => close_done (tryQueueError r e)
  | RMsg _ :: evs => eof_loop evs (tryQueueError r ErrorPureRunnerNoEOF)
  end.

Fixpoint data_loop (evs : list recv_event) (partial : bool) (r : receiving) : receiving :=
  match evs with
  | [] => r
  | REOF :: _ => close_done (tryQueueError r EEOF)
  | RErr e :: _ => close_done (tryQueueError r e)
  | RMsg (MFinished f) :: evs =>
      let r := recordFinishStats r f in
      eof_loop evs (match parseError f with Some e => tryQueueError r e | None => r end)
  | RMsg (MData d) :: evs => let '(r, partial) := write_data r partial (df_Data d) in data_loop evs partial r
  | RMsg _ :: evs => data_loop evs partial r
  end.

Definition receiveFromRunner (evs : list recv_event) (w : W) : receiving := data_loop evs false (Receiving w None false []).

(** What [TryExec] gets from the queue, if it gets anything. *)
Definition heard (r : receiving) : option (option gerr) :=
  match rv_done r with Some e => Some (Some e) | None => if rv_closed r then Some None else None end.

(** ** TryExec *)

(** Which comes first in the select of [TryExec]. *)
Inductive tried_end := CtxEnded (e : gerr) | Heard (err : option gerr).

(** [model]: the error of encoding the call; [engage], [sent_try]: those of opening
    the stream and of the first [Send]. *)
Definition try_result (model engage sent_try : option gerr) (fin : tried_end) : bool * option gerr :=
  match model, engage, sent_try with
  | Some e, _, _ => (true, Some e)
  | None, Some e, _ => (false, Some e)
  | None, None, Some e => (negb (status_code e =? Unavailable), Some e)
  | None, None, None =>
      match fin with
      | CtxEnded e => (true, Some e)
      | Heard err => if isTooBusy err then (false, Some (EVar ErrCallTimeoutServerBusy)) else (true, err)
      end
  end.

Definition TryExec (shutWg : WaitGroup) (model engage sent_try : option gerr) (fin : tried_end)
  : outcome unit (WaitGroup * (bool * option gerr)) :=
  let '(g, ok) := AddSession shutWg 1 in
  if negb ok then Ok (g, (false, Some ErrorRunnerClosed))
  else let! g := DoneSession g in Ok (g, try_result model engage sent_try fin).
End Client.
Arguments receiving W : clear implicits.

(** ** gRPC between the two ends *)

(** [status.FromError] in the server: an error that has no status becomes Unknown. *)
Definition grpc_status (e : gerr) : gerr := match e with EGRPC _ _ => e | _ => EGRPC 2 (error_msg e) end.

Inductive delivered (s : engagement) : list recv_event -> Prop :=
| dl_open n : delivered s (RMsg <$> take n (wire (hist s)))
| dl_broken n e : stream_error e -> delivered s ((RMsg <$> take n (wire (hist s))) ++ [RErr e])
| dl_error n e : g_main s = EDone (Some e) -> delivered s ((RMsg <$> take n (wire (hist s))) ++ [RErr (grpc_status e)])
| dl_eof : g_main s = EDone None -> delivered s ((RMsg <$> wire (hist s)) ++ [REOF]).

(** ** Lemmas *)

Section ClientLemmas.
  Context {W : Type} `{Writer W}.

Lemma heard_None (r : receiving W) : heard r = Some None <-> rv_done r = None /\ rv_closed r = true.
Proof. unfold heard. destruct (rv_done r), (rv_closed r); naive_solver. Qed.

(** The first error stays in the queue. *)
Lemma try_queue_Some e e' : try_queue (Some e) e' = Some e.
Proof. done. Qed.
Lemma try_queue_ne q e : try_queue q e <> None.
Proof. by destruct q. Qed.
Lemma eof_loop_done evs (r : receiving W) e : rv_done r = Some e -> rv_done (eof_loop evs r) = Some e.
Proof. revert r. induction evs as [|[m| |e'] evs IH]; intros r Hr; simpl; rewrite ?Hr; try done. apply IH. simpl. by rewrite Hr. Qed.
Lemma eof_loop_w evs (r : receiving W) : rv_w (eof_loop evs r) = rv_w r.
Proof. revert r. induction evs as [|[m| |e'] evs IH]; intros r; simpl; try done. by rewrite IH. Qed.

Lemma write_data_done r p b : rv_done r <> None -> rv_done (write_data r p b).1 = rv_done r.
Proof.
  intros Hr. unfold write_data. destruct p; [done|]. destruct (write (rv_w r) b) as [w [n err]].
  destruct (n =? len b); [done|]. simpl. by destruct (rv_done r).
Qed.

Lemma data_loop_done evs p (r : receiving W) e : rv_done r = Some e -> rv_done (data_loop evs p r) = Some e.
Proof.
  revert p r. induction evs as [|[[m|d|f|]| |e'] evs IH]; intros p r Hr; simpl; rewrite ?Hr; try done; auto.
  - destruct (write_data r p (df_Data d)) as [r' p'] eqn:E. apply IH.
    pose proof (write_data_done r p (df_Data d)) as Hd. rewrite E in Hd. cbn [fst] in Hd. rewrite Hd; congruence.
  - apply eof_loop_done. by destruct (parseError f); simpl; rewrite Hr.
Qed.

(** Without an error in the queue the end is a finish message that reports
    success followed by the end of the stream, and every byte was written. *)
Lemma eof_loop_clean evs (r : receiving W) : rv_closed r = false -> heard (eof_loop evs r) = Some None ->
  exists rest, evs = REOF :: rest.
Proof.
  intros Hc [Hd Hcl]%heard_None. destruct evs as [|[m| |e] evs]; simpl in *; [congruence| |by eexists|by destruct (rv_done r)].
  exfalso. destruct (rv_done r) as [e|] eqn:E.
  - rewrite (eof_loop_done evs _ e) in Hd; [done|simpl; by rewrite ?E].
  - rewrite (eof_loop_done evs _ ErrorPureRunnerNoEOF) in Hd; [done|simpl; by rewrite ?E].
Qed.

Lemma data_loop_clean evs (r : receiving W) : rv_closed r = false -> heard (data_loop evs false r) = Some None ->
  exists pre f rest, evs = (RMsg <$> pre) ++ RMsg (MFinished f) :: REOF :: rest /\ fin_Success f = true /\
    sent (rv_w (data_loop evs false r)) = sent (rv_w r) ++ stream_bytes pre.
Proof.
  revert r. induction evs as [|ev evs IH]; intros r Hc Hh; [simpl in Hh; apply heard_None in Hh as [_ Hh]; congruence|].
  assert (Hskip : forall m, (m = MOther \/ exists x, m = MStart x) -> ev = RMsg m ->
    exists pre f rest, ev :: evs = (RMsg <$> pre) ++ RMsg (MFinished f) :: REOF :: rest /\ fin_Success f = true /\
      sent (rv_w (data_loop (ev :: evs) false r)) = sent (rv_w r) ++ stream_bytes pre).
  { intros m Hm ->. assert (E : data_loop (RMsg m :: evs) false r = data_loop evs false r) by by destruct Hm as [->|[x ->]].
    rewrite E in Hh |- *. destruct (IH r Hc Hh) as (pre & f & rest & -> & Hf & Hs).
    exists (m :: pre), f, rest. split; [done|]. split; [done|]. rewrite Hs. by destruct Hm as [->|[x ->]]. }
  destruct ev as [[x|d|f|]| |e]; [apply (Hskip (MStart x)); [right; by eexists|done]| | |apply (Hskip MOther); [by left|done]| |]; clear Hskip.
  - cbn [data_loop] in Hh |- *. unfold write_data in Hh |- *. pose proof (write_sent (rv_w r) (df_Data d)) as Hw.
    destruct (write (rv_w r) (df_Data d)) as [w [n err]]. simpl in Hw. destruct (Z.eqb_spec n (len (df_Data d))) as [->|Hn].
    + destruct (IH (Receiving w (rv_done r) (rv_closed r) (rv_exec r)) Hc Hh) as (pre & f & rest & -> & Hf & Hs).
      exists (MData d :: pre), f, rest. split; [done|]. split; [done|]. rewrite Hs. simpl. rewrite Hw.
      rewrite take_ge by (unfold len; lia). by rewrite <- app_assoc.
    + apply heard_None in Hh as [Hh _]. destruct (rv_done r) as [e|] eqn:E.
      * rewrite (data_loop_done _ _ _ e) in Hh; [done|simpl; by rewrite ?E].
      * rewrite (data_loop_done _ _ _ (default ErrShortWrite err)) in Hh; [done|simpl; by rewrite ?E].
  - cbn [data_loop] in Hh |- *. rewrite eof_loop_w. destruct (parseError f) as [e|] eqn:Ep.
    + apply heard_None in Hh as [Hh _]. exfalso. destruct (rv_done r) as [e'|] eqn:E.
      * rewrite (eof_loop_done _ _ e') in Hh; [done|simpl; by rewrite ?E].
      * rewrite (eof_loop_done _ _ e) in Hh; [done|simpl; by rewrite ?E].
    + destruct (eof_loop_clean evs (recordFinishStats r f) Hc Hh) as [rest ->]. exists [], f, rest. split; [done|].
      split; [|by rewrite app_nil_r]. unfold parseError in Ep. by destruct (fin_Success f).
  - simpl in Hh. apply heard_None in Hh as [Hh _]. by destruct (try_queue_ne _ _ Hh).
  - simpl in Hh. apply heard_None in Hh as [Hh _]. by destruct (try_queue_ne _ _ Hh).
Qed.

(** An error that is heard came with a message, from the stream, or from the
    client's own writer. *)
Definition own_error (e : gerr) : Prop :=
  e = EEOF \/ e = ErrorPureRunnerNoEOF \/ e = ErrShortWrite \/ exists (w : W) b, (write w b).2.2 = Some e.
Definition heard_from (evs : list recv_event) (e : gerr) : Prop :=
  RErr e ∈ evs \/ (exists f, RMsg (MFinished f) ∈ evs /\ parseError f = Some e) \/ own_error e.

Lemma heard_from_cons ev evs e : heard_from evs e -> heard_from (ev :: evs) e.
Proof.
  intros [?|[(f & ? & ?)|?]]; [left; by right|right; left; exists f; split; [by right|done]|by right; right].
Qed.

Lemma eof_loop_heard evs (r : receiving W) e : rv_done (eof_loop evs r) = Some e -> rv_done r = Some e \/ heard_from evs e.
Proof.
  revert r. induction evs as [|[m| |e'] evs IH]; intros r Hr; simpl in Hr; [by left| |by left|].
  - destruct (IH _ Hr) as [Hq|?]; [|right; by apply heard_from_cons].
    simpl in Hq. apply try_queue_in in Hq as [?| ->]; [by left|]. right. right. right. right. by left.
  - apply try_queue_in in Hr as [?| ->]; [by left|]. right. left. left.
Qed.

Lemma write_data_heard (r : receiving W) p b e : rv_done (write_data r p b).1 = Some e -> rv_done r = Some e \/ own_error e.
Proof.
  unfold write_data. destruct p; [by left|]. destruct (write (rv_w r) b) as [w [n err]] eqn:E.
  destruct (n =? len b); [by left|]. simpl. intros [?| ->]%try_queue_in; [by left|]. right.
  destruct err as [e'|]; [|right; right; by left]. right. right. right. exists (rv_w r), b. by rewrite E.
Qed.

Lemma data_loop_heard evs p (r : receiving W) e : rv_done (data_loop evs p r) = Some e -> rv_done r = Some e \/ heard_from evs e.
Proof.
  revert p r. induction evs as [|[[x|d|f|]| |e'] evs IH]; intros p r Hr; cbn [data_loop] in Hr; [by left|..].
  - destruct (IH _ _ Hr); [by left|right; by apply heard_from_cons].
  - destruct (write_data r p (df_Data d)) as [r' p'] eqn:E. destruct (IH _ _ Hr) as [Hq|]; [|right; by apply heard_from_cons].
    pose proof (write_data_heard r p (df_Data d) e) as Hw. rewrite E in Hw. destruct (Hw Hq); [by left|right; by right; right].
  - destruct (eof_loop_heard _ _ _ Hr) as [Hq|]; [|right; by apply heard_from_cons].
    destruct (parseError f) as [e'|] eqn:Ep; [|by left]. simpl in Hq. apply try_queue_in in Hq as [?| ->]; [by left|].
    right. right. left. exists f. split; [left|done].
  - destruct (IH _ _ Hr); [by left|right; by apply heard_from_cons].
  - simpl in Hr. apply try_queue_in in Hr as [?| ->]; [by left|]. right. right. right. by left.
  - simpl in Hr. apply try_queue_in in Hr as [?| ->]; [by left|]. right. left. left.
Qed.

(** Without data messages the client's writer is not touched. *)
Lemma data_loop_w evs p (r : receiving W) : (forall d, RMsg (MData d) ∉ evs) -> rv_w (data_loop evs p r) = rv_w r.
Proof.
  revert p r. induction evs as [|[[x|d|f|]| |e'] evs IH]; intros p r Hd; cbn [data_loop]; try done.
  - apply IH. intros d Hin. by apply (Hd d); right.
  - exfalso. apply (Hd d). left.
  - rewrite eof_loop_w. by destruct (parseError f).
  - apply IH. intros d Hin. by apply (Hd d); right.
Qed.
End ClientLemmas.

(** ** The ends together *)

Section Ends.
  Context {MR : MapRange} {RL : RunnerLib} {W : Type} `{Writer W}.

Lemma delivered_msg s evs m : delivered s evs -> RMsg m ∈ evs -> m ∈ wire (hist s).
Proof.
  intros Hd Hm. assert (E : forall l, RMsg m ∈ RMsg <$> l -> m ∈ l) by (intros l (m' & [= <-] & ?)%list_elem_of_fmap; done).
  assert (Ht : forall n, RMsg m ∈ RMsg <$> take n (wire (hist s)) -> m ∈ wire (hist s)).
  { intros n Hn. apply E in Hn. eapply prefix_elem; [exact Hn|]. exists (drop n (wire (hist s))). by rewrite take_drop. }
  destruct Hd; [by eapply Ht|..].
  all: apply elem_of_app in Hm as [Hm|Hm%list_elem_of_singleton]; [|done]; eauto.
Qed.

Lemma delivered_err s evs e : delivered s evs -> RErr e ∈ evs ->
  stream_error e \/ exists e', g_main s = EDone (Some e') /\ e = grpc_status e'.
Proof.
  intros Hd Hm. assert (Hn : forall l, RErr e ∉ RMsg <$> l) by (intros l (m' & ? & ?)%list_elem_of_fmap; done).
  destruct Hd; [by destruct (Hn _ Hm)|..].
  all: apply elem_of_app in Hm as [Hm|Hm%list_elem_of_singleton]; [by destruct (Hn _ Hm)|]; simplify_eq; eauto.
Qed.

Lemma delivered_eof s pre f rest : delivered s ((RMsg <$> pre) ++ RMsg (MFinished f) :: REOF :: rest) ->
  g_main s = EDone None /\ wire (hist s) = pre ++ [MFinished f].
Proof.
  remember ((RMsg <$> pre) ++ RMsg (MFinished f) :: REOF :: rest) as evs eqn:E. intros Hd.
  assert (Hin : REOF ∈ evs) by (rewrite E; apply elem_of_app; right; right; left).
  assert (Hn : forall l, REOF ∉ RMsg <$> l) by (intros l (m' & ? & ?)%list_elem_of_fmap; done).
  destruct Hd as [n|n e|n e|Hm]; [by destruct (Hn _ Hin)|..].
  1,2: apply elem_of_app in Hin as [Hin|Hin%list_elem_of_singleton]; [by destruct (Hn _ Hin)|done].
  split; [done|]. clear Hin. revert E. generalize (wire (hist s)) as l.
  induction pre as [|m pre IH]; intros [|m' l] E; simplify_eq/=; try done.
  - destruct l as [|m' l]; simplify_eq/=. done.
  - f_equal. by apply IH.
Qed.

Lemma reports_success f v : reports f v -> fin_Success f = true <-> v = None.
Proof. intros (now & c & ->). simpl. by rewrite bool_decide_eq_true. Qed.

Lemma says_busy_parse f v e : reports f v -> parseError f = Some e ->
  exists e', v = Some e' /\ (isTooBusy (Some e) = true -> says_busy e' = true).
Proof.
  intros (now & c & ->) Hp. unfold parseError in Hp. destruct v as [e'|]; [|done]. exists e'. split; [done|].
  unfold says_busy. simpl in Hp. intros Hb. destruct (IsFuncError e'); injection Hp as <-; simpl in Hb; by rewrite orb_false_r in Hb.
Qed.

Lemma stream_bytes_none l : (forall d, MData d ∉ l) -> stream_bytes l = [].
Proof.
  induction l as [|m l IH]; intros Hd; [done|].
  change (stream_bytes (m :: l)) with (match m with MData d => df_Data d | _ => [] end ++ stream_bytes l).
  rewrite IH by (intros d ?; apply (Hd d); by right). destruct m as [| d| |]; try done. destruct (Hd d). left.
Qed.

(** Nothing was written, so nothing but finish messages is on the wire. *)
Lemma unwritten_wire s : reachable s -> wrote (hist s) = false ->
  accepted (hist s) = [] /\ forall d, MData d ∉ wire (hist s).
Proof.
  intros Hr Hw. pose proof (stream_reachable s Hr) as Hs. destruct (vi_wrote _ (verdict_reachable s Hr) Hw) as [Ho _].
  pose proof (si_once _ Hs Ho) as Hq. assert (Hd : forall d, MData d ∉ queued (hist s)).
  { intros d Hd. assert (Hf : MData d ∈ stream_part (queued (hist s))) by (apply list_elem_of_filter; by split).
    rewrite Hq in Hf. by apply not_elem_of_nil in Hf. }
  split.
  - rewrite <- (si_bytes _ Hs). by apply stream_bytes_none.
  - intros d Hin. apply (Hd d). eapply prefix_elem; [exact Hin|by apply wire_prefix].
Qed.

(** Success is the whole story: if [TryExec] reports a placed call without
    error, then on the runner [Submit] returned nil and [Engage] returned nil, and
    the client has been written every byte the function wrote, in order. *)
Theorem TryExec_success s evs (w : W) err : reachable s -> delivered s evs ->
  heard (receiveFromRunner evs w) = Some err -> try_result None None None (Heard err) = (true, None) ->
  returned (hist s) = Some None /\ g_main s = EDone None /\
  sent (rv_w (receiveFromRunner evs w)) = sent w ++ accepted (hist s).
Proof.
  intros Hr Hd Hh Ht. assert (err = None) as -> by (cbn in Ht; by destruct (isTooBusy err); injection Ht).
  destruct (data_loop_clean evs (Receiving w None false []) eq_refl Hh) as (pre & f & rest & -> & Hf & Hs).
  destruct (delivered_eof s pre f rest Hd) as [Hm Hw]. pose proof (verdict_reachable s Hr) as Hi.
  pose proof (stream_reachable s Hr) as Hst.
  assert (Hin : MFinished f ∈ wire (hist s)) by (rewrite Hw; apply elem_of_app; right; left).
  destruct (vi_fin _ Hi f (prefix_elem _ _ _ Hin (wire_prefix s Hst))) as (v & Hv & Hrep).
  apply (reports_success f v Hrep) in Hf as ->. destruct (success_last s f Hr Hin Hv) as [Hq _].
  split_and!; [by apply Hi|done|]. unfold receiveFromRunner. rewrite Hs. f_equal. simpl.
  rewrite <- (si_bytes _ Hst), <- Hq, Hw, stream_bytes_snoc. by rewrite app_nil_r.
Qed.

(** A call goes to another runner only when this one did nothing: if [TryExec]
    says "not placed" after the call was sent, the agent of the runner was never
    given the call or returned before the function wrote anything, the client's
    writer is as it was, and the error is server-busy.  (The writer's own errors
    must not look like one.) *)
Theorem TryExec_refused s evs (w : W) err e :
  (forall (w : W) b e, (write w b).2.2 = Some e -> isTooBusy (Some e) = false) -> reachable s -> delivered s evs ->
  heard (receiveFromRunner evs w) = Some err -> try_result None None None (Heard err) = (false, e) ->
  e = Some (EVar ErrCallTimeoutServerBusy) /\ wrote (hist s) = false /\ accepted (hist s) = [] /\
  rv_w (receiveFromRunner evs w) = w.
Proof.
  intros Hown Hr Hd Hh Ht. cbn in Ht. destruct (isTooBusy err) eqn:Hb; [|done]. injection Ht as <-. split; [done|].
  destruct err as [err|]; [|done].
  assert (Hdone : rv_done (receiveFromRunner evs w) = Some err).
  { unfold heard in Hh. destruct (rv_done (receiveFromRunner evs w)); [congruence|by destruct (rv_closed _)]. }
  pose proof (verdict_reachable s Hr) as Hi. assert (Hw : wrote (hist s) = false).
  { destruct (data_loop_heard _ _ _ _ Hdone) as [?|[He|[(f & Hf & Hp)|Ho]]]; [done|..].
    - destruct (delivered_err s evs err Hd He) as [(c & m & -> & Hc)|(e' & Hm & ->)].
      + unfold isTooBusy, busy_code in Hb. simpl in Hb. apply Z.eqb_eq in Hb. lia.
      + apply (vi_none _ Hi), (ri_done_busy _ (return_reachable s Hr) e' Hm). by destruct e'.
    - apply (delivered_msg s evs _ Hd) in Hf.
      destruct (vi_fin _ Hi f (prefix_elem _ _ _ Hf (wire_prefix s (stream_reachable s Hr)))) as (v & Hv & Hrep).
      destruct (says_busy_parse f v err Hrep Hp) as (e' & -> & Hbusy). by destruct (vi_busy _ Hi e' Hv (Hbusy Hb)).
    - exfalso. destruct Ho as [->|[->|[->|(w' & b & Ho)]]]; [done..|]. apply Hown in Ho. congruence. }
  destruct (unwritten_wire s Hr Hw) as [Ha Hwire]. split_and!; [done..|].
  unfold receiveFromRunner. apply data_loop_w. intros d Hin. apply (Hwire d). by eapply delivered_msg.
Qed.
End Ends.

(** ** The body *)

(** The frames carry the body; the one that ends it is the last and completes it. *)
Lemma frames_body reads sends :
  frame_bytes (sendToRunner reads sends) `prefix_of` (body_of reads).1 /\
  (forall l d, l ++ [d] `prefix_of` sendToRunner reads sends -> df_Eof d = true ->
     frame_bytes (l ++ [d]) = (body_of reads).1 /\ (body_of reads).2 = true).
Proof.
  assert (Hnil : forall l (d : DataFrame), ~ l ++ [d] `prefix_of` []) by (intros l d [r E]; by destruct l).
  revert sends. induction reads as [|[data err] reads IH]; intros sends; cbn [sendToRunner body_of].
  { split; [apply prefix_nil|]. intros l d Hp. by destruct (Hnil _ _ Hp). }
  destruct (IH (tail sends)) as [IH1 IH2]. destruct (body_of reads) as [b e]. cbn [fst snd] in *.
  assert (Hgo : forall (eof : bool) k, k = sendToRunner reads (tail sends) ->
    let body := if eof then (data, true) else (data ++ b, e) in
    let l := MkFrame data eof :: (if eof then [] else k) in
    frame_bytes l `prefix_of` body.1 /\
    (forall l' d, l' ++ [d] `prefix_of` l -> df_Eof d = true -> frame_bytes (l' ++ [d]) = body.1 /\ body.2 = true)).
  { intros eof k Hk. cbn zeta. destruct eof.
    - split; [unfold frame_bytes; simpl; by rewrite app_nil_r|]. intros [|d' l'] d Hp Hd.
      + apply prefix_cons_inv_1 in Hp as ->. unfold frame_bytes. simpl. by rewrite app_nil_r.
      + apply prefix_cons_inv_2 in Hp. by destruct (Hnil _ _ Hp).
    - subst k. split; [destruct IH1 as [r E]; exists r; simpl; rewrite E; by rewrite app_assoc|]. intros [|d' l'] d Hp Hd.
      + apply prefix_cons_inv_1 in Hp as ->. done.
      + apply prefix_cons_inv_1 in Hp as Hd'. apply prefix_cons_inv_2 in Hp. subst d'.
        destruct (IH2 l' d Hp Hd) as [Hf Hb]. split; [|done]. simpl. by rewrite <- Hf. }
  specialize (Hgo (bool_decide (err <> None) || (len data =? 0)) _ eq_refl). cbn zeta in Hgo.
  destruct sends as [|[x|] sends]; cbn [tail] in *; [exact Hgo| |exact Hgo].
  split; [apply prefix_nil|intros l d Hp; by destruct (Hnil _ _ Hp)].
Qed.

Lemma frame_bytes_prefix l k : l `prefix_of` k -> frame_bytes l `prefix_of` frame_bytes k.
Proof. intros [r ->]. unfold frame_bytes. rewrite fmap_app, concat_app. by apply prefix_app_r. Qed.

Lemma piped_fed s : input_inv s -> piped (hist s) `prefix_of` frame_bytes (fed (hist s)).
Proof.
  intros Hi. pose proof (ii_pump _ Hi) as H. destruct (g_pump s); [destruct H as [-> ->]; apply prefix_nil|by rewrite H| |done].
  destruct H as [-> _]. by apply prefix_app_r.
Qed.

(** The frames that reached the pump are the first frames that were sent. *)
Lemma fed_sent {MR : MapRange} {RL : RunnerLib} s tc frames : reachable s ->
  arrived (hist s) `prefix_of` CTry tc :: (CData <$> frames) -> fed (hist s) `prefix_of` frames.
Proof.
  intros Hr Ha. pose proof (input_reachable s Hr) as Hi.
  assert (Ht : taken (hist s) `prefix_of` CTry tc :: (CData <$> frames)).
  { etrans; [|exact Ha]. pose proof (ii_recv _ Hi) as H. destruct (g_recv s); rewrite ?H; [by apply prefix_app_r..|done]. }
  assert (Hf : fed (hist s) = [] \/ exists tc' rest, taken (hist s) = CTry tc' :: (CData <$> fed (hist s)) ++ rest).
  { pose proof (ii_main _ Hi) as H. destruct (g_main s) as [| | |d| |]; auto; [left; by destruct H|..].
    - destruct H as [_ [tc' E]]. right. exists tc', []. by rewrite app_nil_r.
    - destruct H as [_ [tc' E]]. right. exists tc', [CData d]. by rewrite E, fmap_app. }
  destruct Hf as [->|(tc' & rest & E)]; [apply prefix_nil|]. rewrite E in Ht. apply prefix_cons_inv_2 in Ht.
  assert (Hp : (CData <$> fed (hist s)) `prefix_of` (CData <$> frames)) by (etrans; [|exact Ht]; by apply prefix_app_r).
  clear -Hp. revert Hp. generalize (fed (hist s)) as l. intros l. revert frames. induction l as [|d l IH]; intros [|d' k] Hp; try apply prefix_nil.
  - destruct Hp as [r Hp]. done.
  - cbn [fmap list_fmap] in Hp. apply prefix_cons_inv_1 in Hp as Hd. apply prefix_cons_inv_2 in Hp. injection Hd as ->. by apply prefix_cons, IH.
Qed.

(** The function reads the body the client sent: when a load balancer sends the
    call and then the body of its request, what the function has read is at any
    time a prefix of that body, and once the end was seen on the runner it is
    all of it. *)
Theorem body_delivered {MR : MapRange} {RL : RunnerLib} s tc reads sends : reachable s ->
  arrived (hist s) `prefix_of` CTry tc :: (CData <$> sendToRunner reads sends) ->
  piped (hist s) `prefix_of` (body_of reads).1 /\
  (hd_eofSeen (hdl s) = true -> piped (hist s) = (body_of reads).1 /\ (body_of reads).2 = true).
Proof.
  intros Hr Ha. pose proof (input_reachable s Hr) as Hi. destruct (frames_body reads sends) as [Hb He].
  pose proof (fed_sent s tc _ Hr Ha) as Hf.
  split.
  - etrans; [apply piped_fed; by apply input_reachable|]. etrans; [by apply frame_bytes_prefix|exact Hb].
  - intros Hs. destruct (ii_eof _ Hi Hs) as (_ & Hp & l & d & E & Hd). rewrite <- Hp. rewrite E in Hf |- *. by apply He.
Qed.

(** ** Errors across the wire *)

(** An error of the agent reaches the caller of [TryExec] with its code, its text
    and whether it is the function's fault. *)
Lemma error_crosses {RL : RunnerLib} f e : reports f (Some e) -> error_msg e <> ""%string ->
  exists e', parseError f = Some e' /\ GetAPIErrorCode e' = i32 (GetAPIErrorCode e) /\ error_msg e' = error_msg e /\
    IsFuncError e' = IsFuncError e.
Proof.
  intros (now & c & ->) Hm. unfold parseError. simpl. unfold streq. rewrite bool_decide_eq_false_2 by done.
  eexists. split; [reflexivity|]. by destruct (IsFuncError e).
Qed.

(** ** The agent's contract

    What [may_return] asks of the agent holds of [HotSlot.submit], unless one of
    the errors its environment gives it looks like server-busy. *)
Section Contract.
  Context {MR : MapRange} {W S : Type} `{HttpConn W} `{Writer S}.

Definition calm_writer (T : Type) `{Writer T} : Prop := forall (t : T) b e, (write t b).2.2 = Some e -> says_busy e = false.

Definition calm (x : exec_env) : Prop :=
  (forall e, x_before x = Some e \/ x_after x = Some e -> says_busy e = false) /\
  (forall n e, x_race x = CtxFirst n e -> says_busy e = false) /\
  (forall r e, x_do x = DoResp r -> ur_err r = Some e -> says_busy e = false).

Lemma clamped_calm {T} `{Writer T} (t : T) max chunks e : calm_writer T ->
  (write_all (NewClampWriter t max (EVar ErrFunctionResponseTooBig)) chunks).2.2 = Some e -> says_busy e = false.
Proof.
  intros Hc. assert (Hg : forall c : clamped T, (forall g, c = Clamp g -> cw_overflowErr g = EVar ErrFunctionResponseTooBig) ->
    (write_all c chunks).2.2 = Some e -> says_busy e = false).
  { induction chunks as [|b chunks IH]; intros c Ho He; [done|]. cbn [write_all] in He.
    assert (Hw : let '(c', (_, err)) := write c b in (forall e, err = Some e -> says_busy e = false) /\
      (forall g, c' = Clamp g -> cw_overflowErr g = EVar ErrFunctionResponseTooBig)).
    { destruct c as [g|t']; cbn [write clamped_Writer clamped_write].
      - specialize (Ho g eq_refl). unfold clampWriter_Write. destruct (cw_remaining g <=? 0).
        { split; [intros ? [= <-]; by rewrite Ho|intros ? [= <-]; done]. }
        match goal with |- context [write (cw_w g) ?p] => pose proof (Hc (cw_w g) p) as Hp; destruct (write (cw_w g) p) as [w [n err]] end.
        cbn [fst snd] in Hp. destruct (_ && _); (split; [|intros ? [= <-]; done]); [intros ? [= <-]; by rewrite Ho|by apply Hp].
      - pose proof (Hc t' b) as Hp. destruct (write t' b) as [w [n err]]. split; [by apply Hp|done]. }
    destruct (write c b) as [c' [n err]]. destruct Hw as [Hw1 Hw2]. destruct err as [e'|]; [injection He as <-; by apply Hw1|].
    specialize (IH c' Hw2). destruct (write_all c' chunks) as [c'' [m err]]. by apply IH. }
  apply Hg. intros g. unfold NewClampWriter. destruct (negb _); [|done]. by intros [= <-].
Qed.

Lemma writeResp_calm done max resp (w : W + S) e : calm_writer W -> calm_writer S ->
  (forall e, ur_err resp = Some e -> says_busy e = false) -> (writeResp done max resp w).2 = Some e -> says_busy e = false.
Proof.
  intros Hw Hs Hr. unfold writeResp. destruct w as [rw|s].
  - destruct (_ =? 200).
    { match goal with |- context [io_Copy ?c ?b ?re] => remember (io_Copy c b re) as io eqn:E end. unfold io_Copy in E.
      match type of E with context [write_all (NewClampWriter ?t ?m _) ?b] => pose proof (fun e => clamped_calm t m b e Hw) as Hc end.
      destruct (write_all _ _) as [c [n err]]. subst io. cbn [fst snd] in *. destruct err as [e'|]; intros He; [by apply (Hc e)|by apply Hr]. }
    destruct (_ =? 502); [by intros [= <-]|]. destruct (_ =? 504); by intros [= <-].
  - pose proof (clamped_calm s max (ur_wire resp) e Hs) as Hc. destruct (write_all _ _) as [c [n err]]. exact Hc.
Qed.

Lemma exec_calm max stderr stats x (s : running) e : calm_writer W -> calm_writer S -> calm x ->
  (exec max stderr stats x s).2 = Some e -> says_busy e = false.
Proof.
  intros Hw Hs (Hb & Hx & Hu). unfold exec. destruct (x_before x) as [b|]; [intros [= <-]; auto|].
  assert (Hd : (dispatch (ru_done s) max (ru_logs s) stderr stats (x_do x) (x_ctx_err x) (x_race x) (ru_out s)).2 = Some e ->
    says_busy e = false).
  { unfold dispatch. destruct (swap _ _ _) as [c back]. destruct (x_do x) as [text|resp] eqn:Ed.
    { case_bool_decide; [by intros [= <-]|]. destruct (Contains _ _); by intros [= <-]. }
    destruct (x_race x) as [|n e'] eqn:Er.
    - pose proof (writeResp_calm (ru_done s) max resp (ru_out s) e Hw Hs (fun e => Hu resp e eq_refl)) as Hr.
      destruct (writeResp _ _ _ _) as [[d w] err]. exact Hr.
    - destruct (writeResp_begun _ _ _ _ _) as [d w]. intros [= <-]. by eapply Hx. }
  destruct (dispatch _ _ _ _ _ _ _ _ _) as [[[d c] w] err]. cbn [fst snd] in *.
  destruct err as [e'|]; [exact Hd|]. destruct (x_after x) eqn:Ea; [|done]. intros [= <-]. auto.
Qed.

Lemma submit_contract g max stderr stats env (w : W + S) r e : calm_writer W -> calm_writer S -> calm (se_exec env) ->
  submit g max stderr stats env w = Ok r -> er_err (su_end r) = Some e -> says_busy e = true -> su_out r = w.
Proof.
  intros Hw Hs Hx. unfold submit. destruct (AddSession g 1) as [g' ok]. destruct ok; [|by intros [= <-]]. cbn [negb].
  unfold submit_body. destruct (se_slot env) as [err|logs].
  { destruct (DoneSession g') as [g''| |]; [|done..]. by intros [= <-]. }
  destruct (se_start env) as [err|].
  { destruct (DoneSession g') as [g''| |]; [|done..]. by intros [= <-]. }
  match goal with |- context [exec ?m ?a ?b ?x ?s] => pose proof (fun e => exec_calm m a b x s e Hw Hs Hx) as He;
    destruct (exec m a b x s) as [s' err] end.
  destruct (DoneSession g') as [g''| |]; [|done..]. intros [= <-]. cbn [su_end su_out handleCallEnd er_err fst snd] in *.
  intros Herr Hb. exfalso. destruct err as [e'|]; [|done].
  specialize (He e' eq_refl). destruct e'; injection Herr as <-; congruence || done.
Qed.
End Contract.

(** ** The run of [RunnerProtocol], received *)

Section Demo.
#[local] Existing Instance canonical_range.
#[local] Existing Instance demo_lib.

Definition demo_events : list recv_event := (RMsg <$> demo_out) ++ [REOF].
Definition nack_events : list recv_event :=
  (RMsg <$> take 1 (wire (hist demo_nack))) ++ [RErr (EGRPC 14 "unavailable")].

Lemma TryExec_success_witness :
  returned (hist demo_over) = Some None /\ rv_w (receiveFromRunner demo_events []) = [7; 8].
Proof.
  destruct (TryExec_success demo_over demo_events ([] : list Z) None) as (H & _ & E);
    [exact demo_over_reachable|exact (dl_eof demo_over eq_refl)|vm_compute; reflexivity|reflexivity|].
  by split.
Defined.

Lemma TryExec_refused_witness :
  heard (receiveFromRunner nack_events ([] : list Z)) = Some (Some (EApi 503 "Timed out - server too busy")) /\
  wrote (hist demo_nack) = false /\ rv_w (receiveFromRunner nack_events ([] : list Z)) = [].
Proof.
  split; [vm_compute; reflexivity|].
  destruct (TryExec_refused demo_nack nack_events ([] : list Z) (Some (EApi 503 "Timed out - server too busy"))
    (Some (EVar ErrCallTimeoutServerBusy))) as (_ & ? & _ & ?); try done.
  - exact demo_nack_reachable.
  - apply dl_broken. exists 14, "unavailable"%string. by split.
Defined.

Lemma body_delivered_witness :
  piped (hist demo_over) = [1; 2; 3] /\ (body_of [([1; 2], None); ([3], Some EEOF)]) = ([1; 2; 3], true) /\
  piped (hist demo_over) = (body_of [([1; 2; 3], Some EEOF)]).1.
Proof.
  split; [reflexivity|]. split; [vm_compute; reflexivity|].
  destruct (body_delivered demo_over demo_try [([1; 2; 3], Some EEOF)] [] demo_over_reachable) as [_ H]; [exists []; reflexivity|].
  by destruct (H eq_refl).
Defined.

(** An error that is not an API error crosses with code 0, and the client of the
    load balancer then gets its text with the status 200. *)
Example plain_error_is_200 :
  parseError (demo_fin (Some (EPlain "no such image"))) = Some (EApi 0 "no such image") /\
  http_response (handleErrorResponse gw_new false (EApi 0 "no such image")) = (200, [BError "no such image"]).
Proof. split; vm_compute; reflexivity. Qed.
End Demo.
