(* ===== verification/HotContainer.v ===== *)
(** * Hot containers: the agent as a whole (src/api/agent/agent.go)

    The composition of the resource tracker, the evictor, the slot queues and
    the session group by the goroutines of the agent: launchers that ask for
    resources and start containers ([checkLaunch]), containers that offer their
    slot, are taken, evicted, refreshed and closed ([runHot], [runHotReq], the
    eviction methods of [container]), and callers that wait for a slot, run and
    report ([submit], [waitHot], [hotSlot]).  [step] interleaves their atomic
    actions.  When a container is started is decided by the counters of
    StateTrackers.v; here a launcher may ask at any time, and a container may
    give up, or a caller fail, at any time: that covers every time-out, notice
    and shutdown.  A [SetEvictable(true)] right after the token was created is
    one action with it, since no one else can see the difference.

    The invariant has four independent parts, each preserved by steps that do
    not touch what it speaks of: who holds which resources, who owns which
    eviction token, which call has which slot, and who holds a session.  The
    theorems: a container never serves two calls; what running containers hold
    never exceeds the machine, and eviction's sums cannot overflow; no step
    panics; after shutdown nothing runs and nothing is held; and the window in
    which a container that was just taken is evicted all the same. *)
From S2P Require Import Prelude Errors Annotations Models Resource Evictor StateTrackers Slots Sync.
From S2P Require Import Stats Call HotSlot.

(** ** State *)

Inductive phase :=
| Granted     (* the launcher has the resource token *)
| Aborting    (* no session: the token is about to be closed *)
| Starting    (* runHot, until the container is initialized *)
| Ready       (* at the head of the loop *)
| Idling      (* the slot is queued, waiting in runHotReq *)
| Ejecting    (* won its own slot back, is removing it *)
| Disabling   (* lost the slot to a caller, before SetEvictable(false) *)
| Checking    (* before the look at the eviction channel *)
| Refreshing  (* the evicted token is deleted, before the new one is made *)
| Serving     (* waits for the verdict of the call *)
| Unwinding   (* the deferred clean-up, before container.Close *)
| Closing     (* before tok.Close *)
| Gone.

#[export] Instance phase_eq_dec : EqDecision phase.
Proof. solve_decision. Defined.

(** A container with its launcher: the queue it serves, the memory in MB and CPU
    of its call, the resource token, the eviction token, its latest slot. *)
Record ctr := Ctr {
  c_q : nat;
  c_mem : Z;
  c_cpu : Z;
  c_tok : nat;
  c_ev : option nat;
  c_cur : option nat;
  c_phase : phase
}.

(** A slot is a pointer into a queue. *)
Abbreviation slot := (nat * nat)%type.

Inductive caller :=
| Asking (q : nat)
| Won (q p : nat)        (* inside acquireSlot, after the swap *)
| Running (q p : nat)
| Ended (sl : option slot).

(** [qs]: the slot queues with their keys; [owner]: the container of each slot
    token; [verdicts]: the non-empty [done] channels of the slots. *)
Record sys := Sys {
  rt : rtsys;
  ev : evsys;
  grp : WaitGroup;
  qs : list (string * slotQueue);
  owner : gmap slot nat;
  verdicts : gmap slot (option gerr);
  ctrs : list ctr;
  callers : list caller
}.

Definition init (ram cpu : Z) : sys :=
  Sys (rt_init ram cpu) ev_init NewWaitGroup [] ∅ ∅ [] [].

Definition set_phase (k : ctr) (ph : phase) : ctr :=
  Ctr (c_q k) (c_mem k) (c_cpu k) (c_tok k) (c_ev k) (c_cur k) ph.
Definition set_ev (k : ctr) (h : option nat) : ctr :=
  Ctr (c_q k) (c_mem k) (c_cpu k) (c_tok k) h (c_cur k) (c_phase k).
Definition set_cur (k : ctr) (p : nat) : ctr :=
  Ctr (c_q k) (c_mem k) (c_cpu k) (c_tok k) (c_ev k) (Some p) (c_phase k).

Definition with_rt (s : sys) (r : rtsys) : sys := Sys r (ev s) (grp s) (qs s) (owner s) (verdicts s) (ctrs s) (callers s).
Definition with_ev (s : sys) (e : evsys) : sys := Sys (rt s) e (grp s) (qs s) (owner s) (verdicts s) (ctrs s) (callers s).
Definition with_grp (s : sys) (g : WaitGroup) : sys := Sys (rt s) (ev s) g (qs s) (owner s) (verdicts s) (ctrs s) (callers s).
Definition with_qs (s : sys) (l : list (string * slotQueue)) : sys :=
  Sys (rt s) (ev s) (grp s) l (owner s) (verdicts s) (ctrs s) (callers s).
Definition with_verdicts (s : sys) (v : gmap slot (option gerr)) : sys :=
  Sys (rt s) (ev s) (grp s) (qs s) (owner s) v (ctrs s) (callers s).
Definition with_ctrs (s : sys) (l : list ctr) : sys :=
  Sys (rt s) (ev s) (grp s) (qs s) (owner s) (verdicts s) l (callers s).
Definition with_callers (s : sys) (l : list caller) : sys :=
  Sys (rt s) (ev s) (grp s) (qs s) (owner s) (verdicts s) (ctrs s) l.

Definition set_ctr (s : sys) (c : nat) (k : ctr) : sys := with_ctrs s (<[c := k]> (ctrs s)).
Definition set_caller (s : sys) (i : nat) (k : caller) : sys := with_callers s (<[i := k]> (callers s)).
Definition set_queue (s : sys) (q : nat) (h : string) (a : slotQueue) : sys := with_qs s (<[q := (h, a)]> (qs s)).

(** [slot.SetError] *)
Definition send_verdict (s : sys) (sl : slot) (err : option gerr) : sys :=
  with_verdicts s (match SetError (verdicts s !! sl) err with Some v => <[sl := v]> (verdicts s) | None => verdicts s end).

Definition new_ctr (q : nat) (mem cpu : Z) (tok : nat) : ctr := Ctr q mem cpu tok None None Granted.

(** ** The methods of [container] on the evictor

    The evictor's lock is free when one that needs it runs. *)
Definition unlocked (e : evsys) : Prop := scanning e = None.

Definition create_token (e : evsys) (new_id hash : string) (k : ctr) : outcome string (evsys * nat) :=
  let! r := CreateEvictToken (evt e) new_id hash (c_mem k) (c_cpu k) in Ok (with_evt e r.1, r.2).

(** [EnableEviction] *)
Definition EnableEviction (e : evsys) (new_id hash : string) (k : ctr) : outcome string (evsys * ctr) :=
  let! r := match c_ev k with
            | Some h => Ok (e, h)
            | None => create_token e new_id hash k
            end in
  let (e, h) := r in
  Ok (with_evt e (SetEvictable (evt e) h true), set_ev k (Some h)).

(** [DisableEviction] in its three parts: clear the mark, look at the channel,
    refresh the token. *)
Definition disable_mark (e : evsys) (k : ctr) : evsys :=
  match c_ev k with Some h => with_evt e (SetEvictable (evt e) h false) | None => e end.
Definition evicted (e : evsys) (k : ctr) : bool :=
  match c_ev k with
  | Some h => match heap (evt e) !! h with Some t => isEvicted t | None => false end
  | None => false
  end.
Definition delete_token (e : evsys) (k : ctr) : outcome string evsys :=
  match c_ev k with
  | Some h => let! v := DeleteEvictToken (evt e) h in Ok (with_evt e v)
  | None => Ok e
  end.

(** ** Steps *)

(** The key of a queue, and the queue. *)
Definition queue_at (s : sys) (q : nat) (h : string) (a : slotQueue) : Prop := qs s !! q = Some (h, a).

(** What a call may ask for: [models.Fn.Validate] bounds the memory. *)
Definition askable (mem cpu : Z) : Prop := 0 <= mem * Mem1MB < w64 /\ is_u64 cpu.

(** [checkLaunch]: asking for resources. *)
Inductive launch_step : sys -> sys -> Prop :=
| l_queue s h : launch_step s (with_qs s (qs s ++ [(h, NewSlotQueue)]))
| l_wait s mem cpu done req :
    askable mem cpu -> GetResourceToken_enter (trk (rt s)) done mem cpu = Some req ->
    launch_step s (with_rt s {| trk := trk (rt s); toks := toks (rt s); waiting := waiting (rt s) ++ [req] |})
| l_timeout s i req done :
    waiting (rt s) !! i = Some req -> GetResourceToken_wake (trk (rt s)) done req = NilToken ->
    launch_step s (with_rt s {| trk := trk (rt s); toks := toks (rt s); waiting := base.delete i (waiting (rt s)) |})
| l_woken s i done a t q h sq mem cpu :
    queue_at s q h sq -> askable mem cpu -> waiting (rt s) !! i = Some (mem * Mem1MB, cpu) ->
    GetResourceToken_wake (trk (rt s)) done (mem * Mem1MB, cpu) = Token a t ->
    launch_step s (with_ctrs
      (with_rt s {| trk := a; toks := toks (rt s) ++ [t]; waiting := base.delete i (waiting (rt s)) |})
      (ctrs s ++ [new_ctr q mem cpu (length (toks (rt s)))]))
| l_granted s a t q h sq mem cpu :
    queue_at s q h sq -> askable mem cpu ->
    GetResourceTokenNB (trk (rt s)) mem cpu = (a, t) -> err t = false ->
    launch_step s (with_ctrs
      (with_rt s {| trk := a; toks := toks (rt s) ++ [t]; waiting := waiting (rt s) |})
      (ctrs s ++ [new_ctr q mem cpu (length (toks (rt s)))]))
| l_refused s a t q h sq mem cpu :
    (* the capacity is full: evict for the missing part, close the token *)
    queue_at s q h sq -> askable mem cpu -> unlocked (ev s) ->
    GetResourceTokenNB (trk (rt s)) mem cpu = (a, t) -> err t = true ->
    launch_step s (with_ev
      (with_rt s {| trk := a; toks := toks (rt s) ++ [(Close a t).2]; waiting := waiting (rt s) |})
      (let (needMem, needCpu) := NeededCapacity t in
       if (needMem =? 0) && (needCpu =? 0) then ev s
       else lock_scan (ev s) h needMem needCpu))
| l_session s c k g :
    ctrs s !! c = Some k -> c_phase k = Granted -> AddSession (grp s) 1 = (g, true) ->
    launch_step s (set_ctr (with_grp s g) c (set_phase k Starting))
| l_no_session s c k g :
    ctrs s !! c = Some k -> c_phase k = Granted -> AddSession (grp s) 1 = (g, false) ->
    launch_step s (set_ctr (with_grp s g) c (set_phase k Aborting))
| l_abort s c k t a t' :
    ctrs s !! c = Some k -> c_phase k = Aborting ->
    toks (rt s) !! c_tok k = Some t -> Close (trk (rt s)) t = (a, t') ->
    launch_step s (set_ctr
      (with_rt s {| trk := a; toks := <[c_tok k := t']> (toks (rt s)); waiting := waiting (rt s) |})
      c (set_phase k Gone)).

(** [runHot], [runHotReq] and [container.Close]. *)
Inductive ctr_step (c : nat) : sys -> sys -> Prop :=
| c_started s k :
    ctrs s !! c = Some k -> c_phase k = Starting -> ctr_step c s (set_ctr s c (set_phase k Ready))
| c_stop s k :
    (* initialization failed, or the context ended at the head of the loop *)
    ctrs s !! c = Some k -> c_phase k = Starting \/ c_phase k = Ready ->
    ctr_step c s (set_ctr s c (set_phase k Unwinding))
| c_offer s k h a new_id e k' :
    ctrs s !! c = Some k -> c_phase k = Ready -> queue_at s (c_q k) h a ->
    unlocked (ev s) -> new_id ∉ (tk_id ∘ key <$> heap (evt (ev s))) ->
    Z.of_nat (S (length (sheap a))) < w64 ->
    EnableEviction (ev s) new_id h k = Ok (e, k') ->
    let (a', p) := queueSlot a in
    ctr_step c s (set_ctr
      (Sys (rt s) e (grp s) (<[c_q k := (h, a')]> (qs s)) (<[(c_q k, p) := c]> (owner s))
           (base.delete (c_q k, p) (verdicts s)) (ctrs s) (callers s))
      c (set_phase (set_cur k' p) Idling))
| c_eject s k h a p :
    ctrs s !! c = Some k -> c_phase k = Idling -> c_cur k = Some p -> queue_at s (c_q k) h a ->
    (acquire_cas a p).2 = true ->
    ctr_step c s (set_ctr (set_queue s (c_q k) h (acquire_cas a p).1) c (set_phase k Ejecting))
| c_ejected s k h a p t :
    ctrs s !! c = Some k -> c_phase k = Ejecting -> c_cur k = Some p -> queue_at s (c_q k) h a ->
    sheap a !! p = Some t -> trigger_closed t = true ->
    ctr_step c s (set_ctr s c (set_phase k Unwinding))
| c_taken s k h a p :
    ctrs s !! c = Some k -> c_phase k = Idling -> c_cur k = Some p -> queue_at s (c_q k) h a ->
    (p < length (sheap a))%nat -> (acquire_cas a p).2 = false ->
    ctr_step c s (set_ctr s c (set_phase k Disabling))
| c_disable s k :
    ctrs s !! c = Some k -> c_phase k = Disabling ->
    ctr_step c s (set_ctr (with_ev s (disable_mark (ev s) k)) c (set_phase k Checking))
| c_keep s k :
    ctrs s !! c = Some k -> c_phase k = Checking -> evicted (ev s) k = false ->
    ctr_step c s (set_ctr s c (set_phase k Serving))
| c_late s k e :
    ctrs s !! c = Some k -> c_phase k = Checking -> evicted (ev s) k = true -> unlocked (ev s) ->
    delete_token (ev s) k = Ok e ->
    ctr_step c s (set_ctr (with_ev s e) c (set_phase k Refreshing))
| c_refresh s k h a new_id e p :
    ctrs s !! c = Some k -> c_phase k = Refreshing -> queue_at s (c_q k) h a ->
    unlocked (ev s) -> new_id ∉ (tk_id ∘ key <$> heap (evt (ev s))) ->
    create_token (ev s) new_id h k = Ok (e, p) ->
    ctr_step c s (set_ctr (with_ev s e) c (set_phase (set_ev k (Some p)) Serving))
| c_verdict s k p v :
    ctrs s !! c = Some k -> c_phase k = Serving -> c_cur k = Some p -> verdicts s !! (c_q k, p) = Some v ->
    ctr_step c s (set_ctr (with_verdicts s (base.delete (c_q k, p) (verdicts s))) c
      (set_phase k (match v with None => Ready | Some _ => Unwinding end)))
| c_close s k e :
    ctrs s !! c = Some k -> c_phase k = Unwinding -> unlocked (ev s) -> delete_token (ev s) k = Ok e ->
    ctr_step c s (set_ctr (with_ev s e) c (set_phase (set_ev k None) Closing))
| c_release s k t a t' g :
    ctrs s !! c = Some k -> c_phase k = Closing ->
    toks (rt s) !! c_tok k = Some t -> Close (trk (rt s)) t = (a, t') -> DoneSession (grp s) = Ok g ->
    ctr_step c s (set_ctr
      (with_grp (with_rt s {| trk := a; toks := <[c_tok k := t']> (toks (rt s)); waiting := waiting (rt s) |}) g)
      c (set_phase k Gone)).

(** [submit], [waitHot], [hotSlot]: a caller. *)
Inductive call_step : sys -> sys -> Prop :=
| k_enter s q g :
    AddSession (grp s) 1 = (g, true) ->
    call_step s (with_callers (with_grp s g) (callers s ++ [Asking q]))
| k_refused s g :
    AddSession (grp s) 1 = (g, false) -> call_step s (with_grp s g)
| k_won s i q h a p :
    (* the slot the dequeuer offered, perhaps a while ago *)
    callers s !! i = Some (Asking q) -> queue_at s q h a -> (acquire_cas a p).2 = true ->
    call_step s (set_caller (set_queue s q h (acquire_cas a p).1) i (Won q p))
| k_run s i q h a p t :
    callers s !! i = Some (Won q p) -> queue_at s q h a -> sheap a !! p = Some t -> trigger_closed t = true ->
    call_step s (set_caller s i (Running q p))
| k_error s i sl e :
    (* SetError by the call, or by its copying goroutine after the call ended *)
    callers s !! i = Some (Running sl.1 sl.2) \/ callers s !! i = Some (Ended (Some sl)) ->
    call_step s (send_verdict s sl (Some e))
| k_end s i q p g :
    callers s !! i = Some (Running q p) -> DoneSession (grp s) = Ok g ->
    call_step s (set_caller (with_grp (send_verdict s (q, p) None) g) i (Ended (Some (q, p))))
| k_fail s i q g :
    callers s !! i = Some (Asking q) -> DoneSession (grp s) = Ok g ->
    call_step s (set_caller (with_grp s g) i (Ended None)).

Inductive step : sys -> sys -> Prop :=
| s_launch s s' : launch_step s s' -> step s s'
| s_evict s e : perform_step (ev s) e -> step s (with_ev s e)
| s_ctr c s s' : ctr_step c s s' -> step s s'
| s_call s s' : call_step s s' -> step s s'
| s_remove s q h a j p :
    queue_at s q h a -> acquiring a !! j = Some (p, Slots.Won) -> step s (set_queue s q h (acquire_remove a j p))
| s_trigger s q h a a' j p :
    queue_at s q h a -> acquiring a !! j = Some (p, Removed) -> acquire_close a j p = Ok a' ->
    step s (set_queue s q h a')
| s_shutdown s g : CloseGroup_enter (grp s) = Ok g -> step s (with_grp s g).

Definition reach (ram cpu : Z) : sys -> Prop := rtc step (init ram cpu).

(** ** Invariant *)

Definition live (k : ctr) : bool := negb (bool_decide (c_phase k = Gone)).

(** *** Resources: every live container owns an open token for what it asked,
    and every open token has an owner. *)
Record res_inv (r : rtsys) (cs : list ctr) : Prop := {
  ri_rt : rt_inv r;
  ri_own : forall c k, cs !! c = Some k -> live k = true -> exists t, toks r !! c_tok k = Some t /\
    once t = false /\ decrement t = Some (c_mem k * Mem1MB, c_cpu k) /\ askable (c_mem k) (c_cpu k);
  ri_inj : forall c c' k k', cs !! c = Some k -> cs !! c' = Some k' -> live k = true -> live k' = true ->
    c_tok k = c_tok k' -> c = c';
  ri_tok : forall i t d, toks r !! i = Some t -> once t = false -> decrement t = Some d ->
    exists c k, cs !! c = Some k /\ live k = true /\ c_tok k = i
}.

Definition refreshing (ph : phase) : bool := match ph with Refreshing => true | _ => false end.

(** *** Eviction tokens: a container's token is its own, describes it and is not
    deleted (but while it is being replaced); a token that can be evicted
    belongs to a container. *)
Record ev_own (e : evsys) (keys : list string) (cs : list ctr) : Prop := {
  eo_inv : es_inv e;
  eo_own : forall c k h, cs !! c = Some k -> c_ev k = Some h -> exists tk d, tview (evt e) !! h = Some (tk, d) /\
    keys !! c_q k = Some (tk_slotId tk) /\ tk_memory tk = c_mem k /\ tk_cpu tk = c_cpu k /\
    d = (if refreshing (c_phase k) then isEligible tk else false);
  eo_inj : forall c c' k k' h, cs !! c = Some k -> cs !! c' = Some k' -> c_ev k = Some h -> c_ev k' = Some h -> c = c';
  eo_tok : forall h tk, tview (evt e) !! h = Some (tk, false) -> isEligible tk = true ->
    exists c k, cs !! c = Some k /\ c_ev k = Some h;
  eo_none : forall c k, cs !! c = Some k ->
    c_phase k = Granted \/ c_phase k = Aborting \/ c_phase k = Closing \/ c_phase k = Gone -> c_ev k = None
}.

(** *** Slots: where a caller can be with the slot of a container. *)
Definition on_slot (a : caller) : option slot :=
  match a with Won q p | Running q p => Some (q, p) | _ => None end.
Definition used_slot (a : caller) : option slot :=
  match a with Won q p | Running q p => Some (q, p) | Ended sl => sl | _ => None end.

(** Phases in which a caller may have won the current slot. *)
Definition winnable (ph : phase) : bool :=
  match ph with Granted | Aborting | Starting | Ready | Ejecting => false | _ => true end.
(** Phases in which the container waits, or is about to wait, for a verdict. *)
Definition taken (ph : phase) : bool :=
  match ph with Disabling | Checking | Refreshing | Serving => true | _ => false end.

(** Whether a slot exists, and is taken. *)
Definition busy (l : list (string * slotQueue)) (sl : slot) : option bool :=
  match l !! sl.1 with Some (_, a) => isBusy <$> sheap a !! sl.2 | None => None end.

Record slot_inv (n : nat) (bz : slot -> option bool) (ow : gmap slot nat) (vs : gmap slot (option gerr))
    (cs : list ctr) (ks : list caller) : Prop := {
  si_ctr : forall c k, cs !! c = Some k -> (c_q k < n)%nat;
  si_owner : forall sl c, ow !! sl = Some c -> is_Some (bz sl) /\ exists k, cs !! c = Some k /\ c_q k = sl.1;
  si_cur : forall c k p, cs !! c = Some k -> c_cur k = Some p -> ow !! (c_q k, p) = Some c;
  si_some : forall c k, cs !! c = Some k -> c_phase k = Idling \/ c_phase k = Ejecting \/ taken (c_phase k) = true ->
    is_Some (c_cur k);
  si_free : forall sl, bz sl = Some false -> vs !! sl = None /\
    exists c k, ow !! sl = Some c /\ cs !! c = Some k /\ c_cur k = Some sl.2 /\ c_phase k = Idling;
  si_used : forall i a sl, ks !! i = Some a -> used_slot a = Some sl -> bz sl = Some true;
  si_on : forall i a sl, ks !! i = Some a -> on_slot a = Some sl ->
    exists c k, ow !! sl = Some c /\ cs !! c = Some k /\ c_cur k = Some sl.2 /\ winnable (c_phase k) = true;
  si_excl : forall i j a b sl, ks !! i = Some a -> ks !! j = Some b -> on_slot a = Some sl -> on_slot b = Some sl -> i = j;
  si_ended : forall i a sl, vs !! sl = Some None -> ks !! i = Some a -> on_slot a <> Some sl;
  si_busy : forall c k p, cs !! c = Some k -> c_cur k = Some p ->
    taken (c_phase k) = true \/ (c_phase k = Idling /\ bz (c_q k, p) = Some true) ->
    is_Some (vs !! (c_q k, p)) \/ exists i a, ks !! i = Some a /\ on_slot a = Some (c_q k, p)
}.

(** *** Sessions: one per container past its admission and per caller. *)
Definition ctr_session (k : ctr) : bool :=
  match c_phase k with Granted | Aborting | Gone => false | _ => true end.
Definition call_session (a : caller) : bool := match a with Ended _ => false | _ => true end.
Definition held_sessions (cs : list ctr) (ks : list caller) : Z := countZ ctr_session cs + countZ call_session ks.

Record grp_inv (g : WaitGroup) (cs : list ctr) (ks : list caller) : Prop := {
  gi_count : sessions g = held_sessions cs ks;
  gi_max : sessions g < maxU64;
  gi_closer : closer_closed g = isClosed g
}.

Record inv (s : sys) : Prop := {
  i_res : res_inv (rt s) (ctrs s);
  i_ev : ev_own (ev s) (qs s).*1 (ctrs s);
  i_queues : Forall (fun ha => sq_inv ha.2) (qs s);
  i_slot : slot_inv (length (qs s)) (busy (qs s)) (owner s) (verdicts s) (ctrs s) (callers s);
  i_grp : grp_inv (grp s) (ctrs s) (callers s)
}.

(** ** Lemmas: resources *)

Lemma askable_u64 mem cpu : askable mem cpu -> is_u64 mem /\ is_u64 cpu /\ u64 (mem * Mem1MB) = mem * Mem1MB.
Proof. intros [H1 H2]. split; [unfold Mem1MB in *; word_lia|]. split; [done|]. by apply u64_small. Qed.

Lemma NB_shape a0 mem cpu a t : askable mem cpu -> GetResourceTokenNB a0 mem cpu = (a, t) ->
  once t = false /\ decrement t = if err t then None else Some (mem * Mem1MB, cpu).
Proof.
  intros Ha. destruct (askable_u64 _ _ Ha) as (_ & _ & E). unfold GetResourceTokenNB. rewrite E.
  destruct (negb _); [by intros [= <- <-]|]. destruct (_ && _); by intros [= <- <-].
Qed.

Lemma live_Gone k : live (set_phase k Gone) = false.
Proof. reflexivity. Qed.
Lemma live_phase k : c_phase k <> Gone -> live k = true.
Proof. intros H. unfold live. by rewrite bool_decide_eq_false_2. Qed.
Lemma live_inv k : live k = true -> c_phase k <> Gone.
Proof. unfold live. by case_bool_decide. Qed.

(** Reading the list of containers after one of them changed. *)
Ltac upd Hc :=
  repeat match goal with
         | H : context [<[_ := _]> _ !! _] |- _ => rewrite (insert_lookup _ _ _ _ _ Hc) in H
         | |- context [<[_ := _]> _ !! _] => rewrite (insert_lookup _ _ _ _ _ Hc)
         end;
  repeat case_decide; simplify_eq.

Section Res.
Context (r : rtsys) (cs : list ctr) (Hi : res_inv r cs).

Lemma res_rt r' : rt_step r r' -> toks r' = toks r -> res_inv r' cs.
Proof.
  intros Hs E. split; try rewrite E; try apply Hi. eapply (rt_step_inv r); [apply (ri_rt _ _ Hi)|done].
Qed.

Lemma res_frame c k k' : cs !! c = Some k ->
  c_tok k' = c_tok k -> c_mem k' = c_mem k -> c_cpu k' = c_cpu k -> live k' = live k ->
  res_inv r (<[c := k']> cs).
Proof.
  intros Hc Ht Hm Hp Hl. split; [apply Hi|..].
  - intros c' k0 Hk Hlv. upd Hc; [|by eapply ri_own].
    rewrite Ht, Hm, Hp. rewrite Hl in Hlv. by eapply ri_own.
  - intros c1 c2 k1 k2 H1 H2 L1 L2 E. upd Hc; try done; eapply (ri_inj _ _ Hi); try done; congruence.
  - intros i t d H1 H2 H3. destruct (ri_tok _ _ Hi i t d H1 H2 H3) as (c' & k0 & Hk & Hlv & E).
    destruct (decide (c' = c)) as [->|Hne].
    + exists c, k'. simplify_eq. rewrite (insert_lookup _ _ _ _ _ Hc), decide_True, Hl by done. done.
    + exists c', k0. by rewrite (insert_lookup _ _ _ _ _ Hc), decide_False.
Qed.

Lemma res_new r' t k : rt_step r r' -> toks r' = toks r ++ [t] -> live k = true -> c_tok k = length (toks r) ->
  once t = false -> decrement t = Some (c_mem k * Mem1MB, c_cpu k) -> askable (c_mem k) (c_cpu k) ->
  res_inv r' (cs ++ [k]).
Proof.
  intros Hs E Hlv Hk Ho Hd Ha. split.
  - eapply (rt_step_inv r); [apply (ri_rt _ _ Hi)|done].
  - rewrite E. intros c k0 [[_ Hc]|[-> <-]]%lookup_snoc_Some Hl0.
    + destruct (ri_own _ _ Hi c k0 Hc Hl0) as (t0 & Ht0 & ?). exists t0. split; [by apply lookup_app_l_Some|done].
    + exists t. rewrite Hk. by rewrite list_lookup_middle.
  - assert (Hlt : forall c k0, cs !! c = Some k0 -> live k0 = true -> (c_tok k0 < length (toks r))%nat).
    { intros c k0 Hc Hl0. destruct (ri_own _ _ Hi c k0 Hc Hl0) as (t0 & Ht0 & _). by eapply lookup_lt_Some. }
    intros c1 c2 k1 k2 [[_ H1]|[-> <-]]%lookup_snoc_Some [[_ H2]|[-> <-]]%lookup_snoc_Some L1 L2 Et;
      [by eapply ri_inj|specialize (Hlt c1 k1 H1 L1); lia|specialize (Hlt c2 k2 H2 L2); lia|done].
  - rewrite E. intros i t0 d [[_ Ht]|[-> <-]]%lookup_snoc_Some Ho0 Hd0.
    + destruct (ri_tok _ _ Hi i t0 d Ht Ho0 Hd0) as (c & k0 & Hc & ?). exists c, k0.
      split; [by apply lookup_app_l_Some|done].
    + exists (length cs), k. by rewrite list_lookup_middle.
Qed.

Lemma res_refused r' t : rt_inv r' -> toks r' = toks r ++ [t] -> decrement t = None -> res_inv r' cs.
Proof.
  intros Hr E Hd. split; [done|..].
  - intros c k Hc Hl. destruct (ri_own _ _ Hi c k Hc Hl) as (t0 & Ht0 & ?). exists t0.
    rewrite E. split; [by apply lookup_app_l_Some|done].
  - apply Hi.
  - rewrite E. intros i t0 d [[_ Ht]|[-> <-]]%lookup_snoc_Some Ho0 Hd0; [by eapply ri_tok|congruence].
Qed.

Lemma res_close c k t a t' : cs !! c = Some k -> live k = true -> toks r !! c_tok k = Some t ->
  Close (trk r) t = (a, t') ->
  res_inv {| trk := a; toks := <[c_tok k := t']> (toks r); waiting := waiting r |} (<[c := set_phase k Gone]> cs).
Proof.
  intros Hc Hl Ht Hcl.
  destruct (ri_own _ _ Hi c k Hc Hl) as (t0 & Ht0 & Ho & Hd & _). assert (t0 = t) as -> by congruence.
  assert (Hot : once t' = true).
  { unfold Close in Hcl. rewrite Ho in Hcl. by injection Hcl as _ <-. }
  split; simpl.
  - eapply (rt_step_inv r); [apply (ri_rt _ _ Hi)|]. by eapply step_close.
  - intros c' k' Hk' Hl'. upd Hc.
    destruct (ri_own _ _ Hi c' k' Hk' Hl') as (t1 & Ht1 & ?). exists t1.
    rewrite (insert_lookup _ _ _ _ _ Ht), decide_False; [done|].
    intros E. by pose proof (ri_inj _ _ Hi _ _ _ _ Hk' Hc Hl' Hl E).
  - intros c1 c2 k1 k2 H1 H2 L1 L2 E. upd Hc; try done. by eapply ri_inj.
  - intros i t1 d H1 H2 H3. upd Ht; [congruence|].
    destruct (ri_tok _ _ Hi i t1 d H1 H2 H3) as (c' & k0 & Hk & Hlv & E).
    exists c', k0. rewrite (insert_lookup _ _ _ _ _ Hc), decide_False; [done|]. intros ->. congruence.
Qed.
End Res.

(** ** Lemmas: eviction tokens *)

Section Ev.
Context (e : evsys) (keys : list string) (cs : list ctr) (Hi : ev_own e keys cs).

Lemma evo_view e' : es_inv e' -> tview (evt e') = tview (evt e) -> ev_own e' keys cs.
Proof. intros He E. split; try done; rewrite ?E; apply Hi. Qed.

Lemma evo_keys h : ev_own e (keys ++ [h]) cs.
Proof.
  split; try apply Hi. intros c k p Hc Hp. destruct (eo_own _ _ _ Hi c k p Hc Hp) as (tk & d & H1 & H2 & H3).
  exists tk, d. split; [done|]. split; [|done]. by apply lookup_app_l_Some.
Qed.

Lemma evo_new k : c_ev k = None -> ev_own e keys (cs ++ [k]).
Proof.
  intros Hk. split; try apply Hi.
  - intros c k0 h [[_ Hc]|[-> <-]]%lookup_snoc_Some Hh; [by eapply eo_own|congruence].
  - intros c1 c2 k1 k2 h [[_ H1]|[-> <-]]%lookup_snoc_Some [[_ H2]|[-> <-]]%lookup_snoc_Some E1 E2; try congruence.
    by eapply eo_inj.
  - intros h tk Ht He. destruct (eo_tok _ _ _ Hi h tk Ht He) as (c & k0 & Hc & ?). exists c, k0.
    split; [by apply lookup_app_l_Some|done].
  - intros c k0 [[_ Hc]|[-> <-]]%lookup_snoc_Some Hp; [by eapply eo_none|done].
Qed.

Lemma evo_frame c k k' : cs !! c = Some k ->
  c_ev k' = c_ev k -> c_q k' = c_q k -> c_mem k' = c_mem k -> c_cpu k' = c_cpu k ->
  refreshing (c_phase k') = refreshing (c_phase k) ->
  (c_phase k' = Granted \/ c_phase k' = Aborting \/ c_phase k' = Closing \/ c_phase k' = Gone -> c_ev k = None) ->
  ev_own e keys (<[c := k']> cs).
Proof.
  intros Hc E1 E2 E3 E4 Hr Hn. split; [apply Hi|..].
  - intros c' k0 h H1 H2. upd Hc; [|by eapply eo_own]. rewrite E2, E3, E4, Hr. rewrite E1 in H2. by eapply eo_own.
  - intros c1 c2 k1 k2 h H1 H2 H3 H4. upd Hc; try done; eapply (eo_inj _ _ _ Hi); try done; congruence.
  - intros h tk Ht He. destruct (eo_tok _ _ _ Hi h tk Ht He) as (c' & k0 & Hk & Hh).
    destruct (decide (c' = c)) as [->|Hne].
    + exists c, k'. upd Hc. split; [done|]. congruence.
    + exists c', k0. by upd Hc.
  - intros c' k0 H1 H2. upd Hc; [|by eapply eo_none]. rewrite E1. auto.
Qed.

(** The container gets a token just created; its old one, if any, is deleted. *)
Lemma evo_assign e' tk c k k' : es_inv e' -> tview (evt e') = tview (evt e) ++ [(tk, false)] ->
  cs !! c = Some k -> c_ev k' = Some (length (tview (evt e))) ->
  keys !! c_q k' = Some (tk_slotId tk) -> tk_memory tk = c_mem k' -> tk_cpu tk = c_cpu k' ->
  c_phase k' = Idling \/ c_phase k' = Serving ->
  (c_ev k = None \/ c_phase k = Refreshing) ->
  ev_own e' keys (<[c := k']> cs).
Proof.
  intros He E Hc Hk' Hq Hm Hp Hph Hold. split; [done|..].
  - rewrite E. intros c' k0 h H1 H2. upd Hc.
    + exists tk, false. rewrite list_lookup_middle by done. split; [done|]. split; [done|].
      split; [done|]. split; [done|]. destruct Hph as [-> | ->]; reflexivity.
    + destruct (eo_own _ _ _ Hi c' k0 h H1 H2) as (tk0 & d & Ht & ?). exists tk0, d.
      split; [by apply lookup_app_l_Some|done].
  - assert (Hlt : forall c' k0 h, cs !! c' = Some k0 -> c_ev k0 = Some h -> (h < length (tview (evt e)))%nat).
    { intros c' k0 h H1 H2. destruct (eo_own _ _ _ Hi c' k0 h H1 H2) as (tk0 & d & Ht & _). by eapply lookup_lt_Some. }
    intros c1 c2 k1 k2 h H1 H2 H3 H4. upd Hc; [|specialize (Hlt _ _ _ H1 H3); lia|specialize (Hlt _ _ _ H2 H4); lia|]; try done.
    by eapply eo_inj.
  - rewrite E. intros h tk0 [[_ Ht]|[-> Et]]%lookup_snoc_Some Hel.
    + destruct (eo_tok _ _ _ Hi h tk0 Ht Hel) as (c' & k0 & Hk & Hh). exists c', k0.
      rewrite (insert_lookup _ _ _ _ _ Hc), decide_False; [done|]. intros ->. simplify_eq.
      destruct Hold as [?|Hr]; [congruence|].
      destruct (eo_own _ _ _ Hi c k h Hc Hh) as (tk1 & d & Ht1 & _ & _ & _ & Hd).
      rewrite Hr in Hd. simplify_eq/=. congruence.
    + exists c, k'. rewrite (insert_lookup _ _ _ _ _ Hc), decide_True by done. done.
  - intros c' k0 H1 H2. upd Hc; [|by eapply eo_none]. destruct Hph as [Hph|Hph]; rewrite Hph in H2; naive_solver.
Qed.

(** The container deletes its token. *)
Lemma evo_delete e' c k k' h tk d : es_inv e' ->
  cs !! c = Some k -> c_ev k = Some h -> tview (evt e) !! h = Some (tk, d) ->
  tview (evt e') = <[h := (tk, isEligible tk)]> (tview (evt e)) ->
  c_q k' = c_q k -> c_mem k' = c_mem k -> c_cpu k' = c_cpu k ->
  (c_ev k' = None \/ c_ev k' = Some h /\ c_phase k' = Refreshing) ->
  ev_own e' keys (<[c := k']> cs).
Proof.
  intros He Hc Hh Ht E Hq Hm Hp Hk'. split; [done|..].
  - rewrite E. intros c' k0 h0 H1 H2. upd Hc.
    + destruct Hk' as [?|[Hk' Hr]]; [congruence|]. simplify_eq.
      destruct (eo_own _ _ _ Hi c k h Hc Hh) as (tk1 & d1 & Ht1 & ? & ? & ? & _). simplify_eq.
      exists tk, (isEligible tk). rewrite (insert_lookup _ _ _ _ _ Ht), decide_True by done.
      rewrite Hq, Hm, Hp, Hr. done.
    + destruct (eo_own _ _ _ Hi c' k0 h0 H1 H2) as (tk1 & d1 & Ht1 & ?). exists tk1, d1.
      rewrite (insert_lookup _ _ _ _ _ Ht), decide_False; [done|]. intros ->.
      by pose proof (eo_inj _ _ _ Hi _ _ _ _ _ Hc H1 Hh H2).
  - intros c1 c2 k1 k2 h0 H1 H2 H3 H4. upd Hc; try done; eapply (eo_inj _ _ _ Hi); try done; naive_solver congruence.
  - rewrite E. intros h0 tk0 Ht0 Hel. upd Ht; [congruence|].
    destruct (eo_tok _ _ _ Hi h0 tk0 Ht0 Hel) as (c' & k0 & Hk & Hh0). exists c', k0.
    rewrite (insert_lookup _ _ _ _ _ Hc), decide_False; [done|]. intros ->. congruence.
  - intros c' k0 H1 H2. upd Hc; [|by eapply eo_none]. destruct Hk' as [?|[_ Hr]]; [done|].
    rewrite Hr in H2. naive_solver.
Qed.
End Ev.

(** What the operations of a container do to the evictor. *)
Lemma create_token_ok e new_id hash k : es_inv e -> unlocked e -> new_id ∉ (tk_id ∘ key <$> heap (evt e)) ->
  exists e', create_token e new_id hash k = Ok (e', length (tview (evt e))) /\ es_inv e' /\
    tview (evt e') = tview (evt e) ++ [(TKey new_id hash (c_mem k) (c_cpu k), false)] /\
    unlocked e'.
Proof.
  intros He Hu Hf.
  destruct (create_ok (evt e) (es_ev _ He) new_id hash (c_mem k) (c_cpu k) Hf) as (v & Hv & _ & Hh & _).
  unfold create_token. rewrite Hv. cbn [obind fst snd]. unfold tview. rewrite length_fmap.
  eexists. split; [reflexivity|]. split; [|split; [|done]].
  - eapply es_step_inv; [exact He|]. eapply ev_create; [by left|exact Hf|exact Hv].
  - cbn [with_evt evt]. by rewrite Hh, fmap_app.
Qed.

Lemma set_ok e h b : es_inv e -> es_inv (with_evt e (SetEvictable (evt e) h b)) /\
  tview (evt (with_evt e (SetEvictable (evt e) h b))) = tview (evt e).
Proof. intros He. split; [eapply es_step_inv; [exact He|apply ev_set]|apply tview_set]. Qed.

Lemma disable_mark_ok e k : es_inv e -> es_inv (disable_mark e k) /\ tview (evt (disable_mark e k)) = tview (evt e).
Proof. intros He. unfold disable_mark. destruct (c_ev k); [by apply set_ok|done]. Qed.

Lemma delete_token_ok e k h tk : es_inv e -> unlocked e -> c_ev k = Some h -> tview (evt e) !! h = Some (tk, false) ->
  exists e', delete_token e k = Ok e' /\ es_inv e' /\
    tview (evt e') = <[h := (tk, isEligible tk)]> (tview (evt e)) /\ unlocked e'.
Proof.
  intros He Hu Hk Ht. unfold tview in Ht. rewrite list_lookup_fmap in Ht.
  destruct (heap (evt e) !! h) as [t|] eqn:Eh; [|done]. injection Ht as <- Hd.
  destruct (delete_ok (evt e) (es_ev _ He) h t Eh Hd) as (v & Hv & _ & Hh & _).
  unfold delete_token. rewrite Hk, Hv. cbn [obind]. eexists. split; [reflexivity|]. split; [|split; [|done]].
  - eapply es_step_inv; [exact He|]. eapply ev_delete; [by left|exact Eh|exact Hd|exact Hv].
  - cbn [with_evt evt]. unfold tview. rewrite Hh. destruct (isEligible (key t)).
    + by rewrite list_fmap_insert.
    + symmetry. apply list_insert_id. by rewrite list_lookup_fmap, Eh, <- Hd.
Qed.

(** ** Lemmas: slots *)

Lemma on_used a sl : on_slot a = Some sl -> used_slot a = Some sl.
Proof. by destruct a. Qed.

Section Slot.
Context (n : nat) (bz : slot -> option bool) (ow : gmap slot nat) (vs : gmap slot (option gerr))
  (cs : list ctr) (ks : list caller) (Hi : slot_inv n bz ow vs cs ks).

Lemma sl_ext n' bz' : (n <= n')%nat -> (forall sl, bz' sl = bz sl) -> slot_inv n' bz' ow vs cs ks.
Proof.
  intros Hn E. split; try apply Hi.
  - intros c k Hc. pose proof (si_ctr _ _ _ _ _ _ Hi c k Hc). lia.
  - intros sl c. rewrite E. apply Hi.
  - intros sl. rewrite E. apply Hi.
  - intros i a sl. rewrite E. apply Hi.
  - intros c k p. rewrite E. apply Hi.
Qed.

Lemma sl_new_ctr k : (c_q k < n)%nat -> c_cur k = None -> c_phase k = Granted -> slot_inv n bz ow vs (cs ++ [k]) ks.
Proof.
  intros Hq Hk Hp. split; try apply Hi.
  - intros c k0 [[_ Hc]|[-> <-]]%lookup_snoc_Some; [by eapply si_ctr|done].
  - intros sl c Ho. destruct (si_owner _ _ _ _ _ _ Hi sl c Ho) as [? (k0 & Hc & ?)]. split; [done|].
    exists k0. split; [by apply lookup_app_l_Some|done].
  - intros c k0 p [[_ Hc]|[-> <-]]%lookup_snoc_Some; [by apply Hi|congruence].
  - intros c k0 [[_ Hc]|[-> <-]]%lookup_snoc_Some; [by eapply si_some|]. rewrite Hp. naive_solver.
  - intros sl Hb. destruct (si_free _ _ _ _ _ _ Hi sl Hb) as [? (c & k0 & Ho & Hc & ?)]. split; [done|].
    exists c, k0. split; [done|]. split; [by apply lookup_app_l_Some|done].
  - intros i a sl Ha Hs. destruct (si_on _ _ _ _ _ _ Hi i a sl Ha Hs) as (c & k0 & Ho & Hc & ?).
    exists c, k0. split; [done|]. split; [by apply lookup_app_l_Some|done].
  - intros c k0 p [[_ Hc]|[-> <-]]%lookup_snoc_Some; [by eapply si_busy|congruence].
Qed.

Lemma sl_new_call q : slot_inv n bz ow vs cs (ks ++ [Asking q]).
Proof.
  split; try apply Hi.
  - intros i a sl [[_ Ha]|[-> <-]]%lookup_snoc_Some; [by eapply si_used|done].
  - intros i a sl [[_ Ha]|[-> <-]]%lookup_snoc_Some; [by eapply si_on|done].
  - intros i j a b sl [[_ Ha]|[-> <-]]%lookup_snoc_Some [[_ Hb]|[-> <-]]%lookup_snoc_Some; try done. by eapply si_excl.
  - intros i a sl Hv [[_ Ha]|[-> <-]]%lookup_snoc_Some; [by eapply si_ended|done].
  - intros c k p Hc Hp Hb. destruct (si_busy _ _ _ _ _ _ Hi c k p Hc Hp Hb) as [?|(i & a & Ha & ?)]; [by left|].
    right. exists i, a. split; [by apply lookup_app_l_Some|done].
Qed.

(** A container goes to another phase and keeps its slot. *)
Lemma sl_frame c k k' : cs !! c = Some k -> c_q k' = c_q k -> c_cur k' = c_cur k ->
  (c_phase k' = Idling \/ c_phase k' = Ejecting \/ taken (c_phase k') = true -> is_Some (c_cur k)) ->
  (forall p, c_cur k = Some p -> c_phase k = Idling -> bz (c_q k, p) = Some false -> c_phase k' = Idling) ->
  (forall p i a, c_cur k = Some p -> ks !! i = Some a -> on_slot a = Some (c_q k, p) -> winnable (c_phase k') = true) ->
  (taken (c_phase k') = true \/ c_phase k' = Idling ->
     taken (c_phase k) = true \/ (c_phase k = Idling /\ forall p, c_cur k = Some p -> bz (c_q k, p) = Some true)) ->
  slot_inv n bz ow vs (<[c := k']> cs) ks.
Proof.
  intros Hc Hq Hk H1 H2 H3 H4. split; try apply Hi.
  - intros c' k0 H. upd Hc; [rewrite Hq; by eapply si_ctr|by eapply si_ctr].
  - intros sl c' Ho. destruct (si_owner _ _ _ _ _ _ Hi sl c' Ho) as [? (k0 & Hc' & ?)]. split; [done|].
    upd Hc; [exists k'; split; [done|congruence]|eauto].
  - intros c' k0 p H Hp. upd Hc; [rewrite Hq; apply (si_cur _ _ _ _ _ _ Hi); congruence|by apply Hi].
  - intros c' k0 H Hp. upd Hc; [rewrite Hk; auto|by eapply si_some].
  - intros sl Hb. destruct (si_free _ _ _ _ _ _ Hi sl Hb) as [? (c' & k0 & Ho & Hc' & Hp & Hph)]. split; [done|].
    exists c'. upd Hc; [exists k'|exists k0; done]. split; [done|]. split; [done|]. split; [congruence|].
    destruct (si_owner _ _ _ _ _ _ Hi sl c Ho) as [_ (k1 & Hk1 & E)]. simplify_eq.
    apply (H2 sl.2); try done. destruct sl; simpl in *; congruence.
  - intros i a sl Ha Hs. destruct (si_on _ _ _ _ _ _ Hi i a sl Ha Hs) as (c' & k0 & Ho & Hc' & Hp & Hw).
    exists c'. upd Hc; [exists k'|exists k0; done]. split; [done|]. split; [done|]. split; [congruence|].
    destruct (si_owner _ _ _ _ _ _ Hi sl c Ho) as [_ (k1 & Hk1 & E)]. simplify_eq.
    apply (H3 sl.2 i a); try done. destruct sl; simpl in *; congruence.
  - intros c' k0 p H Hp Hb. upd Hc; [|by eapply si_busy]. rewrite Hq in *. rewrite Hk in Hp.
    apply (si_busy _ _ _ _ _ _ Hi c k p); try done.
    destruct H4 as [?|[? H4]]; [naive_solver|by left|]. right. auto.
Qed.

(** The usual case: no new slot, none given back. *)
Lemma sl_move c k k' : cs !! c = Some k -> c_q k' = c_q k -> c_cur k' = c_cur k ->
  c_phase k' <> Idling -> c_phase k' <> Ejecting ->
  (c_phase k = Idling -> forall p, c_cur k = Some p -> bz (c_q k, p) = Some true) ->
  (winnable (c_phase k) = true -> winnable (c_phase k') = true) ->
  (taken (c_phase k') = true -> taken (c_phase k) = true \/ c_phase k = Idling) ->
  slot_inv n bz ow vs (<[c := k']> cs) ks.
Proof.
  intros Hc Hq Hk N1 N2 H1 H2 H3. apply (sl_frame c k); try done.
  - intros [?|[?|Ht]]; [done..|]. apply (si_some _ _ _ _ _ _ Hi c k Hc). naive_solver.
  - intros p Hp Hid Hb. rewrite (H1 Hid p Hp) in Hb. done.
  - intros p i a Hp Ha Hs. apply H2.
    destruct (si_on _ _ _ _ _ _ Hi i a _ Ha Hs) as (c' & k0 & Ho & Hc' & _ & Hw).
    pose proof (si_cur _ _ _ _ _ _ Hi c k p Hc Hp). by simplify_eq.
  - intros [Ht|?]; [|done]. destruct (H3 Ht) as [?|Hid]; [by left|right]. auto.
Qed.

(** A caller that keeps its slot, or had none and gets none. *)
Lemma sl_caller i a a' : ks !! i = Some a -> on_slot a' = on_slot a -> used_slot a' = used_slot a ->
  slot_inv n bz ow vs cs (<[i := a']> ks).
Proof.
  intros Ha E1 E2. split; try apply Hi.
  - intros i' a0 sl H. upd Ha; [rewrite E2; by eapply si_used|by eapply si_used].
  - intros i' a0 sl H. upd Ha; [rewrite E1; by eapply si_on|by eapply si_on].
  - intros i' j' a0 b0 sl H1 H2 H3 H4. upd Ha; try done; eapply (si_excl _ _ _ _ _ _ Hi); try done; congruence.
  - intros i' a0 sl Hv H. upd Ha; [rewrite E1; by eapply si_ended|by eapply si_ended].
  - intros c k p Hc Hp Hb. destruct (si_busy _ _ _ _ _ _ Hi c k p Hc Hp Hb) as [?|(i' & a0 & Ha0 & Hs)]; [by left|].
    right. destruct (decide (i' = i)) as [->|].
    + exists i, a'. upd Ha. split; [done|]. congruence.
    + exists i', a0. by upd Ha.
Qed.

(** A caller on a slot leaves it with a verdict. *)
Lemma sl_end i a sl vs' : ks !! i = Some a -> on_slot a = Some sl ->
  is_Some (vs' !! sl) -> (forall sl', sl' <> sl -> vs' !! sl' = vs !! sl') ->
  slot_inv n bz ow vs' cs (<[i := Ended (Some sl)]> ks).
Proof.
  intros Ha Hs Hv Hoth.
  pose proof (si_used _ _ _ _ _ _ Hi i a sl Ha (on_used _ _ Hs)) as Hb.
  split; try apply Hi.
  - intros sl' Hb'. rewrite Hoth by congruence. by apply Hi.
  - intros i' a0 sl' H Hu. upd Ha; [by simplify_eq/=|by eapply si_used].
  - intros i' a0 sl' H Hu. upd Ha. by eapply si_on.
  - intros i' j' a0 b0 sl' H1 H2 H3 H4. upd Ha; try done. by eapply si_excl.
  - intros i' a0 sl' Hn H Hu. upd Ha. destruct (decide (sl' = sl)) as [->|].
    + by pose proof (si_excl _ _ _ _ _ _ Hi _ _ _ _ _ H Ha Hu Hs).
    + rewrite Hoth in Hn by done. by eapply si_ended.
  - intros c k p Hc Hp Hbz. destruct (decide ((c_q k, p) = sl)) as [->|Hne]; [by left|]. rewrite Hoth by done.
    destruct (si_busy _ _ _ _ _ _ Hi c k p Hc Hp Hbz) as [?|(i' & a0 & Ha0 & Hs0)]; [by left|].
    right. exists i', a0. rewrite (insert_lookup _ _ _ _ _ Ha), decide_False; [done|]. intros ->. congruence.
Qed.

(** An error verdict by a caller that is, or was, on the slot. *)
Lemma sl_error i a sl e : ks !! i = Some a -> used_slot a = Some sl -> vs !! sl = None ->
  slot_inv n bz ow (<[sl := Some e]> vs) cs ks.
Proof.
  intros Ha Hs Hv. pose proof (si_used _ _ _ _ _ _ Hi i a sl Ha Hs) as Hb. split; try apply Hi.
  - intros sl' Hb'. rewrite lookup_insert_ne by congruence. by apply Hi.
  - intros i' a0 sl' Hn. apply lookup_insert_Some in Hn as [[_ ?]|[_ Hn]]; [done|]. by eapply si_ended.
  - intros c k p Hc Hp Hbz. destruct (si_busy _ _ _ _ _ _ Hi c k p Hc Hp Hbz) as [[v ?]|?]; [left|by right].
    rewrite lookup_insert_is_Some'. right. by eexists.
Qed.

(** The container takes the verdict out of the channel. *)
Lemma sl_verdict c k p v ph : cs !! c = Some k -> c_cur k = Some p -> c_phase k = Serving ->
  vs !! (c_q k, p) = Some v -> ph = (match v with None => Ready | Some _ => Unwinding end) ->
  slot_inv n bz ow (base.delete (c_q k, p) vs) (<[c := set_phase k ph]> cs) ks.
Proof.
  intros Hc Hp Hph Hv ->.
  assert (Hf : slot_inv n bz ow vs (<[c := set_phase k (match v with None => Ready | Some _ => Unwinding end)]> cs) ks).
  { apply (sl_frame c k); [done..| | | |].
    - intros _. by eexists.
    - intros p' _ E. congruence.
    - intros p' i a Hp' Ha Hs. destruct v; [done|]. simplify_eq. by destruct (si_ended _ _ _ _ _ _ Hi i a _ Hv Ha).
    - intros _. left. by rewrite Hph. }
  split; try apply Hf.
  - intros sl Hb. destruct (si_free _ _ _ _ _ _ Hf sl Hb) as [E ?]. split; [|done].
    apply lookup_delete_None. by right.
  - intros i a sl [_ Hn]%lookup_delete_Some. by eapply si_ended.
  - intros c' k0 p' H Hp' Hb. destruct (decide ((c_q k0, p') = (c_q k, p))) as [E|Hne].
    + destruct (decide (c' = c)) as [->|Hcc].
      * upd Hc. destruct v; simpl in Hb; naive_solver.
      * exfalso. upd Hc.
        pose proof (si_cur _ _ _ _ _ _ Hi _ _ _ H Hp') as O1. pose proof (si_cur _ _ _ _ _ _ Hi _ _ _ Hc Hp) as O2. congruence.
    + rewrite lookup_delete_ne by congruence. by eapply si_busy.
Qed.

(** A caller wins a free slot. *)
Lemma sl_won bz' i q p q0 : ks !! i = Some (Asking q0) -> bz (q, p) = Some false ->
  (forall sl, bz' sl = if decide (sl = (q, p)) then Some true else bz sl) ->
  slot_inv n bz' ow vs cs (<[i := Won q p]> ks).
Proof.
  intros Ha Hb E. destruct (si_free _ _ _ _ _ _ Hi (q, p) Hb) as [Hv (c & k & Ho & Hc & Hp & Hph)].
  assert (Hused : forall j a, ks !! j = Some a -> used_slot a <> Some (q, p)).
  { intros j a Hj Hu. pose proof (si_used _ _ _ _ _ _ Hi j a _ Hj Hu). congruence. }
  split; try apply Hi.
  - intros sl c' Ho'. destruct (si_owner _ _ _ _ _ _ Hi sl c' Ho') as [? ?]. split; [|done].
    rewrite E. destruct (decide _); [by eexists|done].
  - intros sl. rewrite E. destruct (decide _); [done|]. apply Hi.
  - intros j a sl Hj Hu. rewrite E. destruct (decide _) as [|Hne]; [done|]. upd Ha; [by simplify_eq/=|by eapply si_used].
  - intros j a sl Hj Hs. upd Ha; [|by eapply si_on]. simplify_eq/=. exists c, k. by rewrite Hph.
  - intros j j' a b sl H1 H2 H3 H4. upd Ha; try done; [| |by eapply si_excl]; exfalso; simplify_eq/=;
      match goal with
      | H : ks !! ?x = Some ?y, H' : on_slot ?y = Some _ |- _ => by apply (Hused x y H), on_used
      end.
  - intros j a sl Hn Hj. upd Ha; [|by eapply si_ended]. intros Hs. injection Hs as <-. congruence.
  - intros c' k' p' Hc' Hp' Hbz. destruct (decide ((c_q k', p') = (q, p))) as [Esl|Hne].
    + right. exists i, (Won q p). upd Ha. done.
    + rewrite E, decide_False in Hbz by done.
      destruct (si_busy _ _ _ _ _ _ Hi c' k' p' Hc' Hp' Hbz) as [?|(j & a & Hj & Hs)]; [by left|right].
      exists j, a. rewrite (insert_lookup _ _ _ _ _ Ha), decide_False; [done|]. intros ->. simplify_eq/=.
Qed.

(** A container wins its own slot back. *)
Lemma sl_eject bz' c k p : cs !! c = Some k -> c_cur k = Some p -> bz (c_q k, p) = Some false ->
  (forall sl, bz' sl = if decide (sl = (c_q k, p)) then Some true else bz sl) ->
  slot_inv n bz' ow vs (<[c := set_phase k Ejecting]> cs) ks.
Proof.
  intros Hc Hp Hb E.
  assert (Hused : forall j a, ks !! j = Some a -> used_slot a <> Some (c_q k, p)).
  { intros j a Hj Hu. pose proof (si_used _ _ _ _ _ _ Hi j a _ Hj Hu). congruence. }
  assert (Hcur : forall sl, ow !! sl = Some c -> c_cur k = Some sl.2 -> sl = (c_q k, p)).
  { intros sl Ho Hs. destruct (si_owner _ _ _ _ _ _ Hi sl c Ho) as [_ (k1 & ? & Eq)]. destruct sl. simplify_eq/=. done. }
  split; try apply Hi.
  - intros c' k0 H. upd Hc; [by apply (si_ctr _ _ _ _ _ _ Hi c k)|by eapply si_ctr].
  - intros sl c' Ho. destruct (si_owner _ _ _ _ _ _ Hi sl c' Ho) as [? (k0 & Hk0 & ?)].
    split; [rewrite E; destruct (decide _); [by eexists|done]|]. upd Hc; eauto.
  - intros c' k0 p' H Hp'. upd Hc; [by apply (si_cur _ _ _ _ _ _ Hi c k)|by apply Hi].
  - intros c' k0 H Hph. upd Hc; [by eexists|by eapply si_some].
  - intros sl. rewrite E. destruct (decide _) as [|Hne]; [done|]. intros Hbs.
    destruct (si_free _ _ _ _ _ _ Hi sl Hbs) as [? (c' & k0 & Ho & Hc' & ? & ?)]. split; [done|].
    exists c', k0. rewrite (insert_lookup _ _ _ _ _ Hc), decide_False; [done|]. intros ->. simplify_eq. by destruct Hne; apply Hcur.
  - intros j a sl Hj Hu. rewrite E. destruct (decide _); [done|]. by eapply si_used.
  - intros j a sl Hj Hs. destruct (si_on _ _ _ _ _ _ Hi j a sl Hj Hs) as (c' & k0 & Ho & Hc' & ? & ?).
    exists c', k0. rewrite (insert_lookup _ _ _ _ _ Hc), decide_False; [done|]. intros ->. simplify_eq.
    destruct (Hused j a Hj). rewrite (on_used _ _ Hs). f_equal. by apply Hcur.
  - intros c' k0 p' H Hp' Hbz. upd Hc; [simpl in Hbz; naive_solver|].
    rewrite E in Hbz. destruct (decide ((c_q k0, p') = (c_q k, p))) as [Esl|]; [|by eapply si_busy].
    pose proof (si_cur _ _ _ _ _ _ Hi _ _ _ H Hp') as O1. pose proof (si_cur _ _ _ _ _ _ Hi _ _ _ Hc Hp) as O2. congruence.
Qed.

(** A container offers a new slot. *)
Lemma sl_offer bz' c k k' p : cs !! c = Some k -> c_phase k = Ready ->
  c_q k' = c_q k -> c_cur k' = Some p -> c_phase k' = Idling -> bz (c_q k, p) = None ->
  (forall sl, bz' sl = if decide (sl = (c_q k, p)) then Some false else bz sl) ->
  slot_inv n bz' (<[(c_q k, p) := c]> ow) (base.delete (c_q k, p) vs) (<[c := k']> cs) ks.
Proof.
  intros Hc Hph Hq Hp Hph' Hb E.
  assert (How : forall sl c', ow !! sl = Some c' -> sl <> (c_q k, p)).
  { intros sl c' Ho ->. destruct (si_owner _ _ _ _ _ _ Hi _ _ Ho) as [[] _]. congruence. }
  assert (Hon : forall j a sl, ks !! j = Some a -> on_slot a = Some sl -> sl <> (c_q k, p)).
  { intros j a sl Hj Hs ->. pose proof (si_used _ _ _ _ _ _ Hi j a _ Hj (on_used _ _ Hs)). congruence. }
  split; try apply Hi.
  - intros c' k0 H. upd Hc; [rewrite Hq; by eapply (si_ctr _ _ _ _ _ _ Hi)|by eapply si_ctr].
  - intros sl c' [[<- <-]|[Hne Ho]]%lookup_insert_Some.
    + rewrite E, decide_True by done. split; [by eexists|]. exists k'. upd Hc. done.
    + rewrite E, decide_False by done. destruct (si_owner _ _ _ _ _ _ Hi sl c' Ho) as [? (k0 & Hk0 & ?)].
      split; [done|]. upd Hc; [exists k'; split; [done|congruence]|eauto].
  - intros c' k0 p' H Hp'. upd Hc; [rewrite Hq; apply lookup_insert_eq|].
    pose proof (si_cur _ _ _ _ _ _ Hi _ _ _ H Hp') as Ho. rewrite lookup_insert_ne; [done|]. apply not_eq_sym. by eapply How.
  - intros c' k0 H H'. upd Hc; [by eexists|by eapply si_some].
  - intros sl. rewrite E. destruct (decide _) as [->|Hne].
    + intros _. split; [apply lookup_delete_eq|]. exists c, k'. rewrite lookup_insert_eq. upd Hc. done.
    + intros Hbs. destruct (si_free _ _ _ _ _ _ Hi sl Hbs) as [? (c' & k0 & Ho & Hc' & ? & ?)].
      rewrite lookup_delete_ne, lookup_insert_ne by done. split; [done|]. exists c', k0.
      rewrite (insert_lookup _ _ _ _ _ Hc), decide_False; [done|]. intros ->. congruence.
  - intros j a sl Hj Hu. rewrite E. destruct (decide _) as [->|]; [|by eapply si_used].
    pose proof (si_used _ _ _ _ _ _ Hi j a _ Hj Hu). congruence.
  - intros j a sl Hj Hs. destruct (si_on _ _ _ _ _ _ Hi j a sl Hj Hs) as (c' & k0 & Ho & Hc' & ? & Hw).
    exists c', k0. rewrite lookup_insert_ne by (apply not_eq_sym; by eapply Hon). split; [done|].
    rewrite (insert_lookup _ _ _ _ _ Hc), decide_False; [done|]. intros ->. simplify_eq. by rewrite Hph in Hw.
  - intros j a sl [_ Hn]%lookup_delete_Some. by eapply si_ended.
  - intros c' k0 p' H Hp' Hbz. upd Hc.
    + rewrite Hph', Hq, E, decide_True in Hbz by congruence. naive_solver.
    + pose proof (si_cur _ _ _ _ _ _ Hi _ _ _ H Hp') as Ho.
      rewrite E, decide_False in Hbz by (by eapply How).
      rewrite lookup_delete_ne by (apply not_eq_sym; by eapply How). by eapply si_busy.
Qed.
End Slot.

(** What the operations on a queue do to the marks. *)
Section Busy.
Context (l : list (string * slotQueue)) (q : nat) (h : string) (a : slotQueue) (Hq : l !! q = Some (h, a)).

Lemma busy_at p : busy l (q, p) = isBusy <$> sheap a !! p.
Proof. unfold busy. simpl. by rewrite Hq. Qed.

Lemma busy_set a' sl : busy (<[q := (h, a')]> l) sl = if decide (sl.1 = q) then isBusy <$> sheap a' !! sl.2 else busy l sl.
Proof. unfold busy. rewrite (insert_lookup _ _ _ _ _ Hq). by destruct (decide (sl.1 = q)). Qed.

(** Only the mark of [p] changes. *)
Lemma busy_one a' p b :
  (forall p', isBusy <$> sheap a' !! p' = if decide (p' = p) then Some b else isBusy <$> sheap a !! p') ->
  forall sl, busy (<[q := (h, a')]> l) sl = if decide (sl = (q, p)) then Some b else busy l sl.
Proof.
  intros E [q' p']. rewrite busy_set. simpl. destruct (decide (q' = q)) as [->|].
  - rewrite E, <- busy_at. destruct (decide (p' = p)) as [->|]; [by rewrite decide_True|].
    rewrite decide_False; [done|congruence].
  - rewrite decide_False; [done|congruence].
Qed.

Lemma busy_same a' : (forall p', isBusy <$> sheap a' !! p' = isBusy <$> sheap a !! p') ->
  forall sl, busy (<[q := (h, a')]> l) sl = busy l sl.
Proof.
  intros E [q' p']. rewrite busy_set. simpl. destruct (decide (q' = q)) as [->|]; [|done]. by rewrite E, <- busy_at.
Qed.

Lemma busy_cas p : (acquire_cas a p).2 = true -> busy l (q, p) = Some false /\ forall sl, busy (<[q := (h, (acquire_cas a p).1)]> l) sl = if decide (sl = (q, p)) then Some true else busy l sl.
Proof.
  intros Hc. rewrite busy_at. unfold acquire_cas in *. destruct (sheap a !! p) as [t|] eqn:Ep; [|done].
  destruct (isBusy t) eqn:Eb; [done|]. split; [simpl; by rewrite Eb|]. simpl. apply busy_one. simpl.
  intros p'. rewrite (insert_lookup _ _ _ _ _ Ep). by destruct (decide (p' = p)).
Qed.

Lemma busy_lost p : (p < length (sheap a))%nat -> (acquire_cas a p).2 = false -> busy l (q, p) = Some true.
Proof.
  intros Hl Hc. rewrite busy_at. unfold acquire_cas in Hc.
  destruct (lookup_lt_is_Some_2 _ _ Hl) as [t Ht]. rewrite Ht in *. simpl. by destruct (isBusy t).
Qed.

Lemma busy_queue : busy l (q, length (sheap a)) = None /\ forall sl, busy (<[q := (h, (queueSlot a).1)]> l) sl = if decide (sl = (q, length (sheap a))) then Some false else busy l sl.
Proof.
  split.
  - rewrite busy_at. by rewrite lookup_ge_None_2.
  - apply busy_one. simpl. intros p'. destruct (decide (p' = length (sheap a))) as [->|Hne].
    + by rewrite list_lookup_middle.
    + destruct (decide (p' < length (sheap a))%nat).
      * by rewrite lookup_app_l.
      * rewrite !lookup_ge_None_2; [done|lia|rewrite length_app; simpl; lia].
Qed.

Lemma busy_remove j p : forall sl, busy (<[q := (h, acquire_remove a j p)]> l) sl = busy l sl.
Proof. apply busy_same. unfold acquire_remove. intros p'. by destruct (sheap a !! p). Qed.

Lemma busy_close a' j p : acquire_close a j p = Ok a' -> forall sl, busy (<[q := (h, a')]> l) sl = busy l sl.
Proof.
  unfold acquire_close. destruct (sheap a !! p) as [t|] eqn:Ep; [|done]. destruct (trigger_closed t); [done|].
  intros [= <-]. apply busy_same. simpl. intros p'. rewrite (insert_lookup _ _ _ _ _ Ep).
  destruct (decide (p' = p)) as [->|]; [by rewrite Ep|done].
Qed.
End Busy.

(** ** Lemmas: sessions *)

Section Grp.
Context (g : WaitGroup) (cs : list ctr) (ks : list caller) (Hi : grp_inv g cs ks).

Lemma grp_nonneg : 0 <= sessions g.
Proof.
  rewrite (gi_count _ _ _ Hi). unfold held_sessions.
  pose proof (countZ_nonneg ctr_session cs). pose proof (countZ_nonneg call_session ks). lia.
Qed.

Lemma add_ok g' : AddSession g 1 = (g', true) ->
  isClosed g = false /\ sessions g' = sessions g + 1 /\ sessions g' < maxU64 /\
  isClosed g' = false /\ closer_closed g' = closer_closed g.
Proof.
  pose proof grp_nonneg as Hn. pose proof (gi_max _ _ _ Hi) as Hm. unfold AddSession.
  destruct (isClosed g); [done|]. rewrite u64_small by word_lia.
  destruct (Z.eqb_spec (sessions g) (maxU64 - 1)); [done|].
  intros [= <-]. simpl. rewrite u64_small by word_lia. split_and!; try done; lia.
Qed.

Lemma add_refused g' : AddSession g 1 = (g', false) -> g' = g.
Proof. unfold AddSession. destruct (isClosed g); [by intros [= <-]|]. by destruct (_ =? _); intros [= <-]. Qed.

Lemma done_ok : 0 < sessions g -> exists g', DoneSession g = Ok g' /\
  sessions g' = sessions g - 1 /\ isClosed g' = isClosed g /\ closer_closed g' = closer_closed g.
Proof.
  intros Hp. pose proof (gi_max _ _ _ Hi) as Hm. unfold DoneSession.
  rewrite (proj2 (Z.eqb_neq _ _)) by lia. eexists. split; [reflexivity|]. simpl.
  rewrite u64_small by word_lia. done.
Qed.

Lemma grp_count cs' ks' g' d : held_sessions cs' ks' = held_sessions cs ks + d -> sessions g' = sessions g + d ->
  sessions g' < maxU64 -> isClosed g' = isClosed g -> closer_closed g' = closer_closed g -> grp_inv g' cs' ks'.
Proof. destruct Hi as [H1 H2 H3]. intros. split; [lia|done|congruence]. Qed.

Lemma held_ctr c k k' : cs !! c = Some k ->
  held_sessions (<[c := k']> cs) ks = held_sessions cs ks +
    ((if ctr_session k' then 1 else 0) - (if ctr_session k then 1 else 0)).
Proof. intros Hc. unfold held_sessions. rewrite (countZ_insert _ _ _ _ _ Hc). lia. Qed.

Lemma held_call i a a' : ks !! i = Some a ->
  held_sessions cs (<[i := a']> ks) = held_sessions cs ks +
    ((if call_session a' then 1 else 0) - (if call_session a then 1 else 0)).
Proof. intros Ha. unfold held_sessions. rewrite (countZ_insert _ _ _ _ _ Ha). lia. Qed.

Lemma grp_frame c k k' : cs !! c = Some k -> ctr_session k' = ctr_session k -> grp_inv g (<[c := k']> cs) ks.
Proof.
  intros Hc E. apply (grp_count _ _ _ 0); try done; [|lia|apply Hi].
  rewrite (held_ctr _ _ _ Hc), E. lia.
Qed.

Lemma grp_call i a a' : ks !! i = Some a -> call_session a' = call_session a -> grp_inv g cs (<[i := a']> ks).
Proof.
  intros Ha E. apply (grp_count _ _ _ 0); try done; [|lia|apply Hi].
  rewrite (held_call _ _ _ Ha), E. lia.
Qed.

Lemma session_pos_ctr c k : cs !! c = Some k -> ctr_session k = true -> 0 < sessions g.
Proof.
  intros Hc Hs. rewrite (gi_count _ _ _ Hi). unfold held_sessions.
  pose proof (countZ_elem_pos ctr_session cs k (list_elem_of_lookup_2 _ _ _ Hc) Hs).
  pose proof (countZ_nonneg call_session ks). lia.
Qed.

Lemma session_pos_call i a : ks !! i = Some a -> call_session a = true -> 0 < sessions g.
Proof.
  intros Ha Hs. rewrite (gi_count _ _ _ Hi). unfold held_sessions.
  pose proof (countZ_elem_pos call_session ks a (list_elem_of_lookup_2 _ _ _ Ha) Hs).
  pose proof (countZ_nonneg ctr_session cs). lia.
Qed.
End Grp.

(** ** The invariant is preserved *)

Lemma launch_inv s s' : inv s -> launch_step s s' -> inv s'.
Proof.
  intros [Hr He Hqs Hs Hg] Hst.
  destruct Hst as [s h|s mem cpu done req Ha H|s i req done Hw H|s i done a t q h sq mem cpu Hq Ha Hw H
    |s a t q h sq mem cpu Hq Ha H Het|s a t q h sq mem cpu Hq Ha Hu H Het|s c k g Hc Hp H|s c k g Hc Hp H
    |s c k t a t' Hc Hp Ht H].
  - split; try done; cbn [with_qs rt ev grp qs owner verdicts ctrs callers].
    + rewrite fmap_app. by apply evo_keys.
    + apply Forall_app. split; [done|]. apply Forall_singleton. apply Slots.NewSlotQueue_inv.
    + eapply sl_ext; [exact Hs|rewrite length_app; lia|]. intros [q p]. unfold busy. simpl.
      destruct (decide (q < length (qs s))%nat) as [Hl|Hl].
      * by rewrite lookup_app_l.
      * rewrite (lookup_ge_None_2 (qs s)) by lia. destruct (decide (q = length (qs s))) as [->|].
        -- rewrite list_lookup_middle by done. done.
        -- rewrite lookup_ge_None_2; [done|]. rewrite length_app. simpl. lia.
  - destruct (askable_u64 _ _ Ha) as (H1 & H2 & _). split; try done. simpl.
    eapply res_rt; [exact Hr| |done]. eapply step_enter; [exact H1|exact H2|exact H].
  - split; try done. simpl. eapply res_rt; [exact Hr| |done]. eapply step_wake_nil; [exact Hw|exact H].
  - split; try done; cbn [with_ctrs with_rt rt ev grp qs owner verdicts ctrs callers].
    + assert (Ht : once t = false /\ decrement t = Some (mem * Mem1MB, cpu)).
      { unfold GetResourceToken_wake in H. destruct (_ && _); [done|]. destruct (negb done); [|done].
        simpl in H. by injection H as <- <-. }
      destruct Ht. eapply (res_new _ _ Hr _ t); try done. eapply step_wake_token; [exact Hw|exact H].
    + by apply evo_new.
    + apply (sl_new_ctr _ _ _ _ _ _ Hs); try done. simpl. by eapply lookup_lt_Some.
    + apply (grp_count _ _ _ Hg _ _ _ 0); try done; [|lia|apply Hg].
      unfold held_sessions. rewrite countZ_app. simpl. lia.
  - destruct (NB_shape _ _ _ _ _ Ha H) as [Ho Hd]. rewrite Het in Hd.
    destruct (askable_u64 _ _ Ha) as (H1 & H2 & _).
    split; try done; cbn [with_ctrs with_rt rt ev grp qs owner verdicts ctrs callers].
    + eapply (res_new _ _ Hr _ t); try done. eapply step_nb; [exact H1|exact H2|exact H].
    + by apply evo_new.
    + apply (sl_new_ctr _ _ _ _ _ _ Hs); try done. simpl. by eapply lookup_lt_Some.
    + apply (grp_count _ _ _ Hg _ _ _ 0); try done; [|lia|apply Hg].
      unfold held_sessions. rewrite countZ_app. simpl. lia.
  - destruct (NB_shape _ _ _ _ _ Ha H) as [Ho Hd]. rewrite Het in Hd.
    destruct (askable_u64 _ _ Ha) as (H1 & H2 & _).
    split; try done; cbn [with_ev with_rt rt ev grp qs owner verdicts ctrs callers].
    + eapply (res_refused _ _ Hr _ (Close a t).2); [|done|].
      * assert (Hr1 : rt_inv {| trk := a; toks := toks (rt s) ++ [t]; waiting := waiting (rt s) |}).
        { eapply rt_step_inv; [apply (ri_rt _ _ Hr)|]. eapply step_nb; [exact H1|exact H2|exact H]. }
        eapply rt_step_inv in Hr1; [|eapply (step_close _ (length (toks (rt s))) t (Close a t).1 (Close a t).2)];
          cbn [toks trk waiting].
        -- cbn [toks trk waiting] in Hr1. rewrite insert_app_r_alt, Nat.sub_diag in Hr1 by lia. simpl in Hr1.
           revert Hr1. unfold Close. by rewrite Ho, Hd.
        -- by apply list_lookup_middle.
        -- by destruct (Close a t).
      * unfold Close. by rewrite Ho.
    + destruct (NeededCapacity t) as [needMem needCpu]. destruct (_ && _) eqn:Ez; [done|].
      apply (evo_view _ _ _ He); [|done]. eapply es_step_inv; [apply (eo_inv _ _ _ He)|]. by apply ev_lock.
  - destruct (add_ok _ _ _ Hg _ H) as (Hcl & Hsn & Hmx & Hcl' & Hcc).
    split; cbn [set_ctr with_ctrs with_grp rt ev grp qs owner verdicts ctrs callers]; try done.
    + apply (res_frame _ _ Hr c k); try done. unfold live. simpl. by rewrite Hp.
    + apply (evo_frame _ _ _ He c k); try done; simpl; [by rewrite Hp|naive_solver].
    + apply (sl_move _ _ _ _ _ _ Hs c k); rewrite ?Hp; done.
    + apply (grp_count _ _ _ Hg _ _ _ 1); try done; try congruence.
      rewrite (held_ctr _ _ _ _ _ Hc). unfold ctr_session. simpl. rewrite Hp. lia.
  - rewrite (add_refused _ _ H).
    split; cbn [set_ctr with_ctrs with_grp rt ev grp qs owner verdicts ctrs callers]; try done.
    + apply (res_frame _ _ Hr c k); try done. unfold live. simpl. by rewrite Hp.
    + apply (evo_frame _ _ _ He c k); try done; simpl; [by rewrite Hp|]. intros _.
      apply (eo_none _ _ _ He c k Hc). naive_solver.
    + apply (sl_move _ _ _ _ _ _ Hs c k); rewrite ?Hp; done.
    + apply (grp_frame _ _ _ Hg c k); try done. unfold ctr_session. simpl. by rewrite Hp.
  - split; cbn [set_ctr with_ctrs with_rt rt ev grp qs owner verdicts ctrs callers]; try done.
    + apply (res_close _ _ Hr c k t); try done. apply live_phase. by rewrite Hp.
    + apply (evo_frame _ _ _ He c k); try done; simpl; [by rewrite Hp|]. intros _.
      apply (eo_none _ _ _ He c k Hc). naive_solver.
    + apply (sl_move _ _ _ _ _ _ Hs c k); rewrite ?Hp; done.
    + apply (grp_frame _ _ _ Hg c k); try done. unfold ctr_session. simpl. by rewrite Hp.
Qed.

(** A container that only moves on, perhaps with another view of the evictor. *)
Lemma move_inv s c k k' e : inv s -> ctrs s !! c = Some k ->
  c_q k' = c_q k -> c_cur k' = c_cur k -> c_tok k' = c_tok k -> c_mem k' = c_mem k -> c_cpu k' = c_cpu k ->
  c_phase k <> Gone -> c_phase k' <> Gone -> ctr_session k' = ctr_session k ->
  c_phase k' <> Idling -> c_phase k' <> Ejecting ->
  (c_phase k = Idling -> forall p, c_cur k = Some p -> busy (qs s) (c_q k, p) = Some true) ->
  (winnable (c_phase k) = true -> winnable (c_phase k') = true) ->
  (taken (c_phase k') = true -> taken (c_phase k) = true \/ c_phase k = Idling) ->
  ev_own e (qs s).*1 (<[c := k']> (ctrs s)) ->
  inv (set_ctr (with_ev s e) c k').
Proof.
  intros [Hr He Hqs Hs Hg] Hc E1 E2 E3 E4 E5 N1 N2 E6 N3 N4 H1 H2 H3 He'.
  split; cbn [set_ctr with_ctrs with_ev rt ev grp qs owner verdicts ctrs callers]; try done.
  - apply (res_frame _ _ Hr c k); try done. by rewrite !live_phase.
  - by apply (sl_move _ _ _ _ _ _ Hs c k).
  - by apply (grp_frame _ _ _ Hg c k).
Qed.

Lemma with_ev_id s : with_ev s (ev s) = s.
Proof. by destruct s. Qed.

(** Only the phase changes, to one that needs nothing. *)
Lemma phase_inv s c k ph : inv s -> ctrs s !! c = Some k ->
  c_phase k <> Gone -> ctr_session (set_phase k ph) = ctr_session k ->
  match ph with Granted | Aborting | Idling | Ejecting | Closing | Gone => False | _ => True end ->
  (c_phase k = Idling -> forall p, c_cur k = Some p -> busy (qs s) (c_q k, p) = Some true) ->
  (winnable (c_phase k) = true -> winnable ph = true) ->
  (taken ph = true -> taken (c_phase k) = true \/ c_phase k = Idling) ->
  refreshing ph = refreshing (c_phase k) ->
  inv (set_ctr s c (set_phase k ph)).
Proof.
  intros Hi Hc N1 E1 Hph H1 H2 H3 H4. rewrite <- (with_ev_id s) at 1.
  apply (move_inv s c k); try done; try (by destruct ph).
  apply (evo_frame _ _ _ (i_ev _ Hi) c k); try done. simpl. by destruct ph; naive_solver.
Qed.

Lemma evo_token s c k h : inv s -> ctrs s !! c = Some k -> c_ev k = Some h -> c_phase k <> Refreshing ->
  exists tk, tview (evt (ev s)) !! h = Some (tk, false).
Proof.
  intros Hi Hc Hh Hp. destruct (eo_own _ _ _ (i_ev _ Hi) c k h Hc Hh) as (tk & d & Ht & _ & _ & _ & Hd).
  exists tk. rewrite Ht, Hd. by destruct (c_phase k).
Qed.

(** [EnableEviction]. *)
Lemma enable_ok s c k h a new_id e k' p : inv s -> ctrs s !! c = Some k -> c_phase k = Ready ->
  queue_at s (c_q k) h a -> unlocked (ev s) -> new_id ∉ (tk_id ∘ key <$> heap (evt (ev s))) ->
  EnableEviction (ev s) new_id h k = Ok (e, k') ->
  c_q k' = c_q k /\ c_tok k' = c_tok k /\ c_mem k' = c_mem k /\ c_cpu k' = c_cpu k /\ c_phase k' = c_phase k /\
  ev_own e (qs s).*1 (<[c := set_phase (set_cur k' p) Idling]> (ctrs s)).
Proof.
  intros Hi Hc Hp Hq Hu Hf H. pose proof (i_ev _ Hi) as He. unfold EnableEviction in H.
  destruct (c_ev k) as [h0|] eqn:Eh; cbn [obind] in H.
  - injection H as <- <-. split_and!; try done.
    destruct (set_ok (ev s) h0 true (eo_inv _ _ _ He)) as [Hi' Ht'].
    pose proof (evo_view _ _ _ He _ Hi' Ht') as He'. apply (evo_frame _ _ _ He' c k); try done; simpl;
      [by rewrite Hp|naive_solver].
  - destruct (create_token_ok (ev s) new_id h k (eo_inv _ _ _ He) Hu Hf) as (e1 & H1 & Hi1 & Ht1 & _).
    rewrite H1 in H. cbn [obind] in H. injection H as <- <-. split_and!; try done.
    destruct (set_ok e1 (length (tview (evt (ev s)))) true Hi1) as [Hi' Ht']. rewrite Ht1 in Ht'.
    eapply (evo_assign _ _ _ He); [exact Hi'|exact Ht'|exact Hc|done|..|by left|by left]; try done.
    simpl. by rewrite list_lookup_fmap, Hq.
Qed.

Lemma queue_set_keys s q h a a' : queue_at s q h a -> (<[q := (h, a')]> (qs s)).*1 = (qs s).*1.
Proof. intros Hq. by eapply insert_fmap_id. Qed.

Lemma queue_sq s q h a : inv s -> queue_at s q h a -> sq_inv a.
Proof. intros Hi Hq. by apply (Forall_lookup_1 _ _ _ _ (i_queues _ Hi) Hq). Qed.

(** A step inside a queue that leaves the marks alone. *)
Lemma queue_inv_same s q h a a' : inv s -> queue_at s q h a -> sq_inv a' ->
  (forall sl, busy (<[q := (h, a')]> (qs s)) sl = busy (qs s) sl) -> inv (set_queue s q h a').
Proof.
  intros [Hr He Hqs Hs Hg] Hq Ha Hb. split; cbn [set_queue with_qs rt ev grp qs owner verdicts ctrs callers]; try done.
  - by rewrite (queue_set_keys s q h a).
  - by apply Forall_insert.
  - eapply sl_ext; [exact Hs|by rewrite length_insert|exact Hb].
Qed.

Lemma offer_inv s c k h a new_id e k' : inv s ->
  ctrs s !! c = Some k -> c_phase k = Ready -> queue_at s (c_q k) h a ->
  unlocked (ev s) -> new_id ∉ (tk_id ∘ key <$> heap (evt (ev s))) ->
  Z.of_nat (S (length (sheap a))) < w64 ->
  EnableEviction (ev s) new_id h k = Ok (e, k') ->
  let p := length (sheap a) in
  inv (set_ctr
      (Sys (rt s) e (grp s) (<[c_q k := (h, (queueSlot a).1)]> (qs s)) (<[(c_q k, p) := c]> (owner s))
           (base.delete (c_q k, p) (verdicts s)) (ctrs s) (callers s))
      c (set_phase (set_cur k' p) Idling)).
Proof.
  intros Hi Hc Hp Hq Hu Hf Hl H p.
  destruct (enable_ok s c k h a new_id e k' p Hi Hc Hp Hq Hu Hf H) as (E1 & E2 & E3 & E4 & E5 & He').
  pose proof (queue_sq _ _ _ _ Hi Hq) as Hsq. destruct Hi as [Hr He Hqs Hs Hg].
  destruct (busy_queue (qs s) (c_q k) h a Hq) as [Hb0 Hb].
  split; cbn [set_ctr with_ctrs rt ev grp qs owner verdicts ctrs callers].
  - apply (res_frame _ _ Hr c k); try done. rewrite !live_phase; [done|by rewrite Hp|done].
  - by rewrite (queue_set_keys s _ h a).
  - apply Forall_insert; [done|]. by apply queue_inv.
  - rewrite length_insert. by apply (sl_offer _ _ _ _ _ _ Hs _ c k).
  - apply (grp_frame _ _ _ Hg c k); try done. unfold ctr_session. simpl. by rewrite Hp.
Qed.

Lemma eject_inv s c k h a p : inv s ->
  ctrs s !! c = Some k -> c_phase k = Idling -> c_cur k = Some p -> queue_at s (c_q k) h a ->
  (acquire_cas a p).2 = true ->
  inv (set_ctr (set_queue s (c_q k) h (acquire_cas a p).1) c (set_phase k Ejecting)).
Proof.
  intros Hi Hc Hp Hcu Hq Hcas. pose proof (queue_sq _ _ _ _ Hi Hq) as Hsq.
  destruct (busy_cas (qs s) (c_q k) h a Hq p Hcas) as [Hb0 Hb]. destruct Hi as [Hr He Hqs Hs Hg].
  split; cbn [set_ctr set_queue with_qs with_ctrs rt ev grp qs owner verdicts ctrs callers].
  - apply (res_frame _ _ Hr c k); try done. rewrite !live_phase; [done|by rewrite Hp|done].
  - rewrite (queue_set_keys s _ h a) by done. apply (evo_frame _ _ _ He c k); try done; simpl; [by rewrite Hp|naive_solver].
  - apply Forall_insert; [done|]. by apply cas_inv.
  - rewrite length_insert. by apply (sl_eject _ _ _ _ _ _ Hs _ c k p).
  - apply (grp_frame _ _ _ Hg c k); try done. unfold ctr_session. simpl. by rewrite Hp.
Qed.

Ltac by_phase Hp := rewrite ?Hp; (done || (unfold ctr_session; simpl; rewrite ?Hp; done)).

Lemma close_token_inv s c k e : inv s -> ctrs s !! c = Some k -> c_phase k = Unwinding -> unlocked (ev s) ->
  delete_token (ev s) k = Ok e -> inv (set_ctr (with_ev s e) c (set_phase (set_ev k None) Closing)).
Proof.
  intros Hi Hc Hp Hu H. apply (move_inv s c k); try done; try (by_phase Hp).
  pose proof (i_ev _ Hi) as He. destruct (c_ev k) as [h|] eqn:Eh.
  - destruct (evo_token s c k h Hi Hc Eh) as [tk Ht]; [by rewrite Hp|].
    destruct (delete_token_ok (ev s) k h tk (eo_inv _ _ _ He) Hu Eh Ht) as (e1 & H1 & Hi1 & Ht1 & _).
    rewrite H in H1. injection H1 as <-.
    eapply (evo_delete _ _ _ He); [exact Hi1|exact Hc|exact Eh|exact Ht|exact Ht1|done..|by left].
  - unfold delete_token in H. rewrite Eh in H. injection H as <-.
    apply (evo_frame _ _ _ He c k); try done. simpl. by rewrite Hp.
Qed.

Lemma late_inv s c k e : inv s -> ctrs s !! c = Some k -> c_phase k = Checking -> evicted (ev s) k = true ->
  unlocked (ev s) -> delete_token (ev s) k = Ok e -> inv (set_ctr (with_ev s e) c (set_phase k Refreshing)).
Proof.
  intros Hi Hc Hp Hev Hu H. apply (move_inv s c k); try done; try (by_phase Hp).
  { intros _. left. by rewrite Hp. }
  pose proof (i_ev _ Hi) as He. unfold evicted in Hev. destruct (c_ev k) as [h|] eqn:Eh; [|done].
  destruct (evo_token s c k h Hi Hc Eh) as [tk Ht]; [by rewrite Hp|].
  destruct (delete_token_ok (ev s) k h tk (eo_inv _ _ _ He) Hu Eh Ht) as (e1 & H1 & Hi1 & Ht1 & _).
  rewrite H in H1. injection H1 as <-.
  eapply (evo_delete _ _ _ He); [exact Hi1|exact Hc|exact Eh|exact Ht|exact Ht1|done..|by right].
Qed.

Lemma refresh_inv s c k h a new_id e p : inv s -> ctrs s !! c = Some k -> c_phase k = Refreshing ->
  queue_at s (c_q k) h a -> unlocked (ev s) -> new_id ∉ (tk_id ∘ key <$> heap (evt (ev s))) ->
  create_token (ev s) new_id h k = Ok (e, p) ->
  inv (set_ctr (with_ev s e) c (set_phase (set_ev k (Some p)) Serving)).
Proof.
  intros Hi Hc Hp Hq Hu Hf H. apply (move_inv s c k); try done; try (by_phase Hp).
  { intros _. left. by rewrite Hp. }
  pose proof (i_ev _ Hi) as He.
  destruct (create_token_ok (ev s) new_id h k (eo_inv _ _ _ He) Hu Hf) as (e1 & H1 & Hi1 & Ht1 & _).
  rewrite H in H1. injection H1 as <- ->.
  eapply (evo_assign _ _ _ He); [exact Hi1|exact Ht1|exact Hc|done|..|by right|by right]; try done.
  simpl. by rewrite list_lookup_fmap, Hq.
Qed.

Lemma ctr_inv c s s' : inv s -> ctr_step c s s' -> inv s'.
Proof.
  intros Hi Hst. destruct Hst as [s k Hc Hp|s k Hc Hp|s k h a new_id e k' Hc Hp Hq Hu Hf Hl H
    |s k h a p Hc Hp Hcu Hq Hcas|s k h a p t Hc Hp Hcu Hq Ht Htr|s k h a p Hc Hp Hcu Hq Hlt Hcas
    |s k Hc Hp|s k Hc Hp Hev|s k e Hc Hp Hev Hu H|s k h a new_id e p Hc Hp Hq Hu Hf H
    |s k p v Hc Hp Hcu Hv|s k e Hc Hp Hu H|s k t a t' g Hc Hp Ht Hcl H].
  - apply (phase_inv s c k); try done; by_phase Hp.
  - apply (phase_inv s c k); try done; destruct Hp as [Hp|Hp]; by_phase Hp.
  - by eapply offer_inv.
  - by eapply eject_inv.
  - apply (phase_inv s c k); try done; by_phase Hp.
  - apply (phase_inv s c k); try done; try (by_phase Hp); [|by right].
    intros _ p' Hp'. simplify_eq. by eapply busy_lost.
  - apply (move_inv s c k); try done; try (by_phase Hp); [intros _; left; by rewrite Hp|].
    pose proof (i_ev _ Hi) as He. destruct (disable_mark_ok (ev s) k (eo_inv _ _ _ He)) as [Hi' Ht'].
    apply (evo_frame _ _ _ (evo_view _ _ _ He _ Hi' Ht') c k); try done; simpl; [by rewrite Hp|naive_solver].
  - apply (phase_inv s c k); try done; try (by_phase Hp). intros _. left. by rewrite Hp.
  - by eapply late_inv.
  - by eapply refresh_inv.
  - destruct Hi as [Hr He Hqs Hs Hg].
    split; cbn [set_ctr with_verdicts with_ctrs rt ev grp qs owner verdicts ctrs callers]; try done.
    + apply (res_frame _ _ Hr c k); try done. rewrite !live_phase; try done; simpl; [by rewrite Hp|by destruct v].
    + apply (evo_frame _ _ _ He c k); try done; simpl; [rewrite Hp; by destruct v|destruct v; naive_solver].
    + by apply (sl_verdict _ _ _ _ _ _ Hs c k p v).
    + apply (grp_frame _ _ _ Hg c k); try done. unfold ctr_session. simpl. rewrite Hp. by destruct v.
  - by apply close_token_inv.
  - destruct Hi as [Hr He Hqs Hs Hg].
    destruct (done_ok _ _ _ Hg) as (g' & H' & E1 & E2 & E3).
    { eapply session_pos_ctr; [exact Hg|exact Hc|]. unfold ctr_session. by rewrite Hp. }
    assert (g' = g) as -> by congruence.
    split; cbn [set_ctr with_grp with_rt with_ctrs rt ev grp qs owner verdicts ctrs callers]; try done.
    + apply (res_close _ _ Hr c k t); try done. apply live_phase. by rewrite Hp.
    + apply (evo_frame _ _ _ He c k); try done; simpl; [by rewrite Hp|]. intros _.
      apply (eo_none _ _ _ He c k Hc). naive_solver.
    + apply (sl_move _ _ _ _ _ _ Hs c k); by_phase Hp.
    + pose proof (gi_max _ _ _ Hg). apply (grp_count _ _ _ Hg _ _ _ (-1)); try done; try lia.
      rewrite (held_ctr _ _ _ _ _ Hc). unfold ctr_session. simpl. rewrite Hp. lia.
Qed.

Lemma call_inv s s' : inv s -> call_step s s' -> inv s'.
Proof.
  intros Hi Hst. destruct Hst as [s q g H|s g H|s i q h a p Ha Hq Hcas|s i q h a p t Ha Hq Ht Htr
    |s i sl e Ha|s i q p g Ha H|s i q g Ha H]; pose proof Hi as [Hr He Hqs Hs Hg].
  - destruct (add_ok _ _ _ Hg _ H) as (Hcl & Hsn & Hmx & Hcl' & Hcc).
    split; cbn [with_callers with_grp rt ev grp qs owner verdicts ctrs callers]; try done.
    + by apply sl_new_call.
    + apply (grp_count _ _ _ Hg _ _ _ 1); try done; try congruence.
      unfold held_sessions. rewrite countZ_app. simpl. lia.
  - rewrite (add_refused _ _ H). by destruct s.
  - pose proof (queue_sq _ _ _ _ Hi Hq) as Hsq.
    destruct (busy_cas (qs s) q h a Hq p Hcas) as [Hb0 Hb].
    split; cbn [set_caller set_queue with_qs with_callers rt ev grp qs owner verdicts ctrs callers]; try done.
    + by rewrite (queue_set_keys s _ h a).
    + apply Forall_insert; [done|]. by apply cas_inv.
    + rewrite length_insert. by apply (sl_won _ _ _ _ _ _ Hs _ i q p q).
    + by apply (grp_call _ _ _ Hg i (Asking q)).
  - split; cbn [set_caller with_callers rt ev grp qs owner verdicts ctrs callers]; try done.
    + by apply (sl_caller _ _ _ _ _ _ Hs i (Won q p)).
    + by apply (grp_call _ _ _ Hg i (Won q p)).
  - split; cbn [send_verdict with_verdicts rt ev grp qs owner verdicts ctrs callers]; try done.
    unfold SetError. destruct (verdicts s !! sl) as [v|] eqn:Ev; [by rewrite insert_id|].
    destruct sl as [q p]. destruct Ha as [Ha|Ha]; by eapply (sl_error _ _ _ _ _ _ Hs i).
  - destruct (done_ok _ _ _ Hg) as (g' & H' & E1 & E2 & E3); [by eapply session_pos_call|].
    assert (g' = g) as -> by congruence.
    split; cbn [set_caller send_verdict with_verdicts with_callers with_grp rt ev grp qs owner verdicts ctrs callers]; try done.
    + apply (sl_end _ _ _ _ _ _ Hs i (Running q p)); try done; unfold SetError;
        destruct (verdicts s !! (q, p)) as [v|] eqn:Ev.
      * by rewrite lookup_insert_eq.
      * by rewrite lookup_insert_eq.
      * intros sl' Hne. by rewrite lookup_insert_ne.
      * intros sl' Hne. by rewrite lookup_insert_ne.
    + pose proof (gi_max _ _ _ Hg). apply (grp_count _ _ _ Hg _ _ _ (-1)); try done; try lia.
      rewrite (held_call _ _ _ _ _ Ha). simpl. lia.
  - destruct (done_ok _ _ _ Hg) as (g' & H' & E1 & E2 & E3); [by eapply session_pos_call|].
    assert (g' = g) as -> by congruence.
    split; cbn [set_caller with_callers with_grp rt ev grp qs owner verdicts ctrs callers]; try done.
    + by apply (sl_caller _ _ _ _ _ _ Hs i (Asking q)).
    + pose proof (gi_max _ _ _ Hg). apply (grp_count _ _ _ Hg _ _ _ (-1)); try done; try lia.
      rewrite (held_call _ _ _ _ _ Ha). simpl. lia.
Qed.

Lemma step_inv s s' : inv s -> step s s' -> inv s'.
Proof.
  intros Hi Hst. destruct Hst as [s s' H|s e H|c s s' H|s s' H|s q h a j p Hq Hj|s q h a a' j p Hq Hj H|s g H].
  - by eapply launch_inv.
  - destruct Hi as [Hr He Hqs Hs Hg]. split; try done. simpl.
    apply (evo_view _ _ _ He); [by eapply es_perform_inv; [apply (eo_inv _ _ _ He)|]|].
    by eapply tview_perform; [apply (eo_inv _ _ _ He)|].
  - by eapply ctr_inv.
  - by eapply call_inv.
  - apply (queue_inv_same s q h a); try done; [|by apply busy_remove].
    apply remove_inv; [by eapply queue_sq|done].
  - destruct (close_ok a j p (queue_sq _ _ _ _ Hi Hq) Hj) as (a2 & H2 & Hsq & _).
    assert (a2 = a') as -> by congruence.
    apply (queue_inv_same s q h a); try done. by eapply busy_close.
  - destruct Hi as [Hr He Hqs Hs Hg]. split; try done. simpl. unfold CloseGroup_enter in H.
    destruct (isClosed (grp s)); [by injection H as <-|]. destruct (closer_closed (grp s)); [done|].
    injection H as <-. by destruct Hg.
Qed.

Lemma init_inv ram cpu : is_u64 ram -> is_u64 cpu -> inv (init ram cpu).
Proof.
  intros Hr Hc. split; simpl.
  - split; try done. by apply rt_init_inv.
  - split; try done. split; [apply NewEvictor_inv|done].
  - constructor.
  - split; try done.
  - split; try done.
Qed.

Lemma reach_inv ram cpu s : is_u64 ram -> is_u64 cpu -> reach ram cpu s -> inv s.
Proof.
  intros Hr Hc H. unfold reach in H. remember (init ram cpu) as s0.
  assert (Hi : inv s0) by (subst; by apply init_inv). clear Heqs0.
  induction H as [|x y z Hxy Hyz IH]; [done|]. by eapply IH, step_inv.
Qed.

(** ** Sums over owners *)

(** A sum over distinct places of a list of non-negative numbers. *)
Lemma sum_places (ps : list (nat * Z)) (ys : list Z) :
  NoDup ps.*1 -> (forall i v, (i, v) ∈ ps -> exists y, ys !! i = Some y /\ v <= y) -> Forall (fun y => 0 <= y) ys ->
  sumZ ps.*2 <= sumZ ys.
Proof.
  revert ys. induction ps as [|[i v] ps IH]; intros ys Hn Hp Hy; [by apply sumZ_nonneg|].
  apply NoDup_cons in Hn as [Hi Hn]. destruct (Hp i v) as (y & Hyi & Hv); [by left|].
  specialize (IH (<[i := 0]> ys) Hn). rewrite (sumZ_insert _ _ _ _ Hyi) in IH. cbn [fmap list_fmap sumZ snd].
  enough (sumZ ps.*2 <= sumZ ys - y + 0) by lia. apply IH.
  - intros j w Hj. destruct (Hp j w) as (y' & Hyj & Hw); [by right|]. exists y'.
    rewrite list_lookup_insert_ne; [done|]. intros ->. apply Hi. apply list_elem_of_fmap. by exists (j, w).
  - by apply Forall_insert.
Qed.

(** ... that covers every place with something in it. *)
Lemma sum_places_eq (ps : list (nat * Z)) (ys : list Z) :
  NoDup ps.*1 -> (forall i v, (i, v) ∈ ps -> ys !! i = Some v) ->
  (forall i y, ys !! i = Some y -> y <> 0 -> i ∈ ps.*1) -> sumZ ps.*2 = sumZ ys.
Proof.
  revert ys. induction ps as [|[i v] ps IH]; intros ys Hn Hp Hc.
  - symmetry. simpl. assert (Hz : Forall (fun y => y = 0) ys).
    { apply Forall_lookup. intros i y Hy. destruct (decide (y = 0)) as [|Hne]; [done|].
      specialize (Hc i y Hy Hne). by apply not_elem_of_nil in Hc. }
    clear -Hz. induction Hz; simpl; lia.
  - apply NoDup_cons in Hn as [Hi Hn]. pose proof (Hp i v ltac:(by left)) as Hyi.
    specialize (IH (<[i := 0]> ys) Hn). rewrite (sumZ_insert _ _ _ _ Hyi) in IH. cbn [fmap list_fmap sumZ snd].
    enough (sumZ ps.*2 = sumZ ys - v + 0) by lia. apply IH.
    + intros j w Hj. rewrite list_lookup_insert_ne; [by apply Hp; right|]. intros ->. apply Hi.
      apply list_elem_of_fmap. by exists (j, w).
    + intros j y Hj Hne. rewrite (insert_lookup _ _ _ _ _ Hyi) in Hj. destruct (decide (j = i)); [congruence|].
      specialize (Hc j y Hj Hne). cbn [fmap list_fmap fst] in Hc. by apply elem_of_cons in Hc as [?|?].
Qed.

Lemma NoDup_filter_inj {A B} (f : A -> B) (P : A -> Prop) `{!forall x, Decision (P x)} (l : list A) :
  (forall i j x y, l !! i = Some x -> l !! j = Some y -> P x -> P y -> f x = f y -> i = j) ->
  NoDup (f <$> filter P l).
Proof.
  induction l as [|x l IH]; intros Hinj; [constructor|]. rewrite filter_cons.
  assert (IH' : NoDup (f <$> filter P l)).
  { apply IH. intros i j y z Hy Hz. intros. enough (S i = S j) by lia. by eapply Hinj. }
  destruct (decide (P x)) as [Hx|]; [|done]. rewrite fmap_cons. constructor; [|done].
  intros (y & E & [Hy [j Hj]%list_elem_of_lookup]%list_elem_of_filter)%list_elem_of_fmap.
  by specialize (Hinj 0%nat (S j) x y eq_refl Hj Hx Hy E).
Qed.

Definition is_live (k : ctr) : Prop := live k = true.
#[export] Instance is_live_dec k : Decision (is_live k).
Proof. unfold is_live. apply _. Defined.

(** What the containers that are not gone hold, in bytes and in milli CPUs. *)
Definition live_mem (cs : list ctr) : Z := sumZ ((fun k => c_mem k * Mem1MB) <$> filter is_live cs).
Definition live_cpu (cs : list ctr) : Z := sumZ (c_cpu <$> filter is_live cs).

Lemma live_sum (r : rtsys) cs (f : ctr -> Z) (pr : Z * Z -> Z) : res_inv r cs ->
  (forall k, pr (c_mem k * Mem1MB, c_cpu k) = f k) ->
  sumZ (f <$> filter is_live cs) = sumZ (Resource.held pr <$> toks r).
Proof.
  intros Hi Hf. set (ps := (fun k => (c_tok k, f k)) <$> filter is_live cs).
  assert (E : f <$> filter is_live cs = ps.*2) by (unfold ps; rewrite <- list_fmap_compose; done).
  rewrite E. apply sum_places_eq.
  - unfold ps. rewrite <- list_fmap_compose. apply (NoDup_filter_inj c_tok).
    intros i j x y Hx Hy Lx Ly Et. by eapply (ri_inj _ _ Hi).
  - intros i v (k & [= -> ->] & [Hl [c Hc]%list_elem_of_lookup]%list_elem_of_filter)%list_elem_of_fmap.
    destruct (ri_own _ _ Hi c k Hc Hl) as (t & Ht & Ho & Hd & _).
    rewrite list_lookup_fmap, Ht. simpl. unfold Resource.held. by rewrite Ho, Hd, Hf.
  - intros i y Hy Hne. rewrite list_lookup_fmap in Hy. destruct (toks r !! i) as [t|] eqn:Et; [|done].
    simpl in Hy. injection Hy as <-. unfold Resource.held in Hne.
    destruct (once t) eqn:Eo; [done|]. destruct (decrement t) as [d|] eqn:Ed; [|done].
    destruct (ri_tok _ _ Hi i t d Et Eo Ed) as (c & k & Hc & Hl & <-).
    unfold ps. rewrite <- list_fmap_compose. apply list_elem_of_fmap. exists k. split; [done|].
    apply list_elem_of_filter. split; [done|]. by eapply list_elem_of_lookup_2.
Qed.

(** Every slot of the evictor belongs to a container of its own. *)
Lemma slot_owner e keys cs k : ev_own e keys cs -> k ∈ slots (evt e) ->
  exists c kc h, cs !! c = Some kc /\ c_ev kc = Some h /\ tview (evt e) !! h = Some (k, false).
Proof.
  intros Hi Hk. destruct (slots_tokens (es_ev _ (eo_inv _ _ _ Hi)) k Hk) as (h & t & _ & Ht & Hkey & [_ Hd] & He).
  assert (Htv : tview (evt e) !! h = Some (k, false)).
  { unfold tview. rewrite list_lookup_fmap, Ht. simpl. by rewrite Hkey, Hd. }
  destruct (eo_tok _ _ _ Hi h k Htv He) as (c & kc & Hc & Hh). by exists c, kc, h.
Qed.

Lemma chosen {A B} (R : A -> B -> Prop) (l : list A) : (forall x, x ∈ l -> exists y, R x y) -> exists l', Forall2 R l l'.
Proof.
  induction l as [|x l IH]; intros H; [by exists []|].
  destruct (H x) as [y Hy]; [by left|]. destruct IH as [l' Hl']; [|by exists (y :: l'); constructor].
  intros z Hz. apply H. by right.
Qed.

Lemma slots_le (r : rtsys) e keys cs (f : tokenKey -> Z) (g : ctr -> Z) : res_inv r cs -> ev_own e keys cs ->
  (forall k, is_live k -> askable (c_mem k) (c_cpu k) -> 0 <= g k) ->
  (forall tk k, tk_memory tk = c_mem k -> tk_cpu tk = c_cpu k -> askable (c_mem k) (c_cpu k) -> f tk <= g k) ->
  sumZ (f <$> slots (evt e)) <= sumZ (g <$> filter is_live cs).
Proof.
  intros Hr He Hg Hfg.
  set (R := fun k (c : nat) => exists kc h, cs !! c = Some kc /\ c_ev kc = Some h /\ tview (evt e) !! h = Some (k, false)).
  destruct (chosen R (slots (evt e))) as [ns Hns].
  { intros k Hk. destruct (slot_owner _ _ _ k He Hk) as (c & kc & h & ?). exists c, kc, h. done. }
  set (ys := (fun k => if live k then g k else 0) <$> cs).
  assert (Ey : sumZ (g <$> filter is_live cs) = sumZ ys).
  { unfold ys. clear. induction cs as [|k cs IH]; [done|]. rewrite filter_cons, fmap_cons. cbn [sumZ].
    destruct (decide (is_live k)) as [L|L]; unfold is_live in L.
    - rewrite fmap_cons. cbn [sumZ]. rewrite L. lia.
    - destruct (live k); [done|]. lia. }
  rewrite Ey.
  assert (Hlive : forall c kc h, cs !! c = Some kc -> c_ev kc = Some h -> live kc = true /\ askable (c_mem kc) (c_cpu kc)).
  { intros c kc h Hc Hh. assert (live kc = true) as L.
    { apply live_phase. intros E. pose proof (eo_none _ _ _ He c kc Hc). rewrite Hh, E in *. naive_solver. }
    split; [done|]. by destruct (ri_own _ _ Hr c kc Hc L) as (t & _ & _ & _ & ?). }
  set (ps := zip ns (f <$> slots (evt e))).
  assert (Hlen : length ns = length (f <$> slots (evt e))) by (rewrite length_fmap; symmetry; by eapply Forall2_length).
  assert (E2 : ps.*2 = f <$> slots (evt e)) by (apply snd_zip; lia).
  assert (E1 : ps.*1 = ns) by (apply fst_zip; lia).
  rewrite <- E2. apply sum_places.
  - rewrite E1. apply NoDup_alt. intros i j c Hi Hj.
    destruct (Forall2_lookup_r _ _ _ _ _ Hns Hi) as (k & Hk & kc & h & Hc & Hh & Ht).
    destruct (Forall2_lookup_r _ _ _ _ _ Hns Hj) as (k' & Hk' & kc' & h' & Hc' & Hh' & Ht'). simplify_eq.
    eapply NoDup_lookup; [exact (NoDup_fmap_1 _ _ (slots_unique (es_ev _ (eo_inv _ _ _ He))))|exact Hk|exact Hk'].
  - intros c v [i Hi]%list_elem_of_lookup.
    assert (ns !! i = Some c /\ (f <$> slots (evt e)) !! i = Some v) as [Hn Hv].
    { rewrite <- E1, <- E2, !list_lookup_fmap, Hi. done. }
    destruct (Forall2_lookup_r _ _ _ _ _ Hns Hn) as (k & Hk & kc & h & Hc & Hh & Ht).
    rewrite list_lookup_fmap, Hk in Hv. injection Hv as <-.
    destruct (Hlive c kc h Hc Hh) as [L Ha]. exists (g kc). unfold ys. rewrite list_lookup_fmap, Hc. simpl. rewrite L.
    split; [done|]. destruct (eo_own _ _ _ He c kc h Hc Hh) as (tk & d & Ht' & _ & E3 & E4 & _). simplify_eq.
    by apply Hfg.
  - apply Forall_lookup. intros i y Hy. unfold ys in Hy. rewrite list_lookup_fmap in Hy.
    destruct (cs !! i) as [k|] eqn:Hk; [|done]. injection Hy as <-. destruct (live k) eqn:L; [|done].
    apply Hg; [done|]. by destruct (ri_own _ _ Hr i k Hk L) as (t & _ & _ & _ & ?).
Qed.

(** What is in use is what the containers hold. *)
Lemma in_use s : inv s -> ramUsed (trk (rt s)) = live_mem (ctrs s) /\ cpuUsed (trk (rt s)) = live_cpu (ctrs s).
Proof.
  intros Hi. pose proof (i_res _ Hi) as Hres. pose proof (ri_rt _ _ Hres) as Hrt. split.
  - rewrite (inv_ram _ Hrt). symmetry. by apply (live_sum _ _ (fun k => c_mem k * Mem1MB) fst Hres).
  - rewrite (inv_cpu _ Hrt). symmetry. by apply (live_sum _ _ c_cpu snd Hres).
Qed.

(** Each call of the evictor succeeds where the containers make it. *)
Lemma eviction_ok s c k h a new_id : inv s -> ctrs s !! c = Some k -> queue_at s (c_q k) h a -> unlocked (ev s) ->
  new_id ∉ (tk_id ∘ key <$> heap (evt (ev s))) ->
  (c_phase k = Ready -> exists r, EnableEviction (ev s) new_id h k = Ok r) /\
  (c_phase k = Checking -> evicted (ev s) k = true -> exists e, delete_token (ev s) k = Ok e) /\
  (c_phase k = Refreshing -> exists r, create_token (ev s) new_id h k = Ok r) /\
  (c_phase k = Unwinding -> exists e, delete_token (ev s) k = Ok e).
Proof.
  intros Hi Hk Hq Hu Hf. pose proof (eo_inv _ _ _ (i_ev _ Hi)) as He.
  destruct (create_token_ok (ev s) new_id h k He Hu Hf) as (e1 & H1 & _).
  assert (Hdel : c_phase k <> Refreshing -> exists e, delete_token (ev s) k = Ok e).
  { intros Hp. destruct (c_ev k) as [p|] eqn:Ep; [|unfold delete_token; rewrite Ep; by eexists].
    destruct (evo_token s c k p Hi Hk Ep Hp) as [tk Ht].
    destruct (delete_token_ok (ev s) k p tk He Hu Ep Ht) as (e & H & _). by exists e. }
  split; [|split; [|split]].
  - intros _. unfold EnableEviction. destruct (c_ev k); [by eexists|]. rewrite H1. by eexists.
  - intros Hp _. apply Hdel. by rewrite Hp.
  - by eexists.
  - intros Hp. apply Hdel. by rewrite Hp.
Qed.

(** A closed group stays closed, and its count only goes down. *)
Lemma closed_step s s' : inv s -> step s s' -> isClosed (grp s) = true ->
  isClosed (grp s') = true /\ sessions (grp s') <= sessions (grp s).
Proof.
  intros Hi Hst Hcl. pose proof (i_grp _ Hi) as Hg.
  assert (Hadd : forall g b, AddSession (grp s) 1 = (g, b) -> isClosed g = true /\ sessions g <= sessions (grp s)).
  { intros g b. unfold AddSession. rewrite Hcl. intros [= <- _]. split; [done|lia]. }
  assert (Hdone : forall g, DoneSession (grp s) = Ok g -> isClosed g = true /\ sessions g <= sessions (grp s)).
  { intros g H. destruct (decide (0 < sessions (grp s))) as [Hp|Hp].
    - destruct (done_ok _ _ _ Hg Hp) as (g' & H' & ? & ? & _). assert (g' = g) as <- by congruence.
      split; [congruence|lia].
    - pose proof (grp_nonneg _ _ _ Hg). unfold DoneSession in H.
      by replace (sessions (grp s)) with 0 in H by lia. }
  assert (Hclose : forall g, CloseGroup_enter (grp s) = Ok g -> isClosed g = true /\ sessions g <= sessions (grp s)).
  { intros g. unfold CloseGroup_enter. rewrite Hcl. intros [= <-]. split; [done|lia]. }
  destruct Hst as [s s' H|s e H|c s s' H|s s' H|s q h a j p Hq Hj|s q h a a' j p Hq Hj H|s g H];
    [destruct H| |destruct H|destruct H|..]; try (split; [done|apply Z.le_refl]); by eauto.
Qed.

Lemma closed_steps s s' : inv s -> rtc step s s' -> isClosed (grp s) = true ->
  isClosed (grp s') = true /\ sessions (grp s') <= sessions (grp s).
Proof.
  intros Hi H. induction H as [|x y z Hxy Hyz IH]; intros Hcl; [split; [done|lia]|].
  destruct (closed_step _ _ Hi Hxy Hcl) as [Hcl' Hle]. destruct (IH (step_inv _ _ Hi Hxy) Hcl') as [? ?].
  split; [done|lia].
Qed.

(** ** Concrete runs *)

(** One step of a run, its state computed. *)
Lemma run_step (P : sys -> Prop) s s1 : step s s1 ->
  (exists s', rtc step s1 s' /\ P s') -> exists s', rtc step s s' /\ P s'.
Proof. intros H (s' & H' & HP). exists s'. split; [by eapply rtc_l|done]. Qed.

Ltac compute_state :=
  match goal with |- exists s', rtc step ?s s' /\ _ => let v := eval vm_compute in s in change s with v end.
Ltac side := try reflexivity; try (vm_compute; reflexivity); try (vm_compute; intuition congruence);
  try (refine (bool_decide_unpack _ _); vm_compute; exact I).
Ltac go rule := eapply run_step; [rule; side|compute_state].

(** The window of [DisableEviction]: the container was picked before it cleared
    its mark, and is notified after it looked; its call runs with a token that
    was evicted, which is not refreshed. *)
Lemma late_eviction : exists s, rtc step (init 209715200 4000) s /\
  exists k, ctrs s = [k] /\ c_phase k = Serving /\ evicted (ev s) k = true /\ callers s = [Running 0 0] /\ slots (evt (ev s)) = [].
Proof.
  go ltac:(apply s_launch, (l_queue _ "f")).
  go ltac:(apply s_launch, (l_queue _ "g")).
  go ltac:(apply s_launch; eapply (l_granted _ _ _ 0 _ _ 128 1000)).
  go ltac:(apply s_launch; eapply (l_session _ 0)).
  go ltac:(eapply (s_ctr 0), c_started).
  go ltac:(eapply (s_ctr 0), (c_offer 0 _ _ _ _ "e1")).
  go ltac:(eapply s_call, (k_enter _ 0)).
  go ltac:(eapply s_call, (k_won _ 0 0 _ _ 0)).
  go ltac:(apply s_launch; eapply (l_refused _ _ _ 1 _ _ 128 1000)).
  go ltac:(eapply s_evict, pf_commit).
  go ltac:(eapply (s_ctr 0), c_taken).
  go ltac:(eapply (s_ctr 0), c_disable).
  go ltac:(eapply (s_ctr 0), c_keep).
  go ltac:(eapply s_evict, (pf_notify _ 0 [])).
  go ltac:(eapply (s_remove _ 0 _ _ 0 0)).
  go ltac:(eapply (s_trigger _ 0 _ _ _ 0 0)).
  go ltac:(eapply s_call, (k_run _ 0)).
  eexists. split; [apply rtc_refl|]. eexists. split_and!; reflexivity.
Qed.

(** A container that is shut down while it waits for a call. *)
Lemma shutdown_run : exists s, rtc step (init 209715200 4000) s /\
  isClosed (grp s) = true /\ sessions (grp s) = 0 /\ length (ctrs s) = 1%nat.
Proof.
  go ltac:(apply s_launch, (l_queue _ "f")).
  go ltac:(apply s_launch; eapply (l_granted _ _ _ 0 _ _ 128 1000)).
  go ltac:(apply s_launch; eapply (l_session _ 0)).
  go ltac:(eapply (s_ctr 0), c_started).
  go ltac:(eapply (s_ctr 0), (c_offer 0 _ _ _ _ "e1")).
  go ltac:(eapply s_shutdown).
  go ltac:(eapply (s_ctr 0), c_eject).
  go ltac:(eapply (s_remove _ 0 _ _ 0 0)).
  go ltac:(eapply (s_trigger _ 0 _ _ _ 0 0)).
  go ltac:(eapply (s_ctr 0), c_ejected).
  go ltac:(eapply (s_ctr 0), c_close).
  go ltac:(eapply (s_ctr 0), c_release).
  eexists. split; [apply rtc_refl|]. split_and!; reflexivity.
Qed.

Lemma demo_u64 : is_u64 209715200 /\ is_u64 4000.
Proof. unfold is_u64, w64. lia. Qed.

(** ** Theorems *)

(** C2: a container never serves two calls: in every reachable state of the agent,
    the slots two callers have won belong to different containers; a caller's
    slot is the latest one of its container, which was not offered again since;
    a slot that is still free is in its queue, and its container is waiting in
    it; and a container that waits for a verdict has it, or its caller is still
    there to send one. *)
Theorem one_call_per_container ram cpu s :
  is_u64 ram -> is_u64 cpu -> reach ram cpu s ->
  (forall i j a b sl sl' c, callers s !! i = Some a -> callers s !! j = Some b -> on_slot a = Some sl ->
     on_slot b = Some sl' -> owner s !! sl = Some c -> owner s !! sl' = Some c -> i = j) /\
  (forall i a sl, callers s !! i = Some a -> on_slot a = Some sl ->
     exists c k, owner s !! sl = Some c /\ ctrs s !! c = Some k /\ c_q k = sl.1 /\ c_cur k = Some sl.2 /\
       winnable (c_phase k) = true) /\
  (forall q h a p, queue_at s q h a -> is_free a p -> p ∈ q_slots a /\
     exists c k, owner s !! (q, p) = Some c /\ ctrs s !! c = Some k /\ c_cur k = Some p /\ c_phase k = Idling) /\
  (forall c k p, ctrs s !! c = Some k -> c_cur k = Some p -> taken (c_phase k) = true ->
     is_Some (verdicts s !! (c_q k, p)) \/ exists i a, callers s !! i = Some a /\ on_slot a = Some (c_q k, p)).
Proof.
  intros Hr Hc Hreach. pose proof (reach_inv _ _ _ Hr Hc Hreach) as Hi. pose proof (i_slot _ Hi) as Hs.
  split_and!.
  - intros i j a b sl sl' c Ha Hb Hsa Hsb Ho Ho'.
    destruct (si_on _ _ _ _ _ _ Hs i a sl Ha Hsa) as (c1 & k1 & O1 & C1 & P1 & _).
    destruct (si_on _ _ _ _ _ _ Hs j b sl' Hb Hsb) as (c2 & k2 & O2 & C2 & P2 & _).
    destruct (si_owner _ _ _ _ _ _ Hs sl c Ho) as [_ (k3 & C3 & Q3)].
    destruct (si_owner _ _ _ _ _ _ Hs sl' c Ho') as [_ (k4 & C4 & Q4)]. simplify_eq.
    assert (sl = sl') as -> by (destruct sl, sl'; simpl in *; congruence). by eapply (si_excl _ _ _ _ _ _ Hs).
  - intros i a sl Ha Hsa. destruct (si_on _ _ _ _ _ _ Hs i a sl Ha Hsa) as (c & k & O & C & P & W).
    destruct (si_owner _ _ _ _ _ _ Hs sl c O) as [_ (k3 & C3 & Q3)]. simplify_eq. by exists c, k.
  - intros q h a p Hq (t & Ht & Hb). split.
    + apply (sq_slots a (queue_sq _ _ _ _ Hi Hq)). exists t. split; [done|]. by left.
    + apply (si_free _ _ _ _ _ _ Hs (q, p)). rewrite (busy_at _ _ _ _ Hq), Ht. simpl. by rewrite Hb.
  - intros c k p Hk Hp Ht. apply (si_busy _ _ _ _ _ _ Hs c k p); auto.
Qed.

Lemma one_call_per_container_witness :
  exists s k, reach 209715200 4000 s /\ callers s = [Running 0 0] /\ ctrs s = [k] /\ c_phase k = Serving /\
    exists c k', owner s !! (0, 0)%nat = Some c /\ ctrs s !! c = Some k' /\ c_q k' = 0%nat /\ c_cur k' = Some 0%nat /\
      winnable (c_phase k') = true.
Proof.
  destruct late_eviction as (s & H & k & Hk & Hp & _ & Ha & _). exists s, k. split_and!; try done.
  apply (proj1 (proj2 (one_call_per_container _ _ s (proj1 demo_u64) (proj2 demo_u64) H)) 0%nat (Running 0 0) (0, 0)%nat);
    [by rewrite Ha|done].
Defined.

(** C1: the machine is never overcommitted: in every reachable state of the agent
    the memory and CPU in use are exactly what its containers asked for, from
    the grant to the close of their token, within the totals; every container
    the evictor can pick is one of them, so that the sums of
    [PerformEviction] cannot overflow, whenever it is called. *)
Theorem agent_accounting ram cpu s :
  is_u64 ram -> is_u64 cpu -> reach ram cpu s ->
  ramUsed (trk (rt s)) = live_mem (ctrs s) /\ cpuUsed (trk (rt s)) = live_cpu (ctrs s) /\
  live_mem (ctrs s) <= ramTotal (trk (rt s)) /\ live_cpu (ctrs s) <= cpuTotal (trk (rt s)) /\
  words (slots (evt (ev s))) /\
  (forall tk, tk ∈ slots (evt (ev s)) -> exists c k, ctrs s !! c = Some k /\ live k = true /\
     tk_memory tk = c_mem k /\ tk_cpu tk = c_cpu k /\ fst <$> qs s !! c_q k = Some (tk_slotId tk)).
Proof.
  intros Hr Hc Hreach. pose proof (reach_inv _ _ _ Hr Hc Hreach) as Hi.
  pose proof (i_res _ Hi) as Hres. pose proof (i_ev _ Hi) as He. pose proof (ri_rt _ _ Hres) as Hrt.
  destruct (in_use s Hi) as [Em Ec].
  pose proof (inv_ram_le _ Hrt) as Lm. pose proof (inv_cpu_le _ Hrt) as Lc. destruct (inv_totals _ Hrt) as [Tm Tc].
  assert (Hown : forall tk, tk ∈ slots (evt (ev s)) -> exists c k, ctrs s !! c = Some k /\ live k = true /\
     tk_memory tk = c_mem k /\ tk_cpu tk = c_cpu k /\ fst <$> qs s !! c_q k = Some (tk_slotId tk) /\
     askable (c_mem k) (c_cpu k)).
  { intros tk Htk. destruct (slot_owner _ _ _ tk He Htk) as (c & k & h & Hk & Hh & Ht).
    destruct (eo_own _ _ _ He c k h Hk Hh) as (tk' & d & Ht' & Hq & E1 & E2 & _). simplify_eq.
    assert (L : live k = true).
    { apply live_phase. intros E. pose proof (eo_none _ _ _ He c k Hk). rewrite Hh, E in *. naive_solver. }
    destruct (ri_own _ _ Hres c k Hk L) as (t & _ & _ & _ & ?).
    exists c, k. rewrite list_lookup_fmap in Hq. split_and!; try done; by destruct (qs s !! c_q k). }
  split; [done|]. split; [done|]. split; [lia|]. split; [lia|]. split.
  - assert (Hpos : forall k, askable (c_mem k) (c_cpu k) -> 0 <= c_mem k <= c_mem k * Mem1MB).
    { intros k [? _]. unfold Mem1MB in *. lia. }
    split; [|split].
    + apply Forall_forall. intros tk Htk. destruct (Hown tk Htk) as (c & k & _ & _ & -> & -> & _ & Ha).
      specialize (Hpos k Ha). destruct Ha as [_ ?]. word_lia.
    + eapply Z.le_lt_trans; [apply (slots_le _ _ _ _ tk_memory (fun k => c_mem k * Mem1MB) Hres He)|].
      * intros k _ Ha. specialize (Hpos k Ha). lia.
      * intros tk k -> _ Ha. specialize (Hpos k Ha). lia.
      * fold (live_mem (ctrs s)). word_lia.
    + eapply Z.le_lt_trans; [apply (slots_le _ _ _ _ tk_cpu c_cpu Hres He)|].
      * intros k _ [_ Ha]. word_lia.
      * intros tk k _ -> _. lia.
      * fold (live_cpu (ctrs s)). word_lia.
  - intros tk Htk. destruct (Hown tk Htk) as (c & k & ? & ? & ? & ? & ? & _). by exists c, k.
Qed.

Lemma agent_accounting_witness :
  exists s k, reach 209715200 4000 s /\ ctrs s = [k] /\ c_phase k = Serving /\ ramUsed (trk (rt s)) = live_mem [k].
Proof.
  destruct late_eviction as (s & H & k & Hk & Hp & _). exists s, k. split_and!; try done.
  rewrite <- Hk. apply (agent_accounting _ _ s (proj1 demo_u64) (proj2 demo_u64) H).
Defined.

(** C5: no goroutine of the agent panics: in every reachable state, whatever a
    goroutine is about to do succeeds.  Eviction tokens can be made, offered and
    deleted; a resource token is there to be closed; the session count does not
    go below zero and the group is closed once; a trigger is closed once; and
    [PerformEviction] always finds the tokens it looks up and closes each
    channel once, so that the evictor's lock is released. *)
Theorem agent_never_panics ram cpu s :
  is_u64 ram -> is_u64 cpu -> reach ram cpu s ->
  (forall c k, ctrs s !! c = Some k -> c_phase k = Granted \/ c_phase k = Aborting \/ c_phase k = Closing ->
     is_Some (toks (rt s) !! c_tok k)) /\
  (forall c k, ctrs s !! c = Some k -> c_phase k = Closing -> exists g, DoneSession (grp s) = Ok g) /\
  (forall i a, callers s !! i = Some a -> call_session a = true -> exists g, DoneSession (grp s) = Ok g) /\
  (exists g, CloseGroup_enter (grp s) = Ok g) /\
  (forall c k h a new_id, ctrs s !! c = Some k -> queue_at s (c_q k) h a -> unlocked (ev s) ->
     new_id ∉ (tk_id ∘ key <$> heap (evt (ev s))) ->
     (c_phase k = Ready -> exists r, EnableEviction (ev s) new_id h k = Ok r) /\
     (c_phase k = Checking -> evicted (ev s) k = true -> exists e, delete_token (ev s) k = Ok e) /\
     (c_phase k = Refreshing -> exists r, create_token (ev s) new_id h k = Ok r) /\
     (c_phase k = Unwinding -> exists e, delete_token (ev s) k = Ok e)) /\
  (forall q h a j p, queue_at s q h a -> acquiring a !! j = Some (p, Removed) -> exists a', acquire_close a j p = Ok a') /\
  (is_Some (scanning (ev s)) \/ picked (ev s) <> [] -> exists e, perform_step (ev s) e).
Proof.
  intros Hr Hc Hreach. pose proof (reach_inv _ _ _ Hr Hc Hreach) as Hi.
  pose proof (i_ev _ Hi) as He. pose proof (i_grp _ Hi) as Hg.
  split; [|split; [|split; [|split; [|split; [|split]]]]].
  - intros c k Hk Hp. destruct (ri_own _ _ (i_res _ Hi) c k Hk) as (t & -> & _); [|done].
    apply live_phase. destruct Hp as [->|[->| ->]]; done.
  - intros c k Hk Hp. destruct (done_ok _ _ _ Hg) as (g & ? & _); [|by exists g].
    eapply session_pos_ctr; [done..|]. unfold ctr_session. by rewrite Hp.
  - intros i a Ha Hs. destruct (done_ok _ _ _ Hg) as (g & ? & _); [|by exists g].
    by eapply session_pos_call.
  - unfold CloseGroup_enter. destruct (isClosed (grp s)) eqn:E; [by eexists|].
    rewrite (gi_closer _ _ _ Hg), E. by eexists.
  - intros c k h a new_id Hk Hq Hu Hf. by apply (eviction_ok s c k h a).
  - intros q h a j p Hq Hj. destruct (close_ok a j p (queue_sq _ _ _ _ Hi Hq) Hj) as (a' & ? & _). by exists a'.
  - apply es_progress, He.
Qed.

Lemma agent_never_panics_witness :
  exists s k, reach 209715200 4000 s /\ ctrs s = [k] /\ c_phase k = Serving /\
    exists g, DoneSession (grp s) = Ok g.
Proof.
  destruct late_eviction as (s & H & k & Hk & Hp & _ & Ha & _). exists s, k. split_and!; try done.
  apply (proj1 (proj2 (proj2 (agent_never_panics _ _ s (proj1 demo_u64) (proj2 demo_u64) H))) 0%nat (Running 0 0));
    [by rewrite Ha|done].
Defined.


