(* ===== verification/ImageName.v ===== *)
(** * Image references and registries (src/api/agent/drivers/driver.go, docker/registry.go)

    How the name of a function's image is taken apart into registry, repository
    and tag or digest, and which of the configured credentials a registry gets. *)
From S2P Require Import Prelude GoStrings.
From Stdlib Require Import Ascii.
Import Prelude.

(** ** Cutting strings at a character *)

Definition schar (c : ascii) : string := String.String c "".

(** Around the last occurrence ([strings.LastIndex]) and around the first
    ([strings.SplitN(s, sep, 2)]). *)
Fixpoint cut_last (c : ascii) (l : list ascii) : option (list ascii * list ascii) :=
  match l with
  | [] => None
  | x :: l => match cut_last c l with
              | Some (a, b) => Some (x :: a, b)
              | None => if Ascii.eqb x c then Some ([], l) else None
              end
  end.
Fixpoint cut_first (c : ascii) (l : list ascii) : option (list ascii * list ascii) :=
  match l with
  | [] => None
  | x :: l => if Ascii.eqb x c then Some ([], l)
              else match cut_first c l with Some (a, b) => Some (x :: a, b) | None => None end
  end.

(** [strings.Split] with a separator of one byte. *)
Fixpoint split_chars (c : ascii) (cur l : list ascii) : list (list ascii) :=
  match l with
  | [] => [rev cur]
  | x :: l => if Ascii.eqb x c then rev cur :: split_chars c [] l else split_chars c (x :: cur) l
  end.
Definition Split (s : string) (c : ascii) : list string := unchars <$> split_chars c [] (chars s).

(** [strings.Join] *)
Fixpoint Join (l : list string) (sep : string) : string :=
  match l with
  | [] => ""
  | [s] => s
  | s :: l => s ++ sep ++ Join l sep
  end.

Definition has_char (c : ascii) (s : string) : bool := existsb (Ascii.eqb c) (chars s).

(** ** Image references *)

Definition parseRepositoryTag (repoTag : string) : string * string :=
  let parts := Split repoTag "@" in
  let digest := match parts with [_; d] => d | _ => ""%string end in
  let repoTag := match parts with r :: _ => r | [] => ""%string end in
  match cut_last ":" (chars repoTag) with
  | None => (repoTag, digest)
  | Some (r, t) =>
      if negb (bool_decide (digest = ""%string)) then (unchars r, digest)
      else if negb (has_char "/" (unchars t)) then (unchars r, unchars t)
      else (repoTag, digest)
  end.

(** The first part of a repository names a host. *)
Definition is_host (s : string) : bool := has_char "." s || has_char ":" s || bool_decide (s = "localhost"%string).

Definition ParseImage (image : string) : string * string * string :=
  let (repo, tag) := parseRepositoryTag image in
  let '(registry, repo) :=
    match cut_first "/" (chars repo) with
    | None => (""%string, ("library/" ++ repo)%string)
    | Some (h, r) => if is_host (unchars h) then (unchars h, unchars r) else (""%string, repo)
    end in
  (registry, repo, if bool_decide (tag = ""%string) then "latest"%string else tag).

(** ** Registries *)

(** Credentials ([docker.AuthConfiguration], a parameter) with the hosts they are
    for; [url_host] is the host of a server address and whether it has a scheme. *)
Definition subdomains : Type := list string.

Fixpoint tails (l : list string) : list (list string) := match l with [] => [] | x :: r => l :: tails r end.
Definition getSubdomains (hostname : string) : subdomains :=
  let tokens := Split hostname "." in
  if Nat.leb (length tokens) 2 then [hostname]
  else (fun l => Join l ".") <$> take (length tokens - 1) (tails tokens).

Section Registry.
  Context {MR : MapRange} {Auth : Type}.
  Context (ServerAddress : Auth -> string) (url_Parse : string -> outcome string (string * string)).

Record driverAuthConfig := AuthConfig { auth : Auth; subs : subdomains }.

(** [url_Parse] gives scheme and host. *)
Definition preprocessAuths (configs : gmap string Auth) : outcome string (gmap string driverAuthConfig) :=
  foldl (fun acc kv =>
    let! m := acc in
    let! u := url_Parse (ServerAddress kv.2) in
    let host := if bool_decide (u.1 = ""%string) then ServerAddress kv.2 else u.2 in
    Ok (<[kv.1 := AuthConfig kv.2 (getSubdomains host)]> m)) (Ok ∅) (range configs).

Definition lookupRegistryConfig (reg : string) (configs : gmap string driverAuthConfig) : option Auth :=
  (fun kv => auth kv.2) <$> find_first (fun kv => bool_decide (reg ∈ subs kv.2)) (range configs).

Definition defaultPrivateRegistries : list string := ["hub.docker.com"; "index.docker.io"]%string.

Definition findRegistryConfig (none : Auth) (reg : string) (configs : gmap string driverAuthConfig) : Auth :=
  if bool_decide (reg = ""%string) then
    match lookupRegistryConfig "hub.docker.com" configs with
    | Some res => res
    | None => default none (lookupRegistryConfig "index.docker.io" configs)
    end
  else default none (lookupRegistryConfig reg configs).
End Registry.

(** ** Cutting what was joined *)

Lemma cut_last_app c a b : c ∉ b -> cut_last c (a ++ c :: b) = Some (a, b).
Proof.
  intros Hb.
  assert (cut_last c b = None) as Hn.
  { induction b as [|x b IH]; [done|]. apply not_elem_of_cons in Hb as [Hx Hb]. cbn. rewrite (IH Hb).
    destruct (Ascii.eqb_spec x c); [congruence|done]. }
  induction a as [|x a IH]; cbn; [by rewrite Hn, Ascii.eqb_refl|by rewrite IH].
Qed.
Lemma cut_last_None c l : c ∉ l -> cut_last c l = None.
Proof.
  induction l as [|x l IH]; [done|]. intros [Hx Hl]%not_elem_of_cons. cbn. rewrite (IH Hl).
  destruct (Ascii.eqb_spec x c); [congruence|done].
Qed.
Lemma cut_first_app c a b : c ∉ a -> cut_first c (a ++ c :: b) = Some (a, b).
Proof.
  induction a as [|x a IH]; intros Ha; cbn; [by rewrite Ascii.eqb_refl|]. apply not_elem_of_cons in Ha as [Hx Ha].
  rewrite (IH Ha). destruct (Ascii.eqb_spec x c); [congruence|done].
Qed.
Lemma cut_first_None c l : c ∉ l -> cut_first c l = None.
Proof.
  induction l as [|x l IH]; [done|]. intros [Hx Hl]%not_elem_of_cons. cbn. rewrite (IH Hl).
  destruct (Ascii.eqb_spec x c); [congruence|done].
Qed.
Lemma split_chars_app c l cur r : c ∉ l -> split_chars c cur (l ++ c :: r) = (rev cur ++ l) :: split_chars c [] r.
Proof.
  revert cur. induction l as [|x l IH]; intros cur Hl; cbn; [by rewrite Ascii.eqb_refl, app_nil_r|].
  apply not_elem_of_cons in Hl as [Hx Hl]. destruct (Ascii.eqb_spec x c); [congruence|]. rewrite (IH _ Hl).
  cbn. by rewrite <- app_assoc.
Qed.
Lemma split_chars_whole c l cur : c ∉ l -> split_chars c cur l = [rev cur ++ l].
Proof.
  revert cur. induction l as [|x l IH]; intros cur Hl; cbn; [by rewrite app_nil_r|].
  apply not_elem_of_cons in Hl as [Hx Hl]. destruct (Ascii.eqb_spec x c); [congruence|]. rewrite (IH _ Hl).
  cbn. by rewrite <- app_assoc.
Qed.

Lemma unchars_chars s : unchars (chars s) = s.
Proof. apply String.string_of_list_ascii_of_string. Qed.
Lemma chars_unchars l : chars (unchars l) = l.
Proof. apply String.list_ascii_of_string_of_list_ascii. Qed.
Lemma chars_app a b : chars (a ++ b) = chars a ++ chars b.
Proof. apply list_ascii_app. Qed.
Lemma has_char_spec c s : has_char c s = true <-> c ∈ chars s.
Proof.
  unfold has_char. rewrite existsb_exists. split.
  - intros (x & Hx & E). apply Ascii.eqb_eq in E as ->. by apply list_elem_of_In.
  - intros Hc. exists c. split; [by apply list_elem_of_In|apply Ascii.eqb_refl].
Qed.
Lemma has_char_false c s : has_char c s = false <-> c ∉ chars s.
Proof. rewrite <- has_char_spec. by destruct (has_char c s). Qed.
#[export] Hint Rewrite chars_app unchars_chars chars_unchars : go.

(** ** References read back *)

Inductive ref_version := VNone | VTag (t : string) | VDigest (d : string) | VBoth (t d : string).
Record image_ref := Ref { r_host : string; r_repo : string; r_version : ref_version }.

Definition tag_part (v : ref_version) : string := match v with VTag t | VBoth t _ => ":" ++ t | _ => "" end.
Definition digest_part (v : ref_version) : string := match v with VDigest d | VBoth _ d => "@" ++ d | _ => "" end.
Definition repo_part (r : image_ref) : string := (if streq (r_host r) "" then "" else r_host r ++ "/") ++ r_repo r.
Definition render (r : image_ref) : string := repo_part r ++ tag_part (r_version r) ++ digest_part (r_version r).

Definition version_string (v : ref_version) : string :=
  match v with VNone => "latest" | VTag t => t | VDigest d | VBoth _ d => d end.
Definition full_repo (r : image_ref) : string :=
  if streq (r_host r) "" && negb (has_char "/" (r_repo r)) then "library/" ++ r_repo r else r_repo r.

(** Neither part holds the separators that follow it; a host looks like one, and
    the first part of a repository without a host does not. *)
Definition word_ok (cs : list ascii) (s : string) : bool := negb (streq s "") && forallb (fun c => negb (has_char c s)) cs.
Definition version_ok (v : ref_version) : bool :=
  match v with
  | VNone => true
  | VTag t => word_ok ["/"; ":"; "@"]%char t
  | VDigest d => word_ok ["@"]%char d
  | VBoth t d => word_ok ["/"; ":"; "@"]%char t && word_ok ["@"]%char d
  end.
Definition ref_ok (r : image_ref) : bool :=
  forallb (fun c => negb (has_char c (r_repo r))) [":"; "@"]%char && version_ok (r_version r) &&
  if streq (r_host r) ""
  then match cut_first "/" (chars (r_repo r)) with Some (h, _) => negb (is_host (unchars h)) | None => true end
  else forallb (fun c => negb (has_char c (r_host r))) ["/"; "@"]%char && is_host (r_host r).

(** The reference the code cannot read: a digest without a tag on a host with a
    port. *)
Definition port_and_digest (r : image_ref) : bool :=
  match r_version r with VDigest _ => has_char ":" (r_host r) | _ => false end.


Lemma cut_last_before c d h p : c ∉ p -> c <> d ->
  cut_last c (h ++ d :: p) = match cut_last c h with Some (a, b) => Some (a, b ++ d :: p) | None => None end.
Proof.
  intros Hp Hd. induction h as [|x h IH]; cbn.
  - rewrite (cut_last_None c p Hp). destruct (Ascii.eqb_spec d c); [congruence|done].
  - rewrite IH. destruct (cut_last c h) as [[a b]|]; [done|]. by destruct (Ascii.eqb x c).
Qed.

Lemma word_ok_spec cs s : word_ok cs s = true -> s <> ""%string /\ forall c, c ∈ cs -> c ∉ chars s.
Proof.
  unfold word_ok. rewrite andb_true_iff, negb_true_iff, forallb_forall. intros [Hs Hc]. split.
  - intros ->. by rewrite streq_refl in Hs.
  - intros c Hin. apply list_elem_of_In in Hin. apply has_char_false, negb_true_iff, Hc, Hin.
Qed.
Lemma none_of_spec cs s : forallb (fun c => negb (has_char c s)) cs = true -> forall c, c ∈ cs -> c ∉ chars s.
Proof.
  rewrite forallb_forall. intros Hc c Hin. apply list_elem_of_In in Hin. apply has_char_false, negb_true_iff, Hc, Hin.
Qed.

(** What [ref_ok] says, with the shape of the part before the version. *)
Lemma repo_part_shape r : ref_ok r = true ->
  ("@"%char ∉ chars (repo_part r)) /\
  (r_host r = ""%string /\ chars (repo_part r) = chars (r_repo r) /\ (":"%char ∉ chars (repo_part r)) \/
   r_host r <> ""%string /\ chars (repo_part r) = chars (r_host r) ++ "/"%char :: chars (r_repo r) /\
   ("/"%char ∉ chars (r_host r)) /\ (":"%char ∉ chars (r_repo r)) /\ is_host (r_host r) = true).
Proof.
  unfold ref_ok. rewrite !andb_true_iff. intros [[Hp _] Hh]. pose proof (none_of_spec _ _ Hp) as Hn.
  assert (":"%char ∉ chars (r_repo r)) as Hcol by (apply Hn; left).
  assert ("@"%char ∉ chars (r_repo r)) as Hat by (apply Hn; right; left).
  unfold repo_part. destruct (streq (r_host r) "") eqn:E.
  - apply streq_spec in E. split; [done|]. left. done.
  - assert (r_host r <> ""%string) as Hne by (intros E'; rewrite E' in E; done).
    apply andb_true_iff in Hh as [Hh Hi]. pose proof (none_of_spec _ _ Hh) as Hnh.
    assert (chars ((r_host r ++ "/") ++ r_repo r) = chars (r_host r) ++ "/"%char :: chars (r_repo r)) as Hc.
    { rewrite !chars_app, <- app_assoc. done. }
    rewrite Hc. split; [|right; split_and!; [done|done|apply Hnh; left|done|done]].
    rewrite elem_of_app, elem_of_cons. intros [H|[H|H]]; [revert H; apply Hnh; right; left|done|done].
Qed.

Definition parsed_tag (v : ref_version) : string := match v with VNone => "" | _ => version_string v end.

Lemma split_digest a d : "@"%char ∉ chars a -> "@"%char ∉ chars d -> Split (a ++ "@" ++ d) "@" = [a; d].
Proof.
  intros Ha Hd. unfold Split. rewrite !chars_app. change (chars "@") with ["@"%char]. cbn [app].
  rewrite split_chars_app by done. rewrite split_chars_whole by done. cbn [rev app fmap list_fmap]. by rewrite !unchars_chars.
Qed.
Lemma split_plain a : "@"%char ∉ chars a -> Split a "@" = [a].
Proof. intros Ha. unfold Split. rewrite split_chars_whole by done. cbn [rev app fmap list_fmap]. by rewrite unchars_chars. Qed.

Lemma cut_tag a t : ":"%char ∉ chars t -> cut_last ":" (chars (a ++ ":" ++ t)) = Some (chars a, chars t).
Proof. intros Ht. rewrite !chars_app. by apply cut_last_app. Qed.

Lemma bool_empty s : s <> ""%string -> bool_decide (s = ""%string) = false.
Proof. by apply bool_decide_eq_false_2. Qed.

Lemma app_empty_r s : (s ++ "")%string = s.
Proof. apply list_ascii_inj. by rewrite list_ascii_app, app_nil_r. Qed.

Lemma parseRepositoryTag_render r : ref_ok r = true -> port_and_digest r = false ->
  parseRepositoryTag (render r) = (repo_part r, parsed_tag (r_version r)).
Proof.
  intros Hok Hpd. destruct (repo_part_shape r Hok) as [Hat Hshape].
  assert (version_ok (r_version r) = true) as Hv by (unfold ref_ok in Hok; rewrite !andb_true_iff in Hok; naive_solver).
  unfold parseRepositoryTag, render. destruct (r_version r) as [|t|d|t d] eqn:Ev; cbn [tag_part digest_part parsed_tag version_string version_ok] in *.
  - rewrite !app_empty_r, (split_plain _ Hat). cbn beta iota.
    destruct Hshape as [(_ & _ & Hc)|(_ & Hch & _ & Hc & _)]; [by rewrite cut_last_None|].
    rewrite Hch, cut_last_before by done. destruct (cut_last ":" (chars (r_host r))) as [[a b]|]; [|done].
    rewrite bool_decide_eq_true_2 by done. cbn [negb].
    assert (has_char "/" (unchars (b ++ "/"%char :: chars (r_repo r))) = true) as ->; [|done].
    apply has_char_spec. rewrite chars_unchars. apply elem_of_app. right. left.
  - destruct (word_ok_spec _ _ Hv) as [Hne Hw]. assert (":"%char ∉ chars t) by (apply Hw; right; left).
    assert ("/"%char ∉ chars t) by (apply Hw; left).
    rewrite app_empty_r, split_plain.
    2:{ rewrite !chars_app, !elem_of_app. intros [?|[H'|H']]; [done|set_solver|]. revert H'. apply Hw. do 2 right. left. }
    rewrite (cut_tag (repo_part r) t) by done. rewrite bool_decide_eq_true_2 by done. cbn [negb].
    rewrite !unchars_chars. by rewrite (proj2 (has_char_false _ _)).
  - destruct (word_ok_spec _ _ Hv) as [Hne Hw]. change ("" ++ "@" ++ d)%string with ("@" ++ d)%string. rewrite (split_digest _ d Hat) by (apply Hw; left).
    unfold port_and_digest in Hpd. rewrite Ev in Hpd. apply has_char_false in Hpd.
    rewrite cut_last_None; [done|]. destruct Hshape as [(_ & _ & Hc)|(_ & Hch & _ & Hc & _)]; [done|].
    rewrite Hch, elem_of_app, elem_of_cons. naive_solver.
  - apply andb_true_iff in Hv as [Ht Hd]. destruct (word_ok_spec _ _ Ht) as [Hne Hw]. destruct (word_ok_spec _ _ Hd) as [Hned Hwd].
    assert (":"%char ∉ chars t) by (apply Hw; right; left).
    assert ((repo_part r ++ (":" ++ t) ++ "@" ++ d)%string = ((repo_part r ++ ":" ++ t) ++ "@" ++ d)%string) as ->.
    { apply list_ascii_inj. rewrite !list_ascii_app. by rewrite <- !app_assoc. }
    rewrite split_digest; [|rewrite !chars_app, !elem_of_app; intros [?|[H'|H']]; [done|set_solver|revert H'; apply Hw; do 2 right; left]|apply Hwd; left].
    rewrite (cut_tag (repo_part r) t) by done. rewrite bool_empty by done. cbn [negb]. by rewrite unchars_chars.
Qed.

(** An image reference is taken apart into the host, the repository - with the
    implied "library/" where it applies - and the digest, else the tag, else
    "latest" it was written with; the exception is a digest without a tag on a
    host with a port. *)
Theorem ParseImage_render r : ref_ok r = true -> port_and_digest r = false ->
  ParseImage (render r) = (r_host r, full_repo r, version_string (r_version r)).
Proof.
  intros Hok Hpd. unfold ParseImage. rewrite (parseRepositoryTag_render r Hok Hpd).
  destruct (repo_part_shape r Hok) as [_ Hshape].
  assert ((if bool_decide (parsed_tag (r_version r) = "") then "latest" else parsed_tag (r_version r)) = version_string (r_version r))%string as ->.
  { assert (version_ok (r_version r) = true) as Hv by (unfold ref_ok in Hok; rewrite !andb_true_iff in Hok; naive_solver).
    destruct (r_version r) as [|t|d|t d]; cbn [parsed_tag version_string version_ok] in *; [done|..];
      rewrite ?andb_true_iff in Hv; rewrite bool_empty; [done|by eapply word_ok_spec|done|by eapply word_ok_spec|done|by eapply word_ok_spec, Hv]. }
  unfold full_repo. destruct Hshape as [(Hh & Hc & _)|(Hh & Hc & Hs & _ & Hi)]; rewrite Hc.
  - rewrite Hh, streq_refl. cbn [andb]. assert (repo_part r = r_repo r) as -> by by apply list_ascii_inj.
    destruct (cut_first "/" (chars (r_repo r))) as [[h p]|] eqn:E.
    + unfold ref_ok in Hok. rewrite !andb_true_iff, Hh, streq_refl, E in Hok. destruct Hok as [_ Hn]. apply negb_true_iff in Hn. rewrite Hn.
      assert (has_char "/" (r_repo r) = true) as ->; [|done]. apply has_char_spec. destruct (decide ("/"%char ∈ chars (r_repo r))); [done|].
      by rewrite cut_first_None in E.
    + assert (has_char "/" (r_repo r) = false) as ->; [|done]. apply has_char_false. intros Hin.
      apply list_elem_of_split in Hin as (a & b & Hab).
      revert E Hab. generalize (chars (r_repo r)). clear. intros l E ->. revert E. induction a as [|x a IH]; cbn; [done|].
      destruct (Ascii.eqb x "/"); [done|]. destruct (cut_first "/" (a ++ "/"%char :: b)) as [[? ?]|] eqn:Ea; [done|]. intros _. by apply IH.
  - rewrite cut_first_app by done. rewrite unchars_chars, Hi, unchars_chars.
    assert (streq (r_host r) "" = false) as ->; [|done]. destruct (streq (r_host r) "") eqn:E; [|done]. apply streq_spec in E. done.
Qed.

Lemma ParseImage_render_witness :
  ParseImage "quay.com:8080/fnproject/utils:v2@sha256:066978" = ("quay.com:8080", "fnproject/utils", "sha256:066978")%string /\
  ParseImage "mongo" = ("", "library/mongo", "latest")%string.
Proof.
  split.
  - apply (ParseImage_render (Ref "quay.com:8080" "fnproject/utils" (VBoth "v2" "sha256:066978"))); by vm_compute.
  - apply (ParseImage_render (Ref "" "mongo" VNone)); by vm_compute.
Defined.

(** With a port and a digest but no tag the repository is lost. *)
Lemma ParseImage_port_digest : ParseImage "quay.com:8080/fnproject/utils@sha256:066978" = ("", "library/quay.com", "sha256:066978")%string.
Proof. by vm_compute. Qed.
