(* ===== verification/ImageCache.v ===== *)
(** * The image cache (src/api/agent/drivers/docker/image_cache.go)

    Which images the docker driver may remove: a least-recently-used list of
    idle images with an index into it, reference counts of the images in use, and
    the total size of both.  Every method runs under one lock, apart from the
    notification of the cleaner, which follows the unlock: a method is its
    critical section, which tells whether a notification is to follow.  The
    cache refines [lru], a list of idle images by age and a count per image in
    use. *)
From S2P Require Import Prelude.
Import Prelude.

Record CachedImage := Img {
  img_ID : string;
  img_ParentID : string;
  img_RepoTags : list string;
  img_Size : Z
}.

(** ** [container/list]

    An element has an identity and a value that is never overwritten; a list
    holds its elements from front to back and the next identity. *)
Abbreviation element := (nat * CachedImage)%type.
Record glist := GList { gl_elems : list element; gl_next : nat }.

Definition same_elem (e : element) (x : element) : bool := Nat.eqb x.1 e.1.
Definition l_New : glist := GList [] 0.
Definition l_PushFront (l : glist) (v : CachedImage) : glist * element :=
  let e := (gl_next l, v) in (GList (e :: gl_elems l) (S (gl_next l)), e).
Definition l_Remove (l : glist) (e : element) : glist := GList (remove_first (same_elem e) (gl_elems l)) (gl_next l).
Definition l_MoveToFront (l : glist) (e : element) : glist :=
  if existsb (same_elem e) (gl_elems l) then GList (e :: remove_first (same_elem e) (gl_elems l)) (gl_next l) else l.
Definition l_Back (l : glist) : option element := last (gl_elems l).

(** ** The cache *)

(** [notifier] is a channel with room for one signal: whether it holds one. *)
Record imageCacher := Cacher {
  maxSize : Z;
  blacklistTags : gset string;
  notifier : bool;
  lruSize : Z;
  lruList : glist;
  lruMap : gmap string element;
  busySize : Z;
  busyRef : gmap string Z
}.

Definition NewImageCache (exemptTags : list string) (max : Z) : imageCacher :=
  {| maxSize := max; blacklistTags := list_to_set exemptTags; notifier := false; lruSize := 0; lruList := l_New;
     lruMap := ∅; busySize := 0; busyRef := ∅ |}.

Definition with_lru (c : imageCacher) (sz : Z) (l : glist) (m : gmap string element) : imageCacher :=
  Cacher (maxSize c) (blacklistTags c) (notifier c) sz l m (busySize c) (busyRef c).
Definition with_busy (c : imageCacher) (sz : Z) (m : gmap string Z) : imageCacher :=
  Cacher (maxSize c) (blacklistTags c) (notifier c) (lruSize c) (lruList c) (lruMap c) sz m.
Definition with_notifier (c : imageCacher) (b : bool) : imageCacher :=
  Cacher (maxSize c) (blacklistTags c) b (lruSize c) (lruList c) (lruMap c) (busySize c) (busyRef c).

Definition isEligible (c : imageCacher) (img : CachedImage) : bool :=
  forallb (fun tag => negb (bool_decide (tag ∈ blacklistTags c))) (img_RepoTags img).

Definition addLRULocked (c : imageCacher) (img : CachedImage) : imageCacher :=
  match lruMap c !! img_ID img with
  | Some ee => with_lru c (lruSize c) (l_MoveToFront (lruList c) ee) (lruMap c)
  | None => let (l, e) := l_PushFront (lruList c) img in
            with_lru c (u64 (lruSize c + img_Size img)) l (<[img_ID img := e]> (lruMap c))
  end.

Definition rmLRULocked (c : imageCacher) (img : CachedImage) : imageCacher :=
  match lruMap c !! img_ID img with
  | Some ee => with_lru c (u64 (lruSize c - img_Size ee.2)) (l_Remove (lruList c) ee) (delete (img_ID img) (lruMap c))
  | None => c
  end.

Definition addBusyLocked (c : imageCacher) (img : CachedImage) : imageCacher * bool :=
  match busyRef c !! img_ID img with
  | Some ee => (with_busy c (busySize c) (<[img_ID img := u64 (1 + ee)]> (busyRef c)), false)
  | None => (with_busy c (u64 (busySize c + img_Size img)) (<[img_ID img := 1]> (busyRef c)), true)
  end.

Definition rmBusyLocked (c : imageCacher) (img : CachedImage) : imageCacher * bool :=
  match busyRef c !! img_ID img with
  | Some ee =>
      if 1 <? ee then (with_busy c (busySize c) (<[img_ID img := u64 (ee - 1)]> (busyRef c)), false)
      else (with_busy c (u64 (busySize c - img_Size img)) (delete (img_ID img) (busyRef c)), true)
  | None => (c, false)
  end.

Definition sendNotify (c : imageCacher) : imageCacher := with_notifier c true.

Definition isMaxCapacityLocked (c : imageCacher) : bool :=
  (0 <? lruSize c) && (maxSize c <=? u64 (lruSize c + busySize c)).
Definition IsMaxCapacity (c : imageCacher) : bool := isMaxCapacityLocked c.

(** The critical sections; the bool says that [sendNotify] follows. *)
Definition Update_locked (c : imageCacher) (img : CachedImage) : imageCacher * bool :=
  if negb (isEligible c img) then (c, false)
  else match busyRef c !! img_ID img with
       | Some _ => (c, false)
       | None => let c := addLRULocked c img in (c, isMaxCapacityLocked c)
       end.

Definition MarkBusy_locked (c : imageCacher) (img : CachedImage) : imageCacher * bool :=
  if negb (isEligible c img) then (c, false)
  else let (c, ok) := addBusyLocked c img in
       if ok then let c := rmLRULocked c img in (c, isMaxCapacityLocked c) else (c, false).

Definition MarkFree_locked (c : imageCacher) (img : CachedImage) : imageCacher * bool :=
  if negb (isEligible c img) then (c, false)
  else let (c, ok) := rmBusyLocked c img in
       if ok then let c := addLRULocked c img in (c, isMaxCapacityLocked c) else (c, false).

Definition notified (r : imageCacher * bool) : imageCacher := if r.2 then sendNotify r.1 else r.1.
Definition Update c img := notified (Update_locked c img).
Definition MarkBusy c img := notified (MarkBusy_locked c img).
Definition MarkFree c img := notified (MarkFree_locked c img).

Definition Pop (c : imageCacher) : imageCacher * option CachedImage :=
  match l_Back (lruList c) with
  | None => (c, None)
  | Some item => (rmLRULocked c item.2, Some item.2)
  end.

Record ImageCacherStats := CacherStats {
  BusyImgTotalSize : Z; BusyImgCount : Z; IdleImgTotalSize : Z; IdleImgCount : Z; MaxImgTotalSize : Z
}.
Definition GetStats (c : imageCacher) : ImageCacherStats :=
  {| BusyImgTotalSize := busySize c; BusyImgCount := Z.of_nat (size (busyRef c)); IdleImgTotalSize := lruSize c;
     IdleImgCount := Z.of_nat (size (lruMap c)); MaxImgTotalSize := maxSize c |}.

(** ** The specification

    The idle images, the most recently used first, and a count per image in
    use; sizes are not stored but added up, as unbounded integers. *)
Section Spec.
  (** Docker gives an image its id by content, so that the id fixes the size. *)
  Context (size_of : string -> Z).

Record lru := LRU { idle : list CachedImage; busy : gmap string Z }.

Definition same_ID (img img' : CachedImage) : bool := bool_decide (img_ID img' = img_ID img).
(** The image becomes the most recently used; a known one keeps its record. *)
Definition touch (l : list CachedImage) (img : CachedImage) : list CachedImage :=
  match find_first (same_ID img) l with
  | Some img' => img' :: remove_first (same_ID img) l
  | None => img :: l
  end.

Definition idle_total (s : lru) : Z := sumZ ((fun img => size_of (img_ID img)) <$> idle s).
Definition busy_total (s : lru) : Z := sumZ ((fun kv => size_of kv.1) <$> map_to_list (busy s)).
Definition over (max : Z) (s : lru) : bool := (0 <? idle_total s) && (max <=? idle_total s + busy_total s).

Definition users (s : lru) (id : string) : Z := default 0 (busy s !! id).
Definition lru_use (s : lru) (img : CachedImage) : lru :=
  LRU (remove_first (same_ID img) (idle s)) (<[img_ID img := users s (img_ID img) + 1]> (busy s)).
Definition lru_release (s : lru) (img : CachedImage) : lru :=
  if 1 <? users s (img_ID img) then LRU (idle s) (<[img_ID img := users s (img_ID img) - 1]> (busy s))
  else if users s (img_ID img) =? 1 then LRU (touch (idle s) img) (delete (img_ID img) (busy s))
  else s.
Definition lru_seen (s : lru) (img : CachedImage) : lru :=
  if users s (img_ID img) =? 0 then LRU (touch (idle s) img) (busy s) else s.
Definition lru_oldest (s : lru) : lru * option CachedImage :=
  (LRU (removelast (idle s)) (busy s), last (idle s)).
End Spec.

(** A client's calls, and what it sees of each. *)
Inductive cache_op := OUpdate (img : CachedImage) | OBusy (img : CachedImage) | OFree (img : CachedImage) | OPop | OMax | OStats.
Inductive cache_seen := SNothing | SImage (img : option CachedImage) | SMax (b : bool) | SStats (s : ImageCacherStats).

Definition cache_call (c : imageCacher) (o : cache_op) : imageCacher * cache_seen :=
  match o with
  | OUpdate img => (Update c img, SNothing)
  | OBusy img => (MarkBusy c img, SNothing)
  | OFree img => (MarkFree c img, SNothing)
  | OPop => let (c, img) := Pop c in (c, SImage img)
  | OMax => (c, SMax (IsMaxCapacity c))
  | OStats => (c, SStats (GetStats c))
  end.

Definition exempt (tags : gset string) (img : CachedImage) : bool :=
  existsb (fun tag => bool_decide (tag ∈ tags)) (img_RepoTags img).

Definition lru_call (size_of : string -> Z) (tags : gset string) (max : Z) (s : lru) (o : cache_op) : lru * cache_seen :=
  match o with
  | OUpdate img => (if exempt tags img then s else lru_seen s img, SNothing)
  | OBusy img => (if exempt tags img then s else lru_use s img, SNothing)
  | OFree img => (if exempt tags img then s else lru_release s img, SNothing)
  | OPop => let (s, img) := lru_oldest s in (s, SImage img)
  | OMax => (s, SMax (over size_of max s))
  | OStats => (s, SStats {| BusyImgTotalSize := busy_total size_of s; BusyImgCount := Z.of_nat (size (busy s));
                            IdleImgTotalSize := idle_total size_of s; IdleImgCount := Z.of_nat (length (idle s));
                            MaxImgTotalSize := max |})
  end.

Fixpoint run_calls {S} (call : S -> cache_op -> S * cache_seen) (s : S) (ops : list cache_op) : S * list cache_seen :=
  match ops with
  | [] => (s, [])
  | o :: ops => let (s, x) := call s o in let (s, xs) := run_calls call s ops in (s, x :: xs)
  end.

Definition op_image (o : cache_op) : option CachedImage :=
  match o with OUpdate img | OBusy img | OFree img => Some img | _ => None end.

(** ** The cache keeps its books *)

Section CacheInvariant.
  Context (size_of : string -> Z) (ids : list string).
  Context (sizes_nonneg : Forall (fun id => 0 <= size_of id) ids).
  Context (sizes_fit : sumZ (size_of <$> ids) < w64).

(** An image among those of the machine, with the size its id fixes. *)
Definition image_ok (img : CachedImage) : Prop := img_ID img ∈ ids /\ img_Size img = size_of (img_ID img).

Definition idle_images (c : imageCacher) : list CachedImage := snd <$> gl_elems (lruList c).
Definition cache_abs (c : imageCacher) : lru := LRU (idle_images c) (busyRef c).

Record lru_ok (c : imageCacher) : Prop := {
  lo_elems : NoDup (fst <$> gl_elems (lruList c));
  lo_next : Forall (fun e : element => (e.1 < gl_next (lruList c))%nat) (gl_elems (lruList c));
  lo_ids : NoDup (img_ID <$> idle_images c);
  lo_map : forall id e, lruMap c !! id = Some e <-> e ∈ gl_elems (lruList c) /\ img_ID e.2 = id;
  lo_known : Forall image_ok (idle_images c);
  lo_size : lruSize c = idle_total size_of (cache_abs c)
}.

Record busy_ok (n : Z) (c : imageCacher) : Prop := {
  bo_counts : forall id k, busyRef c !! id = Some k -> 1 <= k <= n /\ id ∈ ids;
  bo_size : busySize c = busy_total size_of (cache_abs c)
}.

Definition apart (c : imageCacher) : Prop := forall img, img ∈ idle_images c -> busyRef c !! img_ID img = None.
Definition cache_inv (n : Z) (c : imageCacher) : Prop := lru_ok c /\ busy_ok n c /\ apart c.

Lemma sizes_of (l : list string) : NoDup l -> (forall id, id ∈ l -> id ∈ ids) -> 0 <= sumZ (size_of <$> l) <= sumZ (size_of <$> ids).
Proof.
  intros Hn Hi. pose proof sizes_nonneg as Hz. rewrite Forall_forall in Hz. split.
  - apply sumZ_nonneg, Forall_fmap, Forall_forall. intros id Hid. apply Hz, Hi, Hid.
  - apply sumZ_submseteq; [by apply Forall_fmap|].
    apply fmap_submseteq. by apply NoDup_submseteq.
Qed.

Lemma idle_total_ids s : idle_total size_of s = sumZ (size_of <$> (img_ID <$> idle s)).
Proof. unfold idle_total. by rewrite <- list_fmap_compose. Qed.
Lemma busy_total_ids s : busy_total size_of s = sumZ (size_of <$> (map_to_list (busy s)).*1).
Proof. unfold busy_total. by rewrite <- list_fmap_compose. Qed.

Lemma idle_in c id : lru_ok c -> id ∈ img_ID <$> idle_images c -> id ∈ ids.
Proof.
  intros H (img & -> & Himg)%list_elem_of_fmap. pose proof (lo_known _ H) as Hk. rewrite Forall_forall in Hk.
  by apply (Hk _ Himg).
Qed.
Lemma busy_in n c id : busy_ok n c -> id ∈ (map_to_list (busyRef c)).*1 -> id ∈ ids.
Proof.
  intros H ([id' k] & -> & Hk)%list_elem_of_fmap. apply elem_of_map_to_list in Hk. by apply (bo_counts _ _ H) in Hk as [_ ?].
Qed.

Lemma totals_fit n c : cache_inv n c ->
  0 <= lruSize c /\ 0 <= busySize c /\ lruSize c + busySize c < w64.
Proof.
  intros (Hl & Hb & Ha). rewrite (lo_size _ Hl), (bo_size _ _ Hb), idle_total_ids, busy_total_ids. cbn [cache_abs idle busy].
  pose proof (sizes_of (img_ID <$> idle_images c) (lo_ids _ Hl) (fun id => idle_in c id Hl)).
  pose proof (sizes_of ((map_to_list (busyRef c)).*1) (NoDup_fst_map_to_list _) (fun id => busy_in n c id Hb)).
  split; [lia|]. split; [lia|]. rewrite <- sumZ_app, <- fmap_app.
  eapply Z.le_lt_trans; [apply sizes_of|exact sizes_fit].
  - apply NoDup_app. split; [apply (lo_ids _ Hl)|]. split; [|apply NoDup_fst_map_to_list].
    intros id (img & -> & Himg)%list_elem_of_fmap ([id' k] & Hid & Hk)%list_elem_of_fmap. simpl in Hid. subst id'.
    apply elem_of_map_to_list in Hk. by rewrite (Ha _ Himg) in Hk.
  - intros id [Hi|Hi]%elem_of_app; [by eapply idle_in|by eapply busy_in].
Qed.

(** The index finds the element of an image, and tells when there is none. *)
Lemma index_Some c img ee : lru_ok c -> lruMap c !! img_ID img = Some ee ->
  ee ∈ gl_elems (lruList c) /\ img_ID ee.2 = img_ID img /\
  find_first (same_ID img) (idle_images c) = Some ee.2 /\
  (forall x, x ∈ gl_elems (lruList c) -> same_elem ee x = same_ID img x.2).
Proof.
  intros H Hm. apply (lo_map _ H) in Hm as [He Hid]. split; [done|]. split; [done|]. split.
  - apply find_first_unique.
    + apply list_elem_of_fmap. by exists ee.
    + unfold same_ID. rewrite bool_decide_eq_true. done.
    + intros y Hy. unfold same_ID. rewrite bool_decide_eq_true. intros Hy'.
      eapply (NoDup_fmap_same img_ID); [apply (lo_ids _ H)|done|apply list_elem_of_fmap; by exists ee|congruence].
  - intros x Hx. unfold same_elem, same_ID. destruct (Nat.eqb_spec x.1 ee.1) as [E|E]; symmetry.
    + rewrite bool_decide_eq_true. by rewrite (NoDup_fmap_same fst _ _ _ (lo_elems _ H) Hx He E).
    + rewrite bool_decide_eq_false. intros E'. destruct E. f_equal.
      assert (x.2 = ee.2) as E2 by (eapply (NoDup_fmap_same img_ID); [apply (lo_ids _ H)|apply list_elem_of_fmap; by exists x|apply list_elem_of_fmap; by exists ee|congruence]).
      assert (NoDup (img_ID ∘ snd <$> gl_elems (lruList c))) as Hn by (rewrite list_fmap_compose; apply (lo_ids _ H)).
      apply (NoDup_fmap_same _ _ _ _ Hn Hx He). simpl. congruence.
Qed.

Lemma index_None c img : lru_ok c -> lruMap c !! img_ID img = None ->
  find_first (same_ID img) (idle_images c) = None.
Proof.
  intros H Hm. apply find_first_None. intros x (e & -> & He)%list_elem_of_fmap. unfold same_ID.
  rewrite bool_decide_eq_false. intros Hid.
  pose proof (proj2 (lo_map _ H _ e) (conj He Hid)) as Hs. by rewrite Hm in Hs.
Qed.

Lemma idle_total_touch l img b : find_first (same_ID img) l = None ->
  idle_total size_of (LRU (touch l img) b) = size_of (img_ID img) + idle_total size_of (LRU l b).
Proof. intros E. unfold touch. by rewrite E. Qed.

Lemma idle_total_cut l img img' b : find_first (same_ID img) l = Some img' ->
  idle_total size_of (LRU l b) = size_of (img_ID img') + idle_total size_of (LRU (remove_first (same_ID img) l) b).
Proof. intros E. unfold idle_total. cbn [idle]. by rewrite (remove_first_Permutation _ _ _ E) at 1. Qed.

(** Putting an element in front, or cutting it out. *)
Lemma move_front c ee img : lru_ok c -> lruMap c !! img_ID img = Some ee ->
  lru_ok (with_lru c (lruSize c) (l_MoveToFront (lruList c) ee) (lruMap c)) /\
  idle_images (with_lru c (lruSize c) (l_MoveToFront (lruList c) ee) (lruMap c)) = touch (idle_images c) img.
Proof.
  intros H Hm. destruct (index_Some _ _ _ H Hm) as (He & Hid & Hf & Hs).
  assert (existsb (same_elem ee) (gl_elems (lruList c)) = true) as Hx.
  { apply existsb_exists. exists ee. split; [by apply list_elem_of_In|]. unfold same_elem. apply Nat.eqb_refl. }
  assert (find_first (same_elem ee) (gl_elems (lruList c)) = Some ee) as Hfe.
  { apply find_first_unique; [done|apply Nat.eqb_refl|]. intros y Hy Hye. apply Nat.eqb_eq in Hye.
    eapply (NoDup_fmap_same fst); [apply (lo_elems _ H)|done..]. }
  pose proof (remove_first_Permutation _ _ _ Hfe) as Hp.
  unfold l_MoveToFront. rewrite Hx.
  assert (snd <$> (ee :: remove_first (same_elem ee) (gl_elems (lruList c))) = touch (idle_images c) img) as Ht.
  { unfold touch. rewrite Hf. rewrite fmap_cons. f_equal. by apply fmap_remove_first_in. }
  split; [|exact Ht]. split; cbn [lruList lruMap lruSize with_lru gl_elems gl_next cache_abs idle_images].
  - rewrite <- Hp. apply (lo_elems _ H).
  - rewrite <- Hp. apply (lo_next _ H).
  - unfold idle_images. cbn [gl_elems lruList with_lru]. rewrite <- Hp. apply (lo_ids _ H).
  - intros id e. rewrite <- Hp. apply (lo_map _ H).
  - unfold idle_images. cbn [gl_elems lruList with_lru]. rewrite <- Hp. apply (lo_known _ H).
  - rewrite (lo_size _ H). unfold idle_total. cbn [idle cache_abs]. unfold idle_images. cbn [gl_elems lruList with_lru].
    by rewrite <- Hp.
Qed.

Lemma push_front c img : lru_ok c -> lruMap c !! img_ID img = None -> image_ok img ->
  let r := addLRULocked c img in
  lru_ok r /\ idle_images r = touch (idle_images c) img.
Proof.
  intros H Hm [Hk Hsz]. pose proof (index_None _ _ H Hm) as Hf. unfold addLRULocked. rewrite Hm.
  unfold l_PushFront. cbn zeta iota beta.
  assert (img_ID img ∉ img_ID <$> idle_images c) as Hni.
  { intros (x & E & Hx)%list_elem_of_fmap. rewrite find_first_None in Hf. specialize (Hf x Hx).
    unfold same_ID in Hf. apply bool_decide_eq_false in Hf. congruence. }
  assert (gl_next (lruList c) ∉ fst <$> gl_elems (lruList c)) as Hne.
  { intros (x & E & Hx)%list_elem_of_fmap. pose proof (lo_next _ H) as Hn. rewrite Forall_forall in Hn.
    specialize (Hn x Hx). lia. }
  split; [|unfold touch; by rewrite Hf].
  split; cbn [lruList lruMap lruSize with_lru gl_elems gl_next cache_abs idle_images].
  - rewrite fmap_cons. constructor; [done|apply (lo_elems _ H)].
  - constructor; [simpl; lia|]. eapply Forall_impl; [apply (lo_next _ H)|]. simpl. lia.
  - unfold idle_images. cbn [gl_elems lruList with_lru]. rewrite !fmap_cons. constructor; [done|apply (lo_ids _ H)].
  - intros id e. rewrite lookup_insert_Some, elem_of_cons, (lo_map _ H).
    split; [naive_solver|]. intros [[->|He] Hid]; [by left|]. right. split; [|done]. intros E.
    apply Hni. rewrite E, <- Hid. apply list_elem_of_fmap. exists e.2. split; [done|]. apply list_elem_of_fmap. by exists e.
  - unfold idle_images. cbn [gl_elems lruList with_lru]. rewrite fmap_cons. constructor; [done|apply (lo_known _ H)].
  - rewrite (lo_size _ H), Hsz. unfold idle_total. cbn [idle cache_abs]. unfold idle_images. cbn [gl_elems lruList with_lru].
    rewrite !fmap_cons. cbn [sumZ snd]. rewrite u64_small; [lia|].
    pose proof (sizes_of (img_ID img :: (img_ID <$> idle_images c))) as B. rewrite fmap_cons in B. cbn [sumZ] in B.
    rewrite <- list_fmap_compose in B. unfold compose in B.
    assert (0 <= size_of (img_ID img) + sumZ ((fun x => size_of (img_ID x)) <$> idle_images c) <= sumZ (size_of <$> ids)) as B'.
    { apply B.
      - constructor; [done|apply (lo_ids _ H)].
      - intros id [->|Hid]%elem_of_cons; [done|by eapply idle_in]. }
    unfold idle_images in B'. word_lia.
Qed.

Lemma addLRU_ok c img : lru_ok c -> image_ok img ->
  lru_ok (addLRULocked c img) /\ idle_images (addLRULocked c img) = touch (idle_images c) img.
Proof.
  intros H Hi. destruct (lruMap c !! img_ID img) as [ee|] eqn:Hm.
  - unfold addLRULocked. rewrite Hm. by apply move_front.
  - by apply push_front.
Qed.

Lemma rmLRU_ok c img : lru_ok c ->
  lru_ok (rmLRULocked c img) /\ idle_images (rmLRULocked c img) = remove_first (same_ID img) (idle_images c).
Proof.
  intros H. unfold rmLRULocked. destruct (lruMap c !! img_ID img) as [ee|] eqn:Hm.
  - destruct (index_Some _ _ _ H Hm) as (He & Hid & Hf & Hs).
    assert (snd <$> remove_first (same_elem ee) (gl_elems (lruList c)) = remove_first (same_ID img) (idle_images c)) as Hc
      by by apply fmap_remove_first_in.
    split; [|exact Hc].
    pose proof (remove_first_sublist (same_elem ee) (gl_elems (lruList c))) as Hsub.
    split; cbn [lruList lruMap lruSize with_lru l_Remove gl_elems gl_next cache_abs].
    + eapply sublist_NoDup; [apply (lo_elems _ H)|by apply fmap_sublist].
    + eapply sublist_Forall; [exact Hsub|apply (lo_next _ H)].
    + unfold idle_images. cbn [gl_elems lruList with_lru l_Remove].
      eapply sublist_NoDup; [apply (lo_ids _ H)|]. by do 2 apply fmap_sublist.
    + intros id e. rewrite lookup_delete_Some, (lo_map _ H). split.
      * intros (Hne & Hin & Hid'). split; [|done]. apply elem_of_remove_first_ne; [done|].
        rewrite (Hs _ Hin). unfold same_ID. apply bool_decide_eq_false. congruence.
      * intros [Hin Hid']. pose proof (remove_first_elem_of _ _ _ Hin) as Hin'. split_and!; [|done|done].
        intros E. assert (e = ee) as ->.
        { pose proof (Hs _ Hin') as Hse. unfold same_ID in Hse. rewrite bool_decide_eq_true_2 in Hse by congruence.
          unfold same_elem in Hse. apply Nat.eqb_eq in Hse. eapply (NoDup_fmap_same fst); [apply (lo_elems _ H)|done..]. }
        assert (NoDup (gl_elems (lruList c))) as Hn by (eapply NoDup_fmap_1, (lo_elems _ H)).
        assert (find_first (same_elem ee) (gl_elems (lruList c)) = Some ee) as Hfe.
        { apply find_first_unique; [done|apply Nat.eqb_refl|]. intros y Hy Hye. apply Nat.eqb_eq in Hye.
          eapply (NoDup_fmap_same fst); [apply (lo_elems _ H)|done..]. }
        apply remove_first_Permutation in Hfe. rewrite Hfe in Hn. by inversion Hn.
    + unfold idle_images. cbn [gl_elems lruList with_lru l_Remove].
      eapply sublist_Forall; [apply fmap_sublist; exact Hsub|apply (lo_known _ H)].
    + assert (image_ok ee.2) as [Hee Hsz].
      { pose proof (lo_known _ H) as Hk. rewrite Forall_forall in Hk. apply Hk, list_elem_of_fmap. by exists ee. }
      rewrite (lo_size _ H), Hsz. unfold cache_abs, idle_images at 2. cbn [gl_elems lruList with_lru l_Remove]. rewrite Hc.
      rewrite (idle_total_cut _ img _ _ Hf).
      assert (0 <= idle_total size_of (LRU (remove_first (same_ID img) (idle_images c)) (busyRef c)) <= sumZ (size_of <$> ids)) as B.
      { rewrite idle_total_ids. apply sizes_of; cbn [idle].
        - eapply sublist_NoDup; [apply (lo_ids _ H)|]. apply fmap_sublist, remove_first_sublist.
        - intros id (x & -> & Hx)%list_elem_of_fmap. eapply idle_in; [done|]. apply list_elem_of_fmap. exists x.
          split; [done|]. by apply remove_first_elem_of in Hx. }
      unfold idle_total in *. cbn [idle busy] in *. rewrite u64_small; [lia|]. word_lia.
  - split; [done|]. rewrite remove_first_None; [done|]. by apply index_None.
Qed.

(** What stays when only one half of the cache changes. *)
Lemma addLRU_busy c img : busyRef (addLRULocked c img) = busyRef c /\ busySize (addLRULocked c img) = busySize c.
Proof. unfold addLRULocked. by destruct (lruMap c !! img_ID img). Qed.
Lemma rmLRU_busy c img : busyRef (rmLRULocked c img) = busyRef c /\ busySize (rmLRULocked c img) = busySize c.
Proof. unfold rmLRULocked. by destruct (lruMap c !! img_ID img). Qed.
Lemma busy_ok_same n c c' : busyRef c' = busyRef c -> busySize c' = busySize c -> busy_ok n c -> busy_ok n c'.
Proof.
  intros E1 E2 [Hc Hs]. split; [rewrite E1; done|]. rewrite E2, Hs. unfold busy_total. cbn [busy cache_abs]. by rewrite E1.
Qed.
Lemma busy_ok_le n n' c : busy_ok n c -> n <= n' -> busy_ok n' c.
Proof.
  intros Hb Hn. split; [|apply (bo_size _ _ Hb)]. intros id k Hk. apply (bo_counts _ _ Hb) in Hk as [? ?]. split; [lia|done].
Qed.
Lemma lru_ok_busy c sz m : lru_ok c -> lru_ok (with_busy c sz m).
Proof. intros []. by split. Qed.

Lemma busy_total_insert b id k : b !! id = None ->
  busy_total size_of (LRU [] (<[id := k]> b)) = size_of id + busy_total size_of (LRU [] b).
Proof. intros E. unfold busy_total. cbn [busy]. by rewrite map_to_list_insert. Qed.
Lemma busy_total_delete b id k : b !! id = Some k ->
  busy_total size_of (LRU [] b) = size_of id + busy_total size_of (LRU [] (delete id b)).
Proof.
  intros E. rewrite <- (insert_delete_id b id k) at 1 by done. by rewrite busy_total_insert by apply lookup_delete_eq.
Qed.
Lemma busy_total_update b id k k' : b !! id = Some k -> busy_total size_of (LRU [] (<[id := k']> b)) = busy_total size_of (LRU [] b).
Proof.
  intros E. rewrite (busy_total_delete b id k) by done. rewrite <- (insert_delete_eq b). by rewrite busy_total_insert by apply lookup_delete_eq.
Qed.

Lemma busy_fits n c id : busy_ok n c -> busyRef c !! id = None -> id ∈ ids ->
  0 <= busySize c /\ 0 <= size_of id /\ size_of id + busySize c < w64.
Proof.
  intros H Hn Hid. rewrite (bo_size _ _ H), busy_total_ids. cbn [busy cache_abs].
  pose proof (sizes_of _ (NoDup_fst_map_to_list (busyRef c)) (fun id => busy_in n c id H)).
  pose proof sizes_nonneg as Hz. rewrite Forall_forall in Hz. specialize (Hz id Hid).
  pose proof (sizes_of (id :: (map_to_list (busyRef c)).*1)) as B. cbn [fmap list_fmap sumZ] in B.
  destruct B as [_ B]; [| |unfold fmap in *; lia].
  - constructor; [|apply NoDup_fst_map_to_list]. intros ([id' k] & E & Hk)%list_elem_of_fmap. simpl in E. subst.
    apply elem_of_map_to_list in Hk. congruence.
  - intros id' [->|Hi]%elem_of_cons; [done|by eapply busy_in].
Qed.

Lemma touch_elem l img x : x ∈ touch l img -> x ∈ l \/ x = img.
Proof.
  unfold touch. destruct (find_first (same_ID img) l) as [img'|] eqn:E.
  - apply find_first_Some in E as [Hi _]. intros [->|Hx]%elem_of_cons; [by left|]. left. by apply remove_first_elem_of in Hx.
  - intros [->|Hx]%elem_of_cons; auto.
Qed.

Lemma gone_after_cut l img x : NoDup (img_ID <$> l) -> x ∈ remove_first (same_ID img) l -> img_ID x <> img_ID img.
Proof.
  intros Hn Hx E. apply (remove_first_NoDup_gone (img_ID img)) in Hn. apply Hn.
  rewrite <- (fmap_remove_first img_ID (same_ID img)) by done. apply list_elem_of_fmap. by exists x.
Qed.

Lemma eligible_exempt c img : negb (isEligible c img) = exempt (blacklistTags c) img.
Proof.
  unfold isEligible, exempt. induction (img_RepoTags img) as [|t l IH]; [done|]. simpl.
  rewrite negb_andb, negb_involutive. by rewrite IH.
Qed.

(** Fields that no operation changes. *)
Definition same_setup (c c' : imageCacher) : Prop := maxSize c' = maxSize c /\ blacklistTags c' = blacklistTags c.
Definition same_rest (c c' : imageCacher) : Prop := same_setup c c' /\ notifier c' = notifier c.
Lemma addLRU_setup c img : same_rest c (addLRULocked c img).
Proof. unfold addLRULocked. by destruct (lruMap c !! img_ID img). Qed.
Lemma rmLRU_setup c img : same_rest c (rmLRULocked c img).
Proof. unfold rmLRULocked. by destruct (lruMap c !! img_ID img). Qed.

(** What the methods do to the cache, as seen by the specification; a method that
    brings the cache over its limit notifies. *)
Definition effect (n : Z) (c : imageCacher) (r : imageCacher * bool) (s : lru) : Prop :=
  cache_inv n r.1 /\ cache_abs r.1 = s /\ same_rest c r.1 /\
  (isMaxCapacityLocked r.1 = true -> r.2 = true \/ isMaxCapacityLocked c = true).

Lemma no_effect n n' c s : cache_inv n c -> n <= n' -> cache_abs c = s -> effect n' c (c, false) s.
Proof.
  intros (Hl & Hb & Ha) Hn Hs. split_and!; [|done|done|by right]. split_and!; [done|by eapply busy_ok_le|done].
Qed.

Lemma Update_ok n n' c img : cache_inv n c -> n <= n' -> image_ok img ->
  effect n' c (Update_locked c img) (if exempt (blacklistTags c) img then cache_abs c else lru_seen (cache_abs c) img).
Proof.
  intros H Hn Hi. unfold Update_locked. rewrite eligible_exempt.
  destruct (exempt _ _); [by eapply no_effect|].
  unfold lru_seen, users. cbn [busy cache_abs]. destruct (busyRef c !! img_ID img) as [k|] eqn:Hb.
  - apply (no_effect n); [done..|]. apply (proj1 (proj2 H)) in Hb as [? ?]. simpl. by destruct (Z.eqb_spec k 0); [lia|].
  - destruct (addLRU_ok c img (proj1 H) Hi) as [Hl Hid]. destruct (addLRU_busy c img) as [E1 E2].
    destruct H as (_ & Hbo & Ha). split_and!; cbn [fst snd].
    + split_and!; [done| |].
      * apply (busy_ok_same n' c); [done..|]. by eapply busy_ok_le.
      * intros x. rewrite Hid, E1. intros [Hx| ->]%touch_elem; [by apply Ha|done].
    + unfold cache_abs. rewrite Hid, E1. done.
    + apply addLRU_setup.
    + by left.
Qed.

(** A count goes up or down without reaching zero. *)
Lemma recount n c id k k' : cache_inv n c -> busyRef c !! id = Some k -> 1 <= k' <= n + 1 -> n + 1 < w64 ->
  effect (n + 1) c (with_busy c (busySize c) (<[id := u64 k']> (busyRef c)), false)
    (LRU (idle_images c) (<[id := k']> (busyRef c))).
Proof.
  intros (Hl & Hb & Ha) Hk Hk' Hn. rewrite u64_small by word_lia.
  split_and!; cbn [fst snd]; [|done|done|by right]. split_and!.
  - by apply lru_ok_busy.
  - split; cbn [busyRef busySize with_busy].
    + intros id' k''. rewrite lookup_insert_Some. intros [[<- <-]|[_ H]].
      * split; [done|]. by apply (bo_counts _ _ Hb) in Hk as [_ ?].
      * apply (bo_counts _ _ Hb) in H as [? ?]. split; [lia|done].
    + rewrite (bo_size _ _ Hb). symmetry. by eapply busy_total_update.
  - intros x Hx. cbn [busyRef with_busy]. rewrite lookup_insert_ne; [by apply Ha|]. intros ->.
    rewrite (Ha x Hx) in Hk. done.
Qed.

Lemma MarkBusy_ok n c img : cache_inv n c -> 0 <= n -> n + 1 < w64 -> image_ok img ->
  effect (n + 1) c (MarkBusy_locked c img) (if exempt (blacklistTags c) img then cache_abs c else lru_use (cache_abs c) img).
Proof.
  intros H Hn0 Hn [Hin Hsz]. unfold MarkBusy_locked. rewrite eligible_exempt.
  destruct (exempt _ _); [apply (no_effect n); [done|lia|done]|].
  unfold lru_use, users, addBusyLocked. cbn [busy idle cache_abs]. destruct (busyRef c !! img_ID img) as [k|] eqn:Hk; cbn [default from_option id].
  - pose proof (bo_counts _ _ (proj1 (proj2 H)) _ _ Hk) as [Hc _]. rewrite (Z.add_comm 1 k).
    rewrite remove_first_None. 2:{ apply find_first_None. intros x Hx. unfold same_ID. rewrite bool_decide_eq_false. intros E.
      rewrite <- E, (proj2 (proj2 H) x Hx) in Hk. done. }
    apply (recount n c _ k); [done|done|lia|done].
  - destruct H as (Hl & Hb & Ha). destruct (busy_fits _ _ _ Hb Hk Hin) as (B1 & B2 & B3).
    set (c1 := with_busy c (u64 (busySize c + img_Size img)) (<[img_ID img := 1]> (busyRef c))).
    destruct (rmLRU_ok c1 img (lru_ok_busy _ _ _ Hl)) as [Hl' Hi']. destruct (rmLRU_busy c1 img) as [E1 E2].
    assert (busy_ok (n + 1) c1) as Hb1.
    { split; cbn [busyRef busySize with_busy c1].
      - intros id k. rewrite lookup_insert_Some. intros [[<- <-]|[_ H]].
        + split; [lia|done].
        + apply (bo_counts _ _ Hb) in H as [? ?]. split; [lia|done].
      - rewrite Hsz, u64_small by word_lia. rewrite (bo_size _ _ Hb), Z.add_comm. symmetry.
        exact (busy_total_insert _ _ 1 Hk). }
    split_and!; cbn [fst snd].
    + split_and!; [done|by eapply busy_ok_same|]. intros x Hx. rewrite Hi' in Hx. rewrite E1. cbn [busyRef with_busy c1].
      rewrite lookup_insert_ne; [apply Ha; by apply remove_first_elem_of in Hx|]. intros E. symmetry in E. revert Hx E.
      apply gone_after_cut, (lo_ids _ Hl).
    + unfold cache_abs. rewrite Hi', E1. done.
    + exact (rmLRU_setup c1 img).
    + by left.
Qed.

Lemma MarkFree_ok n c img : cache_inv n c -> n + 1 < w64 -> image_ok img ->
  effect (n + 1) c (MarkFree_locked c img) (if exempt (blacklistTags c) img then cache_abs c else lru_release (cache_abs c) img).
Proof.
  intros H Hn Hi. unfold MarkFree_locked. rewrite eligible_exempt.
  destruct (exempt _ _); [apply (no_effect n); [done|lia|done]|].
  unfold lru_release, users, rmBusyLocked. cbn [busy idle cache_abs].
  destruct (busyRef c !! img_ID img) as [k|] eqn:Hk; [|apply (no_effect n); [done|lia|done]].
  pose proof (bo_counts _ _ (proj1 (proj2 H)) _ _ Hk) as [Hc Hin].
  change (default 0 (Some k)) with k. destruct (Z.ltb_spec 1 k); [apply (recount n c _ k); [done|done|lia|done]|].
  assert (k = 1) as -> by lia. destruct H as (Hl & Hb & Ha).
  set (c1 := with_busy c (u64 (busySize c - img_Size img)) (delete (img_ID img) (busyRef c))).
  destruct (addLRU_ok c1 img (lru_ok_busy _ _ _ Hl) Hi) as [Hl' Hi']. destruct (addLRU_busy c1 img) as [E1 E2].
  destruct Hi as [_ Hsz].
  assert (busy_ok (n + 1) c1) as Hb1.
  { split; cbn [busyRef busySize with_busy c1].
    - intros id k. rewrite lookup_delete_Some. intros [_ H']. apply (bo_counts _ _ Hb) in H' as [? ?]. split; [lia|done].
    - pose proof (busy_total_delete (busyRef c) (img_ID img) 1 Hk) as Hd.
      assert (0 <= busy_total size_of (LRU [] (delete (img_ID img) (busyRef c))) <= sumZ (size_of <$> ids)) as B.
      { rewrite busy_total_ids. cbn [busy]. apply sizes_of; [apply NoDup_fst_map_to_list|].
        intros id ([id' k'] & -> & Hk')%list_elem_of_fmap. apply elem_of_map_to_list in Hk'.
        apply lookup_delete_Some in Hk' as [_ Hk']. by apply (bo_counts _ _ Hb) in Hk' as [_ ?]. }
      rewrite Hsz, (bo_size _ _ Hb). unfold cache_abs, busy_total in *. cbn [busyRef with_busy c1 busy] in *.
      rewrite Hd. rewrite u64_small; [lia|]. word_lia. }
  split_and!; cbn [fst snd].
  - split_and!; [done|by eapply busy_ok_same|]. intros x Hx. rewrite Hi' in Hx. rewrite E1. cbn [busyRef with_busy c1].
    apply lookup_delete_None. apply touch_elem in Hx as [Hx| ->]; [right; by apply Ha|by left].
  - unfold cache_abs. rewrite Hi', E1. done.
  - exact (addLRU_setup c1 img).
  - by left.
Qed.

(** [Pop] takes the image at the back. *)
Lemma remove_last l img : NoDup (img_ID <$> l) -> last l = Some img ->
  remove_first (same_ID img) l = removelast l /\ img ∈ l.
Proof.
  intros Hn Hl. apply last_Some in Hl as [l' ->]. rewrite removelast_last. split; [|set_solver].
  induction l' as [|x l' IH]; cbn [app remove_first]; unfold same_ID at 1.
  - by rewrite bool_decide_eq_true_2.
  - rewrite fmap_app in *. cbn [app fmap list_fmap] in Hn. inversion_clear Hn as [|?? Hx Hn'].
    rewrite bool_decide_eq_false_2; [by rewrite IH|]. intros E. apply Hx. rewrite E. set_solver.
Qed.

Lemma Pop_ok n n' c : cache_inv n c -> n <= n' ->
  let (c', img) := Pop c in
  cache_inv n' c' /\ lru_oldest (cache_abs c) = (cache_abs c', img) /\ same_rest c c' /\
  (isMaxCapacityLocked c' = true -> isMaxCapacityLocked c = true).
Proof.
  intros H Hn. pose proof (totals_fit _ _ H) as (B1 & B2 & B3). destruct H as (Hl & Hb & Ha).
  unfold Pop, l_Back, lru_oldest. cbn [idle busy cache_abs].
  assert (last (idle_images c) = snd <$> last (gl_elems (lruList c))) as E by apply fmap_last.
  destruct (last (gl_elems (lruList c))) as [item|] eqn:Hlast; cbn [fmap option_fmap option_map] in E.
  - rewrite E. destruct (remove_last _ _ (lo_ids _ Hl) E) as [Hr Hin].
    destruct (rmLRU_ok c item.2 Hl) as [Hl' Hi']. destruct (rmLRU_busy c item.2) as [E1 E2].
    assert (cache_inv n' (rmLRULocked c item.2)) as Hinv.
    { split_and!; [done|eapply busy_ok_same; [done..|by eapply busy_ok_le]|].
      intros x Hx. rewrite Hi' in Hx. rewrite E1. apply Ha. by apply remove_first_elem_of in Hx. }
    pose proof (totals_fit _ _ Hinv) as (B1' & B2' & B3').
    split_and!; [done| |apply rmLRU_setup|].
    + unfold cache_abs. by rewrite Hi', Hr, E1.
    + assert (lruSize (rmLRULocked c item.2) <= lruSize c) as Hle.
      { rewrite (lo_size _ Hl), (lo_size _ Hl'). unfold idle_total. cbn [idle cache_abs]. rewrite Hi'.
        apply sumZ_submseteq; [|apply fmap_submseteq, sublist_submseteq, remove_first_sublist].
        apply Forall_fmap, Forall_forall. intros x Hx. pose proof sizes_nonneg as Hz. rewrite Forall_forall in Hz.
        apply Hz. apply (idle_in c); [done|]. apply list_elem_of_fmap. by exists x. }
      unfold isMaxCapacityLocked. rewrite E2, (proj1 (proj1 (rmLRU_setup c item.2))).
      rewrite !u64_small by word_lia. rewrite !andb_true_iff, !Z.ltb_lt, !Z.leb_le. lia.
  - split_and!; [by split_and!; [done|eapply busy_ok_le|done]| |done..]. rewrite E.
    apply last_None in E. unfold cache_abs. by rewrite E.
Qed.

Lemma cache_inv_new tags max : cache_inv 0 (NewImageCache tags max).
Proof.
  split_and!; [split|split|].
  - constructor.
  - constructor.
  - constructor.
  - intros id e. cbn. rewrite lookup_empty. split; [done|]. intros [H _]. by apply not_elem_of_nil in H.
  - constructor.
  - done.
  - intros id k. cbn. by rewrite lookup_empty.
  - done.
  - intros x Hx. by apply not_elem_of_nil in Hx.
Qed.

Lemma notified_ok n c r s : effect n c r s ->
  cache_inv n (notified r) /\ cache_abs (notified r) = s /\ same_setup c (notified r).
Proof.
  intros ((Hl & Hb & Ha) & Hs & [Hset _] & _). unfold notified. destruct r.2; [|done].
  split_and!; [|done|exact Hset]. split_and!; [by destruct Hl; split|by destruct Hb; split|done].
Qed.

Lemma counts_agree c : lru_ok c -> size (lruMap c) = length (idle_images c).
Proof.
  intros H.
  assert (lruMap c = list_to_map ((fun e => (img_ID e.2, e)) <$> gl_elems (lruList c))) as ->.
  { apply map_eq. intros id. apply option_eq. intros e. rewrite (lo_map _ H).
    rewrite <- elem_of_list_to_map.
    - rewrite list_elem_of_fmap. split; [intros [He <-]; by exists e|intros (e' & [= -> ->] & He); done].
    - rewrite <- list_fmap_compose. pose proof (lo_ids _ H) as Hn. unfold idle_images in Hn.
      by rewrite <- list_fmap_compose in Hn. }
  unfold idle_images. rewrite map_size_list_to_map; [by rewrite !length_fmap|].
  rewrite <- list_fmap_compose. pose proof (lo_ids _ H) as Hn. unfold idle_images in Hn.
  by rewrite <- list_fmap_compose in Hn.
Qed.

Lemma call_ok n c o : cache_inv n c -> 0 <= n -> n + 1 < w64 -> (forall img, op_image o = Some img -> image_ok img) ->
  let (c', x) := cache_call c o in
  cache_inv (n + 1) c' /\ lru_call size_of (blacklistTags c) (maxSize c) (cache_abs c) o = (cache_abs c', x) /\ same_setup c c'.
Proof.
  intros H Hn0 Hn Hi. destruct o as [img|img|img| | |]; cbn [cache_call lru_call]; unfold Update, MarkBusy, MarkFree.
  - destruct (notified_ok _ _ _ _ (Update_ok n (n + 1) c img H ltac:(lia) (Hi _ eq_refl))) as (? & -> & ?). done.
  - destruct (notified_ok _ _ _ _ (MarkBusy_ok n c img H Hn0 Hn (Hi _ eq_refl))) as (? & -> & ?). done.
  - destruct (notified_ok _ _ _ _ (MarkFree_ok n c img H Hn (Hi _ eq_refl))) as (? & -> & ?). done.
  - pose proof (Pop_ok n (n + 1) c H ltac:(lia)) as Hp. destruct (Pop c) as [c' img]. destruct Hp as (? & -> & [? _] & _). done.
  - pose proof (totals_fit _ _ H) as (B1 & B2 & B3).
    destruct (no_effect n (n + 1) c _ H ltac:(lia) eq_refl) as (Hinv & _ & [Hs _] & _). split; [exact Hinv|]. split; [|exact Hs].
    do 2 f_equal. unfold over, IsMaxCapacity, isMaxCapacityLocked. destruct H as (Hl & Hb & _).
    rewrite (lo_size _ Hl), (bo_size _ _ Hb) in *. by rewrite u64_small by word_lia.
  - destruct (no_effect n (n + 1) c _ H ltac:(lia) eq_refl) as (Hinv & _ & [Hs _] & _). split; [exact Hinv|]. split; [|exact Hs].
    do 2 f_equal. unfold GetStats. destruct H as (Hl & Hb & _). rewrite (lo_size _ Hl), (bo_size _ _ Hb), (counts_agree _ Hl). done.
Qed.

Lemma run_ok ops : forall n c, cache_inv n c -> 0 <= n -> n + Z.of_nat (length ops) < w64 ->
  Forall (fun o => forall img, op_image o = Some img -> image_ok img) ops ->
  (run_calls (lru_call size_of (blacklistTags c) (maxSize c)) (cache_abs c) ops) =
  (let (c', xs) := run_calls cache_call c ops in (cache_abs c', xs)) /\
  exists n', cache_inv n' (run_calls cache_call c ops).1.
Proof.
  induction ops as [|o ops IH]; intros n c H Hn Hlen Hops; [split; [done|by exists n]|].
  inversion_clear Hops as [|?? Ho Hr]. cbn [length] in Hlen. cbn [run_calls].
  pose proof (call_ok n c o H Hn ltac:(lia) Ho) as Hc. destruct (cache_call c o) as [c' x].
  destruct Hc as (H' & -> & Em & Eb). specialize (IH (n + 1) c' H' ltac:(lia) ltac:(lia) Hr). rewrite Em, Eb in IH.
  destruct IH as [E Hi]. rewrite E. destruct (run_calls cache_call c' ops) as [c'' xs]. done.
Qed.
End CacheInvariant.

(** C12: whatever calls are made, clients of the image cache see a list of idle
    images ordered by use and a count per image in use: [Pop] gives the least
    recently used idle image, an image in use is never idle, sizes and counts are
    those of the images, and the cache is over its limit exactly when an idle image
    has a size and all sizes together reach the limit - as long as an id fixes the
    size and the machine's images fit 64 bits. *)
Theorem imageCacher_refines size_of ids tags max ops :
  Forall (fun id => 0 <= size_of id) ids -> sumZ (size_of <$> ids) < w64 -> Z.of_nat (length ops) < w64 ->
  Forall (fun o => forall img, op_image o = Some img -> image_ok size_of ids img) ops ->
  let (s, seen) := run_calls (lru_call size_of (list_to_set tags) max) (LRU [] ∅) ops in
  (run_calls cache_call (NewImageCache tags max) ops).2 = seen /\
  NoDup (img_ID <$> idle s) /\ (forall img, img ∈ idle s -> users s (img_ID img) = 0).
Proof.
  intros Hz Hfit Hlen Hops.
  destruct (run_ok size_of ids Hz Hfit ops 0 (NewImageCache tags max)) as [E [n Hi]];
    [apply cache_inv_new|done|lia|done|].
  change (cache_abs (NewImageCache tags max)) with (LRU [] ∅) in E. cbn [blacklistTags maxSize NewImageCache] in E.
  rewrite E. destruct (run_calls cache_call (NewImageCache tags max) ops) as [c xs]. destruct Hi as (Hl & _ & Ha).
  split; [done|]. split; [apply (lo_ids _ _ _ Hl)|]. intros img Himg. unfold users. cbn [busy cache_abs].
  cbn [fst] in Ha. by rewrite (Ha _ Himg).
Qed.

Definition demo_a : CachedImage := Img "a" "" ["a:1"%string] 10.
Definition demo_b : CachedImage := Img "b" "" [] 20.
Definition demo_kept : CachedImage := Img "s" "" ["keep"%string] 5.
Definition demo_size (id : string) : Z := match id with "a" => 10 | "b" => 20 | _ => 5 end%string.
Definition demo_calls : list cache_op :=
  [OUpdate demo_kept; OUpdate demo_a; OUpdate demo_b; OMax; OUpdate demo_a; OBusy demo_b; OBusy demo_b; OPop; OPop;
   OFree demo_b; OPop; OFree demo_b; OStats; OPop].

Lemma imageCacher_refines_witness :
  (run_calls cache_call (NewImageCache ["keep"%string] 30) demo_calls).2 =
    (run_calls (lru_call demo_size (list_to_set ["keep"%string]) 30) (LRU [] ∅) demo_calls).2 /\
  (run_calls cache_call (NewImageCache ["keep"%string] 30) demo_calls).2 =
    [SNothing; SNothing; SNothing; SMax true; SNothing; SNothing; SNothing; SImage (Some demo_a); SImage None; SNothing;
     SImage None; SNothing; SStats (CacherStats 0 0 20 1 30); SImage (Some demo_b)].
Proof.
  pose proof (imageCacher_refines demo_size ["a"; "b"; "s"]%string ["keep"%string] 30 demo_calls) as H.
  split; [|by vm_compute]. destruct (run_calls (lru_call _ _ _) _ _) as [st seen] eqn:E. apply H.
  - repeat constructor; by vm_compute.
  - by vm_compute.
  - by vm_compute.
  - assert (image_ok demo_size ["a"; "b"; "s"]%string demo_a) by (split; [apply list_elem_of_In; left|]; reflexivity).
    assert (image_ok demo_size ["a"; "b"; "s"]%string demo_b) by (split; [apply list_elem_of_In; right; left|]; reflexivity).
    assert (image_ok demo_size ["a"; "b"; "s"]%string demo_kept) by (split; [apply list_elem_of_In; do 2 right; left|]; reflexivity).
    unfold demo_calls. repeat (apply Forall_cons_2; [intros img Himg; by inversion Himg; subst|]). apply Forall_nil_2.
Defined.

(** The check for an idle image asks for its size: an idle image of size 0 does not
    count, contrary to what the comment of the method says. *)
Example empty_image_never_max :
  let c := Update (NewImageCache [] 0) (Img "scratch" "" [] 0) in
  l_Back (lruList c) <> None /\ IsMaxCapacity c = false.
Proof. split; [by vm_compute|by vm_compute]. Qed.
