(* ===== verification/ImagePuller.v ===== *)
(** * Pulling images (src/api/agent/drivers/docker/image_puller.go)

    Requests for an image that is being pulled with the same credentials join the
    pull under way: a [transfer] has one goroutine, which pulls with retries, and
    one buffered channel per request, on which the result is delivered.  The
    registry of transfers and their listeners change under one lock; the
    transition system [pull_step] interleaves those critical sections with docker
    and the requests. *)
From S2P Require Import Prelude Errors Sync.
From Stdlib Require Import Ascii.
Import Prelude.

Inductive pull_err := PDocker (status : Z) (message : string) | POther (e : gerr).

(** A channel of [error]s with room for one. *)
Record chan := Chan { ch_buf : option gerr; ch_closed : bool }.
Definition make_chan : chan := Chan None false.
(** [Err]: the operation blocks. *)
Definition ch_send (c : chan) (e : gerr) : outcome unit chan :=
  if ch_closed c then Panic else match ch_buf c with Some _ => Err tt | None => Ok (Chan (Some e) false) end.
Definition ch_close (c : chan) : outcome unit chan := if ch_closed c then Panic else Ok (Chan (ch_buf c) true).
(** A receive: the value, or nil from a closed channel. *)
Definition ch_recv (c : chan) : outcome unit (chan * option gerr) :=
  match ch_buf c with
  | Some e => Ok (Chan None (ch_closed c), Some e)
  | None => if ch_closed c then Ok (c, None) else Err tt
  end.

Section Puller.
  (** [docker.AuthConfiguration] and how [%+v] prints it; the "message" of a JSON
      text, if it is JSON; the retry policy. *)
  Context {A : Type} (show : A -> string) (json_message : string -> option string).
  Context (isRetriable : option pull_err -> bool) (backOffCfg : BackOffConfig).

Record pull_request := Request { pq_cfg : A; pq_img : string; pq_repo : string; pq_tag : string }.
Definition transfer_key (q : pull_request) : string := pq_repo q ++ " " ++ pq_tag q ++ " " ++ show (pq_cfg q).

(** A transfer: its key, the request that started it, the channels of all. *)
Record transfer := Transfer { tx_key : string; tx_req : pull_request; tx_listeners : list nat }.

(** Where its goroutine is: about to start; docker pulls; a retry is due; the pull
    has ended; the listeners were told. *)
Inductive phase :=
| TStart | TCall (b : backoff) | TWait (b : backoff) | TEnd (err : option pull_err) | TDone (ferr : option gerr).

Record imagePuller := Puller {
  transfers : gmap string nat;
  heap : list (transfer * phase);
  chans : list chan;
  (* per request: what it asked, the transfer it joined, its answer *)
  asked : list pull_request;
  joined : list nat;
  answers : list (option (option gerr));
  (* per transfer: the calls to docker that have returned *)
  pulls : list Z
}.

Definition NewImagePuller : imagePuller := Puller ∅ [] [] [] [] [] [].

Definition set_phase (s : imagePuller) (t : nat) (tx : transfer) (ph : phase) : imagePuller :=
  Puller (transfers s) (<[t := (tx, ph)]> (heap s)) (chans s) (asked s) (joined s) (answers s) (pulls s).

(** [newTransfer]: the critical section; a new transfer is at [TStart]. *)
Definition newTransfer (s : imagePuller) (q : pull_request) : outcome unit imagePuller :=
  let key := transfer_key q in
  let errC := length (chans s) in
  let join t h m ps :=
    match h !! t with
    | Some (trx, ph) =>
        Ok (Puller m (<[t := (Transfer (tx_key trx) (tx_req trx) (tx_listeners trx ++ [errC]), ph)]> h)
              (chans s ++ [make_chan]) (asked s ++ [q]) (joined s ++ [t]) (answers s ++ [None]) ps)
    | None => Panic
    end in
  match transfers s !! key with
  | Some t => join t (heap s) (transfers s) (pulls s)
  | None =>
      let t := length (heap s) in
      join t (heap s ++ [(Transfer key q [], TStart)]) (<[key := t]> (transfers s)) (pulls s ++ [0])
  end.

(** [pullWithRetry] after a call to docker returned [err]; [r] is a random word. *)
Definition after_pull (b : backoff) (err : option pull_err) (r : Z) : outcome unit phase :=
  if negb (isRetriable err) then Ok (TEnd err)
  else let! x := NextBackOff b r in Ok (if x.2.2 then TWait x.1 else TEnd err).

Definition dockerMsg (message : string) : string := default message (json_message message).

Definition final_error (img : string) (err : option pull_err) : option gerr :=
  match err with
  | None => None
  | Some e =>
      let (msg, code) := match e with
                         | PDocker st m => (dockerMsg m, if (400 <=? st) && (st <? 500) then st else 502)
                         | POther e => (error_msg e, 502)
                         end in
      Some (NewFuncError (NewAPIError code ("Failed to pull image '" ++ img ++ "': " ++ msg)))
  end.

(** The end of [startTransfer], under the lock. *)
Fixpoint notify (cs : list chan) (ls : list nat) (ferr : option gerr) : outcome unit (list chan) :=
  match ls with
  | [] => Ok cs
  | i :: ls =>
      match cs !! i with
      | None => Panic
      | Some c =>
          let! c := match ferr with Some e => ch_send c e | None => Ok c end in
          let! c := ch_close c in
          notify (<[i := c]> cs) ls ferr
      end
  end.
Definition finish_transfer (s : imagePuller) (t : nat) (tx : transfer) (err : option pull_err) : outcome unit imagePuller :=
  let ferr := final_error (pq_img (tx_req tx)) err in
  let! cs := notify (chans s) (tx_listeners tx) ferr in
  Ok (Puller (delete (tx_key tx) (transfers s)) (<[t := (tx, TDone ferr)]> (heap s)) cs
        (asked s) (joined s) (answers s) (pulls s)).

(** One step; [true]: the agent's own, [false]: a new request, docker, a context. *)
Inductive pull_step : bool -> imagePuller -> imagePuller -> Prop :=
| pl_request s s' q : newTransfer s q = Ok s' -> pull_step false s s'
| pl_start s t tx b : heap s !! t = Some (tx, TStart) -> NewBackOff backOffCfg = Ok b ->
    pull_step true s (set_phase s t tx (TCall b))
| pl_pulled s t tx b err r ph n : heap s !! t = Some (tx, TCall b) -> is_u64 r -> after_pull b err r = Ok ph ->
    pulls s !! t = Some n ->
    pull_step false s (Puller (transfers s) (<[t := (tx, ph)]> (heap s)) (chans s) (asked s) (joined s) (answers s)
                         (<[t := n + 1]> (pulls s)))
| pl_timer s t tx b : heap s !! t = Some (tx, TWait b) -> pull_step true s (set_phase s t tx (TCall b))
| pl_ctx s t tx b e : heap s !! t = Some (tx, TWait b) -> e = ECanceled \/ e = EDeadlineExceeded ->
    pull_step false s (set_phase s t tx (TEnd (Some (POther e))))
| pl_notify s s' t tx err : heap s !! t = Some (tx, TEnd err) -> finish_transfer s t tx err = Ok s' -> pull_step true s s'
| pl_recv s i c c' r : chans s !! i = Some c -> answers s !! i = Some None -> ch_recv c = Ok (c', r) ->
    pull_step true s (Puller (transfers s) (heap s) (<[i := c']> (chans s)) (asked s) (joined s)
                        (<[i := Some r]> (answers s)) (pulls s)).

Definition pull_reach (s : imagePuller) : Prop := rtc (fun a b => exists o, pull_step o a b) NewImagePuller s.

(** ** The invariant *)

Definition running (ph : phase) : bool := match ph with TDone _ => false | _ => true end.

(** A request's channel and answer, by the phase of its transfer. *)
Definition told (ph : phase) (c : chan) (ans : option (option gerr)) : Prop :=
  match ph with
  | TDone ferr => ch_closed c = true /\ match ans with None => ch_buf c = ferr | Some r => r = ferr /\ ch_buf c = None end
  | _ => c = make_chan /\ ans = None
  end.

(** Retries left: the counter of the back-off against the calls made. *)
Definition within_budget (ph : phase) (n : Z) : Prop :=
  match ph with
  | TStart => n = 0
  | TCall b => cfg b = backOffCfg /\ 1 <= pow b < w64 /\ 0 <= attempts b <= MaxRetries backOffCfg /\ n = attempts b
  | TWait b => cfg b = backOffCfg /\ 1 <= pow b < w64 /\ 0 <= attempts b <= MaxRetries backOffCfg /\ n = attempts b
  | _ => 0 <= n <= MaxRetries backOffCfg + 1
  end.

Record pull_inv (s : imagePuller) : Prop := {
  pv_map : forall k t, transfers s !! k = Some t <->
    exists tx ph, heap s !! t = Some (tx, ph) /\ tx_key tx = k /\ running ph = true;
  pv_len : length (asked s) = length (chans s) /\ length (joined s) = length (chans s) /\
           length (answers s) = length (chans s) /\ length (pulls s) = length (heap s);
  pv_listen : forall t tx ph, heap s !! t = Some (tx, ph) ->
    NoDup (tx_listeners tx) /\ (forall i, i ∈ tx_listeners tx <-> joined s !! i = Some t) /\
    tx_key tx = transfer_key (tx_req tx);
  pv_told : forall i t c ans, joined s !! i = Some t -> chans s !! i = Some c -> answers s !! i = Some ans ->
    exists tx ph, heap s !! t = Some (tx, ph) /\ told ph c ans;
  pv_key : forall i t q, joined s !! i = Some t -> asked s !! i = Some q ->
    exists tx ph, heap s !! t = Some (tx, ph) /\ tx_key tx = transfer_key q;
  pv_budget : forall t tx ph n, heap s !! t = Some (tx, ph) -> pulls s !! t = Some n -> within_budget ph n
}.

Context (policy_ok : MaxRetries backOffCfg = 0 \/ (cfg_ok backOffCfg /\ 0 < MaxRetries backOffCfg < RetryForever)).

Lemma budget_pos : 0 <= MaxRetries backOffCfg.
Proof. destruct policy_ok as [->|[_ ?]]; lia. Qed.

Lemma pull_phase_inv s t tx ph ph' ps : pull_inv s -> heap s !! t = Some (tx, ph) -> running ph = true -> running ph' = true ->
  length ps = length (pulls s) -> (forall t', t' <> t -> ps !! t' = pulls s !! t') ->
  (forall n, ps !! t = Some n -> within_budget ph' n) ->
  pull_inv (Puller (transfers s) (<[t := (tx, ph')]> (heap s)) (chans s) (asked s) (joined s) (answers s) ps).
Proof.
  intros H Ht Hr Hr' Hlen Hps Hb. destruct (pv_len _ H) as (L1 & L2 & L3 & L4).
  assert (forall t' e, <[t := (tx, ph')]> (heap s) !! t' = Some e ->
    (t' = t /\ e = (tx, ph')) \/ (t' <> t /\ heap s !! t' = Some e)) as Hi.
  { intros t' e. rewrite (insert_lookup _ _ _ _ _ Ht). case_decide; [intros [= <-]; by left|by right]. }
  assert (forall t' tx' ph0, heap s !! t' = Some (tx', ph0) ->
    exists ph1, <[t := (tx, ph')]> (heap s) !! t' = Some (tx', ph1) /\ ((t' = t /\ ph1 = ph' /\ ph0 = ph) \/ (t' <> t /\ ph1 = ph0))) as Hj.
  { intros t' tx' ph0 Hh. rewrite (insert_lookup _ _ _ _ _ Ht). case_decide; [|exists ph0; auto].
    subst t'. rewrite Ht in Hh. injection Hh as <- <-. exists ph'. auto. }
  split; cbn.
  - intros k t'. rewrite (pv_map _ H). split.
    + intros (tx' & ph0 & Hh & Hk & Hrun). destruct (Hj _ _ _ Hh) as (ph1 & Hh1 & Hc). exists tx', ph1.
      split; [done|]. split; [done|]. naive_solver.
    + intros (tx' & ph0 & Hh & Hk & Hrun). apply Hi in Hh as [[-> [= -> ->]]|[Hne Hh]]; eauto.
  - by rewrite length_insert, Hlen.
  - intros t' tx' ph0 Hh. apply Hi in Hh as [[-> [= -> ->]]|[Hne Hh]]; by eapply (pv_listen _ H).
  - intros i t' c ans Hjo Hc Ha. destruct (pv_told _ H i t' c ans Hjo Hc Ha) as (tx' & ph0 & Hh & Htold).
    destruct (Hj _ _ _ Hh) as (ph1 & Hh1 & [(-> & -> & ->)|[_ ->]]); exists tx', ph0 || exists tx', ph'; [|done].
    split; [done|]. by destruct ph, ph'.
  - intros i t' q Hjo Hq. destruct (pv_key _ H i t' q Hjo Hq) as (tx' & ph0 & Hh & Hk).
    destruct (Hj _ _ _ Hh) as (ph1 & Hh1 & _). eauto.
  - intros t' tx' ph0 n Hh Hn. apply Hi in Hh as [[-> [= -> ->]]|[Hne Hh]]; [by apply Hb|].
    rewrite Hps in Hn by done. by eapply (pv_budget _ H).
Qed.

Lemma fresh_inv s q : pull_inv s -> transfers s !! transfer_key q = None ->
  pull_inv (Puller (<[transfer_key q := length (heap s)]> (transfers s)) (heap s ++ [(Transfer (transfer_key q) q [], TStart)])
              (chans s) (asked s) (joined s) (answers s) (pulls s ++ [0])).
Proof.
  intros H Hnew. destruct (pv_len _ H) as (L1 & L2 & L3 & L4).
  assert (forall i, joined s !! i <> Some (length (heap s))) as Hno.
  { intros i Hj. destruct (chans s !! i) as [c|] eqn:Hc.
    - destruct (answers s !! i) as [ans|] eqn:Ha.
      + destruct (pv_told _ H i _ c ans Hj Hc Ha) as (tx & ph & Hh & _). apply lookup_lt_Some in Hh. lia.
      + apply lookup_ge_None in Ha. apply lookup_lt_Some in Hc. lia.
    - apply lookup_ge_None in Hc. apply lookup_lt_Some in Hj. lia. }
  split; cbn.
  - intros k t. rewrite lookup_insert_Some, (pv_map _ H). split.
    + intros [[<- <-]|(Hne & tx & ph & Hh & Hk & Hr)].
      * eexists _, _. rewrite list_lookup_middle by done. done.
      * exists tx, ph. split; [by apply lookup_app_l_Some|done].
    + intros (tx & ph & Hh & Hk & Hr). apply lookup_app_Some in Hh as [Hh|[Hge Hh]].
      * right. split; [|by eauto]. intros E. rewrite E in Hnew.
        assert (transfers s !! k = Some t) as Hm by (apply (pv_map _ H); eauto). congruence.
      * left. apply list_lookup_singleton_Some in Hh as [Hz [= <- <-]]. split; [done|lia].
  - rewrite !length_app. cbn. split_and!; [done..|lia].
  - intros t tx ph Hh. apply lookup_app_Some in Hh as [Hh|[Hge Hh]]; [by eapply (pv_listen _ H)|].
    apply list_lookup_singleton_Some in Hh as [Hz [= <- <-]]. cbn. split_and!; [constructor| |done].
    intros i. split; [intros Hi; by apply not_elem_of_nil in Hi|]. intros Hj. destruct (Hno i). rewrite Hj. f_equal. lia.
  - intros i t c ans Hj Hc Ha. destruct (pv_told _ H i t c ans Hj Hc Ha) as (tx & ph & Hh & ?). exists tx, ph.
    split; [by apply lookup_app_l_Some|done].
  - intros i t q' Hj Hq. destruct (pv_key _ H i t q' Hj Hq) as (tx & ph & Hh & ?). exists tx, ph.
    split; [by apply lookup_app_l_Some|done].
  - intros t tx ph n Hh Hn. apply lookup_app_Some in Hh as [Hh|[Hge Hh]].
    + apply (pv_budget _ H t tx ph n Hh). apply lookup_lt_Some in Hh. by rewrite lookup_app_l in Hn by lia.
    + apply list_lookup_singleton_Some in Hh as [Hz [= <- <-]]. rewrite lookup_app_r in Hn by lia.
      apply list_lookup_singleton_Some in Hn as [_ <-]. done.
Qed.

Lemma join_inv s q t trx ph : pull_inv s -> heap s !! t = Some (trx, ph) -> running ph = true -> tx_key trx = transfer_key q ->
  pull_inv (Puller (transfers s)
    (<[t := (Transfer (tx_key trx) (tx_req trx) (tx_listeners trx ++ [length (chans s)]), ph)]> (heap s))
    (chans s ++ [make_chan]) (asked s ++ [q]) (joined s ++ [t]) (answers s ++ [None]) (pulls s)).
Proof.
  intros H Ht Hr Hk. destruct (pv_len _ H) as (L1 & L2 & L3 & L4).
  set (trx' := Transfer (tx_key trx) (tx_req trx) (tx_listeners trx ++ [length (chans s)])).
  assert (forall t' tx' ph', <[t := (trx', ph)]> (heap s) !! t' = Some (tx', ph') ->
    exists tx, heap s !! t' = Some (tx, ph') /\ tx_key tx' = tx_key tx /\ tx_req tx' = tx_req tx /\
      tx_listeners tx' = tx_listeners tx ++ (if decide (t' = t) then [length (chans s)] else [])) as Hi.
  { intros t' tx' ph'. rewrite (insert_lookup _ _ _ _ _ Ht). case_decide; [intros [= <- <-]; subst; exists trx; done|].
    intros Hh. exists tx'. by rewrite app_nil_r. }
  assert (forall t' tx ph', heap s !! t' = Some (tx, ph') ->
    exists tx', <[t := (trx', ph)]> (heap s) !! t' = Some (tx', ph') /\ tx_key tx' = tx_key tx) as Hj.
  { intros t' tx ph' Hh. rewrite (insert_lookup _ _ _ _ _ Ht). case_decide; [|by exists tx].
    subst t'. rewrite Ht in Hh. injection Hh as <- <-. by exists trx'. }
  assert (forall t' i, joined s !! i = Some t' -> (i < length (chans s))%nat) as Hjl.
  { intros t' i Hji. apply lookup_lt_Some in Hji. lia. }
  split; cbn.
  - intros k t'. rewrite (pv_map _ H). split.
    + intros (tx & ph' & Hh & Hk' & Hrun). destruct (Hj _ _ _ Hh) as (tx' & Hh' & E). exists tx', ph'. by rewrite E.
    + intros (tx' & ph' & Hh & Hk' & Hrun). destruct (Hi _ _ _ Hh) as (tx & Hh' & E & _). exists tx, ph'. by rewrite <- E.
  - rewrite !length_app, length_insert. cbn. lia.
  - intros t' tx' ph' Hh. destruct (Hi _ _ _ Hh) as (tx & Hh' & E1 & E2 & E3).
    destruct (pv_listen _ H t' tx ph' Hh') as (Hn & Hl & Hkey). rewrite E1, E2, E3. split_and!; [| |done].
    + case_decide; [|by rewrite app_nil_r]. apply NoDup_snoc; [|done]. intros Hin. apply Hl in Hin. apply Hjl in Hin. lia.
    + intros i. rewrite elem_of_app, Hl. split.
      * intros [Hji|Hin]; [by apply lookup_app_l_Some|]. case_decide; [|by apply not_elem_of_nil in Hin].
        apply list_elem_of_singleton in Hin as ->. rewrite lookup_app_r by lia. rewrite L2, Nat.sub_diag. subst. done.
      * intros Hji. apply lookup_app_Some in Hji as [Hji|[Hge Hji]]; [by left|].
        apply list_lookup_singleton_Some in Hji as [Hz <-]. right. rewrite decide_True by done.
        apply list_elem_of_singleton. lia.
  - intros i t' c ans Hji Hc Ha. apply lookup_app_Some in Hji as [Hji|[Hge Hji]].
    + pose proof (Hjl _ _ Hji). rewrite lookup_app_l in Hc by lia. rewrite lookup_app_l in Ha by lia.
      destruct (pv_told _ H i t' c ans Hji Hc Ha) as (tx & ph' & Hh & Htold). destruct (Hj _ _ _ Hh) as (tx' & Hh' & _). eauto.
    + apply list_lookup_singleton_Some in Hji as [Hz <-]. rewrite lookup_app_r in Hc by lia. rewrite lookup_app_r in Ha by lia.
      apply list_lookup_singleton_Some in Hc as [_ <-]. apply list_lookup_singleton_Some in Ha as [_ <-].
      destruct (Hj _ _ _ Ht) as (tx' & Hh' & _). exists tx', ph. split; [done|]. by destruct ph.
  - intros i t' q' Hji Hq. apply lookup_app_Some in Hji as [Hji|[Hge Hji]].
    + pose proof (Hjl _ _ Hji). rewrite lookup_app_l in Hq by lia.
      destruct (pv_key _ H i t' q' Hji Hq) as (tx & ph' & Hh & E). destruct (Hj _ _ _ Hh) as (tx' & Hh' & E').
      exists tx', ph'. by rewrite E'.
    + apply list_lookup_singleton_Some in Hji as [Hz <-]. rewrite lookup_app_r in Hq by lia.
      apply list_lookup_singleton_Some in Hq as [_ <-]. destruct (Hj _ _ _ Ht) as (tx' & Hh' & E'). exists tx', ph. by rewrite E'.
  - intros t' tx' ph' n Hh Hn. destruct (Hi _ _ _ Hh) as (tx & Hh' & _). by eapply (pv_budget _ H).
Qed.

Lemma request_ok s q : pull_inv s -> exists s', newTransfer s q = Ok s' /\ pull_inv s'.
Proof.
  intros H. unfold newTransfer. destruct (transfers s !! transfer_key q) as [t|] eqn:E.
  - pose proof E as E'. apply (pv_map _ H) in E' as (tx & ph & Ht & Hk & Hr). rewrite Ht. eexists. split; [reflexivity|].
    by apply join_inv.
  - rewrite list_lookup_middle by done. eexists. split; [reflexivity|].
    apply (join_inv _ q _ _ _ (fresh_inv s q H E)); [|done..]. cbn. by rewrite list_lookup_middle.
Qed.

(** Nobody else sends on the channels of a transfer, so that its answer neither
    blocks nor hits a closed channel. *)
Definition told_now (ferr : option gerr) : chan := Chan ferr true.
Lemma notify_ok ferr ls : forall cs, NoDup ls -> (forall i, i ∈ ls -> cs !! i = Some make_chan) ->
  exists cs', notify cs ls ferr = Ok cs' /\ length cs' = length cs /\
    (forall i, i ∈ ls -> cs' !! i = Some (told_now ferr)) /\ (forall i, i ∉ ls -> cs' !! i = cs !! i).
Proof.
  induction ls as [|i ls IH]; intros cs Hn Hc; cbn [notify].
  - exists cs. split_and!; [done|done| |done]. intros i Hi. by apply not_elem_of_nil in Hi.
  - rewrite (Hc i ltac:(left)). inversion_clear Hn as [|?? Hi Hn'].
    assert ((let! c := match ferr with Some e => ch_send make_chan e | None => Ok make_chan end in
             let! c := ch_close c in notify (<[i := c]> cs) ls ferr) = notify (<[i := told_now ferr]> cs) ls ferr) as ->
      by by destruct ferr.
    pose proof (lookup_lt_Some _ _ _ (Hc i ltac:(left))) as Hlt.
    destruct (IH (<[i := told_now ferr]> cs) Hn') as (cs' & E & Hl & Hin & Hout).
    { intros j Hj. rewrite list_lookup_insert_ne; [apply Hc; by right|]. intros ->. done. }
    exists cs'. rewrite E, Hl, length_insert. split_and!; [done|done| |].
    + intros j [->|Hj]%elem_of_cons; [|by apply Hin]. rewrite Hout by done. by rewrite list_lookup_insert_eq.
    + intros j [Hne Hj]%not_elem_of_cons. rewrite Hout by done. by rewrite list_lookup_insert_ne.
Qed.

Lemma request_state s i t : pull_inv s -> joined s !! i = Some t ->
  exists c ans q tx ph, chans s !! i = Some c /\ answers s !! i = Some ans /\ asked s !! i = Some q /\
    heap s !! t = Some (tx, ph) /\ told ph c ans /\ tx_key tx = transfer_key q.
Proof.
  intros H Hj. destruct (pv_len _ H) as (L1 & L2 & L3 & L4). pose proof (lookup_lt_Some _ _ _ Hj) as Hlt.
  destruct (lookup_lt_is_Some_2 (chans s) i ltac:(lia)) as [c Hc].
  destruct (lookup_lt_is_Some_2 (answers s) i ltac:(lia)) as [ans Ha].
  destruct (lookup_lt_is_Some_2 (asked s) i ltac:(lia)) as [q Hq].
  destruct (pv_told _ H i t c ans Hj Hc Ha) as (tx & ph & Ht & Htold).
  destruct (pv_key _ H i t q Hj Hq) as (tx' & ph' & Ht' & Hk). simplify_eq. eauto 15.
Qed.

Lemma finish_transfer_ok s t tx err : pull_inv s -> heap s !! t = Some (tx, TEnd err) ->
  exists s', finish_transfer s t tx err = Ok s' /\ pull_inv s'.
Proof.
  intros H Ht. unfold finish_transfer. destruct (pv_len _ H) as (L1 & L2 & L3 & L4).
  destruct (pv_listen _ H t tx _ Ht) as (Hn & Hl & Hkey). set (ferr := final_error _ err).
  destruct (notify_ok ferr (tx_listeners tx) (chans s) Hn) as (cs & -> & Hlen & Hin & Hout).
  { intros i Hi. apply Hl in Hi. destruct (request_state s i t H Hi) as (c & ans & q & tx' & ph' & Hc & _ & _ & Ht' & Htold & _).
    rewrite Ht in Ht'. simplify_eq. by destruct Htold as [-> _]. }
  eexists. split; [reflexivity|]. cbn [obind].
  assert (forall t' e, <[t := (tx, TDone ferr)]> (heap s) !! t' = Some e ->
    (t' = t /\ e = (tx, TDone ferr)) \/ (t' <> t /\ heap s !! t' = Some e)) as Hi.
  { intros t' e. rewrite (insert_lookup _ _ _ _ _ Ht). case_decide; [intros [= <-]; by left|by right]. }
  split; cbn.
  - intros k t'. rewrite lookup_delete_Some, (pv_map _ H). split.
    + intros (Hne & tx' & ph' & Hh & Hk & Hrun). exists tx', ph'. split; [|done].
      rewrite list_lookup_insert_ne; [done|]. intros <-. rewrite Ht in Hh. by simplify_eq.
    + intros (tx' & ph' & Hh & Hk & Hrun). apply Hi in Hh as [[-> [= -> ->]]|[Hne Hh]]; [done|].
      split; [|by eauto]. intros E.
      assert (transfers s !! k = Some t') as M1 by (apply (pv_map _ H); eauto).
      assert (transfers s !! k = Some t) as M2 by (apply (pv_map _ H); eauto). congruence.
  - rewrite Hlen, length_insert. done.
  - intros t' tx' ph' Hh. apply Hi in Hh as [[-> [= -> ->]]|[Hne Hh]]; by eapply (pv_listen _ H).
  - intros i t' c ans Hj Hc Ha. destruct (decide (t' = t)) as [->|Hne].
    + exists tx, (TDone ferr). split; [by rewrite list_lookup_insert_eq by (by eapply lookup_lt_Some)|].
      rewrite (Hin i) in Hc by (by apply Hl). injection Hc as <-.
      destruct (request_state s i t H Hj) as (c' & ans' & q & tx' & ph' & _ & Ha' & _ & Ht' & Htold & _).
      rewrite Ht in Ht'. rewrite Ha in Ha'. simplify_eq. destruct Htold as [_ ->]. done.
    + rewrite Hout in Hc by (rewrite Hl; congruence).
      destruct (pv_told _ H i t' c ans Hj Hc Ha) as (tx' & ph' & Hh & ?). exists tx', ph'.
      by rewrite list_lookup_insert_ne.
  - intros i t' q Hj Hq. destruct (pv_key _ H i t' q Hj Hq) as (tx' & ph' & Hh & Hk).
    rewrite (insert_lookup _ _ _ _ _ Ht). case_decide; [|by eauto]. subst. rewrite Ht in Hh. simplify_eq. eauto.
  - intros t' tx' ph' n Hh Hnp. apply Hi in Hh as [[-> [= -> ->]]|[Hne Hh]]; [|by eapply (pv_budget _ H)].
    apply (pv_budget _ H t tx (TEnd err) n Ht Hnp).
Qed.

(** A returned call uses up one of the retries, or ends the transfer. *)
Lemma after_pull_ok b err r : is_u64 r -> cfg b = backOffCfg -> 1 <= pow b < w64 -> 0 <= attempts b <= MaxRetries backOffCfg ->
  exists ph, after_pull b err r = Ok ph /\ running ph = true /\ within_budget ph (attempts b + 1).
Proof.
  intros Hr Hb Hp Ha. unfold after_pull. pose proof budget_pos.
  assert (within_budget (TEnd err) (attempts b + 1)) as He by (cbn; lia).
  destruct (isRetriable err); cbn [negb]; [|by exists (TEnd err)].
  destruct policy_ok as [E|[Hc Hm]].
  - unfold NextBackOff. rewrite Hb, E. by exists (TEnd err).
  - destruct (NextBackOff_ok b r) as (b' & d & Hb' & Hp' & Hlt & Heq); try (rewrite Hb; done); try done.
    rewrite Hb in Hlt, Heq. destruct (decide (attempts b < MaxRetries backOffCfg)) as [L|L].
    + destruct (Hlt L) as (-> & Ha' & _). exists (TWait b'). cbn. split_and!; [done|done|congruence|lia..].
    + rewrite (Heq ltac:(lia)). by exists (TEnd err).
Qed.

Lemma recv_inv s i c c' r : pull_inv s -> chans s !! i = Some c -> answers s !! i = Some None -> ch_recv c = Ok (c', r) ->
  pull_inv (Puller (transfers s) (heap s) (<[i := c']> (chans s)) (asked s) (joined s) (<[i := Some r]> (answers s)) (pulls s)).
Proof.
  intros H Hc Ha Hr. destruct (pv_len _ H) as (L1 & L2 & L3 & L4).
  split; cbn; try apply H; [by rewrite !length_insert|].
  intros j t c0 ans Hj Hc0 Ha0. rewrite (insert_lookup _ _ _ _ _ Hc) in Hc0. rewrite (insert_lookup _ _ _ _ _ Ha) in Ha0.
  case_decide; [|by apply (pv_told _ H j)]. subst j. simplify_eq.
  destruct (pv_told _ H i t c None Hj Hc Ha) as (tx & ph & Ht & Htold). exists tx, ph. split; [done|].
  destruct c as [buf closed]. unfold ch_recv in Hr. cbn in Hr, Htold.
  destruct ph; cbn in *; try (destruct Htold as [[= -> ->] _]; done).
  destruct Htold as [-> ->]. destruct ferr; simplify_eq; done.
Qed.

Lemma pull_step_inv o s s' : pull_inv s -> pull_step o s s' -> pull_inv s'.
Proof.
  intros H Hs. pose proof budget_pos.
  assert (forall t tx ph, heap s !! t = Some (tx, ph) -> forall n, pulls s !! t = Some n -> within_budget ph n) as Hb
    by (intros; by eapply (pv_budget _ H)).
  inversion Hs; subst.
  - destruct (request_ok s q H) as (s1 & E & Hi). rewrite E in H1. by simplify_eq.
  - eapply (pull_phase_inv s t tx TStart); try done. intros n Hn. specialize (Hb _ _ _ H1 _ Hn).
    unfold NewBackOff in H2. destruct (_ && _) in H2; [done|]. injection H2 as <-. cbn in *. split_and!; [done|word_lia|word_lia|lia..].
  - pose proof (Hb _ _ _ H1 _ H4) as Hw. cbn in Hw. destruct Hw as (W1 & W2 & W3 & ->).
    destruct (after_pull_ok b err r) as (ph' & E & Hrun & Hbud); [done..|]. rewrite E in H3. injection H3 as ->.
    eapply (pull_phase_inv s t tx (TCall b)); try done; [by rewrite length_insert| |].
    + intros t' Hne. by rewrite list_lookup_insert_ne.
    + intros n'. rewrite list_lookup_insert_eq by (by eapply lookup_lt_Some). by intros [= <-].
  - eapply (pull_phase_inv s t tx (TWait b)); try done. intros n Hn. by specialize (Hb _ _ _ H1 _ Hn).
  - eapply (pull_phase_inv s t tx (TWait b)); try done. intros n Hn. specialize (Hb _ _ _ H1 _ Hn). cbn in *. lia.
  - destruct (finish_transfer_ok s t tx err H H1) as (s1 & E & Hi). rewrite E in H2. by simplify_eq.
  - by eapply recv_inv.
Qed.

Lemma pull_reach_inv s : pull_reach s -> pull_inv s.
Proof.
  apply (rtc_ind_r (fun s => pull_inv s)).
  - split; cbn; try done. intros k t. rewrite lookup_empty. split; [done|]. by intros (? & ? & ? & _).
  - intros s1 s2 _ [o Hs] IH. by eapply pull_step_inv.
Qed.

(** References contain no space, so that the key separates them. *)
Lemma transfer_key_inj q q' : transfer_key q = transfer_key q' ->
  Forall (fun r => " "%char ∉ String.list_ascii_of_string r) [pq_repo q; pq_tag q; pq_repo q'; pq_tag q'] ->
  pq_repo q = pq_repo q' /\ pq_tag q = pq_tag q' /\ show (pq_cfg q) = show (pq_cfg q').
Proof.
  unfold transfer_key. intros E. rewrite !Forall_cons. intros (R1 & T1 & R2 & T2 & _).
  apply (f_equal String.list_ascii_of_string) in E. rewrite !list_ascii_app in E. cbn in E.
  apply cut_at_inj in E as [Er E]; [|done|done]. apply cut_at_inj in E as [Et Es]; [|done|done].
  split_and!; by apply list_ascii_inj.
Qed.

(** Who still waits when the agent is at rest and docker owes nothing? *)
Lemma rest_answered s i t : pull_inv s -> (forall s', ~ pull_step true s s') ->
  (forall t tx b, heap s !! t <> Some (tx, TCall b)) -> joined s !! i = Some t -> exists r, answers s !! i = Some (Some r).
Proof.
  intros H Hrest Hcall Hj. destruct (request_state s i t H Hj) as (c & ans & q & tx & ph & Hc & Ha & Hq & Ht & Htold & Hk).
  destruct ans as [r|]; [by exists r|]. exfalso. destruct ph as [|b|b|err|ferr].
  - destruct (NewBackOff backOffCfg) as [b|u|] eqn:E; [by eapply Hrest, pl_start| |].
    all: unfold NewBackOff in E; destruct policy_ok as [E0|[Hco _]]; [rewrite E0 in E; done|].
    all: destruct (co_delays _ Hco) as (_ & Hd & _); rewrite (proj2 (Z.ltb_ge _ _) Hd) in E; by rewrite !andb_false_r in E.
  - by eapply Hcall.
  - by eapply Hrest, pl_timer.
  - destruct (finish_transfer_ok s t tx err H Ht) as (s' & E & _). by eapply Hrest, pl_notify.
  - destruct Htold as [Hcl Hb]. destruct c as [buf cl]. cbn in Hcl, Hb. subst. destruct ferr as [e|].
    + by eapply Hrest, (pl_recv s i _ (Chan None true) (Some e)).
    + by eapply Hrest, (pl_recv s i _ (Chan None true) None).
Qed.
End Puller.

(** C13: image pulls are shared: for each image and credentials at most one pull is
    under way; a request gets the one result of the pull it joined, whose key is
    its own; registering a request and delivering a result never panic and never
    block; docker is asked at most once more than the retry policy allows; and
    when the agent has nothing left to do and docker owes no answer, every request
    has been answered. *)
Theorem image_puller_serves {A} (show : A -> string) json_message isRetriable policy s :
  MaxRetries policy = 0 \/ (cfg_ok policy /\ 0 < MaxRetries policy < RetryForever) ->
  pull_reach show json_message isRetriable policy s ->
  (forall t t' tx tx' ph ph', heap s !! t = Some (tx, ph) -> heap s !! t' = Some (tx', ph') ->
     running ph = true -> running ph' = true -> tx_key tx = tx_key tx' -> t = t') /\
  (forall i t q r, joined s !! i = Some t -> asked s !! i = Some q -> answers s !! i = Some (Some r) ->
     exists tx, heap s !! t = Some (tx, TDone r) /\ transfer_key show (tx_req tx) = transfer_key show q) /\
  (forall q, exists s', newTransfer show s q = Ok s') /\
  (forall t tx err, heap s !! t = Some (tx, TEnd err) -> exists s', finish_transfer json_message s t tx err = Ok s') /\
  (forall t n, pulls s !! t = Some n -> 0 <= n <= MaxRetries policy + 1) /\
  ((forall s', ~ pull_step show json_message isRetriable policy true s s') ->
   (forall t tx b, heap s !! t <> Some (tx, TCall b)) ->
   forall i t, joined s !! i = Some t -> exists r, answers s !! i = Some (Some r)).
Proof.
  intros Hp Hr. pose proof (pull_reach_inv show json_message isRetriable policy Hp s Hr) as H. split_and!.
  - intros t t' tx tx' ph ph' Ht Ht' R R' Hk.
    assert (transfers s !! tx_key tx = Some t) as M by (apply (pv_map _ _ _ H); eauto).
    assert (transfers s !! tx_key tx = Some t') as M' by (apply (pv_map _ _ _ H); rewrite Hk; eauto). congruence.
  - intros i t q r Hj Hq Ha. destruct (request_state show policy s i t H Hj) as (c & ans & q' & tx & ph & _ & Ha' & Hq' & Ht & Htold & Hk).
    simplify_eq. exists tx. destruct (pv_listen _ _ _ H t tx ph Ht) as (_ & _ & Hkey). rewrite <- Hkey.
    destruct ph; cbn in Htold; destruct Htold as [_ Htold]; try done. by destruct Htold as [-> _].
  - intros q. destruct (request_ok show policy s q H) as (s' & ? & _). by exists s'.
  - intros t tx err Ht. destruct (finish_transfer_ok show json_message policy s t tx err H Ht) as (s' & ? & _). by exists s'.
  - intros t n Hn. pose proof (budget_pos policy Hp). destruct (pv_len _ _ _ H) as (_ & _ & _ & L).
    destruct (lookup_lt_is_Some_2 (heap s) t) as [[tx ph] Ht]; [rewrite <- L; by eapply lookup_lt_Some|].
    pose proof (pv_budget _ _ _ H t tx ph n Ht Hn) as Hb. destruct ph; cbn in Hb; lia.
  - intros Hrest Hcall i t Hj. by eapply (rest_answered show json_message isRetriable policy Hp s i t).
Qed.

(** Two requests share a pull that docker refuses after one retry; a request with
    other credentials has a pull of its own. *)
Definition demo_retriable (e : option pull_err) : bool := match e with Some (POther _) => true | _ => false end.
Definition demo_policy : BackOffConfig := BOCfg 1 100 500 10.
Definition demo_json (m : string) : option string := if bool_decide (m = "{}"%string) then Some "not found"%string else None.
Definition demo_q (cfg : string) : pull_request := Request cfg "img:1" "img" "1".
Definition demo_refused : gerr := EFunc (EApi 404 "Failed to pull image 'img:1': not found").

Definition id_string (cfg : string) : string := cfg.
Definition force {X} (d : X) (o : outcome unit X) : X := match o with Ok x => x | _ => d end.
Definition demo_back : backoff := force (BO demo_policy 0 0) (NewBackOff demo_policy).
Definition demo_tx : transfer := Transfer "img 1 bob" (demo_q "bob") [0%nat].
Definition demo_tx2 : transfer := Transfer "img 1 bob" (demo_q "bob") [0; 1]%nat.
Definition demo_wait : phase := Eval vm_compute in force TStart (after_pull demo_retriable demo_back (Some (POther EEOF)) 7).
Definition demo_again : backoff := Eval vm_compute in match demo_wait with TWait b => b | _ => demo_back end.
Definition demo_keys : gmap string nat := {["img 1 bob" := 0%nat; "img 1 eve" := 1%nat]}.
Definition demo_eve : transfer * phase := (Transfer "img 1 eve" (demo_q "eve") [2%nat], TStart).
Definition demo_s (ph : phase) (n : Z) : imagePuller :=
  Puller demo_keys [(demo_tx2, ph); demo_eve] [make_chan; make_chan; make_chan]
    [demo_q "bob"; demo_q "bob"; demo_q "eve"] [0; 0; 1]%nat [None; None; None] [n; 0].
Definition demo_told (c0 c1 : chan) (a0 a1 : option (option gerr)) : imagePuller :=
  Puller {["img 1 eve" := 1%nat]} [(demo_tx2, TDone (Some demo_refused)); demo_eve] [c0; c1; make_chan]
    [demo_q "bob"; demo_q "bob"; demo_q "eve"] [0; 0; 1]%nat [a0; a1; None] [2; 0].
Definition demo_first (ph : phase) (n : Z) : imagePuller :=
  Puller {["img 1 bob" := 0%nat]} [(demo_tx, ph)] [make_chan] [demo_q "bob"] [0%nat] [None] [n].
Definition demo_joined : imagePuller :=
  Puller {["img 1 bob" := 0%nat]} [(demo_tx2, TWait demo_again)] [make_chan; make_chan] [demo_q "bob"; demo_q "bob"]
    [0; 0]%nat [None; None] [1].
Definition full : chan := Chan (Some demo_refused) true.
Definition empty : chan := Chan None true.
Definition demo_over : imagePuller := demo_told empty empty (Some (Some demo_refused)) (Some (Some demo_refused)).

Lemma demo_pulls : pull_reach id_string demo_json demo_retriable demo_policy demo_over.
Proof.
  eapply rtc_l; [exists false; apply (pl_request _ _ _ _ _ (demo_first TStart 0) (demo_q "bob")); by vm_compute|].
  eapply rtc_l; [exists true; apply (pl_start _ _ _ _ (demo_first TStart 0) 0%nat demo_tx demo_back); by vm_compute|].
  eapply rtc_l; [exists false; apply (pl_pulled _ _ _ _ (demo_first (TCall demo_back) 0) 0%nat demo_tx demo_back (Some (POther EEOF)) 7 demo_wait 0);
    [done|word_lia|by vm_compute|done]|].
  eapply rtc_l; [exists false; apply (pl_request _ _ _ _ (demo_first demo_wait 1) demo_joined (demo_q "bob")); by vm_compute|].
  eapply rtc_l; [exists false; apply (pl_request _ _ _ _ demo_joined (demo_s (TWait demo_again) 1) (demo_q "eve")); by vm_compute|].
  eapply rtc_l; [exists true; apply (pl_timer _ _ _ _ (demo_s (TWait demo_again) 1) 0%nat demo_tx2 demo_again); done|].
  eapply rtc_l; [exists false; apply (pl_pulled _ _ _ _ (demo_s (TCall demo_again) 1) 0%nat demo_tx2 demo_again (Some (PDocker 404 "{}")) 7
    (TEnd (Some (PDocker 404 "{}"))) 1); [done|word_lia|by vm_compute|done]|].
  eapply rtc_l; [exists true; apply (pl_notify _ _ _ _ (demo_s (TEnd (Some (PDocker 404 "{}"))) 2) (demo_told full full None None)
    0%nat demo_tx2 (Some (PDocker 404 "{}"))); by vm_compute|].
  eapply rtc_l; [exists true; apply (pl_recv _ _ _ _ (demo_told full full None None) 0%nat full empty (Some demo_refused)); done|].
  eapply rtc_l; [exists true; apply (pl_recv _ _ _ _ (demo_told empty full (Some (Some demo_refused)) None) 1%nat full empty (Some demo_refused)); done|].
  apply rtc_refl.
Qed.

Lemma image_puller_serves_witness :
  pull_reach id_string demo_json demo_retriable demo_policy demo_over /\
  exists tx, heap demo_over !! 0%nat = Some (tx, TDone (Some demo_refused)) /\ transfer_key id_string (tx_req tx) = "img 1 bob"%string.
Proof.
  split; [exact demo_pulls|].
  destruct (image_puller_serves id_string demo_json demo_retriable demo_policy demo_over) as (_ & H & _).
  - right. split; [|unfold RetryForever; cbn; word_lia]. split; cbn; [split_and!; word_lia|]. split; [lia|]. split; [lia|]. by vm_compute.
  - exact demo_pulls.
  - by apply (H 1%nat 0%nat (demo_q "bob")).
Defined.
