(* ===== verification/DockerPool.v ===== *)
(** * Networks and the prefork pool (src/api/agent/drivers/docker/docker_networks.go, docker_pool.go)

    [DockerNetworks] counts the containers of each configured network and gives
    out the least used one.  The pool keeps containers whose namespaces function
    containers borrow: one goroutine per container ([nannyContainer]) starts it,
    registers it, waits for its end and starts over; [pool_step] interleaves them
    with the clients, who take and return ids.  The clients' ids in [holders] and
    the flag [lost] are history. *)
From S2P Require Import Prelude.
Import Prelude.

(** ** Networks *)

Abbreviation networks := (gmap string Z).
(** The fields of the configuration, each with no container yet. *)
Definition NewDockerNetworks (fields : list string) : networks := foldl (fun m net => <[net := 0]> m) ∅ fields.

Section Networks.
  Context {MR : MapRange}.

(** The loop over the map: the first network with a smaller count wins. *)
Definition least_used (l : list (string * Z)) (acc : string * Z) : string * Z :=
  foldl (fun acc kv => if kv.2 <? acc.2 then kv else acc) acc l.

Definition AllocNetwork (n : networks) : networks * string :=
  if Nat.eqb (size n) 0 then (n, ""%string)
  else let id := (least_used (range n) (""%string, maxU64)).1 in
       (<[id := u64 (default 0 (n !! id) + 1)]> n, id).
End Networks.

Definition FreeNetwork (n : networks) (id : string) : networks :=
  match n !! id with Some count => <[id := u64 (count - 1)]> n | None => n end.

(** ** The pool *)

Definition ErrorPoolEmpty : string := "docker pre fork pool empty".

(** The state of a task is [ready] or still to be initialised. *)
Record poolTask := PoolTask { pt_id : string; pt_image : string; pt_cmd : string; pt_netMode : string; pt_ready : bool }.

(** An id with the context its [cancel] ends. *)
Record dockerPoolItem := PoolItem { pi_id : string; pi_cancel : nat }.

Record dockerPool := Pool { inuse : gmap string dockerPoolItem; free : list dockerPoolItem; isRecycle : bool }.

Definition register (p : dockerPool) (id : string) (cancel : nat) : dockerPool :=
  Pool (inuse p) (free p ++ [PoolItem id cancel]) (isRecycle p).

Definition has_pool_id (id : string) (i : dockerPoolItem) : bool := bool_decide (pi_id i = id).
Definition unregister (p : dockerPool) (id : string) : dockerPool :=
  match inuse p !! id with
  | Some _ => Pool (delete id (inuse p)) (free p) (isRecycle p)
  | None => Pool (inuse p) (remove_first (has_pool_id id) (free p)) (isRecycle p)
  end.

Definition AllocPoolId (p : dockerPool) : outcome string (dockerPool * string) :=
  match last (free p) with
  | None => Err ErrorPoolEmpty
  | Some item => Ok (Pool (<[pi_id item := item]> (inuse p)) (removelast (free p)) (isRecycle p), pi_id item)
  end.

(** The second component is the context that is cancelled. *)
Definition FreePoolId (p : dockerPool) (id : string) : dockerPool * option nat :=
  match inuse p !! id with
  | None => (p, None)
  | Some item =>
      (Pool (delete id (inuse p)) (if isRecycle p then free p else free p ++ [item]) (isRecycle p),
       if isRecycle p then Some (pi_cancel item) else None)
  end.

Record DockerPoolStats := PoolStats { st_inuse : Z; st_free : Z }.
Definition Usage (p : dockerPool) : DockerPoolStats :=
  {| st_inuse := Z.of_nat (size (inuse p)); st_free := Z.of_nat (length (free p)) |}.

(** [nannyContainer]: waits for the image; at the head of its loop; at the
    limiter; creates the container; starts it; waits for its end; the wait has
    returned; unregistered; kills it; removes it; returned.  The waits carry the
    context of the registration. *)
Inductive nanny :=
| NGate | NLoop | NLimit | NInit | NStart | NWait (ctx : nat) | NExit (ctx : nat) | NLeft (ctx : nat) | NKill | NTeardown | NDone.

(** The pool, its tasks, the contexts of registrations (cancelled or not), whether
    [Close] was called and whether [log.Fatal] ended the process. *)
Record poolSys := PoolSys {
  ps_pool : dockerPool;
  ps_tasks : list (poolTask * nanny);
  ps_ctxs : list bool;
  ps_closed : bool;
  ps_fatal : bool;
  holders : list string;
  lost : bool
}.

(** [NewDockerPool]: the tasks, for the given fresh names and the networks. *)
Definition pool_networks (fields : list string) : list string := match fields with [] => [""%string] | _ => fields end.
Definition new_task (image cmd : string) (nets : list string) (i : nat) (name : string) : poolTask :=
  PoolTask name image cmd (default ""%string (nets !! (i mod length nets)%nat)) false.
Definition NewDockerPool (image cmd : string) (useOnce : Z) (fields names : list string) : poolSys :=
  {| ps_pool := Pool ∅ [] (negb (useOnce =? 0));
     ps_tasks := imap (fun i name => (new_task image cmd (pool_networks fields) i name, NGate)) names;
     ps_ctxs := []; ps_closed := false; ps_fatal := false; holders := []; lost := false |}.

Definition with_pool (s : poolSys) (p : dockerPool) : poolSys :=
  PoolSys p (ps_tasks s) (ps_ctxs s) (ps_closed s) (ps_fatal s) (holders s) (lost s).
Definition set_task (s : poolSys) (i : nat) (t : poolTask) (n : nanny) : poolSys :=
  PoolSys (ps_pool s) (<[i := (t, n)]> (ps_tasks s)) (ps_ctxs s) (ps_closed s) (ps_fatal s) (holders s) (lost s).
Definition set_ctxs (s : poolSys) (l : list bool) : poolSys :=
  PoolSys (ps_pool s) (ps_tasks s) l (ps_closed s) (ps_fatal s) (holders s) (lost s).
Definition set_holders (s : poolSys) (l : list string) : poolSys :=
  PoolSys (ps_pool s) (ps_tasks s) (ps_ctxs s) (ps_closed s) (ps_fatal s) l (lost s).
Definition set_lost (s : poolSys) (b : bool) : poolSys :=
  PoolSys (ps_pool s) (ps_tasks s) (ps_ctxs s) (ps_closed s) (ps_fatal s) (holders s) b.
Definition ready (t : poolTask) (b : bool) : poolTask := PoolTask (pt_id t) (pt_image t) (pt_cmd t) (pt_netMode t) b.

(** A context is over when it was cancelled or the pool was closed. *)
Definition ctx_over (s : poolSys) (c : nat) : bool := ps_closed s || default false (ps_ctxs s !! c).

(** One step of a nanny ([true]) or of a client ([false]). *)
Inductive pool_step : bool -> poolSys -> poolSys -> Prop :=
| n_gate s i t : ps_tasks s !! i = Some (t, NGate) -> pool_step true s (set_task s i t NLoop)
| n_top s i t : ps_tasks s !! i = Some (t, NLoop) ->
    pool_step true s (set_task s i t (if ps_closed s then NTeardown else if pt_ready t then NStart else NLimit))
| n_limit s i t : ps_tasks s !! i = Some (t, NLimit) -> pool_step true s (set_task s i t NInit)
| n_fatal s i t : ps_tasks s !! i = Some (t, NLimit) -> ps_closed s = true ->
    pool_step true s (PoolSys (ps_pool s) (<[i := (t, NTeardown)]> (ps_tasks s)) (ps_ctxs s) true true (holders s) (lost s))
| n_init s i t (ok : bool) : ps_tasks s !! i = Some (t, NInit) ->
    pool_step true s (set_task s i (ready t ok) (if ok then NStart else NLoop))
| n_start_fails s i t : ps_tasks s !! i = Some (t, NStart) -> pool_step true s (set_task s i (ready t false) NKill)
| n_start s i t : ps_tasks s !! i = Some (t, NStart) ->
    pool_step true s (set_task (set_ctxs (with_pool s (register (ps_pool s) (pt_id t) (length (ps_ctxs s)))) (ps_ctxs s ++ [false]))
                        i t (NWait (length (ps_ctxs s))))
| n_exit s i t c : ps_tasks s !! i = Some (t, NWait c) -> pool_step true s (set_task s i t (NExit c))
| n_unregister s i t c : ps_tasks s !! i = Some (t, NExit c) ->
    pool_step true s (set_lost (set_task (with_pool s (unregister (ps_pool s) (pt_id t))) i t (NLeft c))
                        (lost s || bool_decide (inuse (ps_pool s) !! pt_id t <> None)))
| n_left s i t c : ps_tasks s !! i = Some (t, NLeft c) ->
    pool_step true s (set_task s i (if ctx_over s c then t else ready t false) NKill)
| n_kill s i t (ok : bool) : ps_tasks s !! i = Some (t, NKill) ->
    pool_step true s (set_task s i (if ok then t else ready t false) NLoop)
| n_teardown s i t : ps_tasks s !! i = Some (t, NTeardown) -> pool_step true s (set_task s i t NDone)
| c_alloc s p id : AllocPoolId (ps_pool s) = Ok (p, id) -> pool_step false s (set_holders (with_pool s p) (id :: holders s))
| c_free s id : id ∈ holders s ->
    pool_step false s
      (let (p, cancel) := FreePoolId (ps_pool s) id in
       let s := set_holders (with_pool s p) (remove_first (fun x => bool_decide (x = id)) (holders s)) in
       match cancel with Some c => set_ctxs s (<[c := true]> (ps_ctxs s)) | None => s end)
| c_close s : pool_step false s (PoolSys (ps_pool s) (ps_tasks s) (ps_ctxs s) true (ps_fatal s) (holders s) (lost s)).

Definition pool_reach (s0 s : poolSys) : Prop := rtc (fun a b => exists o, pool_step o a b) s0 s.

(** [prepareImage]: [round] is what one round of the loop does, given whether the
    context is over: it ends the process, finds or pulls the image, or goes on. *)
Inductive round := RFatal | RHave | RPulled | RAgain.
Fixpoint prepareImage (rounds : list (bool * round)) : outcome unit bool :=
  match rounds with
  | [] => Ok false
  | (over, r) :: rounds =>
      if over
      then match r with RFatal => Panic | RHave => Ok false | RPulled => Ok true | RAgain => prepareImage rounds end
      else Ok false
  end.

(** ** Networks are used evenly *)

Section NetworkLemmas.
  Context {MR : MapRange}.

Lemma least_used_spec l : forall acc,
  (least_used l acc = acc \/ least_used l acc ∈ l) /\ (least_used l acc).2 <= acc.2 /\
  forall kv, kv ∈ l -> (least_used l acc).2 <= kv.2.
Proof.
  induction l as [|kv l IH]; intros acc; cbn [least_used foldl].
  - split; [by left|]. split; [done|]. intros kv Hkv. by apply not_elem_of_nil in Hkv.
  - unfold least_used in IH. specialize (IH (if kv.2 <? acc.2 then kv else acc)). destruct IH as (H1 & H2 & H3).
    destruct (Z.ltb_spec kv.2 acc.2); (split; [|split; [lia|]]).
    + right. destruct H1 as [->|H1]; [left|by right].
    + intros kv' [->|Hkv]%elem_of_cons; [lia|by apply H3].
    + destruct H1 as [->|H1]; [by left|right; by right].
    + intros kv' [->|Hkv]%elem_of_cons; [lia|by apply H3].
Qed.

(** A configured network with the fewest containers is chosen. *)
Lemma AllocNetwork_least n : n <> ∅ -> (forall net k, n !! net = Some k -> 0 <= k < maxU64) ->
  exists id k, AllocNetwork n = (<[id := k + 1]> n, id) /\ n !! id = Some k /\ (forall net k', n !! net = Some k' -> k <= k').
Proof.
  intros Hne Hb. unfold AllocNetwork. destruct (Nat.eqb_spec (size n) 0) as [E|E]; [by apply map_size_empty_inv in E|].
  destruct (least_used_spec (range n) (""%string, maxU64)) as (H1 & H2 & H3).
  destruct (least_used (range n) ("", maxU64)) as [id k] eqn:El. cbn [fst snd] in *.
  assert (forall net k', n !! net = Some k' -> k <= k') as Hmin.
  { intros net k' Hk. apply (H3 (net, k')). by apply elem_of_range. }
  assert (n !! id = Some k) as Hid.
  { destruct H1 as [H1|H1]; [|by apply elem_of_range in H1]. exfalso. injection H1 as -> ->.
    destruct (map_choose n Hne) as (net & k' & Hk'). pose proof (Hmin _ _ Hk'). pose proof (Hb _ _ Hk'). lia. }
  exists id, k. rewrite Hid. pose proof (Hb _ _ Hid).
  change (default 0 (Some k)) with k. rewrite u64_small by word_lia. done.
Qed.

Lemma FreeNetwork_spec n id net :
  FreeNetwork n id !! net = if decide (net = id) then (fun k => u64 (k - 1)) <$> n !! id else n !! net.
Proof.
  unfold FreeNetwork. destruct (n !! id) as [k|] eqn:E; case_decide; subst.
  - by rewrite lookup_insert_eq.
  - by rewrite lookup_insert_ne.
  - by rewrite E.
  - done.
Qed.
End NetworkLemmas.

(** ** The pool *)

(** The ids that are registered, and the task of each. *)
Definition registered (p : dockerPool) (item : dockerPoolItem) : Prop := item ∈ free p \/ inuse p !! pi_id item = Some item.
Definition waits (n : nanny) (c : nat) : bool :=
  match n with NWait c' | NExit c' => Nat.eqb c' c | _ => false end.

Record pool_inv (s : poolSys) : Prop := {
  pn_tasks : NoDup ((fun tn : poolTask * nanny => pt_id tn.1) <$> ps_tasks s);
  pn_free : NoDup (pi_id <$> free (ps_pool s));
  pn_inuse : forall id item, inuse (ps_pool s) !! id = Some item -> pi_id item = id /\ id ∉ pi_id <$> free (ps_pool s);
  pn_task : forall item, registered (ps_pool s) item ->
    exists i t n, ps_tasks s !! i = Some (t, n) /\ waits n (pi_cancel item) = true /\ pt_id t = pi_id item;
  pn_held : lost s = false -> NoDup (holders s) /\ (forall id, id ∈ holders s <-> is_Some (inuse (ps_pool s) !! id))
}.

Lemma pool_init image cmd use fields names : NoDup names -> pool_inv (NewDockerPool image cmd use fields names).
Proof.
  intros Hn. split; cbn; try done.
  - assert ((fun tn : poolTask * nanny => pt_id tn.1) <$>
      imap (fun i name => (new_task image cmd (pool_networks fields) i name, NGate)) names = names) as ->; [|done].
    rewrite fmap_imap. apply list_eq. intros i. rewrite list_lookup_imap. by destruct (names !! i).
  - constructor.
  - intros item [H|H]; [by apply not_elem_of_nil in H|cbn in H; by rewrite lookup_empty in H].
  - intros _. split; [constructor|]. intros id. split; [intros H; by apply not_elem_of_nil in H|]. intros [x Hx]. by rewrite lookup_empty in Hx.
Qed.

(** A task moves on; only leaving the wait needs its id to be unregistered. *)
Lemma task_inv s i t n t' n' : pool_inv s -> ps_tasks s !! i = Some (t, n) -> pt_id t' = pt_id t ->
  (forall c item, waits n c = true -> registered (ps_pool s) item -> pi_id item = pt_id t -> pi_cancel item = c -> waits n' c = true) ->
  pool_inv (set_task s i t' n').
Proof.
  intros H Ht Hid Hw. split; cbn.
  - rewrite (insert_fmap_id _ _ _ (t, n)); [apply H|done|done].
  - apply H.
  - apply H.
  - intros item Hr. destruct (pn_task _ H item Hr) as (j & t0 & n0 & Hj & Hn0 & Hp).
    destruct (decide (j = i)) as [->|Hne].
    + simplify_eq. exists i, t', n'. rewrite list_lookup_insert_eq by (by eapply lookup_lt_Some).
      split; [done|]. split; [|congruence]. by apply (Hw (pi_cancel item) item).
    + exists j, t0, n0. by rewrite list_lookup_insert_ne.
  - apply H.
Qed.

Lemma ctxs_inv s l : pool_inv s -> pool_inv (set_ctxs s l).
Proof. intros []. by split. Qed.

(** Whose id is registered waits, so that a task elsewhere is not registered. *)
Lemma not_registered s i t n : pool_inv s -> ps_tasks s !! i = Some (t, n) -> (forall c, waits n c = false) ->
  inuse (ps_pool s) !! pt_id t = None /\ pt_id t ∉ pi_id <$> free (ps_pool s).
Proof.
  intros H Ht Hw.
  assert (forall item, registered (ps_pool s) item -> pi_id item <> pt_id t) as Hno.
  { intros item Hr E. destruct (pn_task _ H item Hr) as (j & t0 & n0 & Hj & Hn0 & Hp).
    assert (j = i) as ->.
    { eapply NoDup_lookup; [apply (pn_tasks _ H)| |]; rewrite list_lookup_fmap; [by rewrite Hj|]. rewrite Ht. cbn. congruence. }
    simplify_eq. by rewrite Hw in Hn0. }
  split.
  - destruct (inuse (ps_pool s) !! pt_id t) as [item|] eqn:E; [|done]. destruct (pn_inuse _ H _ _ E) as [Hid _].
    destruct (Hno item); [right; by rewrite Hid|done].
  - intros (item & E & Hin)%list_elem_of_fmap. destruct (Hno item); [by left|done].
Qed.

Lemma register_inv s i t : pool_inv s -> ps_tasks s !! i = Some (t, NStart) ->
  let c := length (ps_ctxs s) in
  pool_inv (set_task (set_ctxs (with_pool s (register (ps_pool s) (pt_id t) c)) (ps_ctxs s ++ [false])) i t (NWait c)).
Proof.
  intros H Ht c. destruct (not_registered s i t NStart H Ht) as [Hu Hf]; [done|].
  split; cbn.
  - rewrite (insert_fmap_id _ _ _ (t, NStart)); [apply H|done|done].
  - rewrite fmap_app. apply NoDup_snoc; [done|apply H].
  - intros id item Hi. destruct (pn_inuse _ H _ _ Hi) as [-> Hn]. split; [done|]. rewrite fmap_app, elem_of_app.
    intros [?|E%list_elem_of_singleton]; [done|]. cbn in E. subst id. congruence.
  - intros item [Hr|Hr]; cbn in Hr.
    + apply elem_of_app in Hr as [Hr|Hr%list_elem_of_singleton].
      * destruct (pn_task _ H item (or_introl Hr)) as (j & t0 & n0 & Hj & Hn0 & Hp). exists j, t0, n0.
        rewrite list_lookup_insert_ne; [done|]. intros <-. by simplify_eq.
      * subst item. exists i, t, (NWait c). rewrite list_lookup_insert_eq by (by eapply lookup_lt_Some).
        split; [done|]. cbn. by rewrite Nat.eqb_refl.
    + destruct (pn_task _ H item (or_intror Hr)) as (j & t0 & n0 & Hj & Hn0 & Hp). exists j, t0, n0.
      rewrite list_lookup_insert_ne; [done|]. intros <-. by simplify_eq.
  - apply H.
Qed.

Lemma unregister_inv s i t c : pool_inv s -> ps_tasks s !! i = Some (t, NExit c) ->
  pool_inv (set_lost (set_task (with_pool s (unregister (ps_pool s) (pt_id t))) i t (NLeft c))
              (lost s || bool_decide (inuse (ps_pool s) !! pt_id t <> None))).
Proof.
  intros H Ht.
  assert (forall item, registered (unregister (ps_pool s) (pt_id t)) item -> registered (ps_pool s) item /\ pi_id item <> pt_id t) as Hr.
  { unfold unregister. destruct (inuse (ps_pool s) !! pt_id t) as [it|] eqn:E; intros item [Hi|Hi]; cbn in Hi.
    - split; [by left|]. intros Heq. destruct (pn_inuse _ H _ _ E) as [_ Hn]. apply Hn, list_elem_of_fmap. by exists item.
    - apply lookup_delete_Some in Hi as [Hne Hi]. split; [by right|congruence].
    - split; [left; by apply remove_first_elem_of in Hi|]. intros Heq.
      pose proof (remove_first_NoDup_gone (pt_id t) _ (pn_free _ H)) as Hg. apply Hg.
      rewrite <- (fmap_remove_first pi_id (has_pool_id (pt_id t))) by done. apply list_elem_of_fmap. by exists item.
    - split; [by right|]. intros Heq. rewrite Heq, E in Hi. done. }
  assert (forall id item, inuse (unregister (ps_pool s) (pt_id t)) !! id = Some item ->
    inuse (ps_pool s) !! id = Some item) as Hu.
  { unfold unregister. destruct (inuse (ps_pool s) !! pt_id t); cbn; [|done]. intros id item Hi. by apply lookup_delete_Some in Hi as [_ ?]. }
  assert (sublist (free (unregister (ps_pool s) (pt_id t))) (free (ps_pool s))) as Hs.
  { unfold unregister. destruct (inuse (ps_pool s) !! pt_id t); cbn; [done|apply remove_first_sublist]. }
  split; cbn.
  - rewrite (insert_fmap_id _ _ _ (t, NExit c)); [apply H|done|done].
  - eapply sublist_NoDup; [apply (pn_free _ H)|by apply fmap_sublist].
  - intros id item Hi. destruct (pn_inuse _ H _ _ (Hu _ _ Hi)) as [? Hn]. split; [done|]. intros Hin. apply Hn.
    eapply elem_of_submseteq; [exact Hin|]. by apply sublist_submseteq, fmap_sublist.
  - intros item Hi. destruct (Hr _ Hi) as [Hreg Hne]. destruct (pn_task _ H item Hreg) as (j & t0 & n0 & Hj & Hn0 & Hp).
    exists j, t0, n0. rewrite list_lookup_insert_ne; [done|]. intros <-. simplify_eq.
  - rewrite orb_false_iff, bool_decide_eq_false. intros [Hl Hnone]. destruct (pn_held _ H Hl) as [Hn Hh]. split; [done|].
    intros id. rewrite Hh. unfold unregister. destruct (inuse (ps_pool s) !! pt_id t); [by destruct Hnone|done].
Qed.

Lemma alloc_pool_inv s p id : pool_inv s -> AllocPoolId (ps_pool s) = Ok (p, id) ->
  pool_inv (set_holders (with_pool s p) (id :: holders s)).
Proof.
  intros H E. unfold AllocPoolId in E. destruct (last (free (ps_pool s))) as [item|] eqn:Hl; [|done]. injection E as <- <-.
  apply last_Some in Hl as [l Hf]. pose proof (pn_free _ H) as Hn. rewrite Hf, fmap_app in Hn.
  apply NoDup_app in Hn as (Hn & Hd & _). rewrite Hf, removelast_last.
  assert (pi_id item ∉ pi_id <$> l) as Hni by (intros Hi; apply (Hd _ Hi); set_solver).
  assert (inuse (ps_pool s) !! pi_id item = None) as Hnone.
  { destruct (inuse (ps_pool s) !! pi_id item) as [it|] eqn:E; [|done]. destruct (pn_inuse _ H _ _ E) as [_ Hx].
    destruct Hx. rewrite Hf, fmap_app. set_solver. }
  split; cbn.
  - apply H.
  - done.
  - intros id it. rewrite lookup_insert_Some. intros [[<- <-]|[Hne Hi]]; [done|].
    destruct (pn_inuse _ H _ _ Hi) as [? Hx]. split; [done|]. intros Hin. apply Hx. rewrite Hf, fmap_app. set_solver.
  - intros it Hr. apply (pn_task _ H). destruct Hr as [Hr|Hr]; cbn in Hr.
    + left. rewrite Hf. set_solver.
    + apply lookup_insert_Some in Hr as [[_ <-]|[_ Hr]]; [left; rewrite Hf; set_solver|by right].
  - intros Hlost. destruct (pn_held _ H Hlost) as [Hnd Hh]. split.
    + constructor; [|done]. rewrite Hh, Hnone. by intros [? ?].
    + intros id. rewrite elem_of_cons, Hh, lookup_insert_is_Some. destruct (decide (pi_id item = id)); naive_solver.
Qed.

Lemma free_inv s id : pool_inv s -> id ∈ holders s ->
  pool_inv (let (p, cancel) := FreePoolId (ps_pool s) id in
            let s := set_holders (with_pool s p) (remove_first (fun x => bool_decide (x = id)) (holders s)) in
            match cancel with Some c => set_ctxs s (<[c := true]> (ps_ctxs s)) | None => s end).
Proof.
  intros H Hid. destruct (FreePoolId (ps_pool s) id) as [p cancel] eqn:E.
  enough (pool_inv (set_holders (with_pool s p) (remove_first (fun x => bool_decide (x = id)) (holders s)))) as Hi
    by (destruct cancel; [by apply ctxs_inv|done]).
  assert (forall item, registered p item -> registered (ps_pool s) item) as Hr.
  { unfold FreePoolId in E. destruct (inuse (ps_pool s) !! id) as [it|] eqn:Ei; injection E as <- _; [|done].
    destruct (pn_inuse _ H _ _ Ei) as [<- _].
    intros item [Hi|Hi]; cbn in Hi.
    - destruct (isRecycle (ps_pool s)); [by left|]. apply elem_of_app in Hi as [Hi| ->%list_elem_of_singleton]; [by left|by right].
    - apply lookup_delete_Some in Hi as [_ Hi]. by right. }
  split; cbn; try apply H.
  - unfold FreePoolId in E. destruct (inuse (ps_pool s) !! id) as [it|] eqn:Ei; injection E as <- _; [|apply H].
    cbn. destruct (isRecycle (ps_pool s)); [apply H|]. destruct (pn_inuse _ H _ _ Ei) as [<- Hn].
    rewrite fmap_app. apply NoDup_snoc; [done|apply H].
  - intros id' item Hi. unfold FreePoolId in E. destruct (inuse (ps_pool s) !! id) as [it|] eqn:Ei; injection E as <- _; [|by apply (pn_inuse _ H)].
    cbn in *. apply lookup_delete_Some in Hi as [Hne Hi]. destruct (pn_inuse _ H _ _ Hi) as [Hp Hn]. split; [done|].
    destruct (isRecycle (ps_pool s)); [done|]. rewrite fmap_app, elem_of_app. intros [?|Hx%list_elem_of_singleton]; [done|].
    destruct (pn_inuse _ H _ _ Ei) as [Hp' _]. congruence.
  - intros item Hreg. by apply (pn_task _ H), Hr.
  - intros Hlost. destruct (pn_held _ H Hlost) as [Hnd Hh]. split; [by apply remove_first_NoDup|].
    intros id'. unfold FreePoolId in E. apply Hh in Hid as Hs. destruct Hs as [it Ei]. rewrite Ei in E. injection E as <- _. cbn.
    rewrite lookup_delete_is_Some, <- Hh. destruct (decide (id' = id)) as [->|Hne].
    + split; [|by intros [? _]]. intros Hin. by destruct (remove_first_NoDup_gone id _ Hnd).
    + split; [intros Hin; split; [done|by apply remove_first_elem_of in Hin]|]. intros [_ Hin].
      apply elem_of_remove_first_ne; [done|]. by apply bool_decide_eq_false.
Qed.

Lemma pool_step_inv o s s' : pool_inv s -> pool_step o s s' -> pool_inv s'.
Proof.
  intros H Hs. inversion Hs; subst.
  all: try (eapply task_inv; [exact H|eassumption|by repeat case_match|by intros; try destruct ok]).
  - eapply (task_inv s i t NLimit t NTeardown) in H; [|done..]. by destruct H; split.
  - by apply register_inv.
  - by apply unregister_inv.
  - by eapply alloc_pool_inv.
  - by apply free_inv.
  - by destruct H; split.
Qed.

Lemma pool_reach_inv image cmd use fields names s :
  NoDup names -> pool_reach (NewDockerPool image cmd use fields names) s -> pool_inv s.
Proof.
  intros Hn. apply (rtc_ind_r (fun s => pool_inv s)); [by apply pool_init|].
  intros s1 s2 _ [o Hs] IH. by eapply pool_step_inv.
Qed.

(** Every step of a nanny, once the pool is closed, brings it nearer to its end. *)
Definition nanny_rank (n : nanny) : nat :=
  match n with
  | NLimit => 9 | NInit => 8 | NStart => 7 | NWait _ => 6 | NExit _ => 5 | NLeft _ => 4 | NKill => 3 | NGate => 3
  | NLoop => 2 | NTeardown => 1 | NDone => 0
  end.
Definition pool_rank (s : poolSys) : nat := sum_list ((fun tn : poolTask * nanny => nanny_rank tn.2) <$> ps_tasks s).

Lemma closed_rank s s' : ps_closed s = true -> pool_step true s s' -> ps_closed s' = true /\ (pool_rank s' < pool_rank s)%nat.
Proof.
  intros Hc Hs.
  assert (forall i t n t' n', ps_tasks s !! i = Some (t, n) -> (nanny_rank n' < nanny_rank n)%nat ->
    (sum_list ((fun tn : poolTask * nanny => nanny_rank tn.2) <$> <[i := (t', n')]> (ps_tasks s)) < pool_rank s)%nat) as Hr.
  { intros i t n t' n' Ht Hlt. unfold pool_rank.
    pose proof (sum_fmap_insert (fun tn : poolTask * nanny => nanny_rank tn.2) _ _ _ (t', n') Ht). cbn [snd] in *. lia. }
  inversion Hs; subst; (split; [done|]); unfold pool_rank; cbn; eapply Hr; try eassumption; cbn; rewrite ?Hc; try destruct ok; cbn; lia.
Qed.

(** The rank of the shapes the theorem mentions. *)
Lemma rest_done s i t n : (forall s', ~ pool_step true s s') -> ps_tasks s !! i = Some (t, n) -> n = NDone.
Proof.
  intros Hrest Ht. destruct n; try done; exfalso; eapply Hrest.
  - by eapply n_gate.
  - by eapply n_top.
  - by eapply n_limit.
  - by eapply (n_init s i t true).
  - by eapply n_start.
  - by eapply n_exit.
  - by eapply n_unregister.
  - by eapply n_left.
  - by eapply (n_kill s i t true).
  - by eapply n_teardown.
Qed.


(** One container; a client takes it, it ends, is started again and taken by a
    second client: both have the same id. *)
Definition demo_pool : poolSys := NewDockerPool "busybox" "tail" 0 [] ["p0"%string].
Definition demo_task (b : bool) : poolTask := PoolTask "p0" "busybox" "tail" "" b.
Definition demo_at (free : list nat) (taken : option nat) (b : bool) (n : nanny) (ctxs : list bool) (hs : list string) (l : bool) : poolSys :=
  PoolSys (Pool (match taken with Some c => {["p0"%string := PoolItem "p0" c]} | None => ∅ end) (PoolItem "p0" <$> free) false)
    [(demo_task b, n)] ctxs false false hs l.

Lemma demo_taken : pool_reach demo_pool (demo_at [] (Some 0%nat) true (NWait 0) [false] ["p0"%string] false).
Proof.
  eapply rtc_l; [exists true; by apply (n_gate _ 0%nat (demo_task false))|].
  eapply rtc_l; [exists true; by apply (n_top _ 0%nat (demo_task false))|].
  eapply rtc_l; [exists true; by apply (n_limit _ 0%nat (demo_task false))|].
  eapply rtc_l; [exists true; by apply (n_init _ 0%nat (demo_task false) true)|].
  eapply rtc_l; [exists true; by apply (n_start _ 0%nat (demo_task true))|].
  eapply rtc_l; [exists false; by apply (c_alloc _ (Pool {["p0"%string := PoolItem "p0" 0]} [] false) "p0")|].
  apply rtc_refl.
Qed.

Lemma docker_pool_shared : exists s, pool_reach demo_pool s /\ holders s = ["p0"; "p0"]%string.
Proof.
  exists (demo_at [] (Some 1%nat) true (NWait 1) [false; false] ["p0"; "p0"]%string true). split; [|done].
  unfold pool_reach. etransitivity; [exact demo_taken|].
  eapply rtc_l; [exists true; by apply (n_exit _ 0%nat (demo_task true) 0)|].
  eapply rtc_l; [exists true; by apply (n_unregister _ 0%nat (demo_task true) 0)|].
  eapply rtc_l; [exists true; by apply (n_left _ 0%nat (demo_task true) 0)|].
  eapply rtc_l; [exists true; by apply (n_kill _ 0%nat (demo_task false) true)|].
  eapply rtc_l; [exists true; by apply (n_top _ 0%nat (demo_task false))|].
  eapply rtc_l; [exists true; by apply (n_limit _ 0%nat (demo_task false))|].
  eapply rtc_l; [exists true; by apply (n_init _ 0%nat (demo_task false) true)|].
  eapply rtc_l; [exists true; by apply (n_start _ 0%nat (demo_task true))|].
  eapply rtc_l; [exists false; by apply (c_alloc _ (Pool {["p0"%string := PoolItem "p0" 1]} [] false) "p0")|].
  apply rtc_refl.
Qed.


(** The image is never prepared: the loop runs only when the context is over. *)
Lemma prepareImage_skips r rounds : prepareImage ((false, r) :: rounds) = Ok false.
Proof. reflexivity. Qed.

(** A pool that is closed while a goroutine waits at the limiter ends the process. *)
Lemma docker_pool_fatal : exists s, pool_reach demo_pool s /\ ps_fatal s = true.
Proof.
  eexists. split.
  - eapply rtc_l; [exists true; by apply (n_gate _ 0%nat (demo_task false))|].
    eapply rtc_l; [exists true; by apply (n_top _ 0%nat (demo_task false))|].
    eapply rtc_l; [exists false; apply c_close|].
    eapply rtc_l; [exists true; by apply (n_fatal _ 0%nat (demo_task false))|].
    apply rtc_refl.
  - done.
Qed.
