(* ===== verification/Cookie.v ===== *)
(** * Containers of the docker driver (src/api/agent/drivers/docker/cookie.go, docker.go)

    A cookie is the driver's side of one container.  [CreateCookie] works out the
    options of the container from the task and the driver's configuration;
    [ValidateImage], [CreateContainer] and [Close] tie the cookie to the image
    cache, the networks and the prefork pool.  [drv_step] interleaves the cookies
    of a driver with its image cleaner. *)
From S2P Require Import Prelude Errors GoStrings ImageName ImageCache DockerPool.
Import Prelude.

(** ** What goes in *)

(** [drivers.ContainerTask]; a stream is off when it is a [NoopReadWriteCloser]. *)
Record ContainerTask := Task {
  t_Id : string; t_Image : string; t_Command : string;
  t_Memory : Z; t_CPUs : Z; t_FsSize : Z; t_TmpFsSize : Z; t_PIDs : Z;
  t_OpenFiles : option Z; t_LockedMemory : option Z; t_PendingSignals : option Z; t_MessageQueue : option Z;
  t_WorkDir : string; t_EnvVars : gomap string; t_Volumes : list (string * string);
  t_LoggerURL : string; t_LoggerTags : list (string * string);
  t_UDSDockerPath : string; t_UDSDockerDest : string; t_DisableNet : bool;
  t_stdinOff : bool; t_stdoutOff : bool; t_stderrOff : bool
}.

(** What cookies use of [drivers.Config] and of the driver. *)
Record driverConf := DriverConf {
  ContainerLabelTag : string; MaxTmpFsInodes : Z; EnableReadOnlyRootFs : bool; ImageEnableVolume : bool;
  DisableUnprivilegedContainers : bool; hostname : string; instanceId : string
}.

(** ** What comes out: [docker.CreateContainerOptions], by the function that sets them *)

Record LogConfig := LogConf { lc_Type : string; lc_Config : gomap string }.
Record MemOpts := MemConf {
  o_Memory : Z; o_MemorySwap : Z; o_KernelMemory : Z; o_HostMemorySwap : Z; o_HostKernelMemory : Z; o_MemorySwappiness : option Z
}.
Record ULimit := ULim { ul_Name : string; ul_Soft : Z; ul_Hard : Z }.
Record CreateOptions := Options {
  o_Name : string; o_Image : string;
  o_OpenStdin : bool; o_StdinOnce : bool; o_AttachStdin : bool; o_AttachStdout : bool; o_AttachStderr : bool;
  o_ReadonlyRootfs : bool; o_Init : bool;
  o_Labels : gomap string;
  o_LogConfig : LogConfig;
  o_Mem : MemOpts;
  o_Cmd : list string;
  o_Env : list string;
  o_CPUQuota : Z; o_CPUPeriod : Z;
  o_StorageOpt : gomap string;
  o_PidsLimit : option Z;
  o_Ulimits : list ULimit;
  o_Tmpfs : gomap string;
  o_Binds : list string;
  o_Volumes : gomap unit;
  o_WorkingDir : string;
  o_NetworkMode : string;
  o_Hostname : string;
  o_User : string; o_CapDrop : list string; o_SecurityOpt : list string
}.

Definition FnAgentClassifierLabel : string := "fn-agent-classifier".
Definition FnAgentInstanceLabel : string := "fn-agent-instance".
Definition FnDockerUser : string := "1000:1000".

Section Configure.
  Context {MR : MapRange} (conf : driverConf) (task : ContainerTask).

Definition configureLabels : gomap string :=
  if streq (ContainerLabelTag conf) "" then None
  else Some (<[FnAgentInstanceLabel := instanceId conf]> {[FnAgentClassifierLabel := ContainerLabelTag conf]}).

Definition tag_text (pair : string * string) : string := pair.1 ++ "=" ++ pair.2.
Definition configureLogger : LogConfig :=
  if streq (t_LoggerURL task) "" then LogConf "none" None
  else
    let m : gmap string string := {["syslog-address" := t_LoggerURL task; "syslog-facility" := "user"; "syslog-format" := "rfc5424"]}%string in
    let tags := tag_text <$> t_LoggerTags task in
    LogConf "syslog" (Some (match tags with [] => m | _ => <["tag"%string := ImageName.Join tags ","]> m end)).

Definition configureMem : MemOpts :=
  if t_Memory task =? 0 then MemConf 0 0 0 0 0 None
  else let mem := i64 (t_Memory task) in MemConf mem mem mem mem mem (Some 0).

Definition configureFsSize : gomap string :=
  if t_FsSize task =? 0 then None else Some {["size"%string := (FormatUint (t_FsSize task) ++ "M")%string]}.

Definition configurePIDs : option Z := if t_PIDs task =? 0 then None else Some (i64 (t_PIDs task)).

Definition configureULimit (name : string) (value : option Z) : list ULimit :=
  match value with
  | None => []
  | Some v => let value64 := i64 v in if value64 <? 0 then [] else [ULim name value64 value64]
  end.
Definition configureULimits : list ULimit :=
  configureULimit "nofile" (t_OpenFiles task) ++ configureULimit "memlock" (t_LockedMemory task) ++
  configureULimit "sigpending" (t_PendingSignals task) ++ configureULimit "msgqueue" (t_MessageQueue task).

Definition configureTmpFs : gomap string :=
  if (t_TmpFsSize task =? 0) && negb (EnableReadOnlyRootFs conf) then None
  else
    let option :=
      if negb (t_TmpFsSize task =? 0) then
        if negb (MaxTmpFsInodes conf =? 0)
        then ("size=" ++ FormatUint (t_TmpFsSize task) ++ "m,nr_inodes=" ++ FormatUint (MaxTmpFsInodes conf))%string
        else ("size=" ++ FormatUint (t_TmpFsSize task) ++ "m")%string
      else ""%string in
    Some {["/tmp"%string := option]}.

Definition bind_text (p : string * string) : string := p.1 ++ ":" ++ p.2.
(** The volumes, and the binds they add. *)
Definition configureVolumes : gomap unit * list string :=
  match t_Volumes task with
  | [] => (None, [])
  | vs => (Some (foldl (fun m v => <[v.2 := tt]> m) ∅ vs), bind_text <$> vs)
  end.
(** The bind of the socket's directory. *)
Definition configureIOFS : list string :=
  if streq (t_UDSDockerPath task) "" then [] else [bind_text (t_UDSDockerPath task, t_UDSDockerDest task)].

Definition configureCPU : Z * Z :=
  if t_CPUs task =? 0 then (0, 0) else (i64 (u64 (t_CPUs task * 100)), 100000).

Definition configureCmd : list string := if streq (t_Command task) "" then [] else Fields (t_Command task).

Definition configureEnv : list string := (fun kv => (kv.1 ++ "=" ++ kv.2)%string) <$> range (entries (t_EnvVars task)).

(** The network mode, the pool id and the network taken for it, and what is left
    of the pool and the networks. *)
Definition configureNetwork (pool : option dockerPool) (nets : networks)
  : string * string * string * option dockerPool * networks :=
  if t_DisableNet task then ("none"%string, ""%string, ""%string, pool, nets)
  else
    let from_networks pool :=
      let (nets, id) := AllocNetwork nets in
      if streq id "" then (""%string, ""%string, ""%string, pool, nets) else (id, ""%string, id, pool, nets) in
    match pool with
    | None => from_networks None
    | Some p =>
        match AllocPoolId p with
        | Ok (p, id) => if streq id "" then from_networks (Some p)
                        else (("container:" ++ id)%string, id, ""%string, Some p, nets)
        | _ => from_networks (Some p)
        end
    end.

Definition configureHostname (networkMode : string) : string := if streq networkMode "" then hostname conf else ""%string.

Definition configureSecurity : string * list string * list string :=
  if DisableUnprivilegedContainers conf then (""%string, [], [])
  else (FnDockerUser, ["all"%string], ["no-new-privileges"%string]).

(** ** The cookie *)

Record cookie := Cookie {
  ck_poolId : string;
  ck_netId : string;
  ck_opts : CreateOptions;
  ck_task : ContainerTask;
  ck_imgReg : string; ck_imgRepo : string; ck_imgTag : string;
  ck_image : option CachedImage;
  ck_container : bool
}.

Definition CreateCookie (pool : option dockerPool) (nets : networks) : cookie * option dockerPool * networks :=
  let '(mode, poolId, netId, pool, nets) := configureNetwork pool nets in
  let '(reg, repo, tag) := ParseImage (t_Image task) in
  let '(user, capdrop, secopt) := configureSecurity in
  let (vols, volbinds) := configureVolumes in
  let (quota, period) := configureCPU in
  ({| ck_poolId := poolId; ck_netId := netId; ck_task := task;
      ck_imgReg := reg; ck_imgRepo := repo; ck_imgTag := tag; ck_image := None; ck_container := false;
      ck_opts :=
        {| o_Name := t_Id task; o_Image := t_Image task;
           o_OpenStdin := negb (t_stdinOff task); o_StdinOnce := negb (t_stdinOff task); o_AttachStdin := negb (t_stdinOff task);
           o_AttachStdout := negb (t_stdoutOff task); o_AttachStderr := negb (t_stderrOff task);
           o_ReadonlyRootfs := EnableReadOnlyRootFs conf; o_Init := true;
           o_Labels := configureLabels; o_LogConfig := configureLogger; o_Mem := configureMem;
           o_Cmd := configureCmd; o_Env := configureEnv; o_CPUQuota := quota; o_CPUPeriod := period;
           o_StorageOpt := configureFsSize; o_PidsLimit := configurePIDs; o_Ulimits := configureULimits;
           o_Tmpfs := configureTmpFs; o_Binds := volbinds ++ configureIOFS; o_Volumes := vols;
           o_WorkingDir := t_WorkDir task; o_NetworkMode := mode; o_Hostname := configureHostname mode;
           o_User := user; o_CapDrop := capdrop; o_SecurityOpt := secopt |} |}, pool, nets).
End Configure.

Definition set_image (c : cookie) (img : option CachedImage) : cookie :=
  Cookie (ck_poolId c) (ck_netId c) (ck_opts c) (ck_task c) (ck_imgReg c) (ck_imgRepo c) (ck_imgTag c) img (ck_container c).
Definition set_container (c : cookie) (b : bool) : cookie :=
  Cookie (ck_poolId c) (ck_netId c) (ck_opts c) (ck_task c) (ck_imgReg c) (ck_imgRepo c) (ck_imgTag c) (ck_image c) b.

Definition ErrImageWithVolume : gerr := EApi 400 "image has Volume definition".

(** The answers of docker's daemon to an inspection and to a creation. *)
Inductive inspected := INoSuchImage | IFailed (e : gerr) | IImage (img : CachedImage) (volumes : nat).
Inductive created := KNoSuchImage | KFailed (e : gerr) | KContainer.

(** [ValidateImage]: the cookie, the cache, whether a notification of the cache is
    to follow, whether the image must be pulled, the error. *)
Definition ValidateImage (conf : driverConf) (c : cookie) (cache : option imageCacher) (r : inspected)
  : cookie * option imageCacher * bool * bool * option gerr :=
  match ck_image c with
  | Some _ => (c, cache, false, false, None)
  | None =>
      match r with
      | INoSuchImage => (c, cache, false, true, None)
      | IFailed e => (c, cache, false, false, Some e)
      | IImage img volumes =>
          let err := if negb (ImageEnableVolume conf) && Nat.ltb 0 volumes then Some ErrImageWithVolume else None in
          let c := set_image c (Some img) in
          match cache with
          | None => (c, None, false, false, err)
          | Some m => let (m, n) := match err with Some _ => Update_locked m img | None => MarkBusy_locked m img end in
                      (c, Some m, n, false, err)
          end
      end
  end.

(** [CreateContainer]; without a validated image the process ends. *)
Definition CreateContainer (c : cookie) (r : created) : outcome unit (cookie * option gerr) :=
  match ck_image c with
  | None => Panic
  | Some _ =>
      if ck_container c then Ok (c, None)
      else match r with
           | KNoSuchImage => Ok (c, Some (EVar ErrCallTimeoutServerBusy))
           | KFailed e => Ok (c, Some e)
           | KContainer => Ok (set_container c true, None)
           end
  end.

(** ** Other operations of the driver (docker.go) *)

(** [createImageCache]; the pool's own image is never removed. *)
Definition createImageCache (maxSize poolSize : Z) (exemptTags preForkImage : string) : option imageCacher :=
  if maxSize =? 0 then None
  else
    let exemptImages := Fields exemptTags in
    let exemptImages := if negb (poolSize =? 0) && negb (streq preForkImage "") then exemptImages ++ [preForkImage] else exemptImages in
    Some (NewImageCache exemptImages maxSize).

(** [killLeakedContainers] removes, of the containers with the agent's label,
    those of other instances; a container is its id and its labels. *)
Definition killLeakedContainers (conf : driverConf) (listed : list (string * gmap string string)) : list string :=
  if streq (ContainerLabelTag conf) "" then []
  else fst <$> base.filter (fun it : string * gmap string string =>
         default ""%string (it.2 !! FnAgentInstanceLabel) <> instanceId conf) listed.

(** [waitResult.wait]: the container's exit code, the error of its streams, and
    the error of the context by then. *)
Definition StatusSuccess : string := "success".
Definition StatusError : string := "error".
Definition StatusTimeout : string := "timeout".
Definition StatusKilled : string := "killed".
Definition StatusCancelled : string := "cancelled".
Definition oom_text : string := "container out of memory, you may want to raise fn.memory for this function (default: 128MB)".
Definition wait_result (exitCode : Z) (io_err ctx_err : option gerr) : string * option gerr :=
  match io_err with
  | Some e => (StatusError, Some e)
  | None =>
      match (if exitCode =? 0 then ctx_err else None) with
      | Some EDeadlineExceeded => (StatusTimeout, Some EDeadlineExceeded)
      | Some ECanceled => (StatusCancelled, Some ECanceled)
      | _ =>
          if exitCode =? 0 then (StatusSuccess, None)
          else if exitCode =? 137 then (StatusKilled, Some (EApi 502 oom_text))
          else (StatusError, Some (EApi 502 ("container exit code " ++ FormatInt exitCode)))
      end
  end.

(** A run is a success only when the container ended by itself with code 0. *)
Lemma wait_success exitCode io_err ctx_err : ctx_err = None \/ ctx_err = Some ECanceled \/ ctx_err = Some EDeadlineExceeded ->
  ((wait_result exitCode io_err ctx_err).2 = None <-> exitCode = 0 /\ io_err = None /\ ctx_err = None) /\
  ((wait_result exitCode io_err ctx_err).1 = StatusSuccess <-> (wait_result exitCode io_err ctx_err).2 = None).
Proof.
  intros Hc. unfold wait_result. destruct io_err as [e|]; [naive_solver|]. destruct (Z.eqb_spec exitCode 0) as [->|Hne].
  - destruct Hc as [->|[->| ->]]; cbn; naive_solver.
  - destruct (Z.eqb_spec exitCode 137); cbn; naive_solver.
Qed.

Lemma killLeaked_foreign conf listed id :
  id ∈ killLeakedContainers conf listed ->
  exists labels, (id, labels) ∈ listed /\ default ""%string (labels !! FnAgentInstanceLabel) <> instanceId conf.
Proof.
  unfold killLeakedContainers. destruct (streq _ _); [by intros H%not_elem_of_nil|].
  intros ([id' labels] & -> & [Hl Hin]%list_elem_of_filter)%list_elem_of_fmap. by exists labels.
Qed.

Section Pull.
  (** [docker.AuthConfiguration], [path.Join]. *)
  Context {MR : MapRange} {Auth : Type} (no_auth : Auth) (path_Join : string -> string -> string).

(** The credentials of a pull; [auther] is the task's own [DockerAuth], if it has one. *)
Definition authImage (auths : gmap string (driverAuthConfig (Auth := Auth))) (auther : option (outcome gerr (option Auth))) (c : cookie)
  : outcome gerr Auth :=
  let config := findRegistryConfig no_auth (ck_imgReg c) auths in
  match auther with
  | None => Ok config
  | Some r => let! a := r in Ok (default config a)
  end.

(** [PullImage] up to the wait for the puller: nothing to do, or its arguments
    (credentials, image, repository, tag). *)
Definition PullImage (auths : gmap string (driverAuthConfig (Auth := Auth))) (auther : option (outcome gerr (option Auth))) (c : cookie)
  : outcome gerr (option (Auth * string * string * string)) :=
  match ck_image c with
  | Some _ => Ok None
  | None => let! cfg := authImage auths auther c in
            Ok (Some (cfg, t_Image (ck_task c), path_Join (ck_imgReg c) (ck_imgRepo c), ck_imgTag c))
  end.
End Pull.

(** ** The driver *)

(** [Close] runs step by step: the container is removed, the pool id, the network,
    the image are given back. *)
Inductive life := LOpen | LPool | LNet | LImage | LClosed.

(** [syncImageCleaner] with the images still to be entered, then [runImageCleaner]:
    at the limiter; checks the capacity; waits for a signal; takes an image;
    removes it; puts it back; returned. *)
Inductive cleaner :=
| KSync (imgs : list CachedImage) | KLimit | KCheck | KWait | KPop | KRemove (img : CachedImage) | KReadd (img : CachedImage) | KStop.

(** [dr_pending]: methods of the cache between their unlock and [sendNotify]. *)
Record driver := Driver {
  dr_cache : imageCacher;
  dr_pending : nat;
  dr_nets : networks;
  dr_pool : option dockerPool;
  dr_cookies : list (cookie * life);
  dr_cleaner : cleaner
}.

Definition set_cache (d : driver) (r : imageCacher * bool) : driver :=
  Driver r.1 (dr_pending d + (if r.2 then 1 else 0)) (dr_nets d) (dr_pool d) (dr_cookies d) (dr_cleaner d).
Definition set_cookie (d : driver) (i : nat) (c : cookie) (l : life) : driver :=
  Driver (dr_cache d) (dr_pending d) (dr_nets d) (dr_pool d) (<[i := (c, l)]> (dr_cookies d)) (dr_cleaner d).
Definition set_nets (d : driver) (n : networks) : driver :=
  Driver (dr_cache d) (dr_pending d) n (dr_pool d) (dr_cookies d) (dr_cleaner d).
Definition set_pool (d : driver) (p : option dockerPool) : driver :=
  Driver (dr_cache d) (dr_pending d) (dr_nets d) p (dr_cookies d) (dr_cleaner d).
Definition set_cleaner (d : driver) (k : cleaner) : driver :=
  Driver (dr_cache d) (dr_pending d) (dr_nets d) (dr_pool d) (dr_cookies d) k.

Section Driver.
  Context {MR : MapRange} (conf : driverConf).
  (** Docker's images: ids among [ids], a size and a number of volumes per id. *)
  Context (size_of : string -> Z) (volumes_of : string -> nat) (ids : list string).

Abbreviation known := (image_ok size_of ids).

(** Cookies not yet done with their image. *)
Definition uses_image (cl : cookie * life) : bool := match cl.2 with LClosed => false | _ => true end.
Definition live (d : driver) : Z := countZ uses_image (dr_cookies d).

Inductive drv_step : driver -> driver -> Prop :=
| s_create d task c pool nets : live d + 2 < w64 -> CreateCookie conf task (dr_pool d) (dr_nets d) = (c, pool, nets) ->
    drv_step d (Driver (dr_cache d) (dr_pending d) nets pool (dr_cookies d ++ [(c, LOpen)]) (dr_cleaner d))
| s_validate d i c c' m n pull err r : dr_cookies d !! i = Some (c, LOpen) ->
    (forall img vols, r = IImage img vols -> known img /\ vols = volumes_of (img_ID img)) ->
    ValidateImage conf c (Some (dr_cache d)) r = (c', Some m, n, pull, err) ->
    drv_step d (set_cookie (set_cache d (m, n)) i c' LOpen)
| s_container d i c c' r err : dr_cookies d !! i = Some (c, LOpen) -> CreateContainer c r = Ok (c', err) ->
    drv_step d (set_cookie d i c' LOpen)
(* Close: the container is removed first *)
| s_close d i c : dr_cookies d !! i = Some (c, LOpen) -> drv_step d (set_cookie d i c LPool)
| s_free_pool d i c : dr_cookies d !! i = Some (c, LPool) ->
    drv_step d (set_cookie (match dr_pool d with
                            | Some p => if streq (ck_poolId c) "" then d else set_pool d (Some (FreePoolId p (ck_poolId c)).1)
                            | None => d
                            end) i c LNet)
| s_free_net d i c : dr_cookies d !! i = Some (c, LNet) ->
    drv_step d (set_cookie (if streq (ck_netId c) "" then d else set_nets d (FreeNetwork (dr_nets d) (ck_netId c))) i c LImage)
| s_free_image d i c : dr_cookies d !! i = Some (c, LImage) ->
    drv_step d (set_cookie (match ck_image c with Some img => set_cache d (MarkFree_locked (dr_cache d) img) | None => d end) i c LClosed)
(* the notification that follows an unlock *)
| s_notify d n : dr_pending d = S n ->
    drv_step d (Driver (sendNotify (dr_cache d)) n (dr_nets d) (dr_pool d) (dr_cookies d) (dr_cleaner d))
(* the prefork pool's goroutines *)
| s_pool d p : dr_pool d <> None -> drv_step d (set_pool d (Some p))
(* the cleaner *)
| s_sync d img imgs : dr_cleaner d = KSync (img :: imgs) -> known img ->
    drv_step d (set_cleaner (set_cache d (Update_locked (dr_cache d) img)) (KSync imgs))
| s_synced d : dr_cleaner d = KSync [] -> drv_step d (set_cleaner d KLimit)
| s_limit d : dr_cleaner d = KLimit -> drv_step d (set_cleaner d KCheck)
| s_check d : dr_cleaner d = KCheck -> drv_step d (set_cleaner d (if IsMaxCapacity (dr_cache d) then KPop else KWait))
| s_wake d : dr_cleaner d = KWait -> notifier (dr_cache d) = true ->
    drv_step d (set_cleaner (set_cache d (with_notifier (dr_cache d) false, false)) KCheck)
| s_pop d : dr_cleaner d = KPop ->
    drv_step d (let (m, img) := Pop (dr_cache d) in
                set_cleaner (set_cache d (m, false)) (match img with Some img => KRemove img | None => KLimit end))
| s_removed d img (ok : bool) : dr_cleaner d = KRemove img -> drv_step d (set_cleaner d (if ok then KLimit else KReadd img))
| s_readd d img : dr_cleaner d = KReadd img ->
    drv_step d (set_cleaner (set_cache d (Update_locked (dr_cache d) img)) KLimit)
| s_stop d : drv_step d (set_cleaner d KStop).

Definition new_driver (tags : list string) (max : Z) (nets : list string) (pool : option dockerPool) (imgs : list CachedImage) : driver :=
  Driver (NewImageCache tags max) 0 (NewDockerNetworks nets) pool [] (KSync imgs).
Definition drv_reach (d0 d : driver) : Prop := rtc drv_step d0 d.

(** ** Who uses what *)

(** The image a cookie counts as a user of: validated, not refused for its volumes,
    not exempt, not yet given back. *)
Definition marks (tags : gset string) (img : CachedImage) : bool :=
  negb (negb (ImageEnableVolume conf) && Nat.ltb 0 (volumes_of (img_ID img))) && negb (exempt tags img).
Definition holds_image (tags : gset string) (id : string) (cl : cookie * life) : bool :=
  match ck_image cl.1 with
  | Some img => uses_image cl && marks tags img && streq (img_ID img) id
  | None => false
  end.
Definition holds_net (net : string) (cl : cookie * life) : bool :=
  match cl.2 with LImage | LClosed => false | _ => negb (streq (ck_netId cl.1) "") && streq (ck_netId cl.1) net end.

Context (sizes_nonneg : Forall (fun id => 0 <= size_of id) ids) (sizes_fit : sumZ (size_of <$> ids) < w64).

Record drv_inv (tags : gset string) (fields : list string) (d : driver) : Prop := {
  di_cache : cache_inv size_of ids (live d) (dr_cache d);
  di_tags : blacklistTags (dr_cache d) = tags;
  di_live : live d + 1 < w64;
  di_images : forall i cl img, dr_cookies d !! i = Some cl -> ck_image cl.1 = Some img -> known img;
  di_users : forall id, users (cache_abs (dr_cache d)) id = countZ (holds_image tags id) (dr_cookies d);
  di_nets : forall net k, dr_nets d !! net = Some k -> k = countZ (holds_net net) (dr_cookies d);
  di_dom : forall net, is_Some (dr_nets d !! net) <-> net ∈ fields;
  di_cleaner : forall img, dr_cleaner d = KRemove img \/ dr_cleaner d = KReadd img -> known img;
  di_wake : dr_cleaner d = KWait -> isMaxCapacityLocked (dr_cache d) = true ->
            notifier (dr_cache d) = true \/ (0 < dr_pending d)%nat
}.

(** *** Counting cookies *)

Lemma holds_uses tags id cl : holds_image tags id cl = true -> uses_image cl = true.
Proof. unfold holds_image. destruct (ck_image cl.1); [|done]. by intros [[? _]%andb_true_iff _]%andb_true_iff. Qed.

Lemma countZ_le {A} (p q : A -> bool) l : (forall x, p x = true -> q x = true) -> countZ p l <= countZ q l.
Proof.
  intros H. induction l as [|x l IH]; [done|]. simpl. specialize (H x).
  destruct (p x); [rewrite H by done|destruct (q x)]; lia.
Qed.
Lemma holders_live tags id d : countZ (holds_image tags id) (dr_cookies d) <= live d.
Proof. apply countZ_le. intros cl. apply holds_uses. Qed.
Lemma net_live net d : countZ (holds_net net) (dr_cookies d) <= live d.
Proof. apply countZ_le. intros [c l]. unfold holds_net, uses_image. by destruct l. Qed.

Lemma bound_inv n m c : cache_inv size_of ids n c -> (forall id, users (cache_abs c) id <= m) -> cache_inv size_of ids m c.
Proof.
  intros (Hl & Hb & Ha) Hm. split_and!; [done| |done]. split; [|apply Hb]. intros id k Hk.
  destruct (bo_counts _ _ _ _ Hb id k Hk) as [? ?]. specialize (Hm id). unfold users in Hm. cbn in Hm. rewrite Hk in Hm.
  split; [split; [lia|done]|done].
Qed.

Lemma users_use s img id : users (lru_use s img) id = users s id + (if streq (img_ID img) id then 1 else 0).
Proof.
  unfold users, lru_use. cbn. unfold streq. case_bool_decide as E.
  - subst. by rewrite lookup_insert_eq.
  - rewrite lookup_insert_ne by done. lia.
Qed.
Lemma users_release s img id : 0 <= users s (img_ID img) ->
  users (lru_release s img) id = users s id - (if streq (img_ID img) id && (1 <=? users s (img_ID img)) then 1 else 0).
Proof.
  intros Hp. unfold lru_release. destruct (Z.ltb_spec 1 (users s (img_ID img))).
  - unfold users at 1. cbn. unfold streq. case_bool_decide as E; cbn [andb].
    + subst. rewrite lookup_insert_eq. destruct (Z.leb_spec 1 (users s (img_ID img))); simpl; lia.
    + rewrite lookup_insert_ne by done. fold (users s id). lia.
  - destruct (Z.eqb_spec (users s (img_ID img)) 1) as [E1|E1].
    + rewrite E1. unfold users at 1. cbn. unfold streq. case_bool_decide as E; cbn [andb].
      * subst. rewrite lookup_delete_eq. simpl. lia.
      * rewrite lookup_delete_ne by done. fold (users s id). lia.
    + destruct (Z.leb_spec 1 (users s (img_ID img))); [lia|]. rewrite andb_false_r. lia.
Qed.
Lemma users_seen s img id : users (lru_seen s img) id = users s id.
Proof. unfold lru_seen. by destruct (_ =? _). Qed.
Lemma users_nonneg n c id : cache_inv size_of ids n c -> 0 <= users (cache_abs c) id.
Proof.
  intros (_ & Hb & _). unfold users. cbn. destruct (busyRef c !! id) as [k|] eqn:E; simpl; [|lia].
  apply (bo_counts _ _ _ _ Hb) in E as [? _]. lia.
Qed.

(** *** Steps that leave the networks alone *)

Lemma cache_step tags fields d n r s cookies k pool :
  drv_inv tags fields d -> effect size_of ids n (dr_cache d) r s ->
  (forall id, users s id = countZ (holds_image tags id) cookies) ->
  (forall net, countZ (holds_net net) cookies = countZ (holds_net net) (dr_cookies d)) ->
  countZ uses_image cookies <= live d ->
  (forall i cl img, cookies !! i = Some cl -> ck_image cl.1 = Some img -> known img) ->
  (forall img, k = KRemove img \/ k = KReadd img -> known img) -> (k = KWait -> dr_cleaner d = KWait) ->
  drv_inv tags fields (Driver r.1 (dr_pending d + (if r.2 then 1 else 0)) (dr_nets d) pool cookies k).
Proof.
  intros H (Hc & Hs & [[_ Et] En] & Hm) Hu Hnet Hlive Himg Hk Hw. subst s. split; cbn.
  - eapply bound_inv; [exact Hc|]. intros id. rewrite Hu.
    change (live _) with (countZ uses_image cookies). apply countZ_le. intros cl. apply holds_uses.
  - rewrite Et. apply H.
  - pose proof (di_live _ _ _ H). change (live (Driver _ _ _ _ cookies _)) with (countZ uses_image cookies). lia.
  - done.
  - done.
  - intros net c Hn. rewrite Hnet. by apply (di_nets _ _ _ H).
  - apply (di_dom _ _ _ H).
  - done.
  - intros E Hmax. destruct (Hm Hmax) as [->|Hold]; [right; lia|]. rewrite En.
    destruct (di_wake _ _ _ H (Hw E) Hold) as [?|?]; [by left|right; lia].
Qed.

Lemma no_cache_effect d tags fields : drv_inv tags fields d ->
  effect size_of ids (live d) (dr_cache d) (dr_cache d, false) (cache_abs (dr_cache d)).
Proof. intros H. eapply no_effect; [apply (di_cache _ _ _ H)|done|done]. Qed.

(** A cookie changes, and with it the counts. *)
Lemma count_set (p : cookie * life -> bool) d i cl cl' : dr_cookies d !! i = Some cl ->
  countZ p (<[i := cl']> (dr_cookies d)) = countZ p (dr_cookies d) - (if p cl then 1 else 0) + (if p cl' then 1 else 0).
Proof. apply countZ_insert. Qed.

Lemma images_set tags fields d i cl cl' : drv_inv tags fields d -> dr_cookies d !! i = Some cl ->
  (forall img, ck_image cl'.1 = Some img -> known img) ->
  forall j c img, <[i := cl']> (dr_cookies d) !! j = Some c -> ck_image c.1 = Some img -> known img.
Proof.
  intros H Hi Hk j c img. rewrite (insert_lookup _ _ _ _ _ Hi). case_decide; [intros [= <-]; apply Hk|].
  by apply (di_images _ _ _ H).
Qed.

(** Only the phase of a cookie moves on, before its image is given back. *)
Lemma life_step tags fields d i c l l' pool : drv_inv tags fields d -> dr_cookies d !! i = Some (c, l) ->
  uses_image (c, l) = true -> uses_image (c, l') = true -> (forall net, holds_net net (c, l') = holds_net net (c, l)) ->
  drv_inv tags fields (Driver (dr_cache d) (dr_pending d) (dr_nets d) pool (<[i := (c, l')]> (dr_cookies d)) (dr_cleaner d)).
Proof.
  intros H Hi Hl Hl' Hnet. rewrite <- (Nat.add_0_r (dr_pending d)).
  eapply (cache_step tags fields d _ (dr_cache d, false) _ (<[i := (c, l')]> (dr_cookies d))); [done|by eapply no_cache_effect|..].
  - intros id. rewrite (di_users _ _ _ H), (count_set _ _ _ _ _ Hi).
    assert (holds_image tags id (c, l') = holds_image tags id (c, l)) as ->; [|lia].
    unfold holds_image. by rewrite Hl, Hl'.
  - intros net. rewrite (count_set _ _ _ _ _ Hi), Hnet. lia.
  - unfold live. rewrite (count_set _ _ _ _ _ Hi), Hl, Hl'. lia.
  - eapply images_set; [done..|]. intros img. apply (di_images _ _ _ H _ _ _ Hi).
  - apply (di_cleaner _ _ _ H).
  - done.
Qed.

Lemma validate_inv tags fields d i c c' m n pull err r :
  drv_inv tags fields d -> dr_cookies d !! i = Some (c, LOpen) ->
  (forall img vols, r = IImage img vols -> known img /\ vols = volumes_of (img_ID img)) ->
  ValidateImage conf c (Some (dr_cache d)) r = (c', Some m, n, pull, err) ->
  drv_inv tags fields (set_cookie (set_cache d (m, n)) i c' LOpen).
Proof.
  intros H Hi Hr Hv. unfold ValidateImage in Hv.
  assert (c' = c -> m = dr_cache d -> n = false -> drv_inv tags fields (set_cookie (set_cache d (m, n)) i c' LOpen)) as Hsame.
  { intros -> -> ->. unfold set_cookie, set_cache. cbn. rewrite Nat.add_0_r. by eapply life_step. }
  destruct (ck_image c) as [img0|] eqn:Eimg; [injection Hv as <- <- <- _ _; by apply Hsame|].
  destruct r as [|e|img vols]; [injection Hv as <- <- <- _ _; by apply Hsame..|].
  destruct (Hr img vols eq_refl) as [Hk ->]. set (refused := negb (ImageEnableVolume conf) && Nat.ltb 0 (volumes_of (img_ID img))) in *.
  set (r := if refused then Update_locked (dr_cache d) img else MarkBusy_locked (dr_cache d) img).
  assert (c' = set_image c (Some img) /\ (m, n) = r) as [-> Hmn].
  { unfold r. destruct refused; [destruct (Update_locked _ _)|destruct (MarkBusy_locked _ _)]; by injection Hv as <- <- <- _ _. }
  rewrite Hmn. pose proof (di_live _ _ _ H) as Hlive. pose proof (countZ_nonneg uses_image (dr_cookies d)) as Hpos.
  fold (live d) in Hpos.
  assert (exists s, effect size_of ids (live d + 1) (dr_cache d) r s /\
    forall id, users s id = users (cache_abs (dr_cache d)) id + (if marks tags img && streq (img_ID img) id then 1 else 0)) as (s & He & Hu).
  { unfold r, marks. fold refused. rewrite <- (di_tags _ _ _ H). destruct refused; cbn [negb andb].
    - eexists. split; [apply (Update_ok _ _ sizes_nonneg sizes_fit (live d)); [apply H|lia|done]|]. intros id.
      destruct (exempt _ _); rewrite ?users_seen; lia.
    - eexists. split; [apply (MarkBusy_ok _ _ sizes_nonneg sizes_fit (live d)); [apply H|lia|lia|done]|]. intros id.
      destruct (exempt _ _); cbn [negb andb]; [lia|]. apply users_use. }
  unfold set_cookie, set_cache. cbn.
  eapply cache_step; [done|exact He|..].
  - intros id. rewrite Hu, (di_users _ _ _ H), (count_set _ _ _ _ _ Hi). unfold holds_image. cbn. rewrite Eimg. cbn. lia.
  - intros net. rewrite (count_set _ _ _ _ _ Hi). unfold holds_net. cbn. lia.
  - unfold live. rewrite (count_set _ _ _ _ _ Hi). cbn. lia.
  - eapply images_set; [done..|]. cbn. by intros img' [= <-].
  - apply (di_cleaner _ _ _ H).
  - done.
Qed.

Lemma free_image_inv tags fields d i c : drv_inv tags fields d -> dr_cookies d !! i = Some (c, LImage) ->
  drv_inv tags fields
    (set_cookie (match ck_image c with Some img => set_cache d (MarkFree_locked (dr_cache d) img) | None => d end) i c LClosed).
Proof.
  intros H Hi. pose proof (di_live _ _ _ H) as Hlive.
  assert (forall r s n, effect size_of ids n (dr_cache d) r s ->
    (forall id, users s id = users (cache_abs (dr_cache d)) id - (if holds_image tags id (c, LImage) then 1 else 0)) ->
    drv_inv tags fields (set_cookie (set_cache d r) i c LClosed)) as Hgen.
  { intros r s n He Hu. unfold set_cookie, set_cache. cbn. eapply cache_step; [done|exact He|..].
    - intros id. rewrite Hu, (di_users _ _ _ H), (count_set _ _ _ _ _ Hi).
      assert (holds_image tags id (c, LClosed) = false) as ->; [|lia]. unfold holds_image. cbn. by destruct (ck_image c).
    - intros net. rewrite (count_set _ _ _ _ _ Hi). cbn. lia.
    - unfold live. rewrite (count_set _ _ _ _ _ Hi). cbn. lia.
    - eapply images_set; [done..|]. intros img. apply (di_images _ _ _ H _ _ _ Hi).
    - apply (di_cleaner _ _ _ H).
    - done. }
  destruct (ck_image c) as [img|] eqn:Eimg.
  - pose proof (di_images _ _ _ H _ _ _ Hi Eimg) as Hk.
    eapply Hgen; [apply (MarkFree_ok _ _ sizes_nonneg sizes_fit (live d)); [apply H|lia|done]|]. intros id.
    rewrite (di_tags _ _ _ H). unfold holds_image. cbn. rewrite Eimg. cbn. unfold marks.
    destruct (exempt tags img) eqn:Eex; cbn [negb]; [rewrite andb_false_r; cbn; lia|]. rewrite andb_true_r.
    rewrite users_release by (eapply users_nonneg, H).
    destruct (negb (ImageEnableVolume conf) && Nat.ltb 0 (volumes_of (img_ID img))) eqn:Er; cbn [negb andb].
    + assert (users (cache_abs (dr_cache d)) (img_ID img) = 0) as ->; [|by rewrite andb_false_r].
      rewrite (di_users _ _ _ H). apply countZ_zero. intros [c' l'] Hin. unfold holds_image. cbn.
      destruct (ck_image c') as [img'|]; [|done]. unfold streq. case_bool_decide as E; [|by rewrite andb_false_r].
      unfold marks. rewrite E, Er. cbn. by rewrite andb_false_r.
    + assert (1 <= users (cache_abs (dr_cache d)) (img_ID img)) as Hone.
      { rewrite (di_users _ _ _ H). apply list_elem_of_lookup_2 in Hi.
        pose proof (countZ_elem_pos (holds_image tags (img_ID img)) _ _ Hi) as Hp. unfold holds_image in Hp at 1. cbn in Hp.
        rewrite Eimg in Hp. unfold marks in Hp. rewrite Er, Eex, streq_refl in Hp. specialize (Hp eq_refl). lia. }
      rewrite (proj2 (Z.leb_le _ _) Hone), andb_true_r. done.
  - replace d with (set_cache d (dr_cache d, false)) at 1; [|unfold set_cache; cbn; rewrite Nat.add_0_r; by destruct d].
    eapply Hgen; [by eapply no_cache_effect|]. intros id. unfold holds_image. cbn. rewrite Eimg. lia.
Qed.

Lemma free_net_inv tags fields d i c : drv_inv tags fields d -> dr_cookies d !! i = Some (c, LNet) ->
  drv_inv tags fields
    (set_cookie (if streq (ck_netId c) "" then d else set_nets d (FreeNetwork (dr_nets d) (ck_netId c))) i c LImage).
Proof.
  intros H Hi. destruct (streq (ck_netId c) "") eqn:E.
  - eapply life_step; [done..|]. intros net. unfold holds_net. cbn. by rewrite E.
  - assert (drv_inv tags fields (set_cookie d i c LNet)) as H0 by by eapply life_step.
    assert (forall id, countZ (holds_image tags id) (<[i := (c, LImage)]> (dr_cookies d)) = countZ (holds_image tags id) (dr_cookies d)) as Eimg.
    { intros id. rewrite (count_set _ _ _ _ _ Hi). assert (holds_image tags id (c, LImage) = holds_image tags id (c, LNet)) as -> by done. lia. }
    split; cbn; try apply H.
    + eapply bound_inv; [apply H|]. intros id. rewrite (di_users _ _ _ H), <- Eimg. apply countZ_le. intros cl. apply holds_uses.
    + pose proof (di_live _ _ _ H). unfold live in *. cbn. rewrite (count_set _ _ _ _ _ Hi). cbn. lia.
    + eapply images_set; [done..|]. intros img. apply (di_images _ _ _ H _ _ _ Hi).
    + intros id. rewrite Eimg. apply H.
    + intros net k. rewrite FreeNetwork_spec, (count_set _ _ _ _ _ Hi). unfold holds_net at 2 3. cbn. rewrite E. cbn.
      pose proof (net_live net d). pose proof (di_live _ _ _ H). pose proof (countZ_nonneg (holds_net net) (dr_cookies d)).
      case_decide as En.
      * subst. rewrite streq_refl. intros (k' & Hk' & ->)%fmap_Some. pose proof (di_nets _ _ _ H _ _ Hk') as ->.
        apply list_elem_of_lookup_2 in Hi. pose proof (countZ_elem_pos (holds_net (ck_netId c)) _ _ Hi) as Hp.
        unfold holds_net in Hp at 1. cbn in Hp. rewrite E, streq_refl in Hp. specialize (Hp eq_refl).
        rewrite u64_small by word_lia. lia.
      * intros Hk. rewrite (di_nets _ _ _ H _ _ Hk). unfold streq. rewrite bool_decide_eq_false_2 by congruence. lia.
    + intros net. rewrite FreeNetwork_spec. case_decide; [subst; rewrite fmap_is_Some|]; apply H.
Qed.

(** What [configureNetwork] takes. *)
Lemma configureNetwork_nets task pool nets mode poolId netId pool' nets' :
  (forall net k, nets !! net = Some k -> 0 <= k < maxU64) -> nets !! ""%string = None ->
  configureNetwork task pool nets = (mode, poolId, netId, pool', nets') ->
  (netId = ""%string /\ nets' = nets) \/
  (netId <> ""%string /\ poolId = ""%string /\ mode = netId /\ exists k, nets !! netId = Some k /\ nets' = <[netId := k + 1]> nets /\
     forall net k', nets !! net = Some k' -> k <= k').
Proof.
  intros Hb Hno. unfold configureNetwork. destruct (t_DisableNet task); [intros [= <- <- <- <- <-]; by left|].
  assert (forall pool0, (let (nets0, id) := AllocNetwork nets in
      if streq id "" then (""%string, ""%string, ""%string, pool0, nets0) else (id, ""%string, id, pool0, nets0)) = (mode, poolId, netId, pool', nets') ->
    (netId = ""%string /\ nets' = nets) \/
    (netId <> ""%string /\ poolId = ""%string /\ mode = netId /\ exists k, nets !! netId = Some k /\ nets' = <[netId := k + 1]> nets /\
     forall net k', nets !! net = Some k' -> k <= k')) as Hfrom.
  { intros pool0. destruct (decide (nets = ∅)) as [->|Hne].
    - intros [= <- <- <- <- <-]. by left.
    - destruct (AllocNetwork_least nets Hne Hb) as (id & k & -> & Hk & Hmin). unfold streq. case_bool_decide as E.
      + subst. congruence.
      + intros [= <- <- <- <- <-]. right. split_and!; [done..|]. by exists k. }
  destruct pool as [p|]; [|apply Hfrom]. destruct (AllocPoolId p) as [[p' id]|e|]; [|apply Hfrom|apply Hfrom].
  destruct (streq id ""); [apply Hfrom|]. intros [= <- <- <- <- <-]. by left.
Qed.

Lemma CreateCookie_parts task pool nets c pool' nets' : CreateCookie conf task pool nets = (c, pool', nets') ->
  configureNetwork task pool nets = (o_NetworkMode (ck_opts c), ck_poolId c, ck_netId c, pool', nets') /\ ck_image c = None.
Proof.
  unfold CreateCookie. destruct (configureNetwork task pool nets) as [[[[mode poolId] netId] pool0] nets0].
  destruct (ParseImage (t_Image task)) as [[reg repo] tag]. destruct (configureSecurity conf) as [[user capdrop] secopt].
  destruct (configureVolumes task) as [vols binds]. destruct (configureCPU task) as [quota period].
  by intros [= <- <- <-].
Qed.

Lemma create_inv tags fields d task c pool nets : drv_inv tags fields d -> (""%string ∉ fields) -> live d + 2 < w64 ->
  CreateCookie conf task (dr_pool d) (dr_nets d) = (c, pool, nets) ->
  drv_inv tags fields (Driver (dr_cache d) (dr_pending d) nets pool (dr_cookies d ++ [(c, LOpen)]) (dr_cleaner d)).
Proof.
  intros H Hf Hlive Hc. destruct (CreateCookie_parts _ _ _ _ _ _ Hc) as [Hn Himg].
  assert (dr_nets d !! ""%string = None) as Hno.
  { destruct (dr_nets d !! ""%string) eqn:E; [|done]. destruct Hf. apply (di_dom _ _ _ H). by eexists. }
  assert (forall id, countZ (holds_image tags id) (dr_cookies d ++ [(c, LOpen)]) = countZ (holds_image tags id) (dr_cookies d)) as Eimg.
  { intros id. rewrite countZ_app. cbn. unfold holds_image. cbn. rewrite Himg. lia. }
  assert (forall net k, dr_nets d !! net = Some k -> 0 <= k < maxU64) as Hb.
  { intros net k Hk. rewrite (di_nets _ _ _ H _ _ Hk). pose proof (net_live net d). pose proof (countZ_nonneg (holds_net net) (dr_cookies d)). word_lia. }
  pose proof (configureNetwork_nets _ _ _ _ _ _ _ _ Hb Hno Hn) as Hnets.
  split; cbn; try apply H.
  - eapply bound_inv; [apply H|]. intros id. rewrite (di_users _ _ _ H), <- Eimg. apply countZ_le. intros cl. apply holds_uses.
  - unfold live in *. cbn. rewrite countZ_app. cbn. lia.
  - intros i cl img Hi. apply lookup_app_Some in Hi as [Hi|[_ Hi]]; [by apply (di_images _ _ _ H i)|].
    apply list_lookup_singleton_Some in Hi as [_ <-]. cbn. by rewrite Himg.
  - intros id. rewrite Eimg. apply H.
  - intros net k Hk. rewrite countZ_app. cbn [countZ]. unfold holds_net at 2. cbn.
    destruct Hnets as [[E ->]|(E & _ & _ & k0 & Hk0 & -> & _)].
    + rewrite E, streq_refl. cbn. rewrite (di_nets _ _ _ H _ _ Hk). lia.
    + unfold streq. rewrite (bool_decide_eq_false_2 _ E). cbn. apply lookup_insert_Some in Hk as [[<- <-]|[Hne Hk]].
      * rewrite bool_decide_eq_true_2 by done. rewrite (di_nets _ _ _ H _ _ Hk0). lia.
      * rewrite bool_decide_eq_false_2 by done. rewrite (di_nets _ _ _ H _ _ Hk). lia.
  - intros net. destruct Hnets as [[E ->]|(E & _ & _ & k0 & Hk0 & -> & _)]; [apply H|].
    rewrite lookup_insert_is_Some', <- (di_dom _ _ _ H). split; [|by right]. intros [<-|?]; [by eexists|done].
Qed.

(** The cleaner moves, and may change the cache without touching counts. *)
Lemma cleaner_inv tags fields d n r s k : drv_inv tags fields d -> effect size_of ids n (dr_cache d) r s ->
  (forall id, users s id = users (cache_abs (dr_cache d)) id) ->
  (forall img, k = KRemove img \/ k = KReadd img -> known img) -> (k = KWait -> dr_cleaner d = KWait) ->
  drv_inv tags fields (set_cleaner (set_cache d r) k).
Proof.
  intros H He Hu Hk Hw. unfold set_cleaner, set_cache. cbn. eapply cache_step; [done|exact He|..]; try done.
  - intros id. rewrite Hu. apply H.
  - apply (di_images _ _ _ H).
Qed.

Lemma set_cleaner_inv tags fields d k : drv_inv tags fields d ->
  (forall img, k = KRemove img \/ k = KReadd img -> known img) ->
  (k = KWait -> isMaxCapacityLocked (dr_cache d) = false) -> drv_inv tags fields (set_cleaner d k).
Proof. intros [] Hk Hw. split; try done. cbn. intros E Hmax. rewrite (Hw E) in Hmax. done. Qed.

Lemma update_users c img id : users (if exempt (blacklistTags c) img then cache_abs c else lru_seen (cache_abs c) img) id = users (cache_abs c) id.
Proof. destruct (exempt _ _); [done|apply users_seen]. Qed.

Lemma pop_known n c : cache_inv size_of ids n c -> forall m img, Pop c = (m, Some img) -> known img /\ users (cache_abs c) (img_ID img) = 0.
Proof.
  intros (Hl & _ & Ha) m img. unfold Pop, l_Back. destruct (last (gl_elems (lruList c))) as [e|] eqn:E; [|done]. intros [= _ <-].
  apply last_Some in E as [l E]. assert (e.2 ∈ idle_images c) as Hin by (unfold idle_images; rewrite E, fmap_app; set_solver).
  split; [pose proof (lo_known _ _ _ Hl) as Hk; rewrite Forall_forall in Hk; by apply Hk|]. unfold users. cbn. by rewrite (Ha _ Hin).
Qed.

Lemma drv_step_inv tags fields d d' : (""%string ∉ fields) -> drv_inv tags fields d -> drv_step d d' -> drv_inv tags fields d'.
Proof.
  intros Hf H Hs. pose proof (di_live _ _ _ H) as Hlive. inversion Hs; subst.
  - by eapply create_inv.
  - by eapply validate_inv.
  - assert (ck_image c' = ck_image c /\ ck_netId c' = ck_netId c) as [Himg Hnet].
    { unfold CreateContainer in H1. destruct (ck_image c) eqn:E; [|done]. destruct (ck_container c); [by injection H1 as <- _|].
      destruct r; injection H1 as <- _; done. }
    unfold set_cookie. rewrite <- (Nat.add_0_r (dr_pending d)).
    eapply (cache_step tags fields d _ (dr_cache d, false) _ (<[i := (c', LOpen)]> (dr_cookies d))); [done|by eapply no_cache_effect|..].
    + intros id. rewrite (di_users _ _ _ H), (count_set _ _ _ _ _ H0). assert (holds_image tags id (c', LOpen) = holds_image tags id (c, LOpen)) as ->; [|lia]. unfold holds_image. cbn. by rewrite Himg.
    + intros net. rewrite (count_set _ _ _ _ _ H0). assert (holds_net net (c', LOpen) = holds_net net (c, LOpen)) as ->; [|lia]. unfold holds_net. cbn. by rewrite Hnet.
    + unfold live. rewrite (count_set _ _ _ _ _ H0). cbn. lia.
    + eapply images_set; [done..|]. cbn. rewrite Himg. intros img. apply (di_images _ _ _ H _ _ _ H0).
    + apply (di_cleaner _ _ _ H).
    + done.
  - by eapply life_step.
  - destruct (dr_pool d); [destruct (streq (ck_poolId c) "")|]; unfold set_cookie, set_pool; cbn; by eapply life_step.
  - by apply free_net_inv.
  - by apply free_image_inv.
  - destruct H. split; try done; cbn.
    + destruct di_cache0 as (A1 & A2 & A3). split_and!; [by destruct A1; split|by destruct A2; split|done].
    + intros _ _. by left.
  - by destruct H; split.
  - eapply cleaner_inv; [done|apply (Update_ok _ _ sizes_nonneg sizes_fit (live d) (live d)); [apply H|lia|done]|apply update_users|naive_solver|done].
  - apply set_cleaner_inv; [done|naive_solver|done].
  - apply set_cleaner_inv; [done|naive_solver|done].
  - apply set_cleaner_inv; [done|destruct (IsMaxCapacity _); naive_solver|]. unfold IsMaxCapacity. by destruct (isMaxCapacityLocked _).
  - destruct H. split; try done; cbn.
    + destruct di_cache0 as (A1 & A2 & A3). split_and!; [by destruct A1; split|by destruct A2; split|done].
    + naive_solver.
  - pose proof (Pop_ok _ _ sizes_nonneg sizes_fit (live d) (live d) (dr_cache d) (di_cache _ _ _ H) ltac:(lia)) as Hp.
    pose proof (pop_known _ _ (di_cache _ _ _ H)) as Hk. destruct (Pop (dr_cache d)) as [m img]. destruct Hp as (Hi & Ho & Hrest & Hmax).
    eapply (cleaner_inv tags fields d (live d) (m, false) (cache_abs m)); [done| | | |].
    + split_and!; [done|done|done|by right; apply Hmax].
    + intros id. unfold lru_oldest in Ho. cbn in Ho. assert (busyRef m = busyRef (dr_cache d)) as E by (by injection Ho). unfold users. cbn. by rewrite E.
    + intros img'. destruct img as [img|]; [|naive_solver]. destruct (Hk m img eq_refl) as [? _]. naive_solver.
    + by destruct img.
  - apply set_cleaner_inv; [done| |by destruct ok]. intros img'. destruct ok; [naive_solver|]. intros [?|[= ->]]; [done|].
    apply (di_cleaner _ _ _ H). by left.
  - eapply cleaner_inv; [done|apply (Update_ok _ _ sizes_nonneg sizes_fit (live d) (live d)); [apply H|lia|]|apply update_users|naive_solver|done].
    apply (di_cleaner _ _ _ H). by right.
  - apply set_cleaner_inv; [done|naive_solver|done].
Qed.

Lemma new_driver_inv tags max fields pool imgs : drv_inv (list_to_set tags) fields (new_driver tags max fields pool imgs).
Proof.
  assert (forall l (m : networks), (forall net k, m !! net = Some k -> k = 0) ->
    let m' := foldl (fun m net => <[net := 0]> m) m l in
    (forall net k, m' !! net = Some k -> k = 0) /\ (forall net, is_Some (m' !! net) <-> is_Some (m !! net) \/ net ∈ l)) as Hn.
  { induction l as [|x l IH]; intros m Hm; cbn.
    - split; [done|]. intros net. split; [by left|]. intros [?|Hx]; [done|by apply not_elem_of_nil in Hx].
    - destruct (IH (<[x := 0]> m)) as [H1 H2].
      + intros net k. rewrite lookup_insert_Some. intros [[_ <-]|[_ Hk]]; [done|by eapply Hm].
      + split; [done|]. intros net. rewrite H2, lookup_insert_is_Some', elem_of_cons. naive_solver. }
  destruct (Hn fields ∅) as [Hz Hd]; [intros net k; by rewrite lookup_empty|].
  split; cbn; try done.
  - apply cache_inv_new.
  - intros net. unfold NewDockerNetworks. rewrite Hd, lookup_empty. split; [|by right]. intros [[? ?]|?]; done.
  - naive_solver.
Qed.
End Driver.

(** C11: the containers of a docker driver and its image cleaner, in any
    interleaving: an image counts exactly the cookies that use it, so that the
    cleaner never takes an image that a cookie uses; a network counts exactly the
    cookies attached to it; a cleaner that waits while the cache is over its limit
    has a signal coming; and when all cookies are closed no image and no network
    is in use. *)
Theorem docker_driver_safe {MR : MapRange} conf size_of volumes_of ids tags max fields pool imgs d :
  Forall (fun id => 0 <= size_of id) ids -> sumZ (size_of <$> ids) < w64 -> (""%string ∉ fields) ->
  drv_reach conf size_of volumes_of ids (new_driver tags max fields pool imgs) d ->
  (forall id, users (cache_abs (dr_cache d)) id = countZ (holds_image conf volumes_of (list_to_set tags) id) (dr_cookies d)) /\
  (forall m img cl, Pop (dr_cache d) = (m, Some img) -> cl ∈ dr_cookies d ->
     holds_image conf volumes_of (list_to_set tags) (img_ID img) cl = false) /\
  (forall net k, dr_nets d !! net = Some k -> k = countZ (holds_net net) (dr_cookies d)) /\
  (dr_cleaner d = KWait -> IsMaxCapacity (dr_cache d) = true -> notifier (dr_cache d) = true \/ (0 < dr_pending d)%nat) /\
  ((forall cl, cl ∈ dr_cookies d -> cl.2 = LClosed) ->
     busyRef (dr_cache d) = ∅ /\ forall net k, dr_nets d !! net = Some k -> k = 0).
Proof.
  intros Hz Hfit Hf Hr.
  assert (drv_inv conf size_of volumes_of ids (list_to_set tags) fields d) as H.
  { revert Hr. apply (rtc_ind_r (fun d => drv_inv conf size_of volumes_of ids (list_to_set tags) fields d)); [by apply new_driver_inv|].
    intros d1 d2 _ Hs IH. by eapply (drv_step_inv conf size_of volumes_of ids Hz Hfit). }
  split_and!; [apply H| |apply H|apply H|].
  - intros m img cl Hp Hin. eapply pop_known in Hp as [_ Hu]; [|done|done|apply H].
    rewrite (di_users _ _ _ _ _ _ _ H), countZ_zero in Hu. by apply Hu.
  - intros Hall. split.
    + apply map_empty. intros id. destruct (busyRef (dr_cache d) !! id) as [k|] eqn:E; [|done]. exfalso.
      destruct (di_cache _ _ _ _ _ _ _ H) as (_ & Hb & _). destruct (bo_counts _ _ _ _ Hb id k E) as [Hk _].
      pose proof (di_users _ _ _ _ _ _ _ H id) as Hu. unfold users in Hu. cbn in Hu. rewrite E in Hu. cbn in Hu.
      rewrite (proj2 (countZ_zero _ _)) in Hu; [lia|]. intros cl Hin. unfold holds_image, uses_image. rewrite (Hall _ Hin).
      by destruct (ck_image cl.1).
    + intros net k Hk. rewrite (di_nets _ _ _ _ _ _ _ H _ _ Hk). apply countZ_zero. intros cl Hin. unfold holds_net.
      by rewrite (Hall _ Hin).
Qed.


(** A task with a memory limit and a CPU on a driver with one network. *)
Definition demo_conf : driverConf := DriverConf "" 0 false false false "host" "inst".
Definition demo_ctask : ContainerTask :=
  Task "c1" "img:b" "" 134217728 500 0 64 0 (Some 100) None None None "" (Some {["A"%string := "1"%string]}) [] "" []
    "/tmp/iofs" "/tmp/iofs" false true true true.
Definition demo_nets : networks := NewDockerNetworks ["net1"%string].
Definition demo_created : cookie * option dockerPool * networks := CreateCookie (MR := canonical_range) demo_conf demo_ctask None demo_nets.


Definition demo_validated : cookie := set_image demo_created.1.1 (Some demo_b).
Definition demo_driver : driver :=
  Driver (MarkBusy_locked (NewImageCache ["keep"%string] 30) demo_b).1 0 demo_created.2 None [(demo_validated, LOpen)] (KSync []).

Lemma demo_driver_reach : drv_reach (MR := canonical_range) demo_conf demo_size (fun _ => 0%nat) ["a"; "b"; "s"]%string
  (new_driver ["keep"%string] 30 ["net1"%string] None []) demo_driver.
Proof.
  eapply rtc_l; [apply (s_create _ _ _ _ (new_driver ["keep"%string] 30 ["net1"%string] None []) demo_ctask
    demo_created.1.1 demo_created.1.2 demo_created.2); [by vm_compute|]|].
  { change (dr_nets (new_driver _ _ _ _ _)) with demo_nets. change (dr_pool (new_driver _ _ _ _ _)) with (@None dockerPool).
    unfold demo_created. by destruct (CreateCookie _ _ _ _) as [[c p] n]. }
  eapply rtc_l; [eapply (s_validate _ _ _ _ _ 0%nat demo_created.1.1 demo_validated
    (MarkBusy_locked (NewImageCache ["keep"%string] 30) demo_b).1 false false None (IImage demo_b 0)); [done| |by vm_compute]|].
  { intros img vols [= <- <-]. split; [|done]. split; [apply list_elem_of_In; right; left|]; reflexivity. }
  assert (demo_created.1.2 = None) as Hp by by vm_compute.
  unfold demo_driver. cbn [dr_pool set_cookie set_cache dr_nets dr_cookies dr_cleaner dr_pending dr_cache new_driver app]. rewrite Hp. apply rtc_refl.
Qed.

Lemma docker_driver_safe_witness :
  users (cache_abs (dr_cache demo_driver)) "b" = 1 /\
  countZ (holds_image demo_conf (fun _ => 0%nat) (list_to_set ["keep"%string]) "b") (dr_cookies demo_driver) = 1.
Proof.
  destruct (docker_driver_safe (MR := canonical_range) demo_conf demo_size (fun _ => 0%nat) ["a"; "b"; "s"]%string ["keep"%string] 30
    ["net1"%string] None [] demo_driver) as (H & _).
  - repeat constructor; by vm_compute.
  - by vm_compute.
  - set_solver.
  - exact demo_driver_reach.
  - rewrite <- H. split; by vm_compute.
Defined.
