(* ===== verification/RunnerStatus.v ===== *)
(** * The status of a runner (src/api/agent/runner_status.go, runner_client.go)

    A status request runs a call of the status image, at most one at a time and
    not again while its result is fresh: the requests that come meanwhile wait for
    it on a channel or get it from the cache.  [runStatusCall] is the call as a
    function of what its environment answers; [st_step] interleaves the critical
    sections of requests and runs with a clock and with the engagements that the
    counters count. *)
From S2P Require Import Prelude GoStrings Errors Annotations Resource Call Stats Evictor RunnerProtocol DataAccess.
Import Prelude.

(** [runner.RunnerStatus]; durations are nanoseconds. *)
Record RunnerStatus := MkStatus {
  Active : Z;
  Failed : bool;
  rs_Id : string;
  Details : string;
  ErrorCode : Z;
  ErrorStr : string;
  CreatedAt : string;
  StartedAt : string;
  CompletedAt : string;
  Cached : bool;
  RequestsReceived : Z;
  RequestsHandled : Z;
  KdumpsOnDisk : Z;
  SchedulerDuration : Z;
  ExecutionDuration : Z;
  IsNetworkDisabled : bool;
  CustomStatus : gomap string;
  ImagePullWaitDuration : Z;
  CtrPrepDuration : Z;
  CtrCreateDuration : Z;
  InitStartTime : Z
}.

Definition no_status : RunnerStatus :=
  MkStatus 0 false "" "" 0 "" "" "" "" false 0 0 0 0 0 false None 0 0 0 0.

Definition with_cached (r : RunnerStatus) (b : bool) : RunnerStatus :=
  MkStatus (Active r) (Failed r) (rs_Id r) (Details r) (ErrorCode r) (ErrorStr r) (CreatedAt r) (StartedAt r) (CompletedAt r) b
    (RequestsReceived r) (RequestsHandled r) (KdumpsOnDisk r) (SchedulerDuration r) (ExecutionDuration r) (IsNetworkDisabled r)
    (CustomStatus r) (ImagePullWaitDuration r) (CtrPrepDuration r) (CtrCreateDuration r) (InitStartTime r).
Definition with_custom (r : RunnerStatus) (m : gomap string) : RunnerStatus :=
  MkStatus (Active r) (Failed r) (rs_Id r) (Details r) (ErrorCode r) (ErrorStr r) (CreatedAt r) (StartedAt r) (CompletedAt r) (Cached r)
    (RequestsReceived r) (RequestsHandled r) (KdumpsOnDisk r) (SchedulerDuration r) (ExecutionDuration r) (IsNetworkDisabled r)
    m (ImagePullWaitDuration r) (CtrPrepDuration r) (CtrCreateDuration r) (InitStartTime r).
Definition with_counters (r : RunnerStatus) (active recv handled kdumps : Z) : RunnerStatus :=
  MkStatus active (Failed r) (rs_Id r) (Details r) (ErrorCode r) (ErrorStr r) (CreatedAt r) (StartedAt r) (CompletedAt r) (Cached r)
    recv handled kdumps (SchedulerDuration r) (ExecutionDuration r) (IsNetworkDisabled r)
    (CustomStatus r) (ImagePullWaitDuration r) (CtrPrepDuration r) (CtrCreateDuration r) (InitStartTime r).

Definition StatusCallTimeout : Z := 5.
Definition StatusCallIdleTimeout : Z := 1.
Definition StatusCallCacheDuration : Z := 500 * 1000000 + StatusCallIdleTimeout * Second.

(** ** The call *)

Definition newStatusCall (new_id image payload : string) (now : Z) : CallModel :=
  MkCall new_id "" image 0 TypeSync payload "/" "GET" StatusCallTimeout StatusCallIdleTimeout 2048 0 0 (Some ∅) None None ""
    0 now 0 0 [] "" "" "" "" "".

(** What [Submit] leaves: the model with its times, the container's times, what the
    recorder holds (200 and nothing, unless something was written), the error. *)
Record status_submitted := StatusSubmitted {
  sb_model : CallModel; sb_pull : Z; sb_create : Z; sb_prep : Z; sb_init : Z;
  sb_status : Z; sb_body : string; sb_err : option gerr
}.

(** What a run meets: its id, the clock at its start and end, whether the barrier
    file exists, what the health checker answers, and what [Submit] of a call
    does, given whether its network is disabled. *)
Record run_env := RunEnv {
  re_id : string; re_payload : string; re_now : Z; re_end : Z; re_barrier : bool;
  re_health : gomap string * option gerr;
  re_submit : call -> bool -> status_submitted
}.

(** The fixed part of a tracker; [stc_health]: a health checker is configured. *)
Record statusConf := StatusConf {
  stc_agent : option GetCallAgent; stc_imageName : string; stc_barrierPath : string; stc_health : bool;
  stc_kdumpsOnDisk : Z; stc_noop : nat; stc_recorder : nat
}.

Section Status.
  Context (NewRequest : string -> string -> string -> outcome gerr Request) (DateTime_String : Z -> string).
  Context (st : statusConf).

Definition network_disabled (e : run_env) : bool := negb (streq (stc_barrierPath st) "") && negb (re_barrier e).
Definition health (e : run_env) : gomap string * option gerr := if stc_health st then re_health e else (None, None).

(** The call is made and submitted unless the health checker fails; the options of
    the agent are taken to leave the id and the dates of the call alone. *)
Definition status_submit (e : run_env) (c : CallModel) : outcome gerr status_submitted :=
  match (health e).2 with
  | Some err => Err err
  | None =>
      match stc_agent st with
      | None => Panic
      | Some a =>
          let! ac := GetCall a [FromModelAndInput NewRequest c (cl_Payload c); WithLogger (stc_noop st); WithWriter (stc_recorder st)] in
          Ok (re_submit e ac (network_disabled e))
      end
  end.

Definition runStatusCall (e : run_env) : outcome unit RunnerStatus :=
  let c := newStatusCall (re_id e) (stc_imageName st) (re_payload e) (re_now e) in
  let report (c : CallModel) (m : option CallModel) (times : Z * Z * Z * Z) (status : Z) (body : string) (err : option gerr) :=
    let lat := GetCallLatencies m in
    let created := negb (cl_CreatedAt c =? 0) in
    let started := created && negb (cl_StartedAt c =? 0) in
    let '(pull, create, prep, init) := times in
    {| Active := 0; Failed := bool_decide (err <> None) || (400 <=? status); rs_Id := cl_ID c; Details := body;
       ErrorCode := match err with Some e => i32 (GetAPIErrorCode e) | None => if 400 <=? status then i32 status else 0 end;
       ErrorStr := match err with Some e => error_msg e | None => ""%string end;
       CreatedAt := if created then DateTime_String (cl_CreatedAt c) else ""%string;
       StartedAt := if started then DateTime_String (cl_StartedAt c) else ""%string;
       CompletedAt := if started then DateTime_String (if cl_CompletedAt c =? 0 then re_end e else cl_CompletedAt c) else ""%string;
       Cached := false; RequestsReceived := 0; RequestsHandled := 0; KdumpsOnDisk := 0;
       SchedulerDuration := lat.1; ExecutionDuration := lat.2; IsNetworkDisabled := network_disabled e;
       CustomStatus := (health e).1;
       ImagePullWaitDuration := pull; CtrPrepDuration := prep; CtrCreateDuration := create; InitStartTime := init |} in
  match status_submit e c with
  | Panic => Panic
  | Err err => Ok (report c None (0, 0, 0, 0) 200 ""%string (Some err))
  | Ok r => Ok (report (sb_model r) (Some (sb_model r)) (sb_pull r, sb_create r, sb_prep r, sb_init r)
                  (sb_status r) (sb_body r) (sb_err r))
  end.

(** ** The tracker *)

(** [expiry], [cache] and [wait], which the lock protects; 0 is the zero time. *)
Record statusTracker := Tracker { expiry : Z; cache : option RunnerStatus; wait : option nat }.

(** [checkStatusCall] with the time it read before; [fresh] is a new channel. *)
Definition checkStatusCall (t : statusTracker) (now : Z) (fresh : nat) : statusTracker * option nat * bool :=
  if now <? expiry t then (t, None, false)
  else match wait t with
       | Some ch => (t, Some ch, false)
       | None => (Tracker (expiry t) (cache t) (Some fresh), Some fresh, true)
       end.

(** [fetchStatusCall] up to the counters: a copy, and the mark for the next one. *)
Definition fetchStatusCall (t : statusTracker) : outcome unit (statusTracker * RunnerStatus) :=
  match cache t with
  | None => Panic
  | Some c => Ok (Tracker (expiry t) (Some (with_cached c true)) (wait t), with_custom c (Some (entries (CustomStatus c))))
  end.

(** The critical section of [spawnStatusCall]. *)
Definition publish (t : statusTracker) (r : RunnerStatus) (now : Z) : statusTracker * option nat :=
  (Tracker (now + StatusCallCacheDuration) (Some r) None, wait t).

(** [close(waitChan)]. *)
Definition close_wait (chans : list bool) (ch : option nat) : outcome unit (list bool) :=
  match ch with
  | None => Panic
  | Some ch => match chans !! ch with Some false => Ok (<[ch := true]> chans) | _ => Panic end
  end.

(** ** The system *)

(** A request: about to check; has to spawn; waits; about to fetch; copied the
    status of publication [k], [n] counters loaded; answered. *)
Inductive request :=
| QCheck | QSpawn (ch : nat) | QWait (ch : nat) | QFetch
| QLoad (n : nat) (k : option nat) (cp : RunnerStatus)
| QEnd (k : option nat) (res : option RunnerStatus) (err : option gerr).

(** A run, by the channel its spawner made: due; runs; has its result and the time;
    published; over. *)
Inductive run :=
| RNew | RRun (start : Z) | RHave (start : Z) (r : RunnerStatus) (now : Z) | RClose (ch : option nat) | REnd.

(** An engagement of [pureRunner.Engage], by the counters it has changed. *)
Inductive eng := EEnter | EActive | ELive | ELeave | EGone.

(** What was published: when its run started and ended, when it was stored. *)
Record pub := Pub { pb_start : Z; pb_end : Z; pb_at : Z; pb_status : RunnerStatus }.

Record status_sys := StatusSys {
  clock : Z;
  tracker : statusTracker;
  wchans : list bool;
  reqs : list (Z * request);
  runs : list run;
  pubs : list pub;
  inflight : Z;
  requestsReceived : Z;
  requestsHandled : Z;
  engs : list eng
}.

Definition set_req (s : status_sys) (i : nat) (a : Z) (q : request) : status_sys :=
  StatusSys (clock s) (tracker s) (wchans s) (<[i := (a, q)]> (reqs s)) (runs s) (pubs s) (inflight s) (requestsReceived s) (requestsHandled s) (engs s).
Definition set_run (s : status_sys) (ch : nat) (r : run) : status_sys :=
  StatusSys (clock s) (tracker s) (wchans s) (reqs s) (<[ch := r]> (runs s)) (pubs s) (inflight s) (requestsReceived s) (requestsHandled s) (engs s).
Definition set_tracker (s : status_sys) (t : statusTracker) : status_sys :=
  StatusSys (clock s) t (wchans s) (reqs s) (runs s) (pubs s) (inflight s) (requestsReceived s) (requestsHandled s) (engs s).
Definition add_chan (s : status_sys) : status_sys :=
  StatusSys (clock s) (tracker s) (wchans s ++ [false]) (reqs s) (runs s ++ [RNew]) (pubs s) (inflight s) (requestsReceived s) (requestsHandled s) (engs s).
Definition set_chans (s : status_sys) (cs : list bool) : status_sys :=
  StatusSys (clock s) (tracker s) cs (reqs s) (runs s) (pubs s) (inflight s) (requestsReceived s) (requestsHandled s) (engs s).
Definition add_pub (s : status_sys) (p : pub) : status_sys :=
  StatusSys (clock s) (tracker s) (wchans s) (reqs s) (runs s) (pubs s ++ [p]) (inflight s) (requestsReceived s) (requestsHandled s) (engs s).
Definition set_eng (s : status_sys) (i : nat) (e : eng) (active recv handled : Z) : status_sys :=
  StatusSys (clock s) (tracker s) (wchans s) (reqs s) (runs s) (pubs s)
    (i32 (inflight s + active)) (u64 (requestsReceived s + recv)) (u64 (requestsHandled s + handled)) (<[i := e]> (engs s)).

(** The counters are loaded one by one. *)
Definition load (s : status_sys) (n : nat) (cp : RunnerStatus) : RunnerStatus :=
  match n with
  | 0%nat => with_counters cp (inflight s) (RequestsReceived cp) (RequestsHandled cp) (KdumpsOnDisk cp)
  | 1%nat => with_counters cp (Active cp) (requestsReceived s) (RequestsHandled cp) (KdumpsOnDisk cp)
  | 2%nat => with_counters cp (Active cp) (RequestsReceived cp) (requestsHandled s) (KdumpsOnDisk cp)
  | _ => with_counters cp (Active cp) (RequestsReceived cp) (RequestsHandled cp) (stc_kdumpsOnDisk st)
  end.

(** Without a status image a request only loads the first three. *)
Definition loads (k : option nat) : nat := match k with Some _ => 4 | None => 3 end.

(** One step; [true]: the tracker's own; [false]: a new request, a context that
    ends, a run that ends, an engagement, the clock. *)
Inductive st_step : bool -> status_sys -> status_sys -> Prop :=
| q_new s : st_step false s
    (StatusSys (clock s) (tracker s) (wchans s) (reqs s ++ [(clock s, if streq (stc_imageName st) "" then QLoad 0 None no_status else QCheck)])
       (runs s) (pubs s) (inflight s) (requestsReceived s) (requestsHandled s) (engs s))
| q_cached s i a t : reqs s !! i = Some (a, QCheck) -> checkStatusCall (tracker s) a (length (wchans s)) = (t, None, false) ->
    st_step true s (set_req (set_tracker s t) i a QFetch)
| q_join s i a t ch : reqs s !! i = Some (a, QCheck) -> checkStatusCall (tracker s) a (length (wchans s)) = (t, Some ch, false) ->
    st_step true s (set_req (set_tracker s t) i a (QWait ch))
| q_first s i a t ch : reqs s !! i = Some (a, QCheck) -> checkStatusCall (tracker s) a (length (wchans s)) = (t, Some ch, true) ->
    st_step true s (set_req (set_tracker (add_chan s) t) i a (QSpawn ch))
| q_spawn s i a ch : reqs s !! i = Some (a, QSpawn ch) ->
    st_step true s (set_run (set_req s i a (QWait ch)) ch (RRun (clock s)))
| q_wake s i a ch : reqs s !! i = Some (a, QWait ch) -> wchans s !! ch = Some true -> st_step true s (set_req s i a QFetch)
| q_ctx s i a ch e : reqs s !! i = Some (a, QWait ch) -> st_step false s (set_req s i a (QEnd None None (Some e)))
| q_fetch s i a t cp : reqs s !! i = Some (a, QFetch) -> fetchStatusCall (tracker s) = Ok (t, cp) ->
    st_step true s (set_req (set_tracker s t) i a (QLoad 0 (Some (length (pubs s) - 1)%nat) cp))
| q_load s i a n k cp : reqs s !! i = Some (a, QLoad n k cp) -> (n < loads k)%nat ->
    st_step true s (set_req s i a (QLoad (S n) k (load s n cp)))
| q_done s i a n k cp err : reqs s !! i = Some (a, QLoad n k cp) -> n = loads k -> (k = None -> err = None) ->
    st_step true s (set_req s i a (QEnd k (Some cp) err))
| r_end s ch start e r : runs s !! ch = Some (RRun start) -> runStatusCall e = Ok r ->
    st_step false s (set_run s ch (RHave start r (clock s)))
| r_publish s ch start r now t w : runs s !! ch = Some (RHave start r now) -> publish (tracker s) r now = (t, w) ->
    st_step true s (set_run (add_pub (set_tracker s t) (Pub start now (clock s) r)) ch (RClose w))
| r_close s ch w cs : runs s !! ch = Some (RClose w) -> close_wait (wchans s) w = Ok cs ->
    st_step true s (set_run (set_chans s cs) ch REnd)
| e_new s : st_step false s
    (StatusSys (clock s) (tracker s) (wchans s) (reqs s) (runs s) (pubs s) (inflight s) (requestsReceived s) (requestsHandled s) (engs s ++ [EEnter]))
| e_active s i : engs s !! i = Some EEnter -> st_step false s (set_eng s i EActive 1 0 0)
| e_received s i : engs s !! i = Some EActive -> st_step false s (set_eng s i ELive 0 1 0)
| e_verdict s i err : engs s !! i = Some ELive ->
    st_step false s (set_eng s i ELeave 0 0 (if bool_decide (err = Some (EVar ErrCallTimeoutServerBusy)) then 0 else 1))
| e_leave s i : engs s !! i = Some ELeave -> st_step false s (set_eng s i EGone (-1) 0 0)
| s_tick s d : 0 <= d -> st_step false s
    (StatusSys (clock s + d) (tracker s) (wchans s) (reqs s) (runs s) (pubs s) (inflight s) (requestsReceived s) (requestsHandled s) (engs s)).

Definition NewStatusTracker (now : Z) : status_sys := StatusSys now (Tracker 0 None None) [] [] [] [] 0 0 0 [].
Definition st_reach (s : status_sys) : Prop := exists now, 0 < now /\ rtc (fun a b => exists o, st_step o a b) (NewStatusTracker now) s.

(** ** Who got what *)

(** The publication a request took its status from, and whether it came cached. *)
Definition taken (q : Z * request) : option (nat * bool) :=
  match q.2 with
  | QLoad _ (Some k) cp | QEnd (Some k) (Some cp) _ => Some (k, Cached cp)
  | _ => None
  end.

(** The same result, whatever the counters and the cache mark say. *)
Definition same_result (r r' : RunnerStatus) : Prop :=
  Failed r = Failed r' /\ rs_Id r = rs_Id r' /\ Details r = Details r' /\ ErrorCode r = ErrorCode r' /\ ErrorStr r = ErrorStr r' /\
  CreatedAt r = CreatedAt r' /\ StartedAt r = StartedAt r' /\ CompletedAt r = CompletedAt r' /\
  SchedulerDuration r = SchedulerDuration r' /\ ExecutionDuration r = ExecutionDuration r' /\
  IsNetworkDisabled r = IsNetworkDisabled r' /\ entries (CustomStatus r) = entries (CustomStatus r').

(** A publication recent enough for a request that came at [a]. *)
Definition recent (p : pub) (a : Z) : Prop := a < pb_at p + StatusCallCacheDuration.

(** Runs that have published nothing yet. *)
Definition before (r : run) : bool := match r with RNew | RRun _ | RHave _ _ _ => true | _ => false end.
Definition runs_now (r : run) : bool := match r with RRun _ => true | _ => false end.

Definition eng_active (e : eng) : bool := match e with EActive | ELive | ELeave => true | _ => false end.
Definition eng_received (e : eng) : bool := match e with ELive | ELeave | EGone => true | _ => false end.

(** ** The invariant *)

Definition run_ok (s : status_sys) (ch : nat) (b : bool) (r : run) : Prop :=
  match r with
  | RNew => wait (tracker s) = Some ch /\ b = false /\ expiry (tracker s) <= clock s
  | RRun start => wait (tracker s) = Some ch /\ b = false /\ expiry (tracker s) <= start <= clock s
  | RHave start r now => wait (tracker s) = Some ch /\ b = false /\ expiry (tracker s) <= start <= now /\ now <= clock s /\
      Cached r = false /\ exists e, runStatusCall e = Ok r
  | RClose w => w = Some ch /\ b = false /\ wait (tracker s) <> Some ch /\ pubs s <> []
  | REnd => b = true /\ wait (tracker s) <> Some ch /\ pubs s <> []
  end.

Definition fresh_for (s : status_sys) (a : Z) : Prop := exists p, last (pubs s) = Some p /\ recent p a.

(** What a copy says of the publication it was made from. *)
Definition copy_ok (s : status_sys) (a : Z) (k : option nat) (cp : RunnerStatus) : Prop :=
  forall n, k = Some n -> exists p, pubs s !! n = Some p /\ recent p a /\ same_result cp (pb_status p).

Definition req_ok (s : status_sys) (a : Z) (q : request) : Prop :=
  match q with
  | QCheck => True
  | QSpawn ch => runs s !! ch = Some RNew
  | QWait ch => exists r, runs s !! ch = Some r /\ (before r = false -> fresh_for s a)
  | QFetch => fresh_for s a
  | QLoad n k cp => (n <= loads k)%nat /\ copy_ok s a k cp
  | QEnd k res err => forall cp, res = Some cp -> copy_ok s a k cp
  end.

Definition pub_ok (s : status_sys) (p : pub) : Prop :=
  pb_start p <= pb_end p <= pb_at p /\ pb_at p <= clock s /\ Cached (pb_status p) = false /\ exists e, runStatusCall e = Ok (pb_status p).

(** Some request took its status from publication [k]. *)
Definition flagged (l : list (Z * request)) (k : nat) : Prop := exists i q c, l !! i = Some q /\ taken q = Some (k, c).

(** The cache holds the last publication. *)
Definition cache_ok (s : status_sys) : Prop :=
  match last (pubs s) with
  | None => cache (tracker s) = None /\ expiry (tracker s) = 0
  | Some p => expiry (tracker s) = pb_end p + StatusCallCacheDuration /\
      exists b, cache (tracker s) = Some (with_cached (pb_status p) b) /\ (b = true <-> flagged (reqs s) (length (pubs s) - 1))
  end.

Definition spaced (l : list pub) : Prop := forall n p q, l !! n = Some p -> l !! S n = Some q ->
  pb_end p + StatusCallCacheDuration <= pb_start q /\ pb_at p <= pb_at q.

(** What the requests say of each other: one spawner per channel; of those that took
    their status from a publication exactly one got it uncached. *)
Record hist (l : list (Z * request)) (n : nat) : Prop := {
  hs_once : forall i j a a' ch, l !! i = Some (a, QSpawn ch) -> l !! j = Some (a', QSpawn ch) -> i = j;
  hs_first : forall i j q q' k, l !! i = Some q -> l !! j = Some q' -> taken q = Some (k, false) -> taken q' = Some (k, false) -> i = j;
  hs_fresh : forall i q k, l !! i = Some q -> taken q = Some (k, true) -> exists j q', l !! j = Some q' /\ taken q' = Some (k, false);
  hs_taken : forall i q k c, l !! i = Some q -> taken q = Some (k, c) -> (k < n)%nat
}.

Record st_inv (s : status_sys) : Prop := {
  sv_clock : 0 < clock s;
  sv_len : length (wchans s) = length (runs s);
  sv_run : forall ch b r, wchans s !! ch = Some b -> runs s !! ch = Some r -> run_ok s ch b r;
  sv_wait : forall ch, wait (tracker s) = Some ch -> exists r, runs s !! ch = Some r /\ before r = true;
  sv_req : forall i a q, reqs s !! i = Some (a, q) -> 0 <= a <= clock s /\ req_ok s a q;
  sv_pubs : Forall (pub_ok s) (pubs s);
  sv_spaced : spaced (pubs s);
  sv_cache : cache_ok s;
  sv_spawn : forall ch, runs s !! ch = Some RNew -> exists i a, reqs s !! i = Some (a, QSpawn ch);
  sv_hist : hist (reqs s) (length (pubs s));
  sv_inflight : inflight s = i32 (countZ eng_active (engs s));
  sv_received : requestsReceived s = u64 (countZ eng_received (engs s))
}.

Lemma runStatusCall_uncached e r : runStatusCall e = Ok r -> Cached r = false.
Proof. unfold runStatusCall. destruct (status_submit e _) as [x|x|]; intros H; by simplify_eq. Qed.

Definition is_spawn (q : request) : bool := match q with QSpawn _ => true | _ => false end.

(** A request changes phase and takes nothing. *)
Lemma hist_step l n i a q q' : hist l n -> l !! i = Some (a, q) -> taken (a, q') = taken (a, q) ->
  (forall ch j b, q' = QSpawn ch -> l !! j <> Some (b, QSpawn ch)) ->
  hist (<[i := (a, q')]> l) n /\ forall k, flagged l k <-> flagged (<[i := (a, q')]> l) k.
Proof.
  intros H Hq Ht Hs.
  assert (forall j r, <[i := (a, q')]> l !! j = Some r -> exists r', l !! j = Some r' /\ taken r' = taken r) as Hback.
  { intros j r [(<- & <- & _)|(_ & Hj)]%list_lookup_insert_Some; eauto. }
  assert (forall j r, l !! j = Some r -> exists r', <[i := (a, q')]> l !! j = Some r' /\ taken r' = taken r) as Hforth.
  { intros j r Hj. destruct (decide (i = j)) as [<-|Hne].
    - simplify_eq. exists (a, q'). split; [apply list_lookup_insert_eq; by eapply lookup_lt_Some|done].
    - exists r. by rewrite list_lookup_insert_ne. }
  destruct H. split; [constructor|].
  - intros j k b b' ch [(<- & [= _ E] & _)|(? & Hj)]%list_lookup_insert_Some [(<- & [= _ E'] & _)|(? & Hk)]%list_lookup_insert_Some.
    + done.
    + by destruct (Hs ch k b').
    + by destruct (Hs ch j b).
    + by eapply hs_once0.
  - intros j k r r' x Hj Hk Tj Tk. destruct (Hback _ _ Hj) as (y & Hj' & Ey). destruct (Hback _ _ Hk) as (z & Hk' & Ez).
    rewrite <- Ey in Tj. rewrite <- Ez in Tk. by eapply hs_first0.
  - intros j r x Hj Tj. destruct (Hback _ _ Hj) as (y & Hj' & Ey). rewrite <- Ey in Tj.
    destruct (hs_fresh0 _ _ _ Hj' Tj) as (k & z & Hk & Tk). destruct (Hforth _ _ Hk) as (w & Hk' & Ew). exists k, w. by rewrite Ew.
  - intros j r x c Hj Tj. destruct (Hback _ _ Hj) as (y & Hj' & Ey). rewrite <- Ey in Tj. by eapply hs_taken0.
  - intros x. split; intros (j & r & c & Hj & Tj).
    + destruct (Hforth _ _ Hj) as (r' & Hj' & E). exists j, r', c. by rewrite E.
    + destruct (Hback _ _ Hj) as (r' & Hj' & E). exists j, r', c. by rewrite E.
Qed.

Lemma cache_ok_ext s s' : cache_ok s -> tracker s' = tracker s \/ (cache (tracker s') = cache (tracker s) /\ expiry (tracker s') = expiry (tracker s)) ->
  pubs s' = pubs s -> (forall k, flagged (reqs s) k <-> flagged (reqs s') k) -> cache_ok s'.
Proof.
  intros H Ht Hp Hf. assert (cache (tracker s') = cache (tracker s) /\ expiry (tracker s') = expiry (tracker s)) as [Ec Ee].
  { destruct Ht as [->|?]; done. }
  unfold cache_ok in *. rewrite Hp, Ec, Ee. destruct (last (pubs s)); [|done]. destruct H as (? & b & ? & Hb).
  split; [done|]. exists b. split; [done|]. by rewrite Hb, Hf.
Qed.

(** A request goes on, and nothing else changes. *)
Lemma set_req_inv s i a q q' : st_inv s -> reqs s !! i = Some (a, q) -> taken (a, q') = taken (a, q) ->
  is_spawn q = false -> is_spawn q' = false -> req_ok s a q' -> st_inv (set_req s i a q').
Proof.
  intros H Hq Ht Hs Hs' Hok.
  destruct (hist_step _ _ i a q q' (sv_hist s H) Hq Ht) as [Hh Hf]; [by intros ch j b ->|].
  destruct H. constructor; cbn; try done.
  - intros j b r [(<- & [= <- <-] & _)|(_ & Hj)]%list_lookup_insert_Some; [|by eapply sv_req0].
    split; [by eapply sv_req0|done].
  - by eapply cache_ok_ext; [exact sv_cache0|left|..].
  - intros ch Hch. destruct (sv_spawn0 ch Hch) as (j & b & Hj). exists j, b. rewrite list_lookup_insert_ne; [done|].
    intros <-. rewrite Hq in Hj. by simplify_eq.
Qed.

(** What holds of requests, runs and publications does not depend on the counters,
    and lasts as the clock goes on. *)
Lemma run_ok_clock s s' ch b r : run_ok s ch b r -> tracker s' = tracker s -> clock s <= clock s' ->
  (pubs s <> [] -> pubs s' <> []) -> run_ok s' ch b r.
Proof. intros H Ht Hc Hp. destruct r; cbn in *; rewrite Ht; naive_solver lia. Qed.

Lemma req_ok_ext s s' a q : req_ok s a q -> runs s' = runs s -> pubs s' = pubs s -> req_ok s' a q.
Proof. unfold req_ok, fresh_for, copy_ok. by intros H -> ->. Qed.

Lemma pub_ok_clock s s' p : pub_ok s p -> clock s <= clock s' -> pub_ok s' p.
Proof. intros (? & ? & ? & ?) ?. split_and!; try done; cbn; lia. Qed.

Lemma outside_inv s c active recv handled es : st_inv s -> clock s <= c ->
  active = i32 (countZ eng_active es) -> recv = u64 (countZ eng_received es) ->
  st_inv (StatusSys c (tracker s) (wchans s) (reqs s) (runs s) (pubs s) active recv handled es).
Proof.
  intros H Hc Ha Hr. destruct H. constructor; cbn; try done; try lia.
  - intros ch b r Hb Hrr. eapply run_ok_clock; [by eapply sv_run0|done..].
  - intros i a q Hq. destruct (sv_req0 _ _ _ Hq) as [Hle Hok]. split; [lia|]. by eapply req_ok_ext.
  - eapply Forall_impl; [exact sv_pubs0|]. intros p Hp. by eapply pub_ok_clock.
Qed.

Lemma checkStatusCall_cases t a n t' w b : checkStatusCall t a n = (t', w, b) ->
  (t' = t /\ b = false /\ (w = None -> a < expiry t) /\ (forall ch, w = Some ch -> wait t = Some ch)) \/
  (b = true /\ w = Some n /\ wait t = None /\ expiry t <= a /\ t' = Tracker (expiry t) (cache t) (Some n)).
Proof.
  unfold checkStatusCall. destruct (Z.ltb_spec a (expiry t)); [intros [= <- <- <-]; left; naive_solver|].
  destruct (wait t) eqn:E; intros [= <- <- <-]; [left|right]; naive_solver.
Qed.

(** A request finds the cache fresh: the last publication is recent for it. *)
Lemma cached_fresh s a : st_inv s -> 0 <= a -> a < expiry (tracker s) -> fresh_for s a.
Proof.
  intros H Ha He. pose proof (sv_cache s H) as Hc. unfold cache_ok, fresh_for in *.
  destruct (last (pubs s)) as [p|] eqn:El; [|lia]. exists p. split; [done|]. destruct Hc as [Hx _].
  pose proof (sv_pubs s H) as Hp. rewrite Forall_forall in Hp.
  destruct (Hp p) as ([? ?] & _); [by apply last_Some_elem_of|]. unfold recent. lia.
Qed.

(** A run that published nothing yet is the one requests wait for. *)
Lemma before_waits s ch r : st_inv s -> runs s !! ch = Some r -> before r = true -> wait (tracker s) = Some ch.
Proof.
  intros H Hr Hb. destruct (lookup_lt_is_Some_2 (wchans s) ch) as [b Hc]; [rewrite (sv_len s H); by eapply lookup_lt_Some|].
  pose proof (sv_run s H ch b r Hc Hr) as Hok. destruct r; cbn in *; try done; by destruct Hok.
Qed.

Lemma q_first_inv s i a : st_inv s -> reqs s !! i = Some (a, QCheck) -> wait (tracker s) = None -> expiry (tracker s) <= a ->
  st_inv (set_req (set_tracker (add_chan s) (Tracker (expiry (tracker s)) (cache (tracker s)) (Some (length (wchans s))))) i a
            (QSpawn (length (wchans s)))).
Proof.
  intros H Hq Hw He. pose proof (sv_len s H) as Hl.
  assert (forall ch r, runs s !! ch = Some r -> before r = false) as Hold.
  { intros ch r Hr. destruct (before r) eqn:Hb; [|done]. pose proof (before_waits s ch r H Hr Hb). congruence. }
  assert (runs s !! length (wchans s) = None) as Hnone by (apply lookup_ge_None; lia).
  destruct (sv_req s H _ _ _ Hq) as [Ha _].
  destruct (hist_step _ _ i a QCheck (QSpawn (length (wchans s))) (sv_hist s H) Hq) as [Hh Hf]; [done| |].
  { intros ch j b [= <-] Hj. apply (sv_req s H) in Hj as [_ Hj]. cbn in Hj. congruence. }
  destruct H. constructor; cbn; try done.
  - by rewrite !length_app, Hl.
  - intros ch b r Hb Hr. apply lookup_app_Some in Hr as [Hr|[Hge Hr]].
    + pose proof (Hold ch r Hr) as Hbf. pose proof (lookup_lt_Some _ _ _ Hr). rewrite lookup_app_l in Hb by lia.
      pose proof (sv_run0 ch b r Hb Hr) as Hok.
      destruct r; cbn in *; try done; destruct Hok as (? & ? & ?); split_and!; try done; try naive_solver lia; intros [= Heq]; lia.
    + apply list_lookup_singleton_Some in Hr as [Hz <-].
      rewrite lookup_app_r in Hb by lia. apply list_lookup_singleton_Some in Hb as [Hz' <-]. cbn. split_and!; [f_equal; lia|done|lia].
  - intros ch [= <-]. exists RNew. split; [|done]. rewrite lookup_app_r by lia. by rewrite Hl, Nat.sub_diag.
  - intros j b r [(<- & [= <- <-] & _)|(Hne & Hj)]%list_lookup_insert_Some.
    + split; [done|]. cbn. rewrite lookup_app_r by lia. by rewrite Hl, Nat.sub_diag.
    + destruct (sv_req0 _ _ _ Hj) as [? Hok]. split; [done|]. destruct r; cbn in *; try done.
      * by apply lookup_app_l_Some.
      * destruct Hok as (r & Hr & Hx). exists r. split; [by apply lookup_app_l_Some|done].
  - by eapply cache_ok_ext; [exact sv_cache0|right|..].
  - intros ch Hr. apply lookup_app_Some in Hr as [Hr|[Hge Hr]]; [by apply Hold in Hr|].
    apply list_lookup_singleton_Some in Hr as [Hz _]. exists i, a. replace ch with (length (wchans s)) by lia.
    apply list_lookup_insert_eq. by eapply lookup_lt_Some.
Qed.

(** A run goes on to a phase of the same kind, and nothing else changes. *)
Lemma set_run_inv s ch r r' : st_inv s -> runs s !! ch = Some r -> before r' = before r -> r <> RNew -> r' <> RNew ->
  (forall b, wchans s !! ch = Some b -> run_ok s ch b r') -> st_inv (set_run s ch r').
Proof.
  intros H Hr Hb Hn Hn' Hok. destruct H. constructor; cbn; try done.
  - by rewrite length_insert.
  - intros c b x Hc [(<- & <- & _)|(_ & Hx)]%list_lookup_insert_Some; [by apply Hok|by apply (sv_run0 c)].
  - intros c Hc. destruct (sv_wait0 c Hc) as (x & Hx & Hbf). destruct (decide (ch = c)) as [<-|Hne].
    + exists r'. simplify_eq. rewrite Hb. split; [apply list_lookup_insert_eq; by eapply lookup_lt_Some|done].
    + exists x. by rewrite list_lookup_insert_ne.
  - intros j b x Hj. destruct (sv_req0 _ _ _ Hj) as [? Hq]. split; [done|]. destruct x as [|c|c| | | ]; try done; cbn in *.
    + rewrite list_lookup_insert_ne; [done|]. intros <-. congruence.
    + destruct Hq as (x & Hx & Hf). destruct (decide (ch = c)) as [<-|Hne].
      * exists r'. simplify_eq. rewrite Hb. split; [apply list_lookup_insert_eq; by eapply lookup_lt_Some|done].
      * exists x. by rewrite list_lookup_insert_ne.
  - intros c [(_ & ? & _)|(_ & Hc)]%list_lookup_insert_Some; [done|by apply sv_spawn0].
Qed.

Lemma q_spawn_inv s i a ch : st_inv s -> reqs s !! i = Some (a, QSpawn ch) ->
  st_inv (set_run (set_req s i a (QWait ch)) ch (RRun (clock s))).
Proof.
  intros H Hq. destruct (sv_req s H _ _ _ Hq) as [Ha Hnew]. cbn in Hnew.
  destruct (hist_step _ _ i a (QSpawn ch) (QWait ch) (sv_hist s H) Hq) as [Hh Hf]; [done|done|].
  pose proof (lookup_lt_Some _ _ _ Hnew) as Hlt. pose proof (hs_once _ _ (sv_hist s H)) as Honce.
  destruct H. constructor; cbn; try done.
  - by rewrite length_insert.
  - intros c b r Hb [(<- & <- & _)|(_ & Hr)]%list_lookup_insert_Some; [|by apply (sv_run0 c)].
    destruct (sv_run0 _ _ _ Hb Hnew) as (? & ? & ?). split_and!; done || (cbn; lia).
  - intros c Hc. destruct (sv_wait0 c Hc) as (r & Hr & Hbf). destruct (decide (c = ch)) as [->|Hne].
    + exists (RRun (clock s)). split; [by apply list_lookup_insert_eq|done].
    + exists r. by rewrite list_lookup_insert_ne.
  - intros j b r [(<- & [= <- <-] & _)|(Hne & Hj)]%list_lookup_insert_Some.
    + split; [done|]. exists (RRun (clock s)). split; [by apply list_lookup_insert_eq|done].
    + destruct (sv_req0 _ _ _ Hj) as [? Hok]. split; [done|]. destruct r as [|c|c| | | ]; try done; cbn in *.
      * rewrite list_lookup_insert_ne; [done|]. intros <-. destruct Hne. by eapply Honce.
      * destruct Hok as (r & Hr & Hx). destruct (decide (c = ch)) as [->|Hn].
        -- exists (RRun (clock s)). split; [by apply list_lookup_insert_eq|done].
        -- exists r. by rewrite list_lookup_insert_ne.
  - by eapply cache_ok_ext; [exact sv_cache0|left|..].
  - intros c [(<- & [=] & _)|(Hne & Hr)]%list_lookup_insert_Some. destruct (sv_spawn0 c Hr) as (j & b & Hj). exists j, b.
    rewrite list_lookup_insert_ne; [done|]. intros <-. by simplify_eq.
Qed.

(** A request takes its status from publication [k]: uncached if it is the first. *)
Lemma hist_take l n i a q k cp : hist l n -> l !! i = Some (a, q) -> taken (a, q) = None -> (k < n)%nat ->
  (Cached cp = true <-> flagged l k) ->
  hist (<[i := (a, QLoad 0 (Some k) cp)]> l) n /\
  forall k', flagged (<[i := (a, QLoad 0 (Some k) cp)]> l) k' <-> k' = k \/ flagged l k'.
Proof.
  intros H Hq Ht Hk Hc. set (l' := <[i := _]> l).
  assert (l' !! i = Some (a, QLoad 0 (Some k) cp)) as Hi by (apply list_lookup_insert_eq; by eapply lookup_lt_Some).
  assert (forall j r, l' !! j = Some r -> (j = i /\ r = (a, QLoad 0 (Some k) cp)) \/ (j <> i /\ l !! j = Some r)) as Hback.
  { intros j r [(<- & <- & _)|(? & Hj)]%list_lookup_insert_Some; auto. }
  assert (forall j r x, l !! j = Some r -> taken r = Some x -> l' !! j = Some r) as Hkeep.
  { intros j r x Hj Hx. unfold l'. rewrite list_lookup_insert_ne; [done|]. intros <-. congruence. }
  pose proof H as [Ho Hf Hfr Htk]. split; [constructor|].
  - intros j j' b b' ch Hj Hj'. apply Hback in Hj as [[_ ?]|[_ Hj]]; [done|]. apply Hback in Hj' as [[_ ?]|[_ Hj']]; [done|]. by eapply Ho.
  - assert (forall j r x, l !! j = Some r -> taken r = Some (x, false) -> Some (k, Cached cp) <> Some (x, false)) as Hno.
    { intros j r x Hj Tj [= <- E]. assert (Cached cp = true) by (apply Hc; by exists j, r, false). congruence. }
    intros j j' r r' x Hj Hj' Tj Tj'. apply Hback in Hj as [[-> ->]|[_ Hj]]; apply Hback in Hj' as [[-> ->]|[_ Hj']]; try done.
    + by destruct (Hno _ _ _ Hj' Tj').
    + by destruct (Hno _ _ _ Hj Tj).
    + by eapply Hf.
  - intros j r x Hj Tj. assert (exists j' r' c, l !! j' = Some r' /\ taken r' = Some (x, c)) as (j' & r' & c & Hj' & Tj').
    { apply Hback in Hj as [[-> ->]|[_ Hj]]; [|by exists j, r, true]. cbn in Tj. injection Tj as <- E. apply Hc in E as (j' & r' & c & ? & ?).
      by exists j', r', c. }
    destruct c; [|by exists j', r'; split; [eapply Hkeep|]].
    destruct (Hfr _ _ _ Hj' Tj') as (m & z & Hm & Tm). exists m, z. split; [by eapply Hkeep|done].
  - intros j r x c Hj Tj. apply Hback in Hj as [[-> ->]|[_ Hj]]; [cbn in Tj; by simplify_eq|by eapply Htk].
  - intros x. split.
    + intros (j & r & c & Hj & Tj). apply Hback in Hj as [[-> ->]|[_ Hj]]; [cbn in Tj; left; congruence|right; by exists j, r, c].
    + intros [->|(j & r & c & Hj & Tj)]; [by exists i, (a, QLoad 0 (Some k) cp), (Cached cp)|]. exists j, r, c. split; [by eapply Hkeep|done].
Qed.

Lemma same_result_copy r b : same_result (with_custom (with_cached r b) (Some (entries (CustomStatus (with_cached r b))))) r.
Proof. by split_and!. Qed.

Lemma q_fetch_inv s i a t cp : st_inv s -> reqs s !! i = Some (a, QFetch) -> fetchStatusCall (tracker s) = Ok (t, cp) ->
  st_inv (set_req (set_tracker s t) i a (QLoad 0 (Some (length (pubs s) - 1)%nat) cp)).
Proof.
  intros H Hq He. destruct (sv_req s H _ _ _ Hq) as [Ha (p & Hl & Hrec)]. pose proof (sv_cache s H) as Hc. unfold cache_ok in Hc.
  rewrite Hl in Hc. destruct Hc as (Hx & b & Hc & Hb). unfold fetchStatusCall in He. rewrite Hc in He. injection He as <- <-.
  assert (0 < length (pubs s))%nat as Hlen by (destruct (pubs s); [done|cbn; lia]).
  assert (pubs s !! (length (pubs s) - 1)%nat = Some p) as Hp by (rewrite <- Hl, last_lookup; f_equal; lia).
  edestruct (hist_take (reqs s) (length (pubs s)) i a QFetch (length (pubs s) - 1)%nat
    (with_custom (with_cached (pb_status p) b) (Some (entries (CustomStatus (with_cached (pb_status p) b))))) (sv_hist s H) Hq)
    as [Hh Hf]; [done|lia|exact Hb|].
  destruct H. constructor; cbn; try done.
  - intros j c r [(<- & [= <- <-] & _)|(Hne & Hj)]%list_lookup_insert_Some.
    + split; [done|]. split; [cbn; lia|]. intros n [= <-]. exists p. split_and!; try done.
    + destruct (sv_req0 _ _ _ Hj) as [? Hok]. split; [done|]. by eapply req_ok_ext.
  - unfold cache_ok. cbn. rewrite Hl. split; [done|]. exists true. split; [done|]. rewrite Hf. naive_solver.
  - intros ch Hch. destruct (sv_spawn0 ch Hch) as (j & c & Hj). exists j, c. rewrite list_lookup_insert_ne; [done|].
    intros <-. congruence.
Qed.

Lemma spaced_snoc l p : spaced l -> (forall q, last l = Some q -> pb_end q + StatusCallCacheDuration <= pb_start p /\ pb_at q <= pb_at p) ->
  spaced (l ++ [p]).
Proof.
  intros H Hp n x y Hx Hy. apply lookup_app_Some in Hy as [Hy|[Hge Hy]].
  - rewrite lookup_app_l in Hx by (apply lookup_lt_Some in Hy; lia). by eapply H.
  - apply list_lookup_singleton_Some in Hy as [Hz <-]. apply Hp. rewrite last_lookup.
    rewrite lookup_app_l in Hx by lia. rewrite <- Hx. f_equal. lia.
Qed.

Lemma cached_false r : Cached r = false -> with_cached r false = r.
Proof. by destruct r; intros [= ->]. Qed.

Lemma r_publish_inv s ch start r now t w : st_inv s -> runs s !! ch = Some (RHave start r now) -> publish (tracker s) r now = (t, w) ->
  st_inv (set_run (add_pub (set_tracker s t) (Pub start now (clock s) r)) ch (RClose w)).
Proof.
  intros H Hr [= <- <-]. destruct (lookup_lt_is_Some_2 (wchans s) ch) as [b Hb]; [rewrite (sv_len s H); by eapply lookup_lt_Some|].
  destruct (sv_run s H ch b _ Hb Hr) as (Hw & -> & Hs & Hn & Hcf & Hran).
  assert (forall c x, runs s !! c = Some x -> c <> ch -> before x = false) as Hothers.
  { intros c x Hx Hne. destruct (before x) eqn:E; [|done]. pose proof (before_waits s c x H Hx E). congruence. }
  pose proof (sv_cache s H) as Hcache. unfold cache_ok in Hcache. pose proof (sv_hist s H) as Hh.
  destruct H. constructor; cbn; try done.
  - by rewrite length_insert.
  - intros c bc x Hc [(<- & <- & _)|(Hne & Hx)]%list_lookup_insert_Some; cbn.
    + split_and!; try done; [congruence|by destruct (pubs s)].
    + pose proof (Hothers c x Hx (not_eq_sym Hne)). pose proof (sv_run0 c bc x Hc Hx) as Hok.
      destruct x; try done; cbn in *; [destruct Hok as (-> & -> & _)|destruct Hok as (-> & _)]; split_and!; try done; by destruct (pubs s).
  - assert (forall a, 0 <= a <= clock s -> fresh_for (set_run (add_pub (set_tracker s (Tracker (now + StatusCallCacheDuration) (Some r) None))
      (Pub start now (clock s) r)) ch (RClose (wait (tracker s)))) a) as Hfr.
    { intros a Ha. exists (Pub start now (clock s) r). cbn. rewrite last_snoc. split; [done|]. unfold recent, StatusCallCacheDuration,
      StatusCallIdleTimeout, Second. cbn. lia. }
    assert (forall a k cp, copy_ok s a k cp -> copy_ok (set_run (add_pub (set_tracker s (Tracker (now + StatusCallCacheDuration) (Some r) None))
      (Pub start now (clock s) r)) ch (RClose (wait (tracker s)))) a k cp) as Hcp.
    { intros a k cp Hcp n Hk. destruct (Hcp n Hk) as (p & Hp & ?). exists p. split; [by apply lookup_app_l_Some|done]. }
    intros j a q Hj. destruct (sv_req0 _ _ _ Hj) as [? Hok]. split; [done|]. destruct q as [|c|c| |n k cp|k res err]; cbn in *; try done.
    + rewrite list_lookup_insert_ne; [done|]. intros <-. congruence.
    + destruct Hok as (x & Hx & _). destruct (decide (ch = c)) as [<-|Hne].
      * exists (RClose (wait (tracker s))). split; [apply list_lookup_insert_eq; by eapply lookup_lt_Some|]. intros _. by apply Hfr.
      * exists x. rewrite list_lookup_insert_ne by done. split; [done|]. intros _. by apply Hfr.
    + by apply Hfr.
    + destruct Hok as [Hle Hok]. split; [done|]. by apply Hcp.
    + intros y Hy. apply Hcp. by eapply Hok.
  - apply Forall_app. split; [done|]. apply Forall_singleton. split_and!; cbn; try done; lia.
  - apply spaced_snoc; [done|]. intros q Hq. rewrite Hq in Hcache. destruct Hcache as [He _]. cbn.
    rewrite Forall_forall in sv_pubs0. destruct (sv_pubs0 q) as (_ & ? & _); [by apply last_Some_elem_of|]. lia.
  - unfold cache_ok. cbn. rewrite last_snoc. cbn. split; [done|]. exists false. rewrite cached_false by done. split; [done|]. split; [done|].
    intros (i & q & c & Hi & Hq). apply (hs_taken _ _ Hh _ _ _ _ Hi) in Hq. rewrite length_app in Hq. cbn in Hq. lia.
  - intros c [(_ & ? & _)|(_ & Hc)]%list_lookup_insert_Some; [done|by apply sv_spawn0].
  - rewrite length_app. destruct Hh. constructor; try done. intros i q k c Hi Hq. specialize (hs_taken0 _ _ _ _ Hi Hq). lia.
Qed.

Lemma r_close_inv s ch w cs : st_inv s -> runs s !! ch = Some (RClose w) -> close_wait (wchans s) w = Ok cs ->
  st_inv (set_run (set_chans s cs) ch REnd).
Proof.
  intros H Hr Hc. pose proof (lookup_lt_Some _ _ _ Hr) as Hlt.
  destruct (lookup_lt_is_Some_2 (wchans s) ch) as [b Hb]; [by rewrite (sv_len s H)|].
  destruct (sv_run s H ch b _ Hb Hr) as (-> & -> & Hw & Hp). cbn in Hc. rewrite Hb in Hc. injection Hc as <-.
  destruct H. constructor; cbn; try done.
  - by rewrite !length_insert.
  - intros c b x Hx [(<- & <- & _)|(Hne & Hr')]%list_lookup_insert_Some; cbn.
    + rewrite list_lookup_insert_eq in Hx by (by rewrite sv_len0). by simplify_eq.
    + rewrite list_lookup_insert_ne in Hx by done. by apply (sv_run0 c).
  - intros c Hx. destruct (sv_wait0 c Hx) as (x & ? & ?). exists x. rewrite list_lookup_insert_ne; [done|]. intros <-. congruence.
  - intros j a q Hj. destruct (sv_req0 _ _ _ Hj) as [? Hok]. split; [done|]. destruct q as [|c|c| | | ]; try done; cbn in *.
    + rewrite list_lookup_insert_ne; [done|]. intros <-. congruence.
    + destruct Hok as (x & Hx & Hf). destruct (decide (ch = c)) as [<-|Hne].
      * exists REnd. split; [by apply list_lookup_insert_eq|]. intros _. apply Hf. by simplify_eq.
      * exists x. by rewrite list_lookup_insert_ne.
  - intros c [(_ & ? & _)|(_ & Hx)]%list_lookup_insert_Some; [done|by apply sv_spawn0].
Qed.

Lemma hist_new l n a q : hist l n -> taken (a, q) = None -> is_spawn q = false ->
  hist (l ++ [(a, q)]) n /\ forall k, flagged l k <-> flagged (l ++ [(a, q)]) k.
Proof.
  intros [Ho Hf Hfr Htk] Ht Hs.
  assert (forall j r, (l ++ [(a, q)]) !! j = Some r -> l !! j = Some r \/ r = (a, q)) as Hback.
  { intros j r [Hj|[_ Hj]]%lookup_app_Some; [by left|]. apply list_lookup_singleton_Some in Hj as [_ <-]. by right. }
  assert (forall j r, l !! j = Some r -> (l ++ [(a, q)]) !! j = Some r) as Hkeep by (intros; by apply lookup_app_l_Some).
  split; [constructor|].
  - intros i j b b' ch Hi Hj. apply Hback in Hi as [Hi|[= -> <-]]; [|done]. apply Hback in Hj as [Hj|[= -> <-]]; [|done]. by eapply Ho.
  - intros i j r r' k Hi Hj Ti Tj. apply Hback in Hi as [Hi| ->]; [|congruence]. apply Hback in Hj as [Hj| ->]; [|congruence]. by eapply Hf.
  - intros i r k Hi Ti. apply Hback in Hi as [Hi| ->]; [|congruence]. destruct (Hfr _ _ _ Hi Ti) as (j & x & ? & ?). eauto.
  - intros i r k c Hi Ti. apply Hback in Hi as [Hi| ->]; [|congruence]. by eapply Htk.
  - intros k. split; intros (i & r & c & Hi & Ti); [by exists i, r, c; auto|].
    apply Hback in Hi as [Hi| ->]; [|congruence]. by exists i, r, c.
Qed.

Lemma q_new_inv s q : st_inv s -> q = QCheck \/ q = QLoad 0 None no_status ->
  st_inv (StatusSys (clock s) (tracker s) (wchans s) (reqs s ++ [(clock s, q)]) (runs s) (pubs s)
            (inflight s) (requestsReceived s) (requestsHandled s) (engs s)).
Proof.
  intros H Hq. destruct (hist_new _ _ (clock s) q (sv_hist s H)) as [Hh Hf]; [by destruct Hq as [-> | ->]..|].
  destruct H. constructor; cbn; try done.
  - intros i a r [Hi|[_ Hi]]%lookup_app_Some; [by eapply sv_req0|].
    apply list_lookup_singleton_Some in Hi as [_ [= <- <-]]. split; [lia|]. destruct Hq as [-> | ->]; [done|]. split; [cbn; lia|done].
  - by eapply cache_ok_ext; [exact sv_cache0|left|..].
  - intros ch Hch. destruct (sv_spawn0 ch Hch) as (i & a & Hi). exists i, a. by apply lookup_app_l_Some.
Qed.

Ltac reqs_step H Hq := eapply set_req_inv; [exact H|exact Hq|done|done|done|].

Ltac eng_step H He :=
  apply outside_inv; [done|done|..]; rewrite (countZ_insert _ _ _ _ _ He);
  [rewrite (sv_inflight _ H), i32_add_l|rewrite (sv_received _ H), u64_add_l]; f_equal; cbn; lia.

Lemma st_step_inv o s s' : st_inv s -> st_step o s s' -> st_inv s'.
Proof.
  intros H Hs. destruct Hs as [s|s i a t Hq Hc|s i a t ch Hq Hc|s i a t ch Hq Hc|s i a ch Hq|s i a ch Hq Hch|s i a ch e Hq|s i a t cp Hq Hf
    |s i a n k cp Hq Hn|s i a n k cp err Hq Hn Hk|s ch start e r Hr He|s ch start r now t w Hr Hp|s ch w cs Hr Hc|s|s i He|s i He|s i err He|s i He|s d Hd].
  - apply q_new_inv; [done|]. destruct (streq _ _); auto.
  - apply checkStatusCall_cases in Hc as [(-> & _ & Hc & _)|([=] & _)]. destruct (sv_req s H _ _ _ Hq) as [Ha _].
    assert (st_inv (set_req s i a QFetch)); [|by destruct s]. reqs_step H Hq. apply cached_fresh; [done|lia|by apply Hc].
  - apply checkStatusCall_cases in Hc as [(-> & _ & _ & Hc)|([=] & _)].
    assert (st_inv (set_req s i a (QWait ch))); [|by destruct s]. reqs_step H Hq.
    destruct (sv_wait s H ch) as (r & Hr & Hb); [by apply Hc|]. exists r. split; [done|]. by rewrite Hb.
  - apply checkStatusCall_cases in Hc as [(_ & [=] & _)|(_ & [= ->] & Hw & He & ->)]. by apply q_first_inv.
  - by apply q_spawn_inv.
  - reqs_step H Hq. destruct (sv_req s H _ _ _ Hq) as [_ (r & Hr & Hf)]. apply Hf.
    pose proof (sv_run s H ch true r Hch Hr) as Hok. destruct r; cbn in *; try done; by destruct Hok as (? & [=] & _).
  - reqs_step H Hq. done.
  - by eapply q_fetch_inv.
  - destruct (sv_req s H _ _ _ Hq) as [_ [_ Hcp]]. eapply set_req_inv; [exact H|exact Hq| |done|done|].
    + destruct k as [k|]; [|done]. cbn. by destruct n as [|[|[|n]]].
    + split; [lia|]. intros m Hm. destruct (Hcp m Hm) as (p & ? & ? & Hsame). exists p. split_and!; try done.
      all: destruct n as [|[|[|n]]]; apply Hsame.
  - destruct (sv_req s H _ _ _ Hq) as [_ [_ Hcp]]. eapply set_req_inv; [exact H|exact Hq|by destruct k|done|done|].
    intros c [= <-]. exact Hcp.
  - eapply set_run_inv; [done|exact Hr|done..|]. intros b Hb. destruct (sv_run s H ch b _ Hb Hr) as (? & ? & ?).
    split_and!; try done; try lia; [by eapply runStatusCall_uncached|by exists e].
  - by eapply r_publish_inv.
  - by eapply r_close_inv.
  - apply outside_inv; [done|done|..]; rewrite countZ_app; cbn; rewrite ?Z.add_0_r; by destruct H.
  - eng_step H He.
  - eng_step H He.
  - eng_step H He.
  - eng_step H He.
  - apply outside_inv; [done|lia|by destruct H..].
Qed.

Lemma st_reach_inv s : st_reach s -> st_inv s.
Proof.
  intros (now & Hnow & Hr). remember (NewStatusTracker now) as s0 eqn:E.
  assert (st_inv s0) as H0.
  { subst. constructor; cbn; try done; try by intros ? ? ? ?%lookup_nil_Some. }
  clear E. induction Hr as [s|a b c [o Hs] _ IH]; [done|]. apply IH. by eapply st_step_inv.
Qed.

(** ** Progress *)

Definition q_rank (q : Z * request) : nat :=
  match q.2 with QCheck => 9 | QSpawn _ => 8 | QWait _ => 7 | QFetch => 6 | QLoad n _ _ => 5 - n | QEnd _ _ _ => 0 end.
Definition r_rank (r : run) : nat := match r with RHave _ _ _ => 2 | RClose _ => 1 | _ => 0 end.
Definition st_rank (s : status_sys) : nat := sum_list (q_rank <$> reqs s) + sum_list (r_rank <$> runs s).

Lemma st_step_rank s s' : st_inv s -> st_step true s s' -> (st_rank s' < st_rank s)%nat.
Proof.
  intros Hi Hs. remember true as o eqn:Eo. unfold st_rank.
  destruct Hs as [ | | | |s i a ch Hq| | | | | | | | | | | | | | ]; try done; cbn; rewrite ?fmap_app, ?sum_list_with_app;
    try (destruct (sv_req s Hi _ _ _ Hq) as [_ Hn]; pose proof (sum_fmap_insert r_rank _ _ _ (RRun (clock s)) Hn));
    try match goal with H : reqs _ !! ?i = Some ?x |- context [<[?i := ?y]> (reqs _)] => pose proof (sum_fmap_insert q_rank _ _ _ y H) end;
    try match goal with H : runs _ !! ?i = Some ?x |- context [<[?i := ?y]> (runs _)] => pose proof (sum_fmap_insert r_rank _ _ _ y H) end;
    cbn in *; unfold loads in *; repeat case_match; simplify_eq; try lia.
Qed.

(** A run that published has a cache to serve, and its channel to close. *)
Lemma fetch_ok s i a : st_inv s -> reqs s !! i = Some (a, QFetch) -> exists t cp, fetchStatusCall (tracker s) = Ok (t, cp).
Proof.
  intros H Hq. destruct (sv_req s H _ _ _ Hq) as [_ (p & Hl & _)]. pose proof (sv_cache s H) as Hc. unfold cache_ok in Hc.
  rewrite Hl in Hc. destruct Hc as (_ & b & Hc & _). unfold fetchStatusCall. rewrite Hc. by eexists _, _.
Qed.

Lemma close_wait_ok s ch w : st_inv s -> runs s !! ch = Some (RClose w) -> exists cs, close_wait (wchans s) w = Ok cs.
Proof.
  intros H Hr. destruct (lookup_lt_is_Some_2 (wchans s) ch) as [b Hb]; [rewrite (sv_len s H); by eapply lookup_lt_Some|].
  destruct (sv_run s H ch b _ Hb Hr) as (-> & -> & _). cbn. rewrite Hb. by eexists.
Qed.

(** Nothing left to do and no run under way: every request is answered. *)
Lemma status_rest_answered s i a q : st_inv s -> (forall s', ~ st_step true s s') -> (forall ch start, runs s !! ch <> Some (RRun start)) ->
  reqs s !! i = Some (a, q) -> exists k res err, q = QEnd k res err.
Proof.
  intros H Hrest Hrun Hq. destruct (sv_req s H _ _ _ Hq) as [_ Hok]. destruct q as [|ch|ch| |n k cp|k res err]; cbn in Hok.
  - destruct (checkStatusCall (tracker s) a (length (wchans s))) as [[t w] b] eqn:E. exfalso. pose proof E as E'.
    apply checkStatusCall_cases in E as [(-> & -> & _)|(-> & -> & _)].
    + destruct w as [ch|]; [by eapply Hrest, q_join|by eapply Hrest, q_cached].
    + by eapply Hrest, q_first.
  - exfalso. by eapply Hrest, q_spawn.
  - exfalso. destruct Hok as (r & Hr & _). destruct r as [|start|start r now|w|].
    + destruct (sv_spawn s H ch Hr) as (j & b & Hj). by eapply Hrest, q_spawn.
    + by eapply Hrun.
    + by eapply Hrest, r_publish.
    + destruct (close_wait_ok s ch w H Hr) as [cs Hc]. by eapply Hrest, r_close.
    + destruct (lookup_lt_is_Some_2 (wchans s) ch) as [b Hb]; [rewrite (sv_len s H); by eapply lookup_lt_Some|].
      destruct (sv_run s H ch b _ Hb Hr) as (-> & _). by eapply Hrest, q_wake.
  - exfalso. destruct (fetch_ok s i a H Hq) as (t & cp & Hf). by eapply Hrest, q_fetch.
  - exfalso. destruct Hok as [Hle _]. destruct (decide (n = loads k)) as [->|Hne].
    + by eapply Hrest, (q_done s i a _ k cp None).
    + eapply Hrest, (q_load s i a n k cp); [done|lia].
  - by exists k, res, err.
Qed.

Lemma spaced_current s ch start : st_inv s -> runs s !! ch = Some (RRun start) ->
  forall p, last (pubs s) = Some p -> pb_end p + StatusCallCacheDuration <= start.
Proof.
  intros H Hr p Hp. destruct (lookup_lt_is_Some_2 (wchans s) ch) as [b Hb]; [rewrite (sv_len s H); by eapply lookup_lt_Some|].
  destruct (sv_run s H ch b _ Hb Hr) as (_ & _ & He & _). pose proof (sv_cache s H) as Hc. unfold cache_ok in Hc. rewrite Hp in Hc.
  destruct Hc as [<- _]. done.
Qed.

Lemma own_steps_bound s n s' : st_inv s -> nsteps (st_step true) n s s' -> st_inv s' /\ (n + st_rank s' <= st_rank s)%nat.
Proof.
  intros H Hn. induction Hn as [s|n a b c Hab _ IH]; [by split; [|lia]|].
  destruct IH as [Hi Hle]; [by eapply st_step_inv|]. pose proof (st_step_rank a b H Hab). split; [done|lia].
Qed.
End Status.

(** C19: the status of a runner: a request is served the result of a run that was
    published less than a second and a half before it came, or later; exactly one
    of those that share a result is told that it is not cached; at most one status
    call runs at a time, and it starts at least a second and a half after the
    previous one ended, when its container has timed out; fetching and publishing
    never panic; and once a run under way has ended the tracker answers every
    request in a bounded number of steps of its own. *)
Theorem status_tracker_safe NewRequest DateTime_String st s : st_reach NewRequest DateTime_String st s ->
  (forall i a k r err, reqs s !! i = Some (a, QEnd (Some k) (Some r) err) ->
     exists p, pubs s !! k = Some p /\ a < pb_at p + 1500000000 /\ same_result r (pb_status p) /\
       exists e, runStatusCall NewRequest DateTime_String st e = Ok (pb_status p)) /\
  (forall i j q q' k, reqs s !! i = Some q -> reqs s !! j = Some q' -> taken q = Some (k, false) -> taken q' = Some (k, false) -> i = j) /\
  (forall i q k, reqs s !! i = Some q -> taken q = Some (k, true) -> exists j q', reqs s !! j = Some q' /\ taken q' = Some (k, false)) /\
  (forall c c' r r', runs s !! c = Some r -> runs s !! c' = Some r' -> before r = true -> before r' = true -> c = c') /\
  (forall n p q, pubs s !! n = Some p -> pubs s !! S n = Some q -> pb_end p + 1500000000 <= pb_start q) /\
  (forall ch start p, runs s !! ch = Some (RRun start) -> last (pubs s) = Some p -> pb_end p + 1500000000 <= start) /\
  (forall i a, reqs s !! i = Some (a, QFetch) -> exists t cp, fetchStatusCall (tracker s) = Ok (t, cp)) /\
  (forall ch w, runs s !! ch = Some (RClose w) -> exists cs, close_wait (wchans s) w = Ok cs) /\
  (forall n s', nsteps (st_step NewRequest DateTime_String st true) n s s' -> (n <= st_rank s)%nat /\
     ((forall s'', ~ st_step NewRequest DateTime_String st true s' s'') -> (forall ch start, runs s' !! ch <> Some (RRun start)) ->
      forall i a q, reqs s' !! i = Some (a, q) -> exists k res err, q = QEnd k res err)).
Proof.
  intros Hr. pose proof (st_reach_inv _ _ _ s Hr) as H. split_and!.
  - intros i a k r err Hq. destruct (sv_req _ _ _ s H _ _ _ Hq) as [_ Hok]. destruct (Hok r eq_refl k eq_refl) as (p & Hp & Hrec & Hs).
    exists p. split_and!; try done. pose proof (sv_pubs _ _ _ s H) as Hpub. rewrite Forall_forall in Hpub.
    destruct (Hpub p) as (_ & _ & _ & ?); [by eapply list_elem_of_lookup_2|done].
  - exact (hs_first _ _ (sv_hist _ _ _ s H)).
  - exact (hs_fresh _ _ (sv_hist _ _ _ s H)).
  - intros c c' r r' Hc Hc' Hb Hb'. pose proof (before_waits _ _ _ s c r H Hc Hb). pose proof (before_waits _ _ _ s c' r' H Hc' Hb').
    congruence.
  - intros n p q Hp Hq. by destruct (sv_spaced _ _ _ s H n p q Hp Hq).
  - intros ch start p Hc Hp. exact (spaced_current _ _ _ s ch start H Hc p Hp).
  - intros i a Hq. by eapply fetch_ok.
  - intros ch w Hw. by eapply close_wait_ok.
  - intros n s' Hn. destruct (own_steps_bound _ _ _ s n s' H Hn) as [Hi Hle]. split; [lia|].
    intros Hrest Hrun i a q Hq. by eapply (status_rest_answered _ _ _ s' i a q).
Qed.

Definition with_submit (e : run_env) (f : call -> bool -> status_submitted) : run_env :=
  RunEnv (re_id e) (re_payload e) (re_now e) (re_end e) (re_barrier e) (re_health e) f.

(** C38: one status call: it is reported as failed exactly when the health checker or
    the agent refuses it, when the call ends in an error or when its answer has a
    status of at least 400, and then says with which error; what the function wrote
    comes back as the details; after a failed health check nothing is submitted; the
    call runs without network exactly when the report says so, which is while a
    configured barrier file is missing.  Its container can be evicted, although the
    code means to prevent that: the temporary file system counts as memory. *)
Theorem runStatusCall_spec NewRequest DateTime_String st e r :
  runStatusCall NewRequest DateTime_String st e = Ok r ->
  let c := newStatusCall (re_id e) (stc_imageName st) (re_payload e) (re_now e) in
  (Failed r = false <-> exists sb, status_submit NewRequest st e c = Ok sb /\ sb_err sb = None /\ sb_status sb < 400) /\
  (Failed r = true ->
     (exists err, ErrorStr r = error_msg err /\ ErrorCode r = i32 (GetAPIErrorCode err)) \/
     (exists sb, status_submit NewRequest st e c = Ok sb /\ ErrorStr r = ""%string /\ ErrorCode r = i32 (sb_status sb) /\ 400 <= sb_status sb)) /\
  (forall sb, status_submit NewRequest st e c = Ok sb -> Details r = sb_body sb /\ rs_Id r = cl_ID (sb_model sb)) /\
  ((health st e).2 <> None -> Failed r = true /\ forall f, runStatusCall NewRequest DateTime_String st (with_submit e f) = Ok r) /\
  (forall f, (forall ac, f ac (IsNetworkDisabled r) = re_submit e ac (IsNetworkDisabled r)) ->
     runStatusCall NewRequest DateTime_String st (with_submit e f) = Ok r) /\
  (IsNetworkDisabled r = true <-> stc_barrierPath st <> ""%string /\ re_barrier e = false) /\
  (forall tid slot, isEligible (TKey tid slot (u64 (cl_Memory c + cl_TmpFsSize c)) (cl_CPUs c)) = true).
Proof.
  intros Hr c. assert (IsNetworkDisabled r = network_disabled st e) as Hnet.
  { unfold runStatusCall in Hr. destruct (status_submit _ _ _ _); by simplify_eq. }
  assert (forall f, (health st e).2 = None -> (forall ac, f ac (network_disabled st e) = re_submit e ac (network_disabled st e)) ->
            status_submit NewRequest st (with_submit e f) c = status_submit NewRequest st e c) as Hf.
  { intros f Hh Hf. unfold status_submit. change (health st (with_submit e f)) with (health st e). rewrite Hh.
    destruct (stc_agent st) as [a|]; [|done]. destruct (GetCall a _) as [ac| |]; [|done..]. cbn. f_equal. apply Hf. }
  assert (forall f, status_submit NewRequest st (with_submit e f) c = status_submit NewRequest st e c ->
            runStatusCall NewRequest DateTime_String st (with_submit e f) = Ok r) as Hsame.
  { intros f E. unfold runStatusCall in *. cbn -[status_submit] in *. fold c in Hr |- *. rewrite E. done. }
  assert ((health st e).2 <> None -> forall f, status_submit NewRequest st (with_submit e f) c = status_submit NewRequest st e c) as Hsick.
  { intros Hh f. unfold status_submit. change (health st (with_submit e f)) with (health st e). by destruct (health st e).2. }
  assert ((health st e).2 <> None -> exists err, status_submit NewRequest st e c = Err err) as Herr.
  { intros Hh. unfold status_submit. destruct (health st e).2 as [err|]; [|done]. by exists err. }
  unfold runStatusCall in Hr. fold c in Hr. split_and!.
  - destruct (status_submit NewRequest st e c) as [sb|err|]; simplify_eq; cbn; [|split; [done|by intros (? & ? & _)]].
    destruct (sb_err sb) as [x|] eqn:Ex; cbn; [split; [done|intros (sb' & ? & ? & _); by simplify_eq]|].
    destruct (Z.leb_spec 400 (sb_status sb)); split; try done; [intros (sb' & ? & _ & ?); simplify_eq; lia|by exists sb].
  - destruct (status_submit NewRequest st e c) as [sb|err|]; simplify_eq; cbn; [|by left; exists err].
    destruct (sb_err sb) as [x|] eqn:Ex; cbn; [by left; exists x|]. destruct (Z.leb_spec 400 (sb_status sb)); [|done].
    intros _. right. by exists sb.
  - intros sb E. rewrite E in Hr. by simplify_eq.
  - intros Hh. destruct (Herr Hh) as [err E]. split; [rewrite E in Hr; by simplify_eq|]. intros f. by apply Hsame, Hsick.
  - intros f E. rewrite Hnet in E. apply Hsame. destruct ((health st e).2) eqn:Eh; [apply Hsick; congruence|by apply Hf].
  - rewrite Hnet. unfold network_disabled. rewrite andb_true_iff, !negb_true_iff, <- not_true_iff_false, streq_spec. done.
  - done.
Qed.

(** A runner with a barrier file and a health checker; the function answers "fine". *)
Definition demo_agent : GetCallAgent :=
  {| a_callOpts := []; a_callOverrider := None; a_resources := RT 8589934592 0 4000 0; a_newLogger := 0 |}.
Definition demo_conf : statusConf := StatusConf (Some demo_agent) "status:1" "/etc/ready" true 3 0 1.
Definition demo_submit (c : call) (disableNet : bool) : status_submitted :=
  let m := match c_Call c with Some m => m | None => newStatusCall "" "" "" 0 end in
  StatusSubmitted (with_Completed (with_Started m 12) 20 "success" "" []) 1 2 3 4 200 (if disableNet then "no network" else "fine") None.
Definition demo_env (ready : bool) (h : option gerr) : run_env := RunEnv "id1" "{}" 10 30 ready (Some {["disk"%string := "ok"%string]}, h) demo_submit.
Definition demo_fine : RunnerStatus := Eval vm_compute in
  match runStatusCall demo_request FormatInt demo_conf (demo_env true None) with Ok r => r | _ => no_status end.
Definition demo_sick : RunnerStatus := Eval vm_compute in
  match runStatusCall demo_request FormatInt demo_conf (demo_env false (Some (EPlain "disk full"))) with Ok r => r | _ => no_status end.

Definition demo_sb : status_submitted := Eval vm_compute in
  match status_submit demo_request demo_conf (demo_env true None) (newStatusCall "id1" "status:1" "{}" 10) with
  | Ok sb => sb
  | _ => StatusSubmitted demo_model 0 0 0 0 0 "" None
  end.

Lemma runStatusCall_spec_witness :
  Failed demo_fine = false /\ Details demo_fine = "fine"%string /\ Failed demo_sick = true /\ ErrorStr demo_sick = "disk full"%string /\
  IsNetworkDisabled demo_sick = true.
Proof.
  pose proof (runStatusCall_spec demo_request FormatInt demo_conf (demo_env true None) demo_fine ltac:(by vm_compute)) as (_ & _ & H & _).
  destruct (H demo_sb) as [E _]; [by vm_compute|].
  split_and!; [done|exact E|..]; done.
Defined.

(** Two requests share a run that takes ten nanoseconds; the one that joined is the
    first to fetch, the one that spawned the run gets the result from the cache. *)
Definition demo_t1 : statusTracker := Tracker 0 None (Some 0%nat).
Definition demo_t2 : statusTracker := Tracker (11 + StatusCallCacheDuration) (Some demo_fine) None.
Definition demo_t3 : statusTracker := Tracker (11 + StatusCallCacheDuration) (Some (with_cached demo_fine true)) None.
Definition demo_pub : pub := Pub 1 11 11 demo_fine.
Definition demo_sys (c : Z) (t : statusTracker) (cs : list bool) (qs : list request) (rs : list run) (ps : list pub) : status_sys :=
  StatusSys c t cs ((fun q => (1, q)) <$> qs) rs ps 0 0 0 [].
Definition demo_cp (b : bool) : RunnerStatus := with_custom (with_cached demo_fine b) (Some (entries (CustomStatus demo_fine))).
Definition demo_final : status_sys :=
  demo_sys 11 demo_t3 [true] [QEnd (Some 0%nat) (Some (with_counters (demo_cp true) 0 0 0 3)) None; QLoad 0 (Some 0%nat) (demo_cp false)] [REnd] [demo_pub].

Definition demo_q0 : list request := [QWait 0; QWait 0].
Definition demo_load (n : nat) (k : Z) : list request :=
  [QLoad n (Some 0%nat) (with_counters (demo_cp true) 0 0 0 k); QLoad 0 (Some 0%nat) (demo_cp false)].

(** One step of the example: the next state, and its rule applied to this one. *)
Ltac st_to y c :=
  match goal with |- rtc _ ?x _ => apply (rtc_l _ x y); [eexists; apply (c x); first [reflexivity|cbn; lia|by vm_compute]|] end.

Lemma demo_final_reachable : st_reach demo_request FormatInt demo_conf demo_final.
Proof.
  exists 1. split; [done|].
  set (q x := q_new demo_request FormatInt demo_conf x).
  st_to (demo_sys 1 (Tracker 0 None None) [] [QCheck] [] []) q.
  st_to (demo_sys 1 demo_t1 [false] [QSpawn 0] [RNew] []) (fun x => q_first demo_request FormatInt demo_conf x 0 1 demo_t1 0).
  st_to (demo_sys 1 demo_t1 [false] [QWait 0] [RRun 1] []) (fun x => q_spawn demo_request FormatInt demo_conf x 0 1 0).
  st_to (demo_sys 1 demo_t1 [false] [QWait 0; QCheck] [RRun 1] []) q.
  st_to (demo_sys 1 demo_t1 [false] demo_q0 [RRun 1] []) (fun x => q_join demo_request FormatInt demo_conf x 1 1 demo_t1 0).
  st_to (demo_sys 11 demo_t1 [false] demo_q0 [RRun 1] []) (fun x => s_tick demo_request FormatInt demo_conf x 10).
  st_to (demo_sys 11 demo_t1 [false] demo_q0 [RHave 1 demo_fine 11] [])
    (fun x => r_end demo_request FormatInt demo_conf x 0 1 (demo_env true None) demo_fine).
  st_to (demo_sys 11 demo_t2 [false] demo_q0 [RClose (Some 0%nat)] [demo_pub])
    (fun x => r_publish demo_request FormatInt demo_conf x 0 1 demo_fine 11 demo_t2 (Some 0%nat)).
  st_to (demo_sys 11 demo_t2 [true] demo_q0 [REnd] [demo_pub]) (fun x => r_close demo_request FormatInt demo_conf x 0 (Some 0%nat) [true]).
  st_to (demo_sys 11 demo_t2 [true] [QWait 0; QFetch] [REnd] [demo_pub]) (fun x => q_wake demo_request FormatInt demo_conf x 1 1 0).
  st_to (demo_sys 11 demo_t3 [true] [QWait 0; QLoad 0 (Some 0%nat) (demo_cp false)] [REnd] [demo_pub])
    (fun x => q_fetch demo_request FormatInt demo_conf x 1 1 demo_t3 (demo_cp false)).
  st_to (demo_sys 11 demo_t3 [true] [QFetch; QLoad 0 (Some 0%nat) (demo_cp false)] [REnd] [demo_pub])
    (fun x => q_wake demo_request FormatInt demo_conf x 0 1 0).
  st_to (demo_sys 11 demo_t3 [true] (demo_load 0 0) [REnd] [demo_pub])
    (fun x => q_fetch demo_request FormatInt demo_conf x 0 1 demo_t3 (demo_cp true)).
  set (l n k := fun x => q_load demo_request FormatInt demo_conf x 0 1 n (Some 0%nat) (with_counters (demo_cp true) 0 0 0 k)).
  st_to (demo_sys 11 demo_t3 [true] (demo_load 1 0) [REnd] [demo_pub]) (l 0%nat 0).
  st_to (demo_sys 11 demo_t3 [true] (demo_load 2 0) [REnd] [demo_pub]) (l 1%nat 0).
  st_to (demo_sys 11 demo_t3 [true] (demo_load 3 0) [REnd] [demo_pub]) (l 2%nat 0).
  st_to (demo_sys 11 demo_t3 [true] (demo_load 4 3) [REnd] [demo_pub]) (l 3%nat 0).
  st_to demo_final (fun x => q_done demo_request FormatInt demo_conf x 0 1 4 (Some 0%nat) (with_counters (demo_cp true) 0 0 0 3) None).
  apply rtc_refl.
Qed.

Lemma status_tracker_safe_witness :
  exists j q, reqs demo_final !! j = Some q /\ taken q = Some (0%nat, false) /\ 1 < pb_at demo_pub + 1500000000.
Proof.
  pose proof (status_tracker_safe demo_request FormatInt demo_conf demo_final demo_final_reachable) as (H & _ & Hf & _).
  destruct (H 0%nat 1 0%nat _ None eq_refl) as (p & Hp & Hlt & _). cbn in Hp. injection Hp as <-.
  destruct (Hf 0%nat _ 0%nat eq_refl eq_refl) as (j & q & Hj & Hq). by exists j, q.
Defined.
