(* ===== verification/LbAgent.v ===== *)
(** * The load-balancing agent (src/api/agent/lb_agent.go)

    [Submit] admits a call as a session, buffers the body of its request, starts
    the call, has a placer find a runner for it and turns the outcome into what the
    client gets; a detached call is answered as soon as a runner acknowledges it.
    The first part is [Submit] as a function of what its environment answers.  The
    second puts the balancer, a placer, the client's end of the streams and the
    runners together.  The pool of body buffers that submissions share is in
    LbBuffers.v. *)
From S2P Require Import Prelude Errors Annotations Models GoStrings Base64 Resource Stats Call IoUtils DataAccess HttpTrigger.
From S2P Require Import Sync StateTrackers ApiHandlers HotSlot Placer RunnerProtocol RunnerStream RunnerClient.
Import Prelude.

(** ** The response of a detached call *)

(** [acked] is a channel with room for one signal. *)
Record DetachedResponseWriter := DetachedRW { dw_Headers : gomap (list string); dw_status : Z; dw_acked : bool }.
Definition NewDetachedResponseWriter (h : gomap (list string)) (statusCode : Z) : DetachedResponseWriter := DetachedRW h statusCode false.
Definition dw_Write (w : DetachedResponseWriter) (data : list Z) : DetachedResponseWriter * (Z * option gerr) := (w, (len data, None)).
(** [Err]: the send blocks; the status is set before. *)
Definition dw_WriteHeader (w : DetachedResponseWriter) (statusCode : Z) : outcome DetachedResponseWriter DetachedResponseWriter :=
  let w' := DetachedRW (dw_Headers w) statusCode (dw_acked w) in
  if dw_acked w then Err w' else Ok (DetachedRW (dw_Headers w) statusCode true).

(** ** The agent *)

(** Its options and the calls it makes: no resources are checked, no reserved
    configuration is added, the log is the no-op one. *)
Record lbAgent := LBAgent {
  lb_callOverrider : option (Request -> CallModel -> gomap string -> CallModel * outcome gerr (gomap string));
  lb_callOpts : list CallOpt;
  lb_DetachedHeadRoom : Z
}.

Inductive LBAgentOption :=
| WithLBAgentConfig (headRoom : Z)
| WithLBCallOverrider (f : Request -> CallModel -> gomap string -> CallModel * outcome gerr (gomap string))
| WithLBCallOptions (opts : list CallOpt).

Definition apply_option (a : lbAgent) (o : LBAgentOption) : outcome string lbAgent :=
  match o with
  | WithLBAgentConfig h => Ok (LBAgent (lb_callOverrider a) (lb_callOpts a) h)
  | WithLBCallOverrider f =>
      match lb_callOverrider a with
      | Some _ => Err "lb-agent call overriders already exists"%string
      | None => Ok (LBAgent (Some f) (lb_callOpts a) (lb_DetachedHeadRoom a))
      end
  | WithLBCallOptions opts => Ok (LBAgent (lb_callOverrider a) (lb_callOpts a ++ opts) (lb_DetachedHeadRoom a))
  end.

(** [Err]: the process ends with the message. *)
Fixpoint apply_options (a : lbAgent) (os : list LBAgentOption) : outcome string lbAgent :=
  match os with
  | [] => Ok a
  | o :: os => let! a := apply_option a o in apply_options a os
  end.
Definition NewLBAgent (headRoom : Z) (options : list LBAgentOption) : outcome string lbAgent :=
  apply_options (LBAgent None [] headRoom) options.

Definition lb_GetCall (a : lbAgent) (noop : nat) (opts : list CallOpt) : outcome gerr call :=
  let! c := run_opts (opts ++ lb_callOpts a) new_call in
  match c_req c, c_Call c with
  | Some req, Some m =>
      let! c := match lb_callOverrider a with
                | Some f => let (m, ext) := f req m (c_extensions c) in
                            let! ext := ext in Ok (set_extensions (set_Call c m) ext)
                | None => Ok c
                end in
      Ok (set_stderr c (Some noop))
  | _, _ => Err (EPlain "no model or request provided for call")
  end.

(** ** Submit *)

(** What comes first in [setRequestBody]: the body is read, reading fails, or the
    context ends. *)
Inductive body_read := BodyRead | BodyFailed (e : gerr) | BodyCtx (e : gerr).

(** Whether a buffer is taken from the pool, and the error. *)
Definition setRequestBody (hasBody hasGetBody : bool) (r : body_read) : bool * option gerr :=
  if negb hasBody || hasGetBody then (false, None)
  else (true, match r with
              | BodyRead => None
              | BodyFailed e => if bool_decide (e = EEOF) then None else Some e
              | BodyCtx e => Some e
              end).

(** The outcome under which the latency is recorded. *)
Inductive metric := MCompleted | MTimedout | MServerBusy | MCanceled | MErrors.

Definition lb_verdict (err : option gerr) (isForwarded : bool) : option gerr * option metric :=
  let rest err :=
    match err with
    | None => (None, None)
    | Some e => if bool_decide (e = EVar ErrCallTimeoutServerBusy) then (Some e, Some MServerBusy)
                else if bool_decide (e = ECanceled) then (Some e, Some MCanceled) else (Some e, Some MErrors)
    end in
  if isForwarded then
    match err with
    | None => (None, Some MCompleted)
    | Some EDeadlineExceeded => (Some (EVar ErrServiceReservationFailure), Some MTimedout)
    | _ => rest err
    end
  else
    match err with
    | Some EDeadlineExceeded => (Some (EVar ErrCallTimeoutServerBusy), Some MServerBusy)
    | _ => rest err
    end.

(** [None]: no latency is recorded; the times are the start, the creation, and what
    the runner reported of the function ([time.Duration] arithmetic saturates). *)
Definition recordCallLatency (m : CallModel) (now : Z) (execLatency : option Z) : option Z :=
  let latency := if negb (cl_StartedAt m =? 0) then Some (time_sub now (cl_StartedAt m))
                 else if negb (cl_CreatedAt m =? 0) then Some (time_sub now (cl_CreatedAt m)) else None in
  match latency, execLatency with
  | Some l, Some x => Some (if l <=? x then 0 else i64 (l - x))
  | l, _ => l
  end.

(** The environment of a submission: the request's body, what [call.Start] and
    [call.End] meet, what the placer answers, and for a detached call whether the
    acknowledgement is taken first. *)
Record submission := Submission {
  sb_call : CallModel;
  sb_detachedWriter : bool;
  sb_hasBody : bool; sb_hasGetBody : bool; sb_read : body_read;
  sb_startCtx : option gerr; sb_startAt : Z; sb_before : CallModel -> option gerr;
  sb_place : option gerr; sb_endAt : Z; sb_after : CallModel -> option gerr;
  sb_acked : bool
}.

Section Submit.
  Context {MR : MapRange} (fuel : nat).

(** [lb_handleCallEnd]; [call.End]'s own error is dropped. *)
Definition lb_handleCallEnd (x : submission) (m : CallModel) (err : option gerr) (isForwarded : bool)
  : option (outcome unit (CallModel * option gerr)) :=
  if isForwarded then
    match End_ fuel m (sb_endAt x) err (sb_after x) with
    | None => None
    | Some o => Some (let! r := o in Ok (r.1, (lb_verdict err true).1))
    end
  else Some (Ok (m, (lb_verdict err false).1)).

Definition placeCall (x : submission) (m : CallModel) : option (outcome unit (CallModel * option gerr)) :=
  lb_handleCallEnd x m (sb_place x) true.

(** The answer to the client; the placement of an acknowledged call goes on. *)
Definition placeDetachCall (x : submission) (m : CallModel) : option (outcome unit (CallModel * option gerr)) :=
  if negb (sb_detachedWriter x) then Some Panic
  else if sb_acked x then Some (Ok (m, None)) else lb_handleCallEnd x m (sb_place x) true.

(** The time a detached placement gets. *)
Definition detached_timeout (a : lbAgent) (detachedPlacerTimeout : Z) (m : CallModel) : Z :=
  i64 (i64 (detachedPlacerTimeout + i64 (cl_Timeout m * Second)) + lb_DetachedHeadRoom a).

Definition submit_session (x : submission) : option (outcome unit (CallModel * option gerr)) :=
  match (setRequestBody (sb_hasBody x) (sb_hasGetBody x) (sb_read x)).2 with
  | Some e => lb_handleCallEnd x (sb_call x) (Some e) false
  | None =>
      let (m, err) := Start (sb_call x) (sb_startCtx x) (sb_startAt x) (sb_before x) in
      match err with
      | Some e => lb_handleCallEnd x m (Some e) false
      | None => if streq (cl_Type m) TypeDetached then placeDetachCall x m else placeCall x m
      end
  end.

Definition lb_Submit (shutWg : WaitGroup) (x : submission) : option (outcome unit (WaitGroup * (CallModel * option gerr))) :=
  let (g, ok) := AddSession shutWg 1 in
  if negb ok then Some (Ok (g, (sb_call x, Some (EVar ErrCallTimeoutServerBusy))))
  else match submit_session x with
       | None => None
       | Some r => Some (let! r := r in let! g := DoneSession g in Ok (g, r))
       end.

(** The call is handed to the placer. *)
Definition forwarded (x : submission) : bool :=
  bool_decide ((setRequestBody (sb_hasBody x) (sb_hasGetBody x) (sb_read x)).2 = None) &&
  bool_decide ((Start (sb_call x) (sb_startCtx x) (sb_startAt x) (sb_before x)).2 = None).
End Submit.

(** ** What a client is told *)

Section SubmitLemmas.
  Context {MR : MapRange} (fuel : nat).

Lemma session_kept g : 0 <= sessions g < maxU64 -> closer_closed g = isClosed g ->
  exists g' ok, AddSession g 1 = (g', ok) /\ (ok = negb (isClosed g) && negb (sessions g =? maxU64 - 1)) /\
    (ok = false -> g' = g) /\ (ok = true -> DoneSession g' = Ok g).
Proof.
  intros Hs Hc. unfold AddSession. destruct g as [cl n cc]. cbn in *. subst cc. change (u64 (maxU64 - 1)) with (maxU64 - 1).
  destruct cl; [by eexists _, _|]. destruct (Z.eqb_spec n (maxU64 - 1)); [by eexists _, _|]. eexists _, _. split_and!; try done.
  intros _. unfold DoneSession. cbn. assert (u64 (n + 1) = n + 1) as -> by (apply u64_small; unfold is_u64, maxU64, w64 in *; lia).
  destruct (Z.eqb_spec (n + 1) 0); [lia|]. do 2 f_equal. replace (n + 1 - 1) with n by lia. apply u64_small.
  unfold is_u64, maxU64, w64 in *; lia.
Qed.

(** Fewer than 240 samples: the end of the call does not thin them out. *)
Lemma End_short m now err fire : (length (cl_Stats m) <= 240)%nat ->
  exists m', End_ fuel m now err fire = Some (Ok (m', match fire m' with Some e => Some e | None => err end)) /\
    cl_CompletedAt m' = now /\ cl_Status m' = (end_status err (cl_Error m)).1.
Proof.
  intros Hl. unfold End_. destruct (end_status err (cl_Error m)) as [status txt] eqn:E. unfold Decimate.
  rewrite (proj2 (Z.leb_le _ _)) by lia. cbn. eexists. split; [reflexivity|]. done.
Qed.

Lemma Start_call m ctx now fire : cl_Stats (Start m ctx now fire).1 = cl_Stats m /\ cl_Type (Start m ctx now fire).1 = cl_Type m /\
  cl_CompletedAt (Start m ctx now fire).1 = cl_CompletedAt m.
Proof. unfold Start. by destruct ctx. Qed.

Lemma lb_verdict_not_deadline err b : (lb_verdict err b).1 <> Some EDeadlineExceeded.
Proof. unfold lb_verdict. destruct b, err as [[]|]; cbn; repeat case_bool_decide; cbn; congruence. Qed.
Lemma lb_verdict_forwarded err : (lb_verdict err true).1 =
  if bool_decide (err = Some EDeadlineExceeded) then Some (EVar ErrServiceReservationFailure) else err.
Proof. unfold lb_verdict. destruct err as [[]|]; cbn; repeat case_bool_decide; cbn; congruence. Qed.
Lemma lb_verdict_kept err : (lb_verdict err false).1 =
  if bool_decide (err = Some EDeadlineExceeded) then Some (EVar ErrCallTimeoutServerBusy) else err.
Proof. unfold lb_verdict. destruct err as [[]|]; cbn; repeat case_bool_decide; cbn; congruence. Qed.

(** The three ends of a session. *)
Lemma submit_session_kept x : forwarded x = false -> exists m e, submit_session fuel x = Some (Ok (m, (lb_verdict (Some e) false).1)) /\
  cl_CompletedAt m = cl_CompletedAt (sb_call x) /\
  (forall e', (setRequestBody (sb_hasBody x) (sb_hasGetBody x) (sb_read x)).2 = Some e' -> e' = e).
Proof.
  unfold forwarded, submit_session, lb_handleCallEnd. destruct (setRequestBody _ _ _).2 as [e|] eqn:E; [exists (sb_call x), e; split_and!; [done..|congruence]|].
  cbn. destruct (Start_call (sb_call x) (sb_startCtx x) (sb_startAt x) (sb_before x)) as (_ & _ & Hc).
  destruct (Start _ _ _ _) as [m [e|]] eqn:Es; [|done]. intros _. exists m, e. by split_and!.
Qed.

Lemma submit_session_forwarded x : forwarded x = true -> (length (cl_Stats (sb_call x)) <= 240)%nat ->
  (cl_Type (sb_call x) = TypeDetached -> sb_detachedWriter x = true) ->
  exists m, submit_session fuel x = Some (Ok (m, if streq (cl_Type (sb_call x)) TypeDetached && sb_acked x then None else (lb_verdict (sb_place x) true).1)) /\
    (streq (cl_Type (sb_call x)) TypeDetached && sb_acked x = false ->
     cl_CompletedAt m = sb_endAt x /\ (cl_Status m = "success"%string <-> sb_place x = None)).
Proof.
  unfold forwarded, submit_session, lb_handleCallEnd. intros Hf Hl Hw.
  destruct (Start_call (sb_call x) (sb_startCtx x) (sb_startAt x) (sb_before x)) as (Hst & Hty & _).
  destruct (setRequestBody _ _ _).2; [by rewrite bool_decide_eq_false_2 in Hf|].
  destruct (Start _ _ _ _) as [m [e|]]; [by rewrite andb_comm in Hf|]. cbn in Hst, Hty. rewrite Hty.
  destruct (End_short m (sb_endAt x) (sb_place x) (sb_after x)) as (m' & He & Hc & Hs); [by rewrite Hst|].
  assert (cl_Status m' = "success"%string <-> sb_place x = None) as Hok by (rewrite Hs; destruct (sb_place x) as [[]|]; cbn; naive_solver).
  unfold placeDetachCall, placeCall, lb_handleCallEnd. rewrite He. cbn.
  destruct (streq (cl_Type (sb_call x)) TypeDetached) eqn:Ed; [|by exists m'].
  rewrite (Hw (proj1 (streq_spec _ _) Ed)). cbn. destruct (sb_acked x); [by exists m|by exists m'].
Qed.
End SubmitLemmas.

(** C27: what a client of the load balancer is told: a balancer that is closing says
    busy and nothing else happens; otherwise the session that was taken is given
    back.  A call that was not handed to the placer always ends in an error, a
    passed deadline among them as busy, and is not recorded as ended.  A call that
    was handed over and not answered early ends with the error of its placement,
    a passed deadline as a failed reservation, and is recorded as a success exactly
    when there was none.  A detached call that a runner acknowledged is answered at
    once.  The client never sees a bare deadline error. *)
Theorem lb_Submit_spec {MR : MapRange} fuel g x :
  0 <= sessions g < maxU64 - 1 -> closer_closed g = isClosed g -> (length (cl_Stats (sb_call x)) <= 240)%nat ->
  (cl_Type (sb_call x) = TypeDetached -> sb_detachedWriter x = true) ->
  exists m r, lb_Submit fuel g x = Some (Ok (g, (m, r))) /\
    let early := bool_decide (cl_Type (sb_call x) = TypeDetached) && sb_acked x in
    (isClosed g = true -> m = sb_call x /\ r = Some (EVar ErrCallTimeoutServerBusy)) /\
    (isClosed g = false -> forwarded x = false ->
       r <> None /\ cl_CompletedAt m = cl_CompletedAt (sb_call x) /\
       ((setRequestBody (sb_hasBody x) (sb_hasGetBody x) (sb_read x)).2 = Some EDeadlineExceeded -> r = Some (EVar ErrCallTimeoutServerBusy))) /\
    (isClosed g = false -> forwarded x = true -> early = false ->
       r = (if bool_decide (sb_place x = Some EDeadlineExceeded) then Some (EVar ErrServiceReservationFailure) else sb_place x) /\
       cl_CompletedAt m = sb_endAt x /\ (cl_Status m = "success"%string <-> r = None)) /\
    (isClosed g = false -> forwarded x = true -> early = true -> r = None) /\
    r <> Some EDeadlineExceeded.
Proof.
  intros Hs Hc Hl Hw. destruct (session_kept g) as (g' & ok & Ha & -> & Hno & Hyes); [lia|done|].
  unfold lb_Submit. rewrite Ha. destruct (isClosed g) eqn:Ecl; cbn in *.
  { rewrite (Hno eq_refl). eexists _, _. split; [reflexivity|]. by split_and!. }
  assert (negb (sessions g =? maxU64 - 1) = true) as Eok by (destruct (Z.eqb_spec (sessions g) (maxU64 - 1)); [lia|done]).
  rewrite Eok in *. cbn [negb andb]. specialize (Hyes eq_refl). destruct (forwarded x) eqn:Ef.
  - destruct (submit_session_forwarded fuel x Ef Hl Hw) as (m & Hx & Hm). rewrite Hx. cbn [obind]. rewrite Hyes. cbn [obind].
    eexists _, _. split; [reflexivity|]. change (streq (cl_Type (sb_call x)) TypeDetached) with (bool_decide (cl_Type (sb_call x) = TypeDetached)) in *.
    split_and!; try done.
    + intros _ _ E. rewrite E in *. destruct (Hm eq_refl) as [? Hok]. rewrite lb_verdict_forwarded. split_and!; [done..|].
      rewrite Hok. destruct (bool_decide_reflect (sb_place x = Some EDeadlineExceeded)) as [Hd|]; [by rewrite Hd|done].
    + intros _ _ E. by rewrite E.
    + destruct (_ && _); [done|]. apply lb_verdict_not_deadline.
  - destruct (submit_session_kept fuel x Ef) as (m & e & Hx & Hm & Hd). rewrite Hx. cbn [obind]. rewrite Hyes. cbn [obind].
    eexists _, _. split; [reflexivity|]. rewrite lb_verdict_kept. split_and!; try done.
    + intros _ _. split_and!; [by case_bool_decide|done|]. intros E. by rewrite <- (Hd _ E).
    + by case_bool_decide.
Qed.

Definition demo_lb_call (ty : string) : CallModel := with_Type demo_model ty.
Definition demo_sub (ty : string) (r : body_read) (place : option gerr) (acked : bool) : submission :=
  Submission (demo_lb_call ty) true true false r None 5 (fun _ => None) place 9 (fun _ => None) acked.

Section SubmitDemo.
#[local] Existing Instance canonical_range.

Lemma lb_Submit_spec_witness :
  (exists m, lb_Submit 0 NewWaitGroup (demo_sub TypeSync BodyRead (Some EDeadlineExceeded) false) =
     Some (Ok (NewWaitGroup, (m, Some (EVar ErrServiceReservationFailure)))) /\ cl_CompletedAt m = 9) /\
  (exists m, lb_Submit 0 NewWaitGroup (demo_sub TypeSync (BodyCtx EDeadlineExceeded) None false) =
     Some (Ok (NewWaitGroup, (m, Some (EVar ErrCallTimeoutServerBusy))))).
Proof.
  split.
  - destruct (lb_Submit_spec 0 NewWaitGroup (demo_sub TypeSync BodyRead (Some EDeadlineExceeded) false)) as (m & r & H & _ & _ & Hf & _);
      [cbn; unfold maxU64; lia|done|cbn; lia|done|]. destruct (Hf eq_refl eq_refl eq_refl) as (-> & Hc & _). by exists m.
  - destruct (lb_Submit_spec 0 NewWaitGroup (demo_sub TypeSync (BodyCtx EDeadlineExceeded) None false)) as (m & r & H & _ & Hf & _);
      [cbn; unfold maxU64; lia|done|cbn; lia|done|]. destruct (Hf eq_refl eq_refl) as (_ & _ & Hr). exists m. by rewrite (Hr eq_refl) in H.
Defined.
End SubmitDemo.

(** ** The balancer, a placer and the runners

    One try of a placer: the session group of the runner's client, the errors of
    encoding the call, opening the stream and sending the call, the context, the
    engagement at the other end, what gRPC delivers of it, what was sent to it,
    and the answer of [TryExec]. *)
Record attempt := Attempt {
  at_wg : WaitGroup;
  at_model : option gerr; at_engage : option gerr; at_sent : option gerr; at_ctx : option gerr;
  at_eng : engagement; at_evs : list recv_event;
  at_tc : TryCall; at_reads : list (list Z * option gerr); at_sends : list (option gerr);
  at_ans : bool * option gerr
}.

(** The call was sent: the runner may act on it. *)
Definition sent_call (a : attempt) : bool :=
  (AddSession (at_wg a) 1).2 && bool_decide (at_model a = None) && bool_decide (at_engage a = None) && bool_decide (at_sent a = None).

Section Placed.
  Context {MR : MapRange} {RL : RunnerLib} {W : Type} `{Writer W}.

Definition try_end (w : W) (a : attempt) : option tried_end :=
  match at_ctx a with
  | Some e => Some (CtxEnded e)
  | None => Heard <$> heard (receiveFromRunner (at_evs a) w)
  end.

(** The client's writer after a try. *)
Definition attempt_w (w : W) (a : attempt) : W := if sent_call a then rv_w (receiveFromRunner (at_evs a) w) else w.

(** The answer is that of [TryExec] with the writer as it is; the engagement is one
    of [RunnerProtocol], and gRPC delivers in order what either end sends; every
    try sends the whole buffered body; the errors are what they are documented to
    be: of [json.Marshal], of a context, of a stream. *)
Record attempt_ok (body : list Z) (w : W) (a : attempt) : Prop := {
  ak_answer : exists g fin, (sent_call a = true -> try_end w a = Some fin) /\
    TryExec (at_wg a) (at_model a) (at_engage a) (at_sent a) fin = Ok (g, at_ans a);
  ak_reach : reachable (at_eng a);
  ak_delivered : delivered (at_eng a) (at_evs a);
  ak_arrived : arrived (hist (at_eng a)) `prefix_of` CTry (at_tc a) :: (CData <$> sendToRunner (at_reads a) (at_sends a));
  ak_body : body_of (at_reads a) = (body, true);
  ak_model : forall e, at_model a = Some e -> exists m, e = EPlain m;
  ak_ctx : forall e, at_ctx a = Some e -> e = ECanceled \/ e = EDeadlineExceeded;
  ak_sent : forall e, at_sent a = Some e -> stream_error e
}.

(** The tries in order, each with the writer the one before left. *)
Inductive threaded (body : list Z) : W -> list attempt -> W -> Prop :=
| th_nil w : threaded body w [] w
| th_cons w a l w' : attempt_ok body w a -> threaded body (attempt_w w a) l w' -> threaded body w (a :: l) w'.

(** The runner did nothing for this try. *)
Definition idle_try (a : attempt) : Prop := sent_call a = true -> wrote (hist (at_eng a)) = false /\ accepted (hist (at_eng a)) = [].

Context (calm_w : forall (w : W) b e, (write w b).2.2 = Some e -> isTooBusy (Some e) = false).

Lemma try_answer body w a : attempt_ok body w a ->
  (sent_call a = false /\ (at_ans a).2 <> None /\ (at_ans a = (true, Some (EVar ErrCallTimeoutServerBusy)) -> False)) \/
  (sent_call a = true /\ exists fin, try_end w a = Some fin /\ try_result None None None fin = at_ans a).
Proof.
  intros [(g & fin & Hf & Ht) _ _ _ _ Hm _ Hs]. unfold TryExec in Ht. unfold sent_call in *.
  destruct (AddSession (at_wg a) 1) as [g' ok]. destruct ok; cbn [negb snd] in *; [|injection Ht as _ <-; by left].
  destruct (DoneSession g') as [g''| |]; try done. cbn [obind] in Ht. injection Ht as _ Ht.
  destruct (at_model a) as [e|]; [left; rewrite <- Ht; destruct (Hm e eq_refl) as [? ->]; by split_and!|].
  destruct (at_engage a) as [e|]; [left; rewrite <- Ht; by split_and!|].
  destruct (at_sent a) as [e|]; [left; rewrite <- Ht; destruct (Hs e eq_refl) as (? & ? & -> & _); by split_and!|].
  right. split; [done|]. exists fin. split; [by apply Hf|done].
Qed.

Lemma refused_idle body w a e : attempt_ok body w a -> at_ans a = (false, e) -> attempt_w w a = w /\ idle_try a.
Proof.
  intros Hok Ha. unfold attempt_w, idle_try. destruct (try_answer body w a Hok) as [(-> & _)|(Hs & fin & Hf & Ht)]; [done|].
  rewrite Hs. rewrite Ha in Ht. unfold try_end in Hf. destruct (at_ctx a) as [c|]; [injection Hf as <-; done|].
  destruct (heard (receiveFromRunner (at_evs a) w)) as [err|] eqn:Hh; [|done]. injection Hf as <-.
  destruct (TryExec_refused (at_eng a) (at_evs a) w err e calm_w (ak_reach _ _ _ Hok) (ak_delivered _ _ _ Hok) Hh Ht) as (_ & ? & ? & ?).
  done.
Qed.

Lemma placed_busy body w a : attempt_ok body w a -> at_ans a <> (true, Some (EVar ErrCallTimeoutServerBusy)).
Proof.
  intros Hok Ha. destruct (try_answer body w a Hok) as [(_ & _ & Hno)|(Hs & fin & Hf & Ht)]; [by apply Hno|].
  rewrite Ha in Ht. unfold try_end in Hf. destruct (at_ctx a) as [c|] eqn:Ec.
  { injection Hf as <-. injection Ht as ->. by destruct (ak_ctx _ _ _ Hok _ Ec). }
  destruct (heard (receiveFromRunner (at_evs a) w)) as [err|]; [|done]. injection Hf as <-. cbn in Ht.
  destruct (isTooBusy err) eqn:Eb; [done|]. injection Ht as ->. by vm_compute in Eb.
Qed.

Lemma threaded_app body w l k w' : threaded body w (l ++ k) w' -> exists u, threaded body w l u /\ threaded body u k w'.
Proof.
  revert w. induction l as [|a l IH]; intros w Ht; [exists w; split; [constructor|done]|].
  inversion Ht as [|? ? ? ? Ha Hl]; subst. destruct (IH _ Hl) as (u & ? & ?). exists u. split; [by constructor|done].
Qed.

Lemma threaded_idle body w l w' : threaded body w l w' -> Forall (fun a => (at_ans a).1 = false) l -> w' = w /\ Forall idle_try l.
Proof.
  induction 1 as [w|w a l w' Ha _ IH]; intros Hf; [done|]. inversion Hf as [|? ? Hh Hf']; subst.
  destruct (at_ans a) as [b e] eqn:E. cbn in Hh. subst b. destruct (refused_idle body w a e Ha E) as [Ew Hi].
  destruct (IH Hf') as [-> ?]. by split; [|constructor].
Qed.

(** A placement without error: its last try is the story of a success. *)
Lemma placed_success body w a : attempt_ok body w a -> at_ans a = (true, None) ->
  sent_call a = true /\ returned (hist (at_eng a)) = Some None /\ g_main (at_eng a) = EDone None /\
  sent (attempt_w w a) = sent w ++ accepted (hist (at_eng a)) /\
  piped (hist (at_eng a)) `prefix_of` body /\ (hd_eofSeen (hdl (at_eng a)) = true -> piped (hist (at_eng a)) = body).
Proof.
  intros Hok Ha. destruct (try_answer body w a Hok) as [(_ & Hno & _)|(Hs & fin & Hf & Ht)]; [by rewrite Ha in Hno|].
  unfold attempt_w. rewrite Hs. rewrite Ha in Ht. unfold try_end in Hf. destruct (at_ctx a) as [c|]; [by injection Hf as <-|].
  destruct (heard (receiveFromRunner (at_evs a) w)) as [err|] eqn:Hh; [|done]. injection Hf as <-.
  destruct (TryExec_success (at_eng a) (at_evs a) w err (ak_reach _ _ _ Hok) (ak_delivered _ _ _ Hok) Hh Ht) as (? & ? & ?).
  destruct (body_delivered (at_eng a) (at_tc a) (at_reads a) (at_sends a) (ak_reach _ _ _ Hok) (ak_arrived _ _ _ Hok)) as [Hp He].
  rewrite (ak_body _ _ _ Hok) in Hp, He. split_and!; try done. intros Hx. by destruct (He Hx).
Qed.
End Placed.

(** What [Submit] makes of a placement, for a call that is not detached. *)
Lemma lb_Submit_placed {MR : MapRange} fuel g x o m r : lb_Submit fuel g x = Some (Ok (o, (m, r))) -> isClosed g = false ->
  sessions g < maxU64 - 1 -> 0 <= sessions g -> forwarded x = true -> cl_Type (sb_call x) <> TypeDetached ->
  r = (if bool_decide (sb_place x = Some EDeadlineExceeded) then Some (EVar ErrServiceReservationFailure) else sb_place x).
Proof.
  intros Hs Hc Hlt Hge Hf Hty. rewrite <- lb_verdict_forwarded. unfold lb_Submit in Hs.
  assert ((AddSession g 1).2 = true) as Hok.
  { unfold AddSession. rewrite Hc. change (u64 (maxU64 - 1)) with (maxU64 - 1). by destruct (Z.eqb_spec (sessions g) (maxU64 - 1)); [lia|]. }
  destruct (AddSession g 1) as [g' ok]. cbn in Hok. subst ok. cbn [negb] in Hs.
  unfold submit_session, forwarded in *. destruct (setRequestBody _ _ _).2; [by rewrite bool_decide_eq_false_2 in Hf|].
  destruct (Start_call (sb_call x) (sb_startCtx x) (sb_startAt x) (sb_before x)) as (_ & Ht & _).
  destruct (Start _ _ _ _) as [m' [e|]]; [by rewrite andb_comm in Hf|]. cbn [fst] in Ht. rewrite Ht in Hs.
  destruct (streq (cl_Type (sb_call x)) TypeDetached) eqn:Ed; [by apply streq_spec in Ed|].
  unfold placeCall, lb_handleCallEnd in Hs. destruct (End_ _ _ _ _ _) as [[q| |]|]; try done. cbn [obind] in Hs.
  destruct (DoneSession g'); try done. cbn [obind] in Hs. congruence.
Qed.


(** Two runners: the first refuses the call of [RunnerProtocol]'s example, the second
    runs it; the client's writer is a list of bytes. *)
Section PlacedDemo.
#[local] Existing Instance canonical_range.
#[local] Existing Instance demo_lib.

Definition demo_reads : list (list Z * option gerr) := [([1; 2; 3], Some EEOF)].
Definition demo_busy_try : attempt :=
  Attempt NewWaitGroup None None None None demo_nack nack_events demo_try demo_reads [] (false, Some (EVar ErrCallTimeoutServerBusy)).
Definition demo_good_try : attempt :=
  Attempt NewWaitGroup None None None None demo_over demo_events demo_try demo_reads [] (true, None).
Definition demo_rounds : list (Placer.round attempt) :=
  [Round [demo_good_try; demo_busy_try] None (fun _ => false) (fun _ a => at_ans a) 0 false].
Definition demo_placed : @placement attempt := ([(demo_busy_try, false); (demo_good_try, true)], true, None).

Lemma demo_try_ok (a : attempt) : a = demo_busy_try \/ a = demo_good_try -> attempt_ok [1; 2; 3] ([] : list Z) a.
Proof.
  intros [->| ->]; constructor; try done.
  - exists NewWaitGroup, (Heard (Some (EApi 503 "Timed out - server too busy"))). split; [intros _; by vm_compute|by vm_compute].
  - exact demo_nack_reachable.
  - apply dl_broken. exists 14, "unavailable"%string. by split.
  - cbn. eexists. vm_compute. reflexivity.
  - exists NewWaitGroup, (Heard None). split; [intros _; by vm_compute|by vm_compute].
  - exact demo_over_reachable.
  - exact (dl_eof demo_over eq_refl).
Qed.

End PlacedDemo.
