(* ===== verification/LbBuffers.v ===== *)
(** * The body buffers of the load balancer (src/api/agent/lb_agent.go, runner_client.go)

    [Submit] reads the body of a request into a buffer of a shared pool, in a
    goroutine of its own, so that every try of a placer can send it from the start;
    it puts the buffer back when it returns.  A [bytes.Buffer] is an array and a
    length: what reads the buffer keeps the array, which the next user of the buffer
    overwrites.  The transition system [buf_step] interleaves submissions, their
    readers and the senders of their tries.  It marks the two returns of [Submit]
    that leave somebody behind in the buffer; without them every try sends the body
    of its own client, with either of them one client's body reaches the function
    of another. *)
From S2P Require Import Prelude.
Import Prelude.

(** The goroutine that reads the body: [n] bytes so far, at the end, failed. *)
Inductive reader := GRead (n : nat) | GEof | GFail.
(** [Submit]: waits for the body; has the call placed; has returned. *)
Inductive main := MRead | MPlace | MDone.

(** The goroutine that sends the body of the current try: the array [GetBody] took
    and its length then, the position, what was sent. *)
Record body_sender := Sender { sd_arr : nat; sd_len : nat; sd_pos : nat; sd_out : list Z }.

Record sub := Sub {
  s_body : list Z;
  s_buf : nat;
  s_detached : bool;
  s_main : main;
  s_reader : reader;
  s_placing : bool;
  s_sender : option body_sender
}.

(** Arrays, as long as their capacity; buffers, an array and a length each; the
    pool; the submissions. *)
Record bufsys := BufSys {
  arrs : list (list Z);
  bufs : list (nat * nat);
  pool : list nat;
  subs : list sub
}.

Definition with_main (s : sub) (m : main) (p : bool) : sub := Sub (s_body s) (s_buf s) (s_detached s) m (s_reader s) p (s_sender s).
Definition with_reader (s : sub) (r : reader) : sub := Sub (s_body s) (s_buf s) (s_detached s) (s_main s) r (s_placing s) (s_sender s).
Definition with_sender (s : sub) (x : body_sender) : sub :=
  Sub (s_body s) (s_buf s) (s_detached s) (s_main s) (s_reader s) (s_placing s) (Some x).
Definition set_sub (s : bufsys) (i : nat) (x : sub) : bufsys := BufSys (arrs s) (bufs s) (pool s) (<[i := x]> (subs s)).

(** [bufPool.Put]. *)
Definition put (s : bufsys) (b : nat) : bufsys := BufSys (arrs s) (bufs s) (pool s ++ [b]) (subs s).
(** [Reset] of a buffer taken from the pool; a new one has an empty array. *)
Definition get_pooled (s : bufsys) (b a : nat) : bufsys :=
  BufSys (arrs s) (<[b := (a, 0%nat)]> (bufs s)) (remove_first (fun x => bool_decide (x = b)) (pool s)) (subs s).
Definition get_new (s : bufsys) : bufsys := BufSys (arrs s ++ [[]]) (bufs s ++ [(length (arrs s), 0%nat)]) (pool s) (subs s).
Definition new_sub (s : bufsys) (body : list Z) (det : bool) (b : nat) : bufsys :=
  BufSys (arrs s) (bufs s) (pool s) (subs s ++ [Sub body b det MRead (GRead 0) false None]).

(** [ReadFrom] of a chunk: into the array, or into a larger copy of it. *)
Definition overwrite (arr : list Z) (l : nat) (c : list Z) : list Z := take l arr ++ c ++ drop (l + length c) arr.
Definition append_here (s : bufsys) (b a l : nat) (arr c : list Z) : bufsys :=
  BufSys (<[a := overwrite arr l c]> (arrs s)) (<[b := (a, l + length c)%nat]> (bufs s)) (pool s) (subs s).
Definition append_grow (s : bufsys) (b l : nat) (arr c room : list Z) : bufsys :=
  BufSys (arrs s ++ [take l arr ++ c ++ room]) (<[b := (length (arrs s), l + length c)%nat]> (bufs s)) (pool s) (subs s).

(** The sender of the current try has bytes left to send. *)
Definition unsent (x : sub) : bool := match s_sender x with Some d => Nat.ltb (sd_pos d) (sd_len d) | None => true end.

(** One step; [true]: [Submit] returns and leaves its reader or its sender behind. *)
Inductive buf_step : bool -> bufsys -> bufsys -> Prop :=
| b_pooled s body det b a l : b ∈ pool s -> bufs s !! b = Some (a, l) -> buf_step false s (new_sub (get_pooled s b a) body det b)
| b_new s body det : buf_step false s (new_sub (get_new s) body det (length (bufs s)))
| b_read s i x n c a l arr : subs s !! i = Some x -> s_reader x = GRead n -> c `prefix_of` drop n (s_body x) ->
    bufs s !! s_buf x = Some (a, l) -> arrs s !! a = Some arr -> (l + length c <= length arr)%nat ->
    buf_step false s (set_sub (append_here s (s_buf x) a l arr c) i (with_reader x (GRead (n + length c))))
| b_grow s i x n c a l arr room : subs s !! i = Some x -> s_reader x = GRead n -> c `prefix_of` drop n (s_body x) ->
    bufs s !! s_buf x = Some (a, l) -> arrs s !! a = Some arr ->
    buf_step false s (set_sub (append_grow s (s_buf x) l arr c room) i (with_reader x (GRead (n + length c))))
| b_eof s i x : subs s !! i = Some x -> s_reader x = GRead (length (s_body x)) -> buf_step false s (set_sub s i (with_reader x GEof))
| b_fail s i x n : subs s !! i = Some x -> s_reader x = GRead n -> buf_step false s (set_sub s i (with_reader x GFail))
| b_ready s i x : subs s !! i = Some x -> s_main x = MRead -> s_reader x = GEof -> buf_step false s (set_sub s i (with_main x MPlace true))
(* the body cannot be read, or the call cannot be started *)
| b_refused s i x : subs s !! i = Some x -> s_main x = MRead -> s_reader x = GFail \/ s_reader x = GEof ->
    buf_step false s (put (set_sub s i (with_main x MDone false)) (s_buf x))
(* the context ends first *)
| b_ctx s i x : subs s !! i = Some x -> s_main x = MRead ->
    buf_step (match s_reader x with GRead _ => true | _ => false end) s (put (set_sub s i (with_main x MDone false)) (s_buf x))
(* a try: [GetBody], and the reads of its sender; frames of an earlier try, or of
   one that has ended, go nowhere *)
| b_try s i x a l : subs s !! i = Some x -> s_main x = MPlace -> bufs s !! s_buf x = Some (a, l) ->
    buf_step false s (set_sub s i (with_sender x (Sender a l 0 [])))
| b_send s i x d k arr : subs s !! i = Some x -> s_placing x = true -> s_sender x = Some d -> arrs s !! sd_arr d = Some arr ->
    (sd_pos d + k <= sd_len d)%nat ->
    buf_step false s (set_sub s i (with_sender x (Sender (sd_arr d) (sd_len d) (sd_pos d + k) (sd_out d ++ take k (drop (sd_pos d) arr)))))
| b_placed s i x : subs s !! i = Some x -> s_main x = MPlace ->
    buf_step false s (put (set_sub s i (with_main x MDone false)) (s_buf x))
(* a detached call is acknowledged by the runner of its current try *)
| b_ack s i x : subs s !! i = Some x -> s_main x = MPlace -> s_detached x = true -> s_sender x <> None ->
    buf_step (unsent x) s (put (set_sub s i (with_main x MDone true)) (s_buf x))
| b_over s i x : subs s !! i = Some x -> s_main x = MDone -> buf_step false s (set_sub s i (with_main x MDone false)).

Definition buf_init : bufsys := BufSys [] [] [] [].
(** Without, and with, the marked returns. *)
Definition buf_reach (s : bufsys) : Prop := rtc (buf_step false) buf_init s.
Definition buf_reach_any (s : bufsys) : Prop := rtc (fun a b => exists h, buf_step h a b) buf_init s.

(** ** The invariant: who owns which buffer *)

Definition owner (x : sub) : bool := match s_main x with MDone => false | _ => true end.

(** What an owner's buffer holds, by its reader. *)
Definition filled (arr : list Z) (l : nat) (x : sub) : Prop :=
  match s_reader x with
  | GRead n => take l arr = take n (s_body x) /\ (l = n)%nat /\ (n <= length (s_body x))%nat
  | GEof => take l arr = s_body x /\ l = length (s_body x)
  | GFail => True
  end.

Definition sender_ok (x : sub) (d : body_sender) : Prop :=
  sd_out d = take (sd_pos d) (s_body x) /\ (sd_pos d <= sd_len d)%nat /\ sd_len d = length (s_body x).

Record sub_ok (s : bufsys) (x : sub) : Prop := {
  so_owns : owner x = true -> (s_buf x ∉ pool s) /\
    exists a l arr, bufs s !! s_buf x = Some (a, l) /\ arrs s !! a = Some arr /\ filled arr l x /\
      (s_main x = MPlace -> s_reader x = GEof /\ forall d, s_sender x = Some d -> sd_arr d = a);
  so_left : owner x = false -> forall n, s_reader x <> GRead n;
  so_sender : forall d, s_sender x = Some d -> sender_ok x d /\ s_main x <> MRead;
  so_done : s_main x = MDone -> s_placing x = true -> forall d, s_sender x = Some d -> sd_pos d = sd_len d;
  so_read : s_main x = MRead -> s_placing x = false /\ s_sender x = None
}.

Record buf_inv (s : bufsys) : Prop := {
  bi_arrs : forall b a l, bufs s !! b = Some (a, l) -> exists arr, arrs s !! a = Some arr /\ (l <= length arr)%nat;
  bi_distinct : forall b b' a l l', bufs s !! b = Some (a, l) -> bufs s !! b' = Some (a, l') -> b = b';
  bi_pool : NoDup (pool s) /\ forall b, b ∈ pool s -> is_Some (bufs s !! b);
  bi_owners : forall i j x y, subs s !! i = Some x -> subs s !! j = Some y -> owner x = true -> owner y = true -> s_buf x = s_buf y -> i = j;
  bi_subs : forall i x, subs s !! i = Some x -> sub_ok s x /\ is_Some (bufs s !! s_buf x)
}.

Lemma sub_ok_frame s s' x : sub_ok s x ->
  (owner x = true -> (s_buf x ∉ pool s') /\ forall a l arr, bufs s !! s_buf x = Some (a, l) -> arrs s !! a = Some arr ->
     bufs s' !! s_buf x = Some (a, l) /\ arrs s' !! a = Some arr) -> sub_ok s' x.
Proof.
  intros [Ho Hl Hs Hd Hr] Hf. constructor; try done. intros Hx. destruct (Ho Hx) as (_ & a & l & arr & Hb & Ha & Hfi & Hp).
  destruct (Hf Hx) as [Hn Hk]. destruct (Hk a l arr Hb Ha). split; [done|]. by exists a, l, arr.
Qed.

Lemma sub_ok_same s s' x : sub_ok s x -> arrs s' = arrs s -> bufs s' = bufs s -> pool s' = pool s -> sub_ok s' x.
Proof.
  intros H Ea Eb Ep. eapply sub_ok_frame; [exact H|]. intros Hx. rewrite Ea, Eb, Ep. split; [by destruct (so_owns _ _ H Hx)|done].
Qed.

(** Only the submission changes. *)
Lemma set_sub_inv s i x x' : buf_inv s -> subs s !! i = Some x -> s_buf x' = s_buf x -> owner x' = owner x -> sub_ok s x' ->
  buf_inv (set_sub s i x').
Proof.
  intros [Ha Hd Hp Ho Hs] Hi Hb Hw Hok. constructor; cbn; try done.
  - intros j k y z [(<- & <- & _)|(? & Hj)]%list_lookup_insert_Some [(<- & <- & _)|(? & Hk)]%list_lookup_insert_Some Oy Oz E; try done.
    + eapply Ho; [exact Hi|exact Hk|congruence..].
    + eapply Ho; [exact Hj|exact Hi|congruence..].
    + by eapply Ho.
  - intros j y [(<- & <- & _)|(_ & Hj)]%list_lookup_insert_Some.
    + rewrite Hb. split; [by eapply sub_ok_same|by eapply Hs].
    + destruct (Hs j y Hj) as [? ?]. split; [by eapply sub_ok_same|done].
Qed.

(** [Submit] returns: the buffer goes back to the pool. *)
Lemma put_inv s i x x' : buf_inv s -> subs s !! i = Some x -> owner x = true -> owner x' = false -> s_buf x' = s_buf x ->
  (forall n, s_reader x' <> GRead n) -> (forall d, s_sender x' = Some d -> sender_ok x' d) ->
  (s_placing x' = true -> forall d, s_sender x' = Some d -> sd_pos d = sd_len d) -> buf_inv (put (set_sub s i x') (s_buf x)).
Proof.
  intros [Ha Hd Hp Ho Hs] Hi Hx Hx' Hb Hr Hse Hdn. destruct (Hs i x Hi) as [Hok Hsome]. destruct (so_owns _ _ Hok Hx) as [Hnp _].
  destruct Hp as [Hnd Hpool]. constructor; cbn; try done.
  - split.
    + apply NoDup_app. split; [done|]. split; [|apply NoDup_singleton]. intros b Hin ->%list_elem_of_singleton. done.
    + intros b [Hin| ->%list_elem_of_singleton]%elem_of_app; [by apply Hpool|done].
  - intros j k y z [(<- & <- & _)|(? & Hj)]%list_lookup_insert_Some [(<- & <- & _)|(? & Hk)]%list_lookup_insert_Some Oy Oz E; try congruence.
    by eapply Ho.
  - intros j y [(<- & <- & _)|(Hne & Hj)]%list_lookup_insert_Some.
    + rewrite Hb. split; [|done]. constructor; try done; try congruence.
      * intros d Hd'. split; [by apply Hse|]. intros E. unfold owner in Hx'. by rewrite E in Hx'.
      * intros E. unfold owner in Hx'. by rewrite E in Hx'.
    + destruct (Hs j y Hj) as [Hy ?]. split; [|done]. eapply sub_ok_frame; [exact Hy|]. intros Oy. split; [|done].
      cbn. rewrite elem_of_app. intros [Hin|Heq%list_elem_of_singleton]; [by destruct (so_owns _ _ Hy Oy)|].
      apply Hne. by eapply (Ho i j).
Qed.

(** A reader at work belongs to a submission that waits for it. *)
Lemma reading s i x n : buf_inv s -> subs s !! i = Some x -> s_reader x = GRead n -> owner x = true /\ s_main x = MRead.
Proof.
  intros H Hi Hr. destruct (bi_subs s H i x Hi) as [Hok _]. assert (owner x = true) as Ho.
  { destruct (owner x) eqn:E; [done|]. by destruct (so_left _ _ Hok E n). }
  split; [done|]. destruct (so_owns _ _ Hok Ho) as (_ & a & l & arr & _ & _ & _ & Hp). unfold owner in Ho.
  destruct (s_main x); [done| |done]. destruct (Hp eq_refl). congruence.
Qed.

(** The reader of an owner has added to its buffer, here or in a larger array. *)
Lemma append_inv s i x n m a' l' arr' arrs' : buf_inv s -> subs s !! i = Some x -> s_reader x = GRead n ->
  arrs' !! a' = Some arr' -> (l' <= length arr')%nat -> take l' arr' = take m (s_body x) -> l' = m -> (m <= length (s_body x))%nat ->
  (forall b2 a2 l2, b2 <> s_buf x -> bufs s !! b2 = Some (a2, l2) -> a2 <> a' /\ arrs' !! a2 = arrs s !! a2) ->
  buf_inv (set_sub (BufSys arrs' (<[s_buf x := (a', l')]> (bufs s)) (pool s) (subs s)) i (with_reader x (GRead m))).
Proof.
  intros H Hi Hr Ha' Hl' Ht -> Hm Hother. destruct (reading s i x n H Hi Hr) as [Hown Hmain].
  pose proof (bi_subs s H i x Hi) as [Hok [bx Hbx]]. pose proof (lookup_lt_Some _ _ _ Hbx) as Hlt.
  destruct (so_owns _ _ Hok Hown) as [Hnp _]. destruct H as [Ha Hd [Hnd Hp] Ho Hs]. constructor; cbn.
  - intros b a l [(<- & [= <- <-] & _)|(Hne & Hb)]%list_lookup_insert_Some; [by exists arr'|].
    destruct (Hother b a l (not_eq_sym Hne) Hb) as [_ ->]. by eapply Ha.
  - intros b b' a l l' [(<- & [= <- <-] & _)|(Hne & Hb)]%list_lookup_insert_Some [(<- & E & _)|(Hne' & Hb')]%list_lookup_insert_Some; try done.
    + by destruct (Hother b' a' l' (not_eq_sym Hne') Hb').
    + injection E as <- <-. by destruct (Hother b a' l (not_eq_sym Hne) Hb).
    + by eapply Hd.
  - split; [done|]. intros b Hb. destruct (decide (b = s_buf x)) as [->|Hne]; [by rewrite list_lookup_insert_eq|].
    rewrite list_lookup_insert_ne by done. by apply Hp.
  - intros j k y z [(<- & <- & _)|(? & Hj)]%list_lookup_insert_Some [(<- & <- & _)|(? & Hk)]%list_lookup_insert_Some Oy Oz E; try done; cbn in *.
    + by eapply (Ho i k).
    + by eapply (Ho j i).
    + by eapply Ho.
  - intros j y [(<- & <- & _)|(Hne & Hj)]%list_lookup_insert_Some.
    + split; [|cbn; by rewrite list_lookup_insert_eq]. constructor; cbn.
      * intros _. split; [done|]. exists a', m, arr'. rewrite list_lookup_insert_eq by done. split_and!; try done. rewrite Hmain. done.
      * unfold owner in *. cbn. by rewrite Hmain.
      * intros d Hd'. split; [by apply (so_sender _ _ Hok)|]. by destruct (so_sender _ _ Hok d Hd').
      * intros E. by rewrite Hmain in E.
      * apply (so_read _ _ Hok).
    + destruct (Hs j y Hj) as [Hy Hyb]. split.
      * eapply sub_ok_frame; [exact Hy|]. intros Oy. split; [by destruct (so_owns _ _ Hy Oy)|]. cbn. intros a l arr Hb Harr.
        assert (s_buf y <> s_buf x) as Hbne by (intros E; apply Hne; by eapply (Ho i j)).
        rewrite list_lookup_insert_ne by done. destruct (Hother _ _ _ Hbne Hb) as [_ E]. by rewrite E.
      * destruct (decide (s_buf y = s_buf x)) as [->|Hbne]; cbn; [by rewrite list_lookup_insert_eq|by rewrite list_lookup_insert_ne].
Qed.

(** Where a submission's reader stands, and what a chunk adds. *)
Lemma chunk_fits s i x n c a l arr : buf_inv s -> subs s !! i = Some x -> s_reader x = GRead n -> c `prefix_of` drop n (s_body x) ->
  bufs s !! s_buf x = Some (a, l) -> arrs s !! a = Some arr ->
  l = n /\ (n + length c <= length (s_body x))%nat /\ take l arr ++ c = take (n + length c) (s_body x).
Proof.
  intros H Hi Hr [r Hc] Hb Harr. destruct (reading s i x n H Hi Hr) as [Hown _]. destruct (bi_subs s H i x Hi) as [Hok _].
  destruct (so_owns _ _ Hok Hown) as (_ & a' & l' & arr' & Hb' & Harr' & Hf & _). simplify_eq. unfold filled in Hf. rewrite Hr in Hf.
  destruct Hf as (Ht & -> & Hn). split; [done|]. assert (length (drop n (s_body x)) = length c + length r)%nat as Hlen by (by rewrite Hc, length_app).
  rewrite length_drop in Hlen. split; [lia|]. rewrite Ht. rewrite <- (take_drop n (s_body x)) at 2.
  rewrite take_app, take_take, length_take. replace (n `min` length (s_body x))%nat with n by lia.
  replace (n + length c - n)%nat with (length c) by lia. rewrite Hc, take_app_length. f_equal. f_equal. lia.
Qed.

(** A submission starts with a buffer that nobody has. *)
Lemma new_sub_inv s s1 body det b a arr : buf_inv s -> bufs s1 !! b = Some (a, 0%nat) -> arrs s1 !! a = Some arr ->
  subs s1 = subs s -> NoDup (pool s1) -> (b ∉ pool s1) -> (forall b', b' ∈ pool s1 -> b' ∈ pool s) ->
  (forall x, x ∈ subs s -> owner x = true -> s_buf x <> b) ->
  (forall b' a' l', bufs s1 !! b' = Some (a', l') -> b' <> b -> bufs s !! b' = Some (a', l') /\ a' <> a) ->
  (forall b' a' l', bufs s !! b' = Some (a', l') -> exists l'', bufs s1 !! b' = Some (a', l'') /\ (b' <> b -> l'' = l')) ->
  (forall a' arr', arrs s !! a' = Some arr' -> arrs s1 !! a' = Some arr') ->
  buf_inv (new_sub s1 body det b).
Proof.
  intros H Hb Harr Hsubs Hnd Hnp Hpool Hfree Hback Hforth Harrs. destruct H as [Ha Hd [_ Hp] Ho Hs]. constructor; cbn.
  - intros b' a' l' Hb'. destruct (decide (b' = b)) as [->|Hne]; [simplify_eq; exists arr; split; [done|lia]|].
    destruct (Hback _ _ _ Hb' Hne) as [Hb'' _]. destruct (Ha _ _ _ Hb'') as (arr' & ? & ?). exists arr'. split; [by apply Harrs|done].
  - intros b1 b2 a' l1 l2 H1 H2. destruct (decide (b1 = b)) as [->|N1], (decide (b2 = b)) as [->|N2]; try done.
    + destruct (Hback _ _ _ H2 N2). congruence.
    + destruct (Hback _ _ _ H1 N1). congruence.
    + destruct (Hback _ _ _ H1 N1), (Hback _ _ _ H2 N2). by eapply Hd.
  - split; [done|]. intros b' Hin. destruct (Hp b' (Hpool b' Hin)) as [[a' l'] Hb']. destruct (Hforth _ _ _ Hb') as (l'' & -> & _). done.
  - rewrite Hsubs. intros i j x y [Hi|[Hi1 Hi]]%lookup_app_Some [Hj|[Hj1 Hj]]%lookup_app_Some Ox Oy E.
    + by eapply Ho.
    + apply list_lookup_singleton_Some in Hj as [_ <-]. destruct (Hfree x); [by eapply list_elem_of_lookup_2|done..].
    + apply list_lookup_singleton_Some in Hi as [_ <-]. destruct (Hfree y); [by eapply list_elem_of_lookup_2|done..].
    + apply list_lookup_singleton_Some in Hi as [? _], Hj as [? _]. lia.
  - rewrite Hsubs. intros i x [Hi|[_ Hi]]%lookup_app_Some.
    + destruct (Hs i x Hi) as [Hok [[a' l'] Hbx]]. destruct (Hforth _ _ _ Hbx) as (l'' & Hbx' & Hl). split; [|by rewrite Hbx'].
      eapply sub_ok_frame; [exact Hok|]. intros Ox. destruct (so_owns _ _ Hok Ox) as [Hnx _]. cbn. split; [intros Hin; by apply Hnx, Hpool|].
      intros a1 l1 arr1 H1 H2. simplify_eq. rewrite Hbx'. split; [|by apply Harrs].
      rewrite Hl; [done|]. apply Hfree; [by eapply list_elem_of_lookup_2|done].
    + apply list_lookup_singleton_Some in Hi as [_ <-]. cbn. split; [|by rewrite Hb]. constructor; cbn; try done.
      intros _. split; [done|]. exists a, 0%nat, arr. split_and!; done || (cbn; lia).
Qed.

Lemma pooled_free s b : buf_inv s -> b ∈ pool s -> forall x, x ∈ subs s -> owner x = true -> s_buf x <> b.
Proof.
  intros H Hb x [i Hi]%list_elem_of_lookup Ho <-. destruct (bi_subs s H i x Hi) as [Hok _]. by destruct (so_owns _ _ Hok Ho).
Qed.

Lemma get_pooled_inv s body det b a l : buf_inv s -> b ∈ pool s -> bufs s !! b = Some (a, l) -> buf_inv (new_sub (get_pooled s b a) body det b).
Proof.
  intros H Hin Hb. pose proof (lookup_lt_Some _ _ _ Hb) as Hlt. destruct (bi_arrs s H b a l Hb) as (arr & Harr & _).
  destruct (bi_pool s H) as [Hnd _]. eapply (new_sub_inv s _ body det b a arr); cbn; try done.
  - by apply list_lookup_insert_eq.
  - by apply remove_first_NoDup.
  - by apply remove_first_NoDup_gone.
  - intros b' Hb'. by eapply remove_first_elem_of.
  - by apply (pooled_free s b H).
  - intros b' a' l' Hb' Hne. rewrite list_lookup_insert_ne in Hb' by done. split; [done|]. intros ->. apply Hne. by eapply (bi_distinct s H).
  - intros b' a' l' Hb'. destruct (decide (b' = b)) as [->|Hne].
    + simplify_eq. exists 0%nat. split; [by apply list_lookup_insert_eq|done].
    + exists l'. by rewrite list_lookup_insert_ne.
Qed.

Lemma get_new_inv s body det : buf_inv s -> buf_inv (new_sub (get_new s) body det (length (bufs s))).
Proof.
  intros H. destruct (bi_pool s H) as [Hnd Hp].
  assert (forall b, is_Some (bufs s !! b) -> b <> length (bufs s)) as Hne by (intros b Hb%lookup_lt_is_Some; lia).
  eapply (new_sub_inv s _ body det (length (bufs s)) (length (arrs s)) []); cbn; try done.
  - rewrite lookup_app_r by lia. by rewrite Nat.sub_diag.
  - rewrite lookup_app_r by lia. by rewrite Nat.sub_diag.
  - intros Hin. by destruct (Hne _ (Hp _ Hin)).
  - intros x [i Hi]%list_elem_of_lookup _. apply Hne. by destruct (bi_subs s H i x Hi).
  - intros b' a' l' [Hb'|[Hge Hb']]%lookup_app_Some Hb; [|apply list_lookup_singleton_Some in Hb' as [? _]; lia].
    split; [done|]. destruct (bi_arrs s H _ _ _ Hb') as (arr & Harr & _). apply lookup_lt_Some in Harr. lia.
  - intros b' a' l' Hb'. exists l'. split; [by apply lookup_app_l_Some|done].
  - intros a' arr' Harr. by apply lookup_app_l_Some.
Qed.

Lemma take_overwrite arr l c : (l + length c <= length arr)%nat -> take (l + length c) (overwrite arr l c) = take l arr ++ c /\
  length (overwrite arr l c) = length arr.
Proof.
  intros Hl. unfold overwrite. split; [|rewrite !length_app, length_take, length_drop; lia].
  rewrite app_assoc, take_app_le by (rewrite length_app, length_take; lia). apply take_ge. rewrite length_app, length_take. lia.
Qed.

Lemma send_take (body arr : list Z) pos k n : (pos + k <= n)%nat -> take n arr = body -> take pos body ++ take k (drop pos arr) = take (pos + k) body.
Proof.
  intros Hle <-. rewrite !take_take. replace (pos `min` n)%nat with pos by lia. replace ((pos + k) `min` n)%nat with (pos + k)%nat by lia.
  by rewrite take_take_drop.
Qed.

(** One lemma a group of steps: a chunk, the end of the reader, the start of the
    placement, a try, the bytes of a sender, the returns of [Submit]. *)
Lemma read_inv s i x n c a l arr : buf_inv s -> subs s !! i = Some x -> s_reader x = GRead n -> c `prefix_of` drop n (s_body x) ->
  bufs s !! s_buf x = Some (a, l) -> arrs s !! a = Some arr -> (l + length c <= length arr)%nat ->
  buf_inv (set_sub (append_here s (s_buf x) a l arr c) i (with_reader x (GRead (n + length c)))).
Proof.
  intros H Hi Hr Hc Hb Ha Hl. destruct (chunk_fits s i x n c a l arr H Hi Hr Hc Hb Ha) as (-> & Hle & Ht).
  destruct (take_overwrite arr n c Hl) as [Ho Hlen].
  apply (append_inv s i x n (n + length c) a (n + length c) (overwrite arr n c)); try done.
  - apply list_lookup_insert_eq. by eapply lookup_lt_Some.
  - lia.
  - by rewrite Ho.
  - intros b2 a2 l2 Hne Hb2. assert (a2 <> a) as Hna by (intros ->; apply Hne; by eapply (bi_distinct s H)).
    by rewrite list_lookup_insert_ne.
Qed.

Lemma grow_inv s i x n c a l arr room : buf_inv s -> subs s !! i = Some x -> s_reader x = GRead n -> c `prefix_of` drop n (s_body x) ->
  bufs s !! s_buf x = Some (a, l) -> arrs s !! a = Some arr ->
  buf_inv (set_sub (append_grow s (s_buf x) l arr c room) i (with_reader x (GRead (n + length c)))).
Proof.
  intros H Hi Hr Hc Hb Ha. destruct (chunk_fits s i x n c a l arr H Hi Hr Hc Hb Ha) as (-> & Hle & Ht).
  destruct (bi_arrs s H _ _ _ Hb) as (arr' & Ha' & Hn). rewrite Ha in Ha'. injection Ha' as <-.
  assert (length (take n arr ++ c) = n + length c)%nat as Hlen by (rewrite length_app, length_take; lia).
  apply (append_inv s i x n (n + length c) (length (arrs s)) (n + length c) (take n arr ++ c ++ room)); try done.
  - rewrite lookup_app_r by lia. by rewrite Nat.sub_diag.
  - rewrite app_assoc, length_app, Hlen. lia.
  - rewrite app_assoc, take_app_le, take_ge by lia. done.
  - intros b2 a2 l2 _ Hb2. destruct (bi_arrs s H _ _ _ Hb2) as (arr2 & Ha2 & _). pose proof (lookup_lt_Some _ _ _ Ha2).
    split; [lia|]. by rewrite lookup_app_l.
Qed.

Lemma reader_end_inv s i x n r : buf_inv s -> subs s !! i = Some x -> s_reader x = GRead n ->
  r = GFail \/ (r = GEof /\ n = length (s_body x)) -> buf_inv (set_sub s i (with_reader x r)).
Proof.
  intros H Hi Hr Hend. destruct (reading s i x _ H Hi Hr) as [Ho Hm]. pose proof (bi_subs s H i x Hi) as [[Hw _ Hsd Hdn Hrd] _].
  eapply set_sub_inv; [done|exact Hi|done..|]. constructor; cbn; try done.
  - intros Hx. destruct (Hw Hx) as (? & a & l & arr & ? & Ha & Hf & _). split; [done|]. exists a, l, arr. rewrite Hm. split_and!; try done.
    unfold filled in *. rewrite Hr in Hf. destruct Hend as [-> |[-> ->]]; cbn; [done|]. destruct Hf as (Hf & -> & _). rewrite Hf. by rewrite take_ge.
  - intros _ k ->. by destruct Hend as [?|[? _]].
Qed.

Lemma ready_inv s i x : buf_inv s -> subs s !! i = Some x -> s_main x = MRead -> s_reader x = GEof -> buf_inv (set_sub s i (with_main x MPlace true)).
Proof.
  intros H Hi Hm Hr. pose proof (bi_subs s H i x Hi) as [[Hw _ Hsd Hdn Hrd] _]. assert (owner x = true) as Ho by (unfold owner; by rewrite Hm).
  eapply set_sub_inv; [done|exact Hi|done|by rewrite Ho|]. destruct (Hrd Hm) as [_ Hnone]. constructor; cbn; try done.
  - intros _. destruct (Hw Ho) as (? & a & l & arr & ? & Ha & Hf & _). split; [done|]. exists a, l, arr. rewrite Hnone. by split_and!.
  - intros d Hd. by rewrite Hnone in Hd.
Qed.

(** A submission that places its call: its buffer holds its body. *)
Lemma placing_holds s i x : buf_inv s -> subs s !! i = Some x -> s_main x = MPlace ->
  s_reader x = GEof /\ exists a arr, bufs s !! s_buf x = Some (a, length (s_body x)) /\ arrs s !! a = Some arr /\
    take (length (s_body x)) arr = s_body x /\ (s_buf x ∉ pool s) /\ forall d, s_sender x = Some d -> sd_arr d = a.
Proof.
  intros H Hi Hm. pose proof (bi_subs s H i x Hi) as [[Hw _ _ _ _] _]. destruct Hw as (Hnp & a & l & arr & Hb & Ha & Hf & Hp); [unfold owner; by rewrite Hm|].
  destruct (Hp Hm) as [Hr Hd]. unfold filled in Hf. rewrite Hr in Hf. destruct Hf as [Hf ->]. split; [done|]. by exists a, arr.
Qed.

Lemma try_inv s i x a l : buf_inv s -> subs s !! i = Some x -> s_main x = MPlace -> bufs s !! s_buf x = Some (a, l) ->
  buf_inv (set_sub s i (with_sender x (Sender a l 0 []))).
Proof.
  intros H Hi Hm Hb. destruct (placing_holds s i x H Hi Hm) as (Hr & a' & arr & Hb' & Ha & Hf & Hnp & _). rewrite Hb in Hb'. injection Hb' as <- ->.
  pose proof (bi_subs s H i x Hi) as [[_ Hlf _ _ _] _]. eapply set_sub_inv; [done|exact Hi|done..|]. constructor; cbn; try (rewrite Hm; done); [..|done|].
  - intros _. split; [done|]. exists a, (length (s_body x)), arr. unfold filled. cbn. rewrite Hr. split_and!; try done. intros _. split; [done|]. by intros d [= <-].
  - intros d [= <-]. rewrite Hm. split; [|done]. split_and!; cbn; [done|lia|done].
Qed.

Lemma sent_more s i x d k arr : buf_inv s -> subs s !! i = Some x -> s_placing x = true -> s_sender x = Some d -> arrs s !! sd_arr d = Some arr ->
  (sd_pos d + k <= sd_len d)%nat -> sd_out d ++ take k (drop (sd_pos d) arr) = take (sd_pos d + k) (s_body x).
Proof.
  intros H Hi Hp Hd Ha Hk. pose proof (bi_subs s H i x Hi) as [[_ _ Hsd Hdn Hrd] _]. destruct (Hsd d Hd) as [(Hout & Hpos & Hlen) Hm].
  destruct (s_main x) eqn:Em; [done| |].
  - destruct (placing_holds s i x H Hi Em) as (_ & a & arr' & _ & Ha' & Hf & _ & Hda). rewrite (Hda d Hd) in Ha. rewrite Ha in Ha'. injection Ha' as <-.
    rewrite Hout. eapply send_take; [exact Hk|]. by rewrite Hlen.
  - pose proof (Hdn eq_refl Hp d Hd) as E. assert (k = 0%nat) as -> by lia. by rewrite take_0, app_nil_r, Nat.add_0_r, Hout.
Qed.

Lemma send_inv s i x d k arr : buf_inv s -> subs s !! i = Some x -> s_placing x = true -> s_sender x = Some d -> arrs s !! sd_arr d = Some arr ->
  (sd_pos d + k <= sd_len d)%nat ->
  buf_inv (set_sub s i (with_sender x (Sender (sd_arr d) (sd_len d) (sd_pos d + k) (sd_out d ++ take k (drop (sd_pos d) arr))))).
Proof.
  intros H Hi Hp Hd Ha Hk. pose proof (sent_more s i x d k arr H Hi Hp Hd Ha Hk) as Hout.
  pose proof (bi_subs s H i x Hi) as [[Hw Hlf Hsd Hdn Hrd] _]. destruct (Hsd d Hd) as [(_ & Hpos & Hlen) Hm].
  eapply set_sub_inv; [done|exact Hi|done..|]. constructor; cbn; try done.
  - intros Hx. destruct (Hw Hx) as (? & a' & l' & arr' & ? & ? & ? & Hp'). split; [done|]. exists a', l', arr'. split_and!; try done.
    intros E. destruct (Hp' E) as [? Hda]. split; [done|]. intros d' [= <-]. cbn. by apply Hda.
  - intros d' [= <-]. split; [|done]. by split_and!.
  - intros E Hpl d' [= <-]. cbn. pose proof (Hdn E Hpl d Hd). lia.
Qed.

Lemma refuse_inv s i x : buf_inv s -> subs s !! i = Some x -> s_main x = MRead -> (forall n, s_reader x <> GRead n) ->
  buf_inv (put (set_sub s i (with_main x MDone false)) (s_buf x)).
Proof.
  intros H Hi Hm Hr. pose proof (bi_subs s H i x Hi) as [Hok _]. destruct (so_read _ _ Hok Hm) as [_ Hnone].
  eapply put_inv; try done; cbn; [unfold owner; by rewrite Hm|by rewrite Hnone].
Qed.

Lemma return_inv s i x p : buf_inv s -> subs s !! i = Some x -> s_main x = MPlace ->
  (p = true -> unsent x = false) -> buf_inv (put (set_sub s i (with_main x MDone p)) (s_buf x)).
Proof.
  intros H Hi Hm Hp. destruct (placing_holds s i x H Hi Hm) as [Hr _]. pose proof (bi_subs s H i x Hi) as [Hok _].
  eapply put_inv; try done; cbn; [unfold owner; by rewrite Hm|by rewrite Hr|..].
  - intros d Hd. by destruct (so_sender _ _ Hok d Hd).
  - intros Ep d Hd. pose proof (Hp Ep) as Hu. unfold unsent in Hu. rewrite Hd in Hu. apply Nat.ltb_ge in Hu.
    destruct (so_sender _ _ Hok d Hd) as [(_ & ? & _) _]. lia.
Qed.

Lemma over_inv s i x : buf_inv s -> subs s !! i = Some x -> s_main x = MDone -> buf_inv (set_sub s i (with_main x MDone false)).
Proof.
  intros H Hi Hm. pose proof (bi_subs s H i x Hi) as [[Hw Hlf Hsd Hdn Hrd] _]. assert (owner x = false) as Ho by (unfold owner; by rewrite Hm).
  eapply set_sub_inv; [done|exact Hi|done|by rewrite Ho|]. constructor; cbn; try done.
  - intros _. by apply Hlf.
  - intros d Hd. split; [by apply Hsd|done].
Qed.

Lemma buf_step_inv h s s' : buf_step h s s' -> h = false -> buf_inv s -> buf_inv s'.
Proof.
  intros [s0 body det b a l Hin Hb|s0 body det|s0 i x n c a l arr Hi Hr Hc Hb Ha Hl|s0 i x n c a l arr room Hi Hr Hc Hb Ha
    |s0 i x Hi Hr|s0 i x n Hi Hr|s0 i x Hi Hm Hr|s0 i x Hi Hm Hr|s0 i x Hi Hm|s0 i x a l Hi Hm Hb|s0 i x d k arr Hi Hp Hd Ha Hk|s0 i x Hi Hm|s0 i x Hi Hm Hdet Hsd|s0 i x Hi Hm] Hh H.
  - by eapply get_pooled_inv.
  - by apply get_new_inv.
  - by eapply read_inv.
  - by eapply grow_inv.
  - eapply reader_end_inv; eauto.
  - eapply reader_end_inv; eauto.
  - by apply ready_inv.
  - apply refuse_inv; try done. intros n. by destruct Hr as [-> | ->].
  - apply refuse_inv; try done. intros n E. by rewrite E in Hh.
  - by apply try_inv.
  - by apply send_inv.
  - by apply return_inv.
  - by apply return_inv.
  - by apply over_inv.
Qed.

Lemma buf_reach_inv s : buf_reach s -> buf_inv s.
Proof.
  assert (buf_inv buf_init) as H0 by (constructor; cbn; try done; split; [constructor|by intros b ?%not_elem_of_nil]).
  unfold buf_reach. intros Hr. revert H0. induction Hr as [|s1 s2 s3 Hs _ IH]; [done|]. intros H. by apply IH, (buf_step_inv false s1).
Qed.

(** ** One client's body in another's call *)

(** The context of a client ends while its body is read: the reader left behind adds
    to the buffer that the next client reads its body into. *)
Definition mixed_in : bufsys :=
  BufSys [[]; [66; 66]; [66; 66; 65; 65]] [(2%nat, 4%nat)] []
    [Sub [65; 65] 0 false MDone (GRead 2) false None;
     Sub [66; 66] 0 false MPlace GEof true (Some (Sender 2 4 4 [66; 66; 65; 65]))].
(** A detached call is acknowledged before its body is sent: the sender left behind
    sends the body of the next client. *)
Definition mixed_out : bufsys :=
  BufSys [[]; [66; 66]] [(1%nat, 2%nat)] []
    [Sub [65; 65] 0 true MDone GEof true (Some (Sender 1 2 2 [66; 66]));
     Sub [66; 66] 0 false MRead (GRead 2) false None].

#[local] Ltac run_step c := eapply rtc_l; [eexists; c; try reflexivity; try (by exists []); try (cbn; by left); try (cbn; lia)|]; cbn.

Lemma mixed_in_reached : buf_reach_any mixed_in.
Proof.
  unfold buf_reach_any, buf_init. run_step ltac:(apply (b_new _ [65; 65] false)).
  run_step ltac:(eapply (b_ctx _ 0)). run_step ltac:(eapply (b_pooled _ [66; 66] false 0 0 0)).
  run_step ltac:(eapply (b_grow _ 1 _ 0 [66; 66] _ _ _ [])). run_step ltac:(eapply (b_eof _ 1)). run_step ltac:(eapply (b_ready _ 1)).
  run_step ltac:(eapply (b_grow _ 0 _ 0 [65; 65] _ _ _ [])). run_step ltac:(eapply (b_try _ 1)).
  run_step ltac:(eapply (b_send _ 1 _ _ 4)). apply rtc_refl.
Qed.

Lemma mixed_out_reached : buf_reach_any mixed_out.
Proof.
  unfold buf_reach_any, buf_init. run_step ltac:(apply (b_new _ [65; 65] true)).
  run_step ltac:(eapply (b_grow _ 0 _ 0 [65; 65] _ _ _ [])). run_step ltac:(eapply (b_eof _ 0)). run_step ltac:(eapply (b_ready _ 0)).
  run_step ltac:(eapply (b_try _ 0)). run_step ltac:(eapply (b_ack _ 0)); [done|]. run_step ltac:(eapply (b_pooled _ [66; 66] false 0 1 2)).
  run_step ltac:(eapply (b_read _ 1 _ 0 [66; 66])). run_step ltac:(eapply (b_send _ 0 _ _ 2)). apply rtc_refl.
Qed.

(** C16: Over every interleaving of submissions, their readers and the senders of
    their tries.  As long as no submission returns with its reader or its sender at
    work: what a try has sent is the beginning of the body of its own client, the
    whole of it when the sender is through; a buffer in use is in nobody else's
    hands and not in the pool, and the pool holds no buffer twice.  Each of the two
    early returns alone breaks this: when the context of a client ends while its
    body is read, its bytes end up in the body of the next client; when a detached
    call is acknowledged before its body is sent, the function gets the body of the
    next client. *)
Theorem body_buffers_safe s : buf_reach s ->
  (forall i x d, subs s !! i = Some x -> s_sender x = Some d ->
    sd_out d = take (sd_pos d) (s_body x) /\ (sd_pos d <= sd_len d)%nat /\ (sd_pos d = sd_len d -> sd_out d = s_body x)) /\
  (forall i j x y, subs s !! i = Some x -> subs s !! j = Some y -> owner x = true ->
    (s_buf x ∉ pool s) /\ (owner y = true -> s_buf x = s_buf y -> i = j)) /\
  NoDup (pool s) /\
  (exists s1 x d, buf_reach_any s1 /\ subs s1 !! 1%nat = Some x /\ s_detached x = false /\ s_sender x = Some d /\
    s_body x = [66; 66] /\ sd_out d = [66; 66; 65; 65]) /\
  (exists s2 x d, buf_reach_any s2 /\ subs s2 !! 0%nat = Some x /\ s_detached x = true /\ s_sender x = Some d /\
    s_body x = [65; 65] /\ sd_out d = [66; 66]).
Proof.
  intros Hr. pose proof (buf_reach_inv s Hr) as H. split_and!.
  - intros i x d Hi Hd. destruct (bi_subs s H i x Hi) as [Hok _]. destruct (so_sender _ _ Hok d Hd) as [(Hout & Hpos & Hlen) _].
    split_and!; try done. intros E. rewrite Hout. apply take_ge. lia.
  - intros i j x y Hi Hj Hx. destruct (bi_subs s H i x Hi) as [Hok _]. split; [by destruct (so_owns _ _ Hok Hx)|].
    intros Hy. by apply (bi_owners s H).
  - apply (bi_pool s H).
  - eexists mixed_in, _, _. split; [apply mixed_in_reached|]. by split_and!.
  - eexists mixed_out, _, _. split; [apply mixed_out_reached|]. by split_and!.
Qed.

(** A submission whose try has sent its body. *)
Definition sent_demo : bufsys :=
  BufSys [[]; [65; 66]] [(1%nat, 2%nat)] [] [Sub [65; 66] 0 false MPlace GEof true (Some (Sender 1 2 2 [65; 66]))].

#[local] Ltac run_free c := eapply rtc_l; [c; try reflexivity; try (by exists []); try (cbn; lia)|]; cbn.

Lemma sent_demo_reached : buf_reach sent_demo.
Proof.
  unfold buf_reach, buf_init. run_free ltac:(apply (b_new _ [65; 66] false)). run_free ltac:(eapply (b_grow _ 0 _ 0 [65; 66] _ _ _ [])).
  run_free ltac:(eapply (b_eof _ 0)). run_free ltac:(eapply (b_ready _ 0)). run_free ltac:(eapply (b_try _ 0)).
  run_free ltac:(eapply (b_send _ 0 _ _ 2)). apply rtc_refl.
Qed.

Lemma body_buffers_safe_witness : exists d, s_sender (Sub [65; 66] 0 false MPlace GEof true (Some (Sender 1 2 2 [65; 66]))) = Some d /\ sd_out d = [65; 66].
Proof.
  eexists. split; [reflexivity|]. apply (body_buffers_safe sent_demo sent_demo_reached) with (i := 0%nat)
    (x := Sub [65; 66] 0 false MPlace GEof true (Some (Sender 1 2 2 [65; 66]))); reflexivity.
Defined.
