(* ===== verification/Sql.v ===== *)
(** * What the SQL store needs of a database (src/api/datastore/sql, dbhelper)

    The store sends texts of a small part of SQL.  This file reads such a text
    ([parse]), says what a statement does to tables ([selected], [executes]) and
    states as a class ([Engine]) what the store relies on in a database: the
    statements do that, a transaction is undone by a rollback, keys are enforced,
    and a violated key is reported with the code the helper of its driver looks
    for.  An engine may fail at any statement; [broken] says when it may.
    [Rel] is an instance. *)
From S2P Require Import Prelude Errors GoStrings Datastore.
From Stdlib Require Import Ascii.

(** ** Values, rows, tables *)

Inductive value := VNull | VText (s : string) | VInt (n : Z).
#[export] Instance value_eq_dec : EqDecision value.
Proof. solve_decision. Defined.

Abbreviation row := (gmap string value).
(** What a query gives: columns in the order they were asked for. *)
Abbreviation record := (list (string * value)).
Abbreviation tabs := (gmap string (list row)).

Fixpoint col (r : record) (c : string) : option value :=
  match r with
  | [] => None
  | (d, v) :: r => if streq d c then Some v else col r c
  end.

(** ** Statements *)

Inductive cmp := Ceq | Cgt.
Record select := Select {
  sel_distinct : bool;
  sel_cols : list string;
  sel_table : string;
  sel_where : list (string * cmp);
  sel_order : option string;
  sel_limit : bool
}.

(** Placeholders stand for the arguments in the order of the text. *)
Inductive stmt :=
| SSelect (q : select)
| SDelete (t : string) (w : list (string * cmp))
| SInsert (t : string) (cols : list string)
| SUpdate (t : string) (set : list string) (w : list (string * cmp)).

(** ** Reading a text *)

Definition lower_char (c : ascii) : ascii :=
  let n := nat_of_ascii c in if Nat.leb 65 n && Nat.leb n 90 then ascii_of_nat (n + 32) else c.
Definition word_char (c : ascii) : bool :=
  let n := nat_of_ascii c in
  (Nat.leb 97 n && Nat.leb n 122) || (Nat.leb 48 n && Nat.leb n 57) || Nat.eqb n 95 || Nat.eqb n 58.

(** Words are runs of letters, digits, [_] and [:]; any other character that is not
    a space is a token of its own.  Case does not matter. *)
Fixpoint lex_loop (cur l : list ascii) : list string :=
  let flush rest := match cur with [] => rest | _ => unchars (rev cur) :: rest end in
  match l with
  | [] => flush []
  | c :: l =>
      let c := lower_char c in
      if word_char c then lex_loop (c :: cur) l
      else if is_space c then flush (lex_loop [] l)
      else flush (unchars [c] :: lex_loop [] l)
  end.
Definition lex (s : string) : list string := lex_loop [] (chars s).

(** Up to a token, and what follows it. *)
Fixpoint until (t : string) (l : list string) : option (list string * list string) :=
  match l with
  | [] => None
  | x :: l => if streq x t then Some ([], l) else (fun p => (x :: p.1, p.2)) <$> until t l
  end.

(** Pieces between separators. *)
Fixpoint pieces (t : string) (cur l : list string) : list (list string) :=
  match l with
  | [] => [rev cur]
  | x :: l => if streq x t then rev cur :: pieces t [] l else pieces t (x :: cur) l
  end.

Definition single (l : list string) : option string := match l with [x] => Some x | _ => None end.
Definition names (l : list string) : option (list string) := mapM single (pieces "," [] l).

Definition placeholder (s : string) : bool := streq s "?" || HasPrefix s ":".

(** [c = ?], [c > ?] *)
Definition condition (l : list string) : option (string * cmp) :=
  match l with
  | [c; o; p] => if negb (placeholder p) then None
                 else if streq o "=" then Some (c, Ceq) else if streq o ">" then Some (c, Cgt) else None
  | _ => None
  end.
Definition conditions (l : list string) : option (list (string * cmp)) := mapM condition (pieces "and" [] l).
Definition assignment (l : list string) : option string :=
  match condition l with Some (c, Ceq) => Some c | _ => None end.

Definition tail_of (l : list string) : option (option string * bool) :=
  match l with
  | [] => Some (None, false)
  | ["order"; "by"; c; "asc"] => Some (Some c, false)
  | ["order"; "by"; c; "asc"; "limit"; "?"] => Some (Some c, true)
  | _ => None
  end%string.

Definition split_order (l : list string) : list string * list string :=
  match until "order" l with Some (a, b) => (a, "order"%string :: b) | None => (l, []) end.

Definition parse_select (d : bool) (l : list string) : option stmt :=
  match until "from" l with
  | Some (cs, t :: l) =>
      let (w, o) := split_order l in
      match names cs, (match w with [] => Some [] | k :: w => if streq k "where" then conditions w else None end), tail_of o with
      | Some cs, Some w, Some (ord, lim) => Some (SSelect (Select d cs t w ord lim))
      | _, _, _ => None
      end
  | _ => None
  end.

Definition parse_insert (l : list string) : option stmt :=
  match l with
  | t :: o :: l =>
      match until ")" l with
      | Some (cs, v :: o' :: l) =>
          match until ")" l with
          | Some (ps, []) =>
              match names cs, names ps with
              | Some cs, Some ps =>
                  if streq o "(" && streq v "values" && streq o' "(" && forallb placeholder ps && Nat.eqb (length cs) (length ps)
                  then Some (SInsert t cs) else None
              | _, _ => None
              end
          | _ => None
          end
      | _ => None
      end
  | _ => None
  end.

Definition parse_update (l : list string) : option stmt :=
  match l with
  | t :: s :: l =>
      match until "where" l with
      | Some (set, w) =>
          match mapM assignment (pieces "," [] set), conditions w with
          | Some cs, Some w => if streq s "set" then Some (SUpdate t cs w) else None
          | _, _ => None
          end
      | None => None
      end
  | _ => None
  end.

Definition parse_delete (l : list string) : option stmt :=
  match l with
  | [f; t] => if streq f "from" then Some (SDelete t []) else None
  | f :: t :: k :: w => if streq f "from" && streq k "where" then SDelete t <$> conditions w else None
  | _ => None
  end.

Definition parse (s : string) : option stmt :=
  let l := base.filter (fun x => x <> ";"%string) (lex s) in
  match l with
  | k :: l =>
      if streq k "select" then
        match l with
        | d :: l' => if streq d "distinct" then parse_select true l' else parse_select false l
        | [] => None
        end
      else match l with
           | i :: l' => if streq k "insert" && streq i "into" then parse_insert l'
                        else if streq k "update" then parse_update l
                        else if streq k "delete" then parse_delete l else None
           | [] => None
           end
  | [] => None
  end.

(** The names of named placeholders, in order. *)
Definition named_params (s : string) : list string :=
  (fun x => unchars (tl (chars x))) <$> base.filter (fun x => HasPrefix x ":" = true) (lex s).

(** ** What a table holds: columns and keys, from its definition *)

Record schema := Schema { sch_cols : list string; sch_keys : list (list string) }.

(** The items of a definition, which are separated by the commas outside of
    parentheses. *)
Fixpoint items (depth : nat) (cur l : list string) : list (list string) :=
  match l with
  | [] => [rev cur]
  | x :: l =>
      if streq x "(" then items (S depth) (x :: cur) l
      else if streq x ")" then items (pred depth) (x :: cur) l
      else if streq x "," && Nat.eqb depth 0 then rev cur :: items 0 [] l
      else items depth (x :: cur) l
  end.

Definition item_schema (l : list string) (s : schema) : schema :=
  match l with
  | [] => s
  | c :: l =>
      if streq c "constraint" then
        match until "(" l with
        | Some (_, k) => match until ")" k with
                         | Some (k, _) => Schema (sch_cols s) (default [] (names k) :: sch_keys s)
                         | None => s
                         end
        | None => s
        end
      else Schema (c :: sch_cols s)
             (if existsb (fun x => streq x "primary" || streq x "unique") l then [c] :: sch_keys s else sch_keys s)
  end.

(** [CREATE TABLE IF NOT EXISTS t ( ... );] *)
Definition parse_table (s : string) : option (string * schema) :=
  match base.filter (fun x => x <> ";"%string) (lex s) with
  | c :: t :: i :: n :: e :: name :: o :: l =>
      if streq c "create" && streq t "table" && streq o "("
      then Some (name, foldr item_schema (Schema [] []) (items 0 [] (removelast l))) else None
  | _ => None
  end.

(** ** What statements do *)

(** [SELECT 1]; a column otherwise. *)
Definition column (r : row) (c : string) : option value := if streq c "1" then Some (VInt 1) else r !! c.
Definition project (cs : list string) (r : row) : record := (fun c => (c, default VNull (column r c))) <$> cs.

(** Texts are ordered by their bytes; nothing compares with a null. *)
Definition holds (v : option value) (c : cmp) (a : value) : bool :=
  match v, a with
  | Some (VText x), VText y => match c with Ceq => streq x y | Cgt => strlt y x end
  | Some (VInt x), VInt y => match c with Ceq => x =? y | Cgt => y <? x end
  | _, _ => false
  end.
Fixpoint where_ok (w : list (string * cmp)) (args : list value) (r : row) : bool :=
  match w, args with
  | [], _ => true
  | (c, o) :: w, a :: args => holds (r !! c) o a && where_ok w args r
  | _ :: _, [] => false
  end.

Definition text_of (v : option value) : string := match v with Some (VText s) => s | _ => ""%string end.
Definition rows_of (T : tabs) (t : string) : list row := default [] (T !! t).

(** The answers of a query: those that match, in the order asked for, up to the
    limit. *)
Definition selected (T : tabs) (q : select) (args : list value) (l : list record) : Prop :=
  exists all, (if sel_distinct q then remove_dups else id)
                (project (sel_cols q) <$> base.filter (fun r => where_ok (sel_where q) args r = true) (rows_of T (sel_table q))) ≡ₚ all /\
    (forall c, sel_order q = Some c -> StronglySorted (fun a b => str_le (text_of (col a c)) (text_of (col b c))) all) /\
    l = if sel_limit q then match args !! length (sel_where q) with Some (VInt n) => take (Z.to_nat n) all | _ => [] end else all.

(** The statement makes sense for the tables: its table and columns exist, it has
    an argument for each placeholder, and a limit is not negative. *)
Definition runnable (S : gmap string schema) (st : stmt) (args : list value) : bool :=
  let table t (f : schema -> bool) := match S !! t with Some s => f s | None => false end in
  let has (s : schema) c := bool_decide (c ∈ sch_cols s) in
  match st with
  | SSelect q => table (sel_table q) (fun s =>
      forallb (fun c => streq c "1" || has s c) (sel_cols q) && forallb (fun p => has s p.1) (sel_where q) &&
      match sel_order q with Some c => bool_decide (c ∈ sel_cols q) | None => true end &&
      if sel_limit q then match drop (length (sel_where q)) args with [VInt n] => 0 <=? n | _ => false end
      else Nat.eqb (length args) (length (sel_where q)))
  | SDelete t w => table t (fun s => forallb (fun p => has s p.1) w && Nat.eqb (length args) (length w))
  | SInsert t cs => table t (fun s =>
      bool_decide (NoDup cs) && bool_decide (list_to_set cs =@{gset string} list_to_set (sch_cols s)) && Nat.eqb (length args) (length cs))
  | SUpdate t set w => table t (fun s =>
      forallb (has s) set && forallb (fun p => has s p.1) w && Nat.eqb (length args) (length set + length w))
  end.

Definition new_row (cs : list string) (args : list value) : row := list_to_map (zip cs args).
Definition set_row (cs : list string) (args : list value) (r : row) : row := new_row cs args ∪ r.

(** Two rows have the same key. *)
Definition same_key (k : list string) (a b : row) : bool := forallb (fun c => bool_decide (is_Some (a !! c)) && bool_decide (a !! c = b !! c)) k.
Fixpoint unique_on (k : list string) (l : list row) : bool :=
  match l with [] => true | r :: l => negb (existsb (same_key k r) l) && unique_on k l end.
Definition keys_ok (s : schema) (l : list row) : bool := forallb (fun k => unique_on k l) (sch_keys s).

(** The rows of the statement's table afterwards, and how many it deleted. *)
Definition outcome_rows (T : tabs) (st : stmt) (args : list value) : option (string * list row) :=
  match st with
  | SSelect _ => None
  | SDelete t w => Some (t, base.filter (fun r => where_ok w args r = false) (rows_of T t))
  | SInsert t cs => Some (t, new_row cs args :: rows_of T t)
  | SUpdate t set w =>
      Some (t, (fun r => if where_ok w (drop (length set) args) r then set_row set args r else r) <$> rows_of T t)
  end.

Definition deleted (T : tabs) (st : stmt) (args : list value) (n : Z) : Prop :=
  match st with
  | SDelete t w => n = Z.of_nat (length (base.filter (fun r => where_ok w args r = true) (rows_of T t)))
  | _ => True
  end.

(** The rows are stored in an order of the engine's choice. *)
Definition executes (S : gmap string schema) (T : tabs) (st : stmt) (args : list value) (T' : tabs) (n : Z) : Prop :=
  exists t l l', outcome_rows T st args = Some (t, l) /\ l ≡ₚ l' /\ (forall s, S !! t = Some s -> keys_ok s l = true) /\
    T' = <[t := l']> T /\ deleted T st args n.
Definition violates (S : gmap string schema) (T : tabs) (st : stmt) (args : list value) : Prop :=
  exists t l s, outcome_rows T st args = Some (t, l) /\ S !! t = Some s /\ keys_ok s l = false.

(** ** Drivers *)

(** Errors as the three drivers report them. *)
Inductive dberr :=
| MySQLError (Number : Z) (msg : string)
| PqError (Code msg : string)
| SqliteError (ExtendedCode : Z) (msg : string)
| DBError (msg : string).

Inductive Helper := mysqlHelper | postgresHelper | sqliteHelper.

Definition helper_Supports (h : Helper) (scheme : string) : bool :=
  match h with
  | mysqlHelper => streq scheme "mysql"
  | postgresHelper => streq scheme "postgres" || streq scheme "pgx"
  | sqliteHelper => streq scheme "sqlite3" || streq scheme "sqlite"
  end.

(** The first of the registered helpers that supports the driver. *)
Definition GetHelper (sqlHelpers : list Helper) (driverName : string) : option Helper :=
  find_first (fun h => helper_Supports h driverName) sqlHelpers.

Definition IsDuplicateKeyError (h : Helper) (e : dberr) : bool :=
  match h, e with
  | mysqlHelper, MySQLError n _ => n =? 1062
  | postgresHelper, PqError c _ => streq c "23505"
  | sqliteHelper, SqliteError c _ => (c =? 2067) || (c =? 1555)
  | _, _ => false
  end.

(** How each of them reports a violated key. *)
Definition duplicate_error (h : Helper) : dberr :=
  match h with
  | mysqlHelper => MySQLError 1062 "Duplicate entry"
  | postgresHelper => PqError "23505" "duplicate key value violates unique constraint"
  | sqliteHelper => SqliteError 2067 "UNIQUE constraint failed"
  end.

Definition dberr_msg (e : dberr) : string :=
  match e with MySQLError _ m | PqError _ m | SqliteError _ m | DBError m => m end.

(** ** The engine *)

Class Engine (S : gmap string schema) (DB : Type) := {
  eng_helper : Helper;
  (** what other connections see, and what this one sees *)
  committed : DB -> tabs;
  current : DB -> tabs;
  in_tx : DB -> bool;
  (** statements may fail for other reasons than what they say *)
  broken : DB -> bool;
  db_query : DB -> select -> list value -> DB * outcome dberr (list record * option dberr);
  db_exec : DB -> stmt -> list value -> DB * outcome dberr Z;
  db_begin : DB -> DB * option dberr;
  db_commit : DB -> DB * option dberr;
  db_rollback : DB -> DB;
  no_tx db : in_tx db = false -> committed db = current db;
  (** the answers, or the first of them and an error *)
  query_law db q args db' r : db_query db q args = (db', r) ->
    committed db' = committed db /\ current db' = current db /\ in_tx db' = in_tx db /\ r <> Panic /\
    (forall rows e, r = Ok (rows, e) -> runnable S (SSelect q) args = true /\
       exists l, selected (current db) q args l /\ rows `prefix_of` l /\ (e = None -> rows = l)) /\
    (broken db = false -> broken db' = false /\ (runnable S (SSelect q) args = true -> exists rows, r = Ok (rows, None)));
  exec_law db st args db' r : db_exec db st args = (db', r) ->
    in_tx db' = in_tx db /\ r <> Panic /\ (in_tx db = true -> committed db' = committed db) /\
    (forall n, r = Ok n -> runnable S st args = true /\ executes S (current db) st args (current db') n) /\
    (forall e, r = Err e -> current db' = current db /\ (IsDuplicateKeyError eng_helper e = true -> violates S (current db) st args)) /\
    (broken db = false -> broken db' = false /\
       (runnable S st args = true -> (forall q, st <> SSelect q) -> (exists n, r = Ok n) \/ exists e, r = Err e /\ IsDuplicateKeyError eng_helper e = true));
  begin_law db db' r : db_begin db = (db', r) -> in_tx db = false ->
    committed db' = committed db /\ current db' = committed db /\ in_tx db' = bool_decide (r = None) /\
    (broken db = false -> broken db' = false /\ r = None);
  (** a commit that fails may have been done *)
  commit_law db db' r : db_commit db = (db', r) -> in_tx db = true ->
    in_tx db' = false /\ (r = None -> committed db' = current db) /\
    (committed db' = committed db \/ committed db' = current db) /\ (broken db = false -> broken db' = false /\ r = None);
  rollback_law db : in_tx (db_rollback db) = false /\ committed (db_rollback db) = committed db /\
    broken (db_rollback db) = broken db
}.

(** ** An engine in memory, which never fails *)

Record rel := MkRel { r_committed : tabs; r_work : option tabs }.
Definition r_current (db : rel) : tabs := default (r_committed db) (r_work db).
Definition r_put (db : rel) (T : tabs) : rel :=
  match r_work db with Some _ => MkRel (r_committed db) (Some T) | None => MkRel T None end.

Definition answers (T : tabs) (q : select) (args : list value) : list record :=
  let l := (if sel_distinct q then remove_dups else id)
             (project (sel_cols q) <$> base.filter (fun r => where_ok (sel_where q) args r = true) (rows_of T (sel_table q))) in
  let all := match sel_order q with Some c => foldr (insert_by (fun r => text_of (col r c))) [] l | None => l end in
  if sel_limit q then match args !! length (sel_where q) with Some (VInt n) => take (Z.to_nat n) all | _ => [] end else all.

Definition rel_exec (S : gmap string schema) (h : Helper) (db : rel) (st : stmt) (args : list value) : rel * outcome dberr Z :=
  match outcome_rows (r_current db) st args with
  | Some (t, l) =>
      if negb (runnable S st args) then (db, Err (DBError "syntax error"))
      else if match S !! t with Some s => keys_ok s l | None => true end
      then (r_put db (<[t := l]> (r_current db)),
            Ok (Z.of_nat (length (rows_of (r_current db) t)) - Z.of_nat (length l)))
      else (db, Err (duplicate_error h))
  | None => (db, Err (DBError "not a change"))
  end.

Definition rel_query (S : gmap string schema) (db : rel) (q : select) (args : list value) : rel * outcome dberr (list record * option dberr) :=
  (db, if runnable S (SSelect q) args then Ok (answers (r_current db) q args, None) else Err (DBError "no such column")).

Lemma answers_selected T q args : selected T q args (answers T q args).
Proof.
  unfold selected, answers. set (l := (if sel_distinct q then remove_dups else id) _).
  exists (match sel_order q with Some c => foldr (insert_by (fun r => text_of (col r c))) [] l | None => l end). split_and!.
  - destruct (sel_order q) as [c|]; [|done]. clearbody l. induction l as [|r l IH]; [done|]. cbn [foldr]. by rewrite insert_by_perm, <- IH.
  - intros c Hc. rewrite Hc. clearbody l. induction l as [|r l IH]; [constructor|]. cbn [foldr]. by apply insert_by_sorted.
  - done.
Qed.

Lemma filter_lengths {A} (b : A -> bool) l :
  Z.of_nat (length (base.filter (fun x => b x = true) l)) = Z.of_nat (length l) - Z.of_nat (length (base.filter (fun x => b x = false) l)).
Proof.
  induction l as [|x l IH]; [done|]. rewrite !filter_cons. destruct (b x); do 2 (case_decide; try done); cbn [length]; lia.
Qed.

Lemma rel_exec_law S h db st args db' r : rel_exec S h db st args = (db', r) ->
  bool_decide (is_Some (r_work db')) = bool_decide (is_Some (r_work db)) /\ r <> Panic /\
  (is_Some (r_work db) -> r_committed db' = r_committed db) /\
  (forall n, r = Ok n -> runnable S st args = true /\ executes S (r_current db) st args (r_current db') n) /\
  (forall e, r = Err e -> r_current db' = r_current db /\ (IsDuplicateKeyError h e = true -> violates S (r_current db) st args)) /\
  (runnable S st args = true -> (forall q, st <> SSelect q) -> (exists n, r = Ok n) \/ exists e, r = Err e /\ IsDuplicateKeyError h e = true).
Proof.
  unfold rel_exec. destruct (outcome_rows (r_current db) st args) as [[t l]|] eqn:Eo; [|intros [= <- <-]; split_and!; try done].
  - destruct (runnable S st args) eqn:Er; cbn [negb]; [|intros [= <- <-]; split_and!; try done].
    + destruct (match S !! t with Some s => keys_ok s l | None => true end) eqn:Ek; intros [= <- <-]; split_and!; try done.
      * unfold r_put. by destruct (r_work db).
      * unfold r_put. intros [w Hw]. by rewrite Hw.
      * intros n [= <-]. split; [done|]. exists t, l, l. split_and!; try done.
        -- intros s Hs. by rewrite Hs in Ek.
        -- unfold r_put, r_current. by destruct (r_work db).
        -- destruct st as [q|t' w|t' cs|t' set w]; try done. cbn in Eo |- *. injection Eo as <- <-. symmetry. apply filter_lengths.
      * intros _ _. left. by eexists.
      * intros e [= <-]. split; [done|]. intros _. destruct (S !! t) as [s|] eqn:Es; [|done]. by exists t, l, s.
      * intros _ _. right. exists (duplicate_error h). split; [done|]. by destruct h.
    + intros e [= <-]. split; [done|]. by destruct h.
  - intros e [= <-]. split; [done|]. by destruct h.
  - intros _ Hq. by destruct st as [q|?|?|?]; [destruct (Hq q)|..].
Qed.

Lemma rel_query_law S db q args db' r : rel_query S db q args = (db', r) ->
  r_committed db' = r_committed db /\ r_current db' = r_current db /\
  bool_decide (is_Some (r_work db')) = bool_decide (is_Some (r_work db)) /\ r <> Panic /\
  (forall rows e, r = Ok (rows, e) -> runnable S (SSelect q) args = true /\
     exists l, selected (r_current db) q args l /\ rows `prefix_of` l /\ (e = None -> rows = l)) /\
  (false = false -> false = false /\ (runnable S (SSelect q) args = true -> exists rows, r = Ok (rows, None))).
Proof.
  unfold rel_query. destruct (runnable S (SSelect q) args); intros [= <- <-]; do 4 (split; [done|]).
  - split; [|intros _; split; [done|]; intros _; by eexists]. intros rows e [= <- <-]. split; [done|]. eexists. split; [apply answers_selected|by split].
  - split; [done|]. intros _. by split.
Qed.

#[refine] Definition Rel (S : gmap string schema) (h : Helper) : Engine S rel := {|
  eng_helper := h;
  committed := r_committed;
  current := r_current;
  in_tx := fun db => bool_decide (is_Some (r_work db));
  broken := fun _ => false;
  db_query := rel_query S;
  db_exec := rel_exec S h;
  db_begin := fun db => (MkRel (r_committed db) (Some (r_committed db)), None);
  db_commit := fun db => (MkRel (r_current db) None, None);
  db_rollback := fun db => MkRel (r_committed db) None
|}.
Proof.
  - intros db H. unfold r_current. destruct (r_work db); [by rewrite bool_decide_eq_true_2 in H|done].
  - intros db q args db' r H. by apply rel_query_law.
  - intros db st args db' r H. destruct (rel_exec_law S h db st args db' r H) as (? & ? & Hc & ? & ? & ?). split_and!; try done.
    intros Ht. apply Hc. by eapply bool_decide_eq_true_1.
  - intros db db' r [= <- <-] _. by split_and!.
  - intros db db' r [= <- <-] _. split_and!; try done. by right.
  - done.
Defined.
