(* ===== verification/SqlStore.v ===== *)
(** * The SQL store (src/api/datastore/sql/sql.go, models/config.go, annotations.go, common/time.go)

    The store that keeps applications, functions and triggers in a database:
    its statements, with the texts the code sends, over any engine of [Sql]; how a
    resource is written to a row and read back; transactions.  What it does is stated
    in [SqlRefine] and proved in [SqlOps]. *)
From S2P Require Import Prelude Errors Annotations Models GoStrings Base64 Datastore Sql.

(** ** Tables *)

Definition tables : list string := [
"CREATE TABLE IF NOT EXISTS apps (
	id varchar(256) NOT NULL PRIMARY KEY,
	name varchar(256) NOT NULL UNIQUE,
	config text NOT NULL,
	annotations text NOT NULL,
	syslog_url text,
	created_at varchar(256),
	updated_at varchar(256)
);";
"CREATE TABLE IF NOT EXISTS triggers (
	id varchar(256) NOT NULL PRIMARY KEY,
	name varchar(256) NOT NULL,
	app_id varchar(256) NOT NULL,
	fn_id varchar(256) NOT NULL,
	created_at varchar(256) NOT NULL,
	updated_at varchar(256) NOT NULL,
	type varchar(256) NOT NULL,
	source varchar(256) NOT NULL,
    annotations text NOT NULL,
    CONSTRAINT name_app_id_fn_id_unique UNIQUE (app_id, fn_id, name)
);";
"CREATE TABLE IF NOT EXISTS fns (
	id varchar(256) NOT NULL PRIMARY KEY,
	name varchar(256) NOT NULL,
	app_id varchar(256) NOT NULL,
	image varchar(256) NOT NULL,
	memory int NOT NULL,
	timeout int NOT NULL,
	idle_timeout int NOT NULL,
	config text NOT NULL,
	annotations text NOT NULL,
	created_at varchar(256) NOT NULL,
	updated_at varchar(256) NOT NULL,
    CONSTRAINT name_app_id_unique UNIQUE (app_id, name)
);"]%string.

Definition sql_schema : gmap string schema := list_to_map (omap parse_table tables).

Definition appIDSelector : string := "SELECT id, name, config, annotations, syslog_url, created_at, updated_at FROM apps WHERE id=?".
Definition ensureAppSelector : string := "SELECT id FROM apps WHERE name=?".
Definition fnSelector : string := "SELECT id,name,app_id,image,memory,timeout,idle_timeout,config,annotations,created_at,updated_at FROM fns".
Definition fnIDSelector : string := fnSelector ++ " WHERE id=?".
Definition triggerSelector : string := "SELECT id,name,app_id,fn_id,type,source,annotations,created_at,updated_at FROM triggers".
Definition triggerIDSelector : string := triggerSelector ++ " WHERE id=?".
Definition triggerIDSourceSelector : string := triggerSelector ++ " WHERE app_id=? AND type=? AND source=?".

(** ** Values of columns *)

Definition RFC3339Millis : string := "2006-01-02T15:04:05.000Z07:00".
Definition RFC3339Micro : string := "2006-01-02T15:04:05.000000Z07:00".
Definition time_RFC3339 : string := "2006-01-02T15:04:05Z07:00".
Definition time_RFC3339Nano : string := "2006-01-02T15:04:05.999999999Z07:00".
Definition dateTimeFormats : list string := [RFC3339Micro; RFC3339Millis; time_RFC3339; time_RFC3339Nano].
Definition MarshalFormat : string := RFC3339Millis.

(** Instants are nanoseconds since the zero time; the first one past the year 9999,
    and the Unix epoch. *)
Definition year_10000 : Z := 315537897600000000000.
Definition unix_epoch : Z := 62135596800000000000.
Definition trunc_ms (t : Z) : Z := t / 1000000 * 1000000.

(** [encoding/json] of the two kinds of maps, which replaces what is not UTF-8, and
    [time.Format] and [time.Parse] of the layouts above. *)
Class StoreText := {
  config_json : gmap string string -> string;
  config_parse : string -> outcome gerr Config;
  config_utf8 : gmap string string -> gmap string string;
  ann_json : gmap string avalue -> outcome gerr string;
  ann_parse : string -> outcome gerr Annotations;
  ann_utf8 : gmap string avalue -> gmap string avalue;
  time_Format : string -> Z -> string;
  time_Parse : string -> string -> outcome gerr Z;
  config_read m : config_json m <> ""%string /\ config_parse (config_json m) = Ok (Some (config_utf8 m));
  config_utf8_ok m : config_utf8 (config_utf8 m) = config_utf8 m /\ (config_utf8 m = ∅ -> m = ∅);
  ann_read m t : ann_json m = Ok t -> t <> ""%string /\ ann_parse t = Ok (Some (ann_utf8 m));
  ann_utf8_ok m : ann_utf8 (ann_utf8 m) = ann_utf8 m /\ (ann_utf8 m = ∅ -> m = ∅);
  ann_no_panic m : ann_json m <> Panic;
  time_read t : 0 <= t < year_10000 -> time_Format RFC3339Millis t <> ""%string /\
    time_Parse RFC3339Millis (time_Format RFC3339Millis t) = Ok (trunc_ms t) /\
    (exists e, time_Parse RFC3339Micro (time_Format RFC3339Millis t) = Err e) /\
    time_Format RFC3339Millis (trunc_ms t) = time_Format RFC3339Millis t
}.

Section Values.
Context {ST : StoreText}.

Definition Config_Value (c : Config) : value := VText (if Nat.ltb (size (entries c)) 1 then "" else config_json (entries c)).
Definition Config_Scan (v : value) : outcome gerr Config :=
  let text s := if streq s "" then Ok None else config_parse s in
  match v with VNull => Ok None | VText s => text s | VInt n => text (FormatInt n) end.

Definition Annotations_Value (m : Annotations) : outcome gerr value :=
  if Nat.ltb (size (entries m)) 1 then Ok (VText "") else let! s := ann_json (entries m) in Ok (VText s).
Definition Annotations_Scan (v : value) : outcome gerr Annotations :=
  let text s := if streq s "" then Ok None else ann_parse s in
  match v with VNull => Ok None | VText s => text s | VInt n => text (FormatInt n) end.

Fixpoint parse_layouts (l : list string) (data : string) (lastError : gerr) : outcome gerr Z :=
  match l with
  | [] => Err lastError
  | layout :: l => match time_Parse layout data with Ok t => Ok t | Err e => parse_layouts l data e | Panic => Panic end
  end.
Definition ParseDateTime (data : string) : outcome gerr Z :=
  if streq data "" then Ok unix_epoch else parse_layouts dateTimeFormats data (EPlain "").
Definition DateTime_String (t : Z) : string := time_Format MarshalFormat t.
Definition DateTime_Value (t : Z) : value := VText (DateTime_String t).
Definition DateTime_Scan (v : value) : outcome gerr Z :=
  match v with
  | VText s => ParseDateTime s
  | VNull => Ok 0
  | VInt _ => Err (EPlain "cannot sql.Scan() common.DateTime")
  end.

(** [database/sql] into strings, numbers and pointers to strings; [addr] is the
    address of a string that was read. *)
Context (addr : nat).
Definition scan_string (v : value) : outcome gerr string :=
  match v with
  | VText s => Ok s
  | VInt n => Ok (FormatInt n)
  | VNull => Err (EPlain "converting NULL to string is unsupported")
  end.
Definition scan_int (lo hi : Z) (v : value) : outcome gerr Z :=
  let range n := guard! (lo <=? n) && (n <=? hi) else EPlain "value out of range" in Ok n in
  match v with
  | VInt n => range n
  | VText s => match ParseInt s with Some n => range n | None => Err (EPlain "invalid syntax") end
  | VNull => Err (EPlain "converting NULL to int is unsupported")
  end.
Definition scan_pointer (v : value) : outcome gerr (option strptr) :=
  match v with VNull => Ok None | v => let! s := scan_string v in Ok (Some (addr, s)) end.

(** A field that no column has keeps its zero value. *)
Definition field {A} (scan : value -> outcome gerr A) (zero : A) (r : record) (c : string) : outcome gerr A :=
  match col r c with Some v => scan v | None => Ok zero end.
Definition dest_ok (fields : list string) (r : record) : bool := forallb (fun p => bool_decide (p.1 ∈ fields)) r.
Definition missing_name : gerr := EPlain "missing destination name".

(** The tags of the structs. *)
Definition app_fields : list string := ["id"; "name"; "config"; "annotations"; "syslog_url"; "created_at"; "updated_at"]%string.
Definition fn_fields : list string :=
  ["id"; "name"; "app_id"; "image"; "config"; "annotations"; "created_at"; "updated_at"; "memory"; "timeout"; "idle_timeout"]%string.
Definition trigger_fields : list string :=
  ["id"; "name"; "app_id"; "fn_id"; "created_at"; "updated_at"; "type"; "source"; "annotations"]%string.

Definition app_record (a : App) : outcome gerr record :=
  let! ann := Annotations_Value (app_Annotations a) in
  Ok [("id", VText (app_ID a)); ("name", VText (app_Name a)); ("config", Config_Value (app_Config a)); ("annotations", ann);
      ("syslog_url", match app_SyslogURL a with Some p => VText p.2 | None => VNull end);
      ("created_at", DateTime_Value (app_CreatedAt a)); ("updated_at", DateTime_Value (app_UpdatedAt a))]%string.
Definition fn_record (f : Fn) : outcome gerr record :=
  let! ann := Annotations_Value (fn_Annotations f) in
  guard! fn_Memory f <? 9223372036854775808 else EPlain "uint64 values with high bit set are not supported" in
  Ok [("id", VText (fn_ID f)); ("name", VText (fn_Name f)); ("app_id", VText (fn_AppID f)); ("image", VText (fn_Image f));
      ("config", Config_Value (fn_Config f)); ("annotations", ann);
      ("created_at", DateTime_Value (fn_CreatedAt f)); ("updated_at", DateTime_Value (fn_UpdatedAt f));
      ("memory", VInt (fn_Memory f)); ("timeout", VInt (fn_Timeout f)); ("idle_timeout", VInt (fn_IdleTimeout f))]%string.
Definition trigger_record (t : Trigger) : outcome gerr record :=
  let! ann := Annotations_Value (tr_Annotations t) in
  Ok [("id", VText (tr_ID t)); ("name", VText (tr_Name t)); ("app_id", VText (tr_AppID t)); ("fn_id", VText (tr_FnID t));
      ("created_at", DateTime_Value (tr_CreatedAt t)); ("updated_at", DateTime_Value (tr_UpdatedAt t));
      ("type", VText (tr_Type t)); ("source", VText (tr_Source t)); ("annotations", ann)]%string.

Definition scan_app (r : record) : outcome gerr App :=
  guard! dest_ok app_fields r else missing_name in
  let! i := field scan_string "" r "id" in let! n := field scan_string "" r "name" in
  let! c := field Config_Scan None r "config" in let! an := field Annotations_Scan None r "annotations" in
  let! sl := field scan_pointer None r "syslog_url" in
  let! cr := field DateTime_Scan 0 r "created_at" in let! up := field DateTime_Scan 0 r "updated_at" in
  Ok (MkApp i n c an sl cr up).
Definition scan_fn (r : record) : outcome gerr Fn :=
  guard! dest_ok fn_fields r else missing_name in
  let! i := field scan_string "" r "id" in let! n := field scan_string "" r "name" in
  let! ai := field scan_string "" r "app_id" in let! im := field scan_string "" r "image" in
  let! me := field (scan_int 0 (w64 - 1)) 0 r "memory" in
  let! ti := field (scan_int (- 2147483648) 2147483647) 0 r "timeout" in
  let! it := field (scan_int (- 2147483648) 2147483647) 0 r "idle_timeout" in
  let! c := field Config_Scan None r "config" in let! an := field Annotations_Scan None r "annotations" in
  let! cr := field DateTime_Scan 0 r "created_at" in let! up := field DateTime_Scan 0 r "updated_at" in
  Ok (MkFn i n ai im me ti it c an cr up).
Definition scan_trigger (r : record) : outcome gerr Trigger :=
  guard! dest_ok trigger_fields r else missing_name in
  let! i := field scan_string "" r "id" in let! n := field scan_string "" r "name" in
  let! ai := field scan_string "" r "app_id" in let! fi := field scan_string "" r "fn_id" in
  let! ty := field scan_string "" r "type" in let! so := field scan_string "" r "source" in
  let! an := field Annotations_Scan None r "annotations" in
  let! cr := field DateTime_Scan 0 r "created_at" in let! up := field DateTime_Scan 0 r "updated_at" in
  Ok (MkTrigger i n ai fi cr up ty so an).
End Values.

(** ** Statements and transactions *)

(** The errors that meet inside a transaction. *)
Inductive serr := SGo (e : gerr) | SDb (e : dberr) | SNoRows.
Definition gerr_of (e : serr) : gerr :=
  match e with SGo e => e | SDb e => EPlain (dberr_msg e) | SNoRows => EPlain "sql: no rows in result set" end.
Definition final {A} (r : outcome serr A) : outcome gerr A :=
  match r with Ok a => Ok a | Err e => Err (gerr_of e) | Panic => Panic end.
Definition lift {A} (r : outcome gerr A) : outcome serr A :=
  match r with Ok a => Ok a | Err e => Err (SGo e) | Panic => Panic end.

Section Statements.
Context {DB : Type} `{Engine sql_schema DB}.

Abbreviation tx A := (DB -> DB * outcome serr A).
Definition ret {A} (r : outcome serr A) : tx A := fun db => (db, r).
Definition bind {A B} (m : tx A) (k : outcome serr A -> tx B) : tx B := fun db => let (db, r) := m db in k r db.
(** The error is returned at once. *)
Definition then_ {A B} (m : tx A) (k : A -> tx B) : tx B :=
  bind m (fun r => match r with Ok a => k a | Err e => ret (Err e) | Panic => ret Panic end).

Definition syntax_error : dberr := DBError "syntax error".

Definition Query (text : string) (args : list value) : tx (list record * option dberr) := fun db =>
  match parse text with
  | Some (SSelect q) => let (db, r) := db_query db q args in
      (db, match r with Ok a => Ok a | Err e => Err (SDb e) | Panic => Panic end)
  | _ => (db, Err (SDb syntax_error))
  end.

(** [QueryRow(..).StructScan]: the first row. *)
Definition QueryRow {A} (scan : record -> outcome gerr A) (text : string) (args : list value) : tx A :=
  then_ (Query text args) (fun p => ret
    match p with
    | (r :: _, _) => lift (scan r)
    | ([], Some e) => Err (SDb e)
    | ([], None) => Err SNoRows
    end).

Definition Exec (text : string) (args : list value) : tx Z := fun db =>
  match parse text with
  | Some st => let (db, r) := db_exec db st args in
      (db, match r with Ok n => Ok n | Err e => Err (SDb e) | Panic => Panic end)
  | None => (db, Err (SDb syntax_error))
  end.

(** [NamedExec]: the placeholders name fields of a struct. *)
Definition NamedExec (text : string) (fields : outcome gerr record) : tx Z :=
  match fields with
  | Ok r => match mapM (col r) (named_params text) with
            | Some args => Exec text args
            | None => ret (Err (SGo (EPlain "could not find name")))
            end
  | Err e => ret (Err (SGo e))
  | Panic => ret Panic
  end.

(** [Tx] *)
Definition Tx {A} (f : tx A) : tx A := fun db =>
  let (db, err) := db_begin db in
  match err with
  | Some e => (db, Err (SDb e))
  | None =>
      let (db, r) := f db in
      match r with
      | Ok a => let (db, err) := db_commit db in (db, match err with Some e => Err (SDb e) | None => Ok a end)
      | Err e => (db_rollback db, Err e)
      | Panic => (db, Panic)
      end
  end.

Definition outcome_of {A} (m : tx A) (db : DB) : dres DB A := let (db, r) := m db in (db, final r).
Definition duplicate (e : serr) : bool := match e with SDb e => IsDuplicateKeyError eng_helper e | _ => false end.
(** [IsDuplicateKeyError(err)] answered with another error. *)
Definition or_exists {A} (v : errvar) (r : outcome serr A) : outcome serr A :=
  match r with Err e => if duplicate e then Err (SGo (EVar v)) else Err e | r => r end.
Definition if_none {A} (v : errvar) (r : outcome serr A) : outcome serr A :=
  match r with Err SNoRows => Err (SGo (EVar v)) | r => r end.
Definition mapped {A B} (g : outcome serr A -> outcome serr B) (m : tx A) : tx B := bind m (fun r => ret (g r)).
Definition check (r : outcome gerr unit) : tx unit := ret (lift r).
End Statements.

(** ** The store *)

Section Store.
Context {MR : MapRange} {U : UnicodeTables} {ST : StoreText}.
Context {DB : Type} `{Engine sql_schema DB}.
Context (url_scheme : string -> outcome string string) (lim : Limits) (addr : nat).

Abbreviation tx A := (DB -> DB * outcome serr A).

Definition sql_GetAppID (db : DB) (appName : string) : dres DB string :=
  outcome_of (mapped (if_none ErrAppsNotFound)
    (then_ (QueryRow (scan_app addr) ensureAppSelector [VText appName]) (fun a => ret (Ok (app_ID a))))) db.

Definition insert_app : string := "INSERT INTO apps (
		id,
		name,
		config,
		annotations,
		syslog_url,
		created_at,
		updated_at
	)
	VALUES (
		:id,
		:name,
		:config,
		:annotations,
		:syslog_url,
		:created_at,
		:updated_at
	);".

Definition sql_InsertApp (db : DB) (now : Z) (new_id : string) (newApp : option App) : dres DB App :=
  match newApp with
  | None => (db, Panic)
  | Some newApp =>
      let app := App_Clone newApp in
      let cfg := match app_Config app with None => Some ∅ | c => c end in
      let app := MkApp new_id (app_Name app) cfg (app_Annotations app) (app_SyslogURL app) now now in
      outcome_of (mapped (or_exists ErrAppsAlreadyExists)
        (then_ (NamedExec insert_app (app_record app)) (fun _ => ret (Ok app)))) db
  end.

Definition update_app : string :=
  "UPDATE apps SET config=:config, annotations=:annotations, syslog_url=:syslog_url, updated_at=:updated_at WHERE name=:name".

Definition sql_UpdateApp (db : DB) (now : Z) (newapp : option App) : dres DB App :=
  match newapp with
  | None => (db, Panic)
  | Some newapp =>
      outcome_of (Tx
        (then_ (mapped (if_none ErrAppsNotFound) (QueryRow (scan_app addr) appIDSelector [VText (app_ID newapp)])) (fun app =>
         if negb (streq (app_Name newapp) "") && negb (streq (app_Name app) (app_Name newapp))
         then ret (Err (SGo (EVar ErrAppsNameImmutable)))
         else then_ (ret (lift (App_Update app newapp now))) (fun app =>
              then_ (check (App_Validate url_scheme app)) (fun _ =>
              then_ (NamedExec update_app (app_record app)) (fun _ => ret (Ok app))))))) db
  end.

(** The statements of a list, one after the other. *)
Fixpoint exec_all (l : list string) (args : list value) : tx unit :=
  match l with
  | [] => ret (Ok tt)
  | s :: l => then_ (Exec s args) (fun _ => exec_all l args)
  end.

Definition sql_RemoveApp (db : DB) (appID : string) : dres DB unit :=
  outcome_of (Tx
    (then_ (Exec "DELETE FROM apps WHERE id=?" [VText appID]) (fun n =>
     if n =? 0 then ret (Err (SGo (EVar ErrAppsNotFound)))
     else exec_all ["DELETE FROM fns WHERE app_id=?"; "DELETE FROM triggers WHERE app_id=?"]%string [VText appID]))) db.

(** [clear], which the tests use. *)
Definition sql_clear (db : DB) : dres DB unit :=
  outcome_of (Tx (exec_all ["DELETE FROM apps"; "DELETE FROM triggers"; "DELETE FROM fns"]%string [])) db.

Definition sql_GetAppByID (db : DB) (appID : string) : dres DB App :=
  outcome_of (mapped (if_none ErrAppsNotFound) (QueryRow (scan_app addr) appIDSelector [VText appID])) db.

(** [where]: the text and the arguments so far, a condition, its value. *)
Definition where_ (b : string * list value) (colOp val : string) : string * list value :=
  if streq val "" then b
  else ((b.1 ++ (if Nat.eqb (length (b.2 ++ [VText val])) 1 then "WHERE " else " AND ") ++ colOp)%string, b.2 ++ [VText val]).

(** The bytes of a cursor. *)
Definition cursor_of (c : string) : outcome gerr string := if streq c "" then Ok ""%string else DecodeString c.

Definition buildFilterAppQuery (f : AppFilter) : outcome gerr (string * list value) :=
  let b := (""%string, []) in
  let! s := cursor_of (af_Cursor f) in
  let b := if streq (af_Cursor f) "" then b else where_ b "name>?" s in
  let b := where_ b "name=?" (af_Name f) in
  Ok ((b.1 ++ " ORDER BY name ASC" ++ " LIMIT ?")%string, b.2 ++ [VInt (af_PerPage f)]).

Definition buildFilterFnQuery (f : FnFilter) : outcome gerr (string * list value) :=
  let b := where_ (""%string, []) "app_id=? " (ff_AppID f) in
  let! s := cursor_of (ff_Cursor f) in
  let b := if streq (ff_Cursor f) "" then b else where_ b "name>?" s in
  let b := where_ b "name=?" (ff_Name f) in
  let b := ((b.1 ++ " ORDER BY name ASC")%string, b.2) in
  Ok (if 0 <? ff_PerPage f then ((b.1 ++ " LIMIT ?")%string, b.2 ++ [VInt (ff_PerPage f)]) else b).

Definition buildFilterTriggerQuery (f : TriggerFilter) : outcome gerr (string * list value) :=
  let b := ("app_id = ?"%string, [VText (tf_AppID f)]) in
  let b := if streq (tf_FnID f) "" then b else ((b.1 ++ " AND fn_id = ?")%string, b.2 ++ [VText (tf_FnID f)]) in
  let b := if streq (tf_Name f) "" then b else ((b.1 ++ " AND name = ?")%string, b.2 ++ [VText (tf_Name f)]) in
  let! s := cursor_of (tf_Cursor f) in
  let b := if streq (tf_Cursor f) "" then b else ((b.1 ++ " AND name > ?")%string, b.2 ++ [VText s]) in
  let b := ((b.1 ++ " ORDER BY name ASC")%string, b.2) in
  Ok (if 0 <? tf_PerPage f then ((b.1 ++ " LIMIT ?")%string, b.2 ++ [VInt (tf_PerPage f)]) else b).

(** The loops over rows: [GetApps] stops at a row it cannot read, the others go on
    without it. *)
Fixpoint scan_all {A} (scan : record -> outcome gerr A) (l : list record) : outcome gerr (list A) :=
  match l with
  | [] => Ok []
  | r :: l => let! x := scan r in let! xs := scan_all scan l in Ok (x :: xs)
  end.
Definition scan_some {A} (scan : record -> outcome gerr A) (l : list record) : list A :=
  omap (fun r => match scan r with Ok x => Some x | _ => None end) l.

Definition sql_GetApps (db : DB) (f : AppFilter) : dres DB (page App) :=
  match buildFilterAppQuery f with
  | Ok (q, args) =>
      outcome_of (then_ (Query ("SELECT DISTINCT id, name, config, annotations, syslog_url, created_at, updated_at FROM apps " ++ q) args) (fun p =>
        then_ (ret (lift (scan_all (scan_app addr) p.1))) (fun l =>
        ret (match p.2 with Some e => Err (SDb e) | None => Ok (page_of app_Name (af_PerPage f) l) end)))) db
  | Err e => (db, Err e)
  | Panic => (db, Panic)
  end.

(** An error that ends the rows is not returned. *)
Definition sql_GetFns (db : DB) (f : FnFilter) : dres DB (page Fn) :=
  match buildFilterFnQuery f with
  | Ok (q, args) =>
      outcome_of (then_ (Query (fnSelector ++ " " ++ q) args) (fun p => ret (Ok (page_of fn_Name (ff_PerPage f) (scan_some scan_fn p.1))))) db
  | Err e => (db, Err e)
  | Panic => (db, Panic)
  end.

Definition sql_GetTriggers (db : DB) (f : TriggerFilter) : dres DB (page Trigger) :=
  match buildFilterTriggerQuery f with
  | Ok (q, args) =>
      outcome_of (then_ (Query (triggerSelector ++ " WHERE " ++ q) args) (fun p =>
        ret (match p.2 with Some e => Err (SDb e) | None => Ok (page_of tr_Name (tf_PerPage f) (scan_some scan_trigger p.1)) end))) db
  | Err e => (db, Err e)
  | Panic => (db, Panic)
  end.

Definition insert_fn : string := "INSERT INTO fns (
				id,
				name,
				app_id,
				image,
				memory,
				timeout,
				idle_timeout,
				config,
				annotations,
				created_at,
				updated_at
			)
			VALUES (
				:id,
				:name,
				:app_id,
				:image,
				:memory,
				:timeout,
				:idle_timeout,
				:config,
				:annotations,
				:created_at,
				:updated_at
			);".

(** [Scan(new(int))] *)
Definition scan_one_int (r : record) : outcome gerr Z :=
  match r with [(_, v)] => scan_int (- 9223372036854775808) 9223372036854775807 v | _ => Err (EPlain "expected 1 destination argument") end.

(** Only a missing row stops it: any other error of the first query is dropped. *)
Definition sql_InsertFn (db : DB) (now : Z) (new_id : string) (newFn : option Fn) : dres DB Fn :=
  match newFn with
  | None => (db, Panic)
  | Some newFn =>
      let fn := Fn_Clone newFn in
      let fn := MkFn new_id (fn_Name fn) (fn_AppID fn) (fn_Image fn) (fn_Memory fn) (fn_Timeout fn) (fn_IdleTimeout fn)
                  (fn_Config fn) (fn_Annotations fn) now now in
      match Fn_Validate lim newFn with
      | Ok _ =>
          outcome_of (mapped (or_exists ErrFnsExists) (Tx
            (bind (QueryRow scan_one_int "SELECT 1 FROM apps WHERE id=?" [VText (fn_AppID fn)]) (fun r =>
             match r with
             | Err SNoRows => ret (Err (SGo (EVar ErrAppsNotFound)))
             | Panic => ret Panic
             | _ => then_ (NamedExec insert_fn (fn_record fn)) (fun _ => ret (Ok fn))
             end)))) db
      | Err e => (db, Err e)
      | Panic => (db, Panic)
      end
  end.

Definition update_fn : string := "UPDATE fns SET
				name = :name,
				image = :image,
				memory = :memory,
				timeout = :timeout,
				idle_timeout = :idle_timeout,
				config = :config,
				annotations = :annotations,
				updated_at = :updated_at
			    WHERE id=:id;".

Definition sql_UpdateFn (db : DB) (now : Z) (fn : option Fn) : dres DB Fn :=
  match fn with
  | None => (db, Panic)
  | Some fn =>
      outcome_of (Tx
        (then_ (mapped (if_none ErrFnsNotFound) (QueryRow scan_fn fnIDSelector [VText (fn_ID fn)])) (fun dst =>
         then_ (ret (lift (Fn_Update dst fn now))) (fun dst =>
         then_ (check (Fn_Validate lim dst)) (fun _ =>
         then_ (NamedExec update_fn (fn_record dst)) (fun _ => ret (Ok dst))))))) db
  end.

Definition sql_GetFnByID (db : DB) (fnID : string) : dres DB Fn :=
  outcome_of (mapped (if_none ErrFnsNotFound) (QueryRow scan_fn (fnSelector ++ " WHERE id=?") [VText fnID])) db.

(** Here too only a missing row stops it. *)
Definition sql_RemoveFn (db : DB) (fnID : string) : dres DB unit :=
  outcome_of (Tx
    (bind (QueryRow scan_fn (fnSelector ++ " WHERE id=?") [VText fnID]) (fun r =>
     match r with
     | Err SNoRows => ret (Err (SGo (EVar ErrFnsNotFound)))
     | Panic => ret Panic
     | _ => exec_all ["DELETE FROM triggers WHERE fn_id=?"; "DELETE FROM fns WHERE id=?"]%string [VText fnID]
     end))) db.

Definition insert_trigger : string := "INSERT INTO triggers (
			id,
			name,
		  	app_id,
			fn_id,
			created_at,
			updated_at,
			type,
		  	source,
		  	annotations
		)
		VALUES (
			:id,
			:name,
			:app_id,
			:fn_id,
			:created_at,
			:updated_at,
			:type,
			:source,
			:annotations
		);".

Definition scan_one_string (r : record) : outcome gerr string :=
  match r with [(_, v)] => scan_string v | _ => Err (EPlain "expected 1 destination argument") end.

Definition sql_InsertTrigger (db : DB) (now : Z) (new_id : string) (newTrigger : option Trigger) : dres DB Trigger :=
  match newTrigger with
  | None => (db, Panic)
  | Some t =>
      let trigger := MkTrigger new_id (tr_Name t) (tr_AppID t) (tr_FnID t) now now (tr_Type t) (tr_Source t) (tr_Annotations t) in
      match Trigger_Validate trigger with
      | Ok _ =>
          outcome_of (mapped (or_exists ErrTriggerExists) (Tx
            (then_ (mapped (if_none ErrAppsNotFound) (QueryRow scan_one_int "SELECT 1 FROM apps WHERE id=?" [VText (tr_AppID trigger)])) (fun _ =>
             then_ (mapped (if_none ErrFnsNotFound) (QueryRow scan_one_string "SELECT app_id FROM fns WHERE id=?" [VText (tr_FnID trigger)])) (fun app_id =>
             if negb (streq app_id (tr_AppID trigger)) then ret (Err (SGo (EVar ErrTriggerFnIDNotSameApp)))
             else bind (QueryRow scan_one_int "SELECT 1 FROM triggers WHERE app_id=? AND type=? and source=?"
                          [VText (tr_AppID trigger); VText (tr_Type trigger); VText (tr_Source trigger)]) (fun r =>
                  match r with
                  | Ok _ => ret (Err (SGo (EVar ErrTriggerSourceExists)))
                  | Err SNoRows => then_ (NamedExec insert_trigger (trigger_record trigger)) (fun _ => ret (Ok trigger))
                  | Err e => ret (Err e)
                  | Panic => ret Panic
                  end)))))) db
      | Err e => (db, Err e)
      | Panic => (db, Panic)
      end
  end.

Definition update_trigger : string := "UPDATE triggers SET
			name = :name,
			fn_id = :fn_id,
			updated_at = :updated_at,
			source = :source,
			annotations = :annotations
			WHERE id = :id;".

Definition sql_UpdateTrigger (db : DB) (now : Z) (trigger : option Trigger) : dres DB Trigger :=
  match trigger with
  | None => (db, Panic)
  | Some trigger =>
      outcome_of (Tx
        (then_ (mapped (if_none ErrTriggerNotFound) (QueryRow scan_trigger triggerIDSelector [VText (tr_ID trigger)])) (fun dst =>
         then_ (ret (lift (Trigger_Update dst trigger now))) (fun dst =>
         then_ (check (Trigger_Validate dst)) (fun _ =>
         then_ (NamedExec update_trigger (trigger_record dst)) (fun _ => ret (Ok dst))))))) db
  end.

(** The selector is that of the functions. *)
Definition sql_GetTrigger (db : DB) (appId fnId triggerName : string) : dres DB Trigger :=
  outcome_of (mapped (if_none ErrTriggerNotFound)
    (QueryRow scan_trigger (fnSelector ++ " WHERE name=? AND app_id=? AND fn_id=?") [VText triggerName; VText appId; VText fnId])) db.

Definition sql_RemoveTrigger (db : DB) (triggerId : string) : dres DB unit :=
  outcome_of (then_ (Exec "DELETE FROM triggers WHERE id = ?;" [VText triggerId]) (fun n =>
    ret (if n =? 0 then Err (SGo (EVar ErrTriggerNotFound)) else Ok tt))) db.

Definition sql_GetTriggerByID (db : DB) (triggerID : string) : dres DB Trigger :=
  outcome_of (mapped (if_none ErrTriggerNotFound) (QueryRow scan_trigger triggerIDSelector [VText triggerID])) db.

Definition sql_GetTriggerBySource (db : DB) (appId triggerType source : string) : dres DB Trigger :=
  outcome_of (mapped (if_none ErrTriggerNotFound)
    (QueryRow scan_trigger triggerIDSourceSelector [VText appId; VText triggerType; VText source])) db.

Definition sql_Datastore : Datastore DB := {|
  ds_GetAppByID := sql_GetAppByID; ds_GetAppID := sql_GetAppID; ds_GetApps := sql_GetApps;
  ds_InsertApp := sql_InsertApp; ds_UpdateApp := sql_UpdateApp; ds_RemoveApp := sql_RemoveApp;
  ds_InsertFn := sql_InsertFn; ds_UpdateFn := sql_UpdateFn; ds_GetFns := sql_GetFns;
  ds_GetFnByID := sql_GetFnByID; ds_RemoveFn := sql_RemoveFn;
  ds_InsertTrigger := sql_InsertTrigger; ds_UpdateTrigger := sql_UpdateTrigger;
  ds_RemoveTrigger := sql_RemoveTrigger; ds_GetTriggerByID := sql_GetTriggerByID;
  ds_GetTriggers := sql_GetTriggers; ds_GetTriggerBySource := sql_GetTriggerBySource
|}.
End Store.
