(* ===== verification/SqlRefine.v ===== *)
(** * The SQL store implements maps (src/api/datastore/sql/sql.go)

    What the operations of [SqlStore] do on any engine of [Sql]: [sql_spec], in
    terms of maps from ids to resources.  The first part is about statements on one
    table; then come the encodings of rows, the three tables, the specification and
    transactions.  [SqlOps] goes through the operations. *)
From S2P Require Import Prelude Errors Annotations Models GoStrings Base64 Datastore Sql SqlStore.

#[local] Opaque parse runnable sql_schema.

(** ** Lists that correspond *)

Lemma Forall2_perm {A B} (P : A -> B -> Prop) l l' k : Forall2 P l k -> l ≡ₚ l' -> exists k', k ≡ₚ k' /\ Forall2 P l' k'.
Proof.
  intros HF HP. revert k HF. induction HP as [|x l l' _ IH|x y l|l1 l2 l3 _ IH1 _ IH2]; intros k HF.
  - by exists k.
  - inversion HF as [|? b ? k1 Hx Hk]; subst. destruct (IH _ Hk) as (k' & ? & ?). exists (b :: k'). split; [by constructor|by constructor].
  - inversion HF as [|? b ? k1 Hx Hk]; subst. inversion Hk as [|? c ? k2 Hy Hk2]; subst. exists (c :: b :: k2).
    split; [apply Permutation_swap|]. by repeat constructor.
  - destruct (IH1 _ HF) as (k1 & ? & H1). destruct (IH2 _ H1) as (k2 & ? & H2). exists k2. split; [by etransitivity|done].
Qed.

Lemma Forall2_filter {A B} (P : A -> B -> Prop) (p : A -> bool) (q : B -> bool) l k : Forall2 P l k -> (forall a b, P a b -> p a = q b) ->
  Forall2 P (base.filter (fun a => p a = true) l) (base.filter (fun b => q b = true) k).
Proof.
  intros HF Hpq. induction HF as [|a b l k Hab _ IH]; [constructor|]. rewrite !filter_cons, (Hpq a b Hab).
  destruct (q b); repeat case_decide; try done. by constructor.
Qed.

Lemma fmap_perm_NoDup {A B} (f : A -> B) l l' : l ≡ₚ l' -> NoDup (f <$> l) -> NoDup (f <$> l').
Proof. intros HP. by rewrite HP. Qed.

Lemma forallb_ext' {A} (f g : A -> bool) l : (forall x, f x = g x) -> forallb f l = forallb g l.
Proof. intros E. induction l as [|x l IH]; [done|]. cbn. by rewrite E, IH. Qed.

Lemma same_key_sym k a b : same_key k a b = same_key k b a.
Proof.
  apply eq_true_iff_eq. unfold same_key. rewrite !forallb_forall.
  split; intros H c Hc; specialize (H c Hc); rewrite andb_true_iff, !bool_decide_eq_true in *; destruct H as [H E]; (split; [congruence|done]).
Qed.

(** ** One table *)

Section Table.
Context {A : Type} (t : string) (sch : schema) (stored : row -> A -> Prop) (kfs : list (A -> list string)).
Context (Ht : sql_schema !! t = Some sch).
Context (Hkeys : Forall2 (fun k kf => forall r a r' a', stored r a -> stored r' a' -> same_key k r r' = bool_decide (kf a = kf a')) (sch_keys sch) kfs).

(** The keys of the table have no duplicates. *)
Definition uniq (l : list A) : Prop := Forall (fun kf => NoDup (kf <$> l)) kfs.
Definition rep (T : tabs) (l : list A) : Prop := uniq l /\ exists rows, rows_of T t ≡ₚ rows /\ Forall2 stored rows l.

Lemma uniq_perm l l' : l ≡ₚ l' -> uniq l -> uniq l'.
Proof. intros HP Hu. eapply Forall_impl; [exact Hu|]. intros kf. by apply fmap_perm_NoDup. Qed.

Lemma unique_on_spec k (kf : A -> list string) rows l : (forall r a r' a', stored r a -> stored r' a' -> same_key k r r' = bool_decide (kf a = kf a')) ->
  Forall2 stored rows l -> unique_on k rows = true <-> NoDup (kf <$> l).
Proof.
  intros Hk. induction 1 as [|r a rows l Hr HF IH]; [split; [constructor|done]|].
  cbn [unique_on]. rewrite fmap_cons, NoDup_cons, andb_true_iff, IH, negb_true_iff. apply and_iff_compat_r.
  rewrite <- not_true_iff_false, existsb_exists. apply not_iff_compat. rewrite list_elem_of_fmap. split.
  - intros (r' & Hin & Hs). apply list_elem_of_In, list_elem_of_lookup in Hin as [n Hn]. destruct (Forall2_lookup_l _ _ _ _ _ HF Hn) as (a' & Ha' & Hst).
    rewrite (Hk r a r' a' Hr Hst) in Hs. apply bool_decide_eq_true_1 in Hs. exists a'. split; [done|by eapply list_elem_of_lookup_2].
  - intros (a' & E & [n Hn]%list_elem_of_lookup). destruct (Forall2_lookup_r _ _ _ _ _ HF Hn) as (r' & Hr' & Hst). exists r'.
    split; [by eapply list_elem_of_In, list_elem_of_lookup_2|]. rewrite (Hk r a r' a' Hr Hst). by apply bool_decide_eq_true_2.
Qed.

Lemma keys_ok_spec rows l : Forall2 stored rows l -> keys_ok sch rows = true <-> uniq l.
Proof.
  intros HF. unfold keys_ok, uniq. clear Ht. induction Hkeys as [|k kf ks kfs' Hk Hks IH]; [split; [constructor|done]|].
  cbn [forallb]. rewrite Forall_cons, andb_true_iff, (unique_on_spec k kf rows l Hk HF). by rewrite (IH Hks).
Qed.

Lemma unique_on_perm k l l' : l ≡ₚ l' -> (forall a b, same_key k a b = same_key k b a) -> unique_on k l = unique_on k l'.
Proof.
  intros HP Hs. induction HP as [|x l l' HP IH|x y l|]; [done| | |congruence]; cbn [unique_on].
  - rewrite IH. f_equal. f_equal. apply eq_true_iff_eq. rewrite !existsb_exists.
    split; intros (z & Hz & ?); exists z; (split; [|done]); apply list_elem_of_In; apply list_elem_of_In in Hz; [by rewrite <- HP|by rewrite HP].
  - cbn [existsb]. rewrite (Hs y x). destruct (same_key k x y), (existsb (same_key k x) l), (existsb (same_key k y) l); done.
Qed.

(** *** Queries *)

Section Query.
Context (q : select) (args : list value) (b : A -> bool).
Context (Hq : sel_table q = t).
Context (Hw : forall r a, stored r a -> where_ok (sel_where q) args r = b a).
Context {B : Type} (scan : record -> outcome gerr B) (g : A -> B).
Context (Hscan : forall r a, stored r a -> scan (project (sel_cols q) r) = Ok (g a)).

Lemma matching T l : rep T l -> exists rows, base.filter (fun r => where_ok (sel_where q) args r = true) (rows_of T t) ≡ₚ rows /\
  Forall2 stored rows (base.filter (fun a => b a = true) l).
Proof.
  intros (_ & rows & HP & HF). exists (base.filter (fun r => where_ok (sel_where q) args r = true) rows). split; [by rewrite HP|].
  by apply Forall2_filter.
Qed.

(** The rows of the answer are those of the matching resources, in some order. *)
Lemma selected_all T l ans : rep T l -> (sel_distinct q = true -> NoDup (project (sel_cols q) <$> rows_of T t)) -> selected T q args ans ->
  exists all, base.filter (fun a => b a = true) l ≡ₚ all /\
    exists recs, Forall2 (fun rc a => exists r, stored r a /\ rc = project (sel_cols q) r) recs all /\
      (forall c, sel_order q = Some c -> StronglySorted (fun x y => str_le (text_of (col x c)) (text_of (col y c))) recs) /\
      ans = if sel_limit q then match args !! length (sel_where q) with Some (VInt n) => take (Z.to_nat n) recs | _ => [] end else recs.
Proof.
  intros Hr Hd (recs & HP & Hs & ->). destruct (matching T l Hr) as (rows & HPr & HF). rewrite Hq in HP.
  assert (project (sel_cols q) <$> rows ≡ₚ recs) as HP'.
  { rewrite <- HPr, <- HP. destruct (sel_distinct q); [|done]. symmetry. apply NoDup_Permutation.
    - apply NoDup_remove_dups.
    - eapply sublist_NoDup; [by apply Hd|]. apply fmap_sublist, sublist_filter.
    - intros x. apply elem_of_remove_dups. }
  assert (Forall2 (fun rc a => exists r, stored r a /\ rc = project (sel_cols q) r) (project (sel_cols q) <$> rows) (base.filter (fun a => b a = true) l)) as HF2.
  { apply Forall2_fmap_l. eapply Forall2_impl; [exact HF|]. intros r a Hra. by exists r. }
  destruct (Forall2_perm _ _ _ _ HF2 HP') as (all & HPa & HFa). exists all. split; [done|]. exists recs. by split_and!.
Qed.

Lemma scans recs all : Forall2 (fun rc a => exists r, stored r a /\ rc = project (sel_cols q) r) recs all -> scan_all scan recs = Ok (g <$> all) /\
  scan_some scan recs = g <$> all.
Proof.
  induction 1 as [|rc a recs all (r & Hra & ->) _ [IH1 IH2]]; [done|]. unfold scan_some. cbn. rewrite (Hscan r a Hra). cbn.
  unfold scan_some in IH2. by rewrite IH1, IH2.
Qed.

(** *** Queries as the store makes them *)

Section Run.
Context {DB : Type} `{Engine sql_schema DB}.

(** A query changes nothing. *)
Definition queried (db db' : DB) : Prop :=
  committed db' = committed db /\ current db' = current db /\ in_tx db' = in_tx db /\ (broken db = false -> broken db' = false).

Context (text : string) (l : list A) (db : DB).
Context (Hp : parse text = Some (SSelect q)) (Hrun : runnable sql_schema (SSelect q) args = true).
Context (Hrep : rep (current db) l).

Lemma Query_run db' r : Query text args db = (db', r) -> queried db db' /\
  ((exists recs, r = Ok (recs, None) /\ selected (current db) q args recs) \/
   (exists recs ans e, r = Ok (ans, Some e) /\ selected (current db) q args recs /\ ans `prefix_of` recs /\ broken db = true) \/
   (broken db = true /\ exists e, r = Err (SDb e))).
Proof.
  unfold Query. rewrite Hp. destruct (db_query db q args) as [db1 r1] eqn:E. intros [= <- <-].
  destruct (query_law db q args db1 r1 E) as (? & ? & ? & Hnp & Hok & Hb). split; [split_and!; [done..|]; intros Hf; by apply Hb|].
  destruct (broken db) eqn:Ebr.
  - destruct r1 as [[ans e]|e|]; [|right; right; split; [done|by eexists]|done].
    destruct (Hok ans e eq_refl) as (_ & recs & Hs & Hpre & He). destruct e as [e|].
    + right. left. by exists recs, ans, e.
    + left. rewrite (He eq_refl). by exists recs.
  - destruct (Hb eq_refl) as [_ Hr]. destruct (Hr Hrun) as [rows ->]. destruct (Hok rows None eq_refl) as (_ & recs & Hs & _ & He).
    left. rewrite (He eq_refl). by exists recs.
Qed.

Lemma row_of_answer r ans recs : sel_distinct q = false -> sel_limit q = false -> selected (current db) q args recs -> ans `prefix_of` recs ->
  match ans with
  | rc :: _ => lift (scan rc) = r
  | [] => ans = recs /\ r = Err SNoRows
  end -> (exists a, a ∈ l /\ b a = true /\ r = Ok (g a)) \/ ((forall a, a ∈ l -> b a = false) /\ r = Err SNoRows).
Proof.
  intros Hdis Hlim Hs Hpre Hr. destruct (selected_all (current db) l recs Hrep) as (all & HPa & recs' & HF & _ & El); [by rewrite Hdis|done|].
  rewrite Hlim in El. subst recs'. destruct ans as [|rc ans].
  - destruct Hr as [<- ->]. right. inversion HF; subst. split; [|done]. intros a Ha. apply not_true_iff_false. intros Hb.
    assert (a ∈ base.filter (fun a => b a = true) l) as Hin by (by apply list_elem_of_filter).
    rewrite HPa in Hin. by apply not_elem_of_nil in Hin.
  - left. destruct Hpre as [k ->]. inversion HF as [|? a ? all' (r0 & Hst & ->) HF']; subst. exists a.
    assert (a ∈ base.filter (fun a => b a = true) l) as Hin by (rewrite HPa; by left). apply list_elem_of_filter in Hin as [Hb Hin].
    split_and!; [done..|]. by rewrite (Hscan r0 a Hst).
Qed.

Lemma QueryRow_run db' r : sel_distinct q = false -> sel_limit q = false -> QueryRow scan text args db = (db', r) -> queried db db' /\
  ((exists a, a ∈ l /\ b a = true /\ r = Ok (g a)) \/ ((forall a, a ∈ l -> b a = false) /\ r = Err SNoRows) \/
   (broken db = true /\ exists e, r = Err (SDb e))).
Proof.
  intros Hdis Hlim. unfold QueryRow, then_, bind. destruct (Query text args db) as [db1 r1] eqn:E.
  destruct (Query_run db1 r1 E) as [Hq1 [(recs & -> & Hs)|[(recs & ans & e & -> & Hs & Hpre & Hbr)|(Hbr & e & ->)]]]; cbn.
  - intros [= <- <-]. split; [done|]. assert (forall P Q R : Prop, P \/ Q -> P \/ Q \/ R) as Hor by tauto. apply Hor.
    eapply (row_of_answer _ recs recs); try done. by destruct recs.
  - intros [= <- <-]. split; [done|]. destruct ans as [|rc ans]; [right; right; split; [done|by eexists]|].
    assert (forall P Q R : Prop, P \/ Q -> P \/ Q \/ R) as Hor by tauto. apply Hor. by eapply (row_of_answer _ (rc :: ans) recs).
  - intros [= <- <-]. split; [done|]. right. right. split; [done|by eexists].
Qed.

(** A query whose missing row is an error of its own. *)
Lemma get_run v db' r : sel_distinct q = false -> sel_limit q = false -> outcome_of (mapped (if_none v) (QueryRow scan text args)) db = (db', r) ->
  queried db db' /\ ((exists a, a ∈ l /\ b a = true /\ r = Ok (g a)) \/ ((forall a, a ∈ l -> b a = false) /\ r = Err (EVar v)) \/
   (broken db = true /\ exists e, r = Err e)).
Proof.
  intros Hd Hl. unfold outcome_of, mapped, bind, ret. destruct (QueryRow scan text args db) as [db1 r1] eqn:E. intros [= <- <-].
  destruct (QueryRow_run db1 r1 Hd Hl E) as [Hq1 [(a & Ha & Hb & ->)|[[Hn ->]|(Hbr & e & ->)]]]; (split; [done|]).
  - left. by exists a.
  - right. by left.
  - right. right. split; [done|]. by eexists.
Qed.
End Run.
End Query.

(** *** Changes *)

Section Change.
Context {DB : Type} `{Engine sql_schema DB}.
Context (text : string) (st : stmt) (args : list value) (l l2 : list A) (db : DB).
Context (Hp : parse text = Some st) (Hrun : runnable sql_schema st args = true) (Hst : forall q, st <> SSelect q).
Context (Hout : exists lrows rows2, outcome_rows (current db) st args = Some (t, lrows) /\ lrows ≡ₚ rows2 /\ Forall2 stored rows2 l2).

(** The other tables stay. *)
Definition only_here (db' : DB) : Prop := forall t', t' <> t -> rows_of (current db') t' = rows_of (current db) t'.

Definition executed (db' : DB) : Prop :=
  in_tx db' = in_tx db /\ (in_tx db = true -> committed db' = committed db) /\ (broken db = false -> broken db' = false).

Lemma Exec_run db' r : Exec text args db = (db', r) -> executed db' /\
  ((exists n, r = Ok n /\ deleted (current db) st args n /\ rep (current db') l2 /\ only_here db') \/
   (~ uniq l2 /\ current db' = current db /\ exists e, r = Err (SDb e) /\ IsDuplicateKeyError eng_helper e = true) \/
   (broken db = true /\ current db' = current db /\ exists e, r = Err (SDb e))).
Proof.
  destruct Hout as (lrows & rows2 & Eout & HP & HF). unfold Exec. rewrite Hp.
  destruct (db_exec db st args) as [db1 r1] eqn:E. destruct (exec_law db st args db1 r1 E) as (Htx & Hnp & Hcm & Hok & Herr & Hb).
  intros [= <- <-]. split; [split_and!; [done..|]; intros Hf; by apply Hb|]. destruct r1 as [n|e|]; [| |done].
  - left. exists n. split; [done|]. destruct (Hok n eq_refl) as (_ & t' & l1 & l' & Eo & HP' & Hk & ET & Hdel). rewrite Eout in Eo. injection Eo as <- <-.
    split; [done|]. split.
    + split.
      * apply (keys_ok_spec rows2 l2 HF). rewrite <- (Hk sch Ht). unfold keys_ok. apply forallb_ext'. intros k. symmetry.
        apply unique_on_perm; [done|]. intros a b. unfold same_key. by apply same_key_sym.
      * exists rows2. split; [|done]. rewrite ET. unfold rows_of. rewrite lookup_insert_eq. cbn. by rewrite <- HP'.
    + intros t' Hne. rewrite ET. unfold rows_of. by rewrite lookup_insert_ne.
  - destruct (Herr e eq_refl) as [Hcur Hdup]. right. destruct (IsDuplicateKeyError eng_helper e) eqn:Ed.
    + left. destruct (Hdup eq_refl) as (t' & l1 & s & Eo & Es & Hk). rewrite Eout in Eo. injection Eo as <- <-. rewrite Ht in Es. injection Es as <-.
      split; [|split; [done|by exists e]]. intros Hu. apply (keys_ok_spec rows2 l2 HF) in Hu. apply not_true_iff_false in Hk. apply Hk.
      rewrite <- Hu. unfold keys_ok. apply forallb_ext'. intros k. apply unique_on_perm; [done|]. intros a b. by apply same_key_sym.
    + right. split; [|split; [done|by exists e]]. destruct (broken db); [done|]. destruct (Hb eq_refl) as [_ Hr].
      destruct (Hr Hrun Hst) as [[n ?]|(e' & [= ->] & ?)]; congruence.
Qed.
End Change.

(** What statements make of the rows. *)
Lemma delete_rows T w args (b : A -> bool) l : rep T l -> (forall r a, stored r a -> where_ok w args r = b a) ->
  uniq (base.filter (fun a => b a = false) l) /\
  exists lrows rows2, outcome_rows T (SDelete t w) args = Some (t, lrows) /\ lrows ≡ₚ rows2 /\ Forall2 stored rows2 (base.filter (fun a => b a = false) l).
Proof.
  intros (Hu & rows & HP & HF) Hw. split.
  - eapply Forall_impl; [exact Hu|]. intros kf Hn. eapply sublist_NoDup; [exact Hn|]. apply fmap_sublist, sublist_filter.
  - eexists _, (base.filter (fun r => where_ok w args r = false) rows). split; [reflexivity|]. split; [by rewrite HP|].
    clear HP Hu. induction HF as [|r a rows l Hr _ IH]; [constructor|]. rewrite !filter_cons, (Hw r a Hr). destruct (b a); repeat case_decide; try done. by constructor.
Qed.

Lemma delete_count T w args (b : A -> bool) l n : rep T l -> (forall r a, stored r a -> where_ok w args r = b a) ->
  deleted T (SDelete t w) args n -> n = Z.of_nat (length (base.filter (fun a => b a = true) l)).
Proof.
  intros (Hu & rows & HP & HF) Hw ->. f_equal. rewrite HP. eapply Forall2_length. by apply Forall2_filter.
Qed.

Lemma insert_rows T cs args a l : rep T l -> stored (new_row cs args) a ->
  exists lrows rows2, outcome_rows T (SInsert t cs) args = Some (t, lrows) /\ lrows ≡ₚ rows2 /\ Forall2 stored rows2 (a :: l).
Proof.
  intros (Hu & rows & HP & HF) Ha. eexists _, (new_row cs args :: rows). split; [reflexivity|]. split; [by rewrite HP|]. by constructor.
Qed.

Lemma update_rows T set w args (b : A -> bool) (u : A -> A) l : rep T l -> (forall r a, stored r a -> where_ok w (drop (length set) args) r = b a) ->
  (forall r a, stored r a -> a ∈ l -> b a = true -> stored (set_row set args r) (u a)) ->
  exists lrows rows2, outcome_rows T (SUpdate t set w) args = Some (t, lrows) /\ lrows ≡ₚ rows2 /\
    Forall2 stored rows2 ((fun a => if b a then u a else a) <$> l).
Proof.
  intros (Hu & rows & HP & HF) Hw Hset. eexists _, ((fun r => if where_ok w (drop (length set) args) r then set_row set args r else r) <$> rows).
  split; [reflexivity|]. split; [by rewrite HP|]. clear HP Hu. induction HF as [|r a rows l Hr _ IH]; [constructor|]. rewrite !fmap_cons. constructor.
  - rewrite (Hw r a Hr). destruct (b a) eqn:Eb; [|done]. apply Hset; [done|by left|done].
  - apply IH. intros r' a' Hr' Ha'. apply Hset; [done|by right].
Qed.
End Table.

(** ** What a row keeps of a resource *)

Section Stored.
Context {ST : StoreText} (addr : nat).

(** An empty map is stored as nothing, a string is read at a new address, times are
    kept to the millisecond. *)
Definition norm_config (c : Config) : Config := if bool_decide (entries c = ∅) then None else Some (config_utf8 (entries c)).
Definition norm_ann (m : Annotations) : Annotations := if bool_decide (entries m = ∅) then None else Some (ann_utf8 (entries m)).
Definition norm_pointer (p : option strptr) : option strptr := (fun p => (addr, p.2)) <$> p.
Definition norm_app (a : App) : App :=
  MkApp (app_ID a) (app_Name a) (norm_config (app_Config a)) (norm_ann (app_Annotations a)) (norm_pointer (app_SyslogURL a))
    (trunc_ms (app_CreatedAt a)) (trunc_ms (app_UpdatedAt a)).
Definition norm_fn (f : Fn) : Fn :=
  MkFn (fn_ID f) (fn_Name f) (fn_AppID f) (fn_Image f) (fn_Memory f) (fn_Timeout f) (fn_IdleTimeout f) (norm_config (fn_Config f))
    (norm_ann (fn_Annotations f)) (trunc_ms (fn_CreatedAt f)) (trunc_ms (fn_UpdatedAt f)).
Definition norm_trigger (t : Trigger) : Trigger :=
  MkTrigger (tr_ID t) (tr_Name t) (tr_AppID t) (tr_FnID t) (trunc_ms (tr_CreatedAt t)) (trunc_ms (tr_UpdatedAt t)) (tr_Type t)
    (tr_Source t) (norm_ann (tr_Annotations t)).

Definition time_ok (t : Z) : Prop := 0 <= t < year_10000.

Lemma trunc_ok t : time_ok t -> time_ok (trunc_ms t) /\ trunc_ms (trunc_ms t) = trunc_ms t.
Proof.
  unfold time_ok, trunc_ms. intros H. rewrite Z.div_mul by lia. split; [|done].
  pose proof (Z.mul_div_le t 1000000). pose proof (Z.div_pos t 1000000). lia.
Qed.

Lemma config_kept c : Config_Scan (Config_Value c) = Ok (norm_config c).
Proof.
  unfold Config_Value, norm_config. case_bool_decide as E; [by rewrite E|].
  assert (size (entries c) <> 0%nat) as Hs by (intros Hs; by apply map_size_empty_inv in Hs).
  destruct (Nat.ltb_spec (size (entries c)) 1); [lia|]. destruct (config_read (entries c)) as [Hne Hp]. cbn.
  destruct (streq _ _) eqn:Es; [by apply streq_spec in Es|done].
Qed.

Lemma ann_kept m v : Annotations_Value m = Ok v -> Annotations_Scan v = Ok (norm_ann m).
Proof.
  unfold Annotations_Value, norm_ann. case_bool_decide as E; [rewrite E; cbn; by intros [= <-]|].
  assert (size (entries m) <> 0%nat) as Hs by (intros Hs; by apply map_size_empty_inv in Hs).
  destruct (Nat.ltb_spec (size (entries m)) 1); [lia|]. intros (s & Hj & [= <-])%obind_Ok. destruct (ann_read _ _ Hj) as [Hne Hp]. cbn.
  destruct (streq _ _) eqn:Es; [by apply streq_spec in Es|done].
Qed.

Lemma time_kept t : time_ok t -> DateTime_Scan (DateTime_Value t) = Ok (trunc_ms t) /\ DateTime_Value (trunc_ms t) = DateTime_Value t.
Proof.
  intros H. destruct (time_read t H) as (Hne & Hm & [e He] & Hf). split; [|unfold DateTime_Value, DateTime_String, MarshalFormat; by rewrite Hf].
  unfold DateTime_Value, DateTime_String, MarshalFormat. cbn [DateTime_Scan]. unfold ParseDateTime, dateTimeFormats.
  destruct (streq _ _) eqn:Es; [by apply streq_spec in Es|]. cbn [parse_layouts]. rewrite He, Hm. done.
Qed.

Definition app_row (i n : string) (cfg ann sl cr up : value) : row := list_to_map
  [("id", VText i); ("name", VText n); ("config", cfg); ("annotations", ann); ("syslog_url", sl); ("created_at", cr); ("updated_at", up)]%string.
Definition fn_row (i n ai im : string) (me ti it : Z) (cfg ann cr up : value) : row := list_to_map
  [("id", VText i); ("name", VText n); ("app_id", VText ai); ("image", VText im); ("memory", VInt me); ("timeout", VInt ti); ("idle_timeout", VInt it);
   ("config", cfg); ("annotations", ann); ("created_at", cr); ("updated_at", up)]%string.
Definition trigger_row (i n ai fi : string) (cr up : value) (ty so : string) (ann : value) : row := list_to_map
  [("id", VText i); ("name", VText n); ("app_id", VText ai); ("fn_id", VText fi); ("created_at", cr); ("updated_at", up);
   ("type", VText ty); ("source", VText so); ("annotations", ann)]%string.

Definition pointer_value (p : option strptr) : value := match p with Some p => VText p.2 | None => VNull end.

Definition stored_app (r : row) (a : App) : Prop := exists x ann, Annotations_Value (app_Annotations x) = Ok ann /\
  time_ok (app_CreatedAt x) /\ time_ok (app_UpdatedAt x) /\ a = norm_app x /\
  r = app_row (app_ID x) (app_Name x) (Config_Value (app_Config x)) ann (pointer_value (app_SyslogURL x))
        (DateTime_Value (app_CreatedAt x)) (DateTime_Value (app_UpdatedAt x)).
Definition fn_ints (f : Fn) : Prop :=
  0 <= fn_Memory f < 9223372036854775808 /\ - 2147483648 <= fn_Timeout f <= 2147483647 /\ - 2147483648 <= fn_IdleTimeout f <= 2147483647.
Definition stored_fn (r : row) (f : Fn) : Prop := exists x ann, Annotations_Value (fn_Annotations x) = Ok ann /\
  time_ok (fn_CreatedAt x) /\ time_ok (fn_UpdatedAt x) /\ fn_ints x /\ f = norm_fn x /\
  r = fn_row (fn_ID x) (fn_Name x) (fn_AppID x) (fn_Image x) (fn_Memory x) (fn_Timeout x) (fn_IdleTimeout x) (Config_Value (fn_Config x)) ann
        (DateTime_Value (fn_CreatedAt x)) (DateTime_Value (fn_UpdatedAt x)).
Definition stored_trigger (r : row) (t : Trigger) : Prop := exists x ann, Annotations_Value (tr_Annotations x) = Ok ann /\
  time_ok (tr_CreatedAt x) /\ time_ok (tr_UpdatedAt x) /\ t = norm_trigger x /\
  r = trigger_row (tr_ID x) (tr_Name x) (tr_AppID x) (tr_FnID x) (DateTime_Value (tr_CreatedAt x)) (DateTime_Value (tr_UpdatedAt x))
        (tr_Type x) (tr_Source x) ann.

Definition app_cols : list string := ["id"; "name"; "config"; "annotations"; "syslog_url"; "created_at"; "updated_at"]%string.
Definition fn_cols : list string :=
  ["id"; "name"; "app_id"; "image"; "memory"; "timeout"; "idle_timeout"; "config"; "annotations"; "created_at"; "updated_at"]%string.
Definition trigger_cols : list string := ["id"; "name"; "app_id"; "fn_id"; "type"; "source"; "annotations"; "created_at"; "updated_at"]%string.

Lemma field_some {A} (scan : value -> outcome gerr A) zero r c v : col r c = Some v -> field scan zero r c = scan v.
Proof. intros E. unfold field. by rewrite E. Qed.

Lemma read_app r a : stored_app r a -> scan_app addr (project app_cols r) = Ok a.
Proof.
  intros (x & ann & Ha & Hc & Hu & -> & ->). unfold app_row.
  match goal with |- scan_app _ (project _ ?m) = _ => assert (project app_cols m = [("id", VText (app_ID x)); ("name", VText (app_Name x));
    ("config", Config_Value (app_Config x)); ("annotations", ann); ("syslog_url", pointer_value (app_SyslogURL x));
    ("created_at", DateTime_Value (app_CreatedAt x)); ("updated_at", DateTime_Value (app_UpdatedAt x))]%string) as -> by reflexivity end.
  unfold scan_app. repeat (erewrite field_some; [|reflexivity]).
  rewrite config_kept, (ann_kept _ _ Ha), (proj1 (time_kept _ Hc)), (proj1 (time_kept _ Hu)). unfold norm_app. by destruct (app_SyslogURL x) as [[]|].
Qed.

Lemma scan_int_in lo hi n : lo <= n <= hi -> scan_int lo hi (VInt n) = Ok n.
Proof. intros H. unfold scan_int. by rewrite (proj2 (Z.leb_le _ _)), (proj2 (Z.leb_le _ _)) by lia. Qed.

Lemma read_fn r f : stored_fn r f -> scan_fn (project fn_cols r) = Ok f.
Proof.
  intros (x & ann & Ha & Hc & Hu & (Hm & Hti & Hit) & -> & ->). unfold fn_row.
  match goal with |- scan_fn (project _ ?m) = _ => assert (project fn_cols m = [("id", VText (fn_ID x)); ("name", VText (fn_Name x));
    ("app_id", VText (fn_AppID x)); ("image", VText (fn_Image x)); ("memory", VInt (fn_Memory x)); ("timeout", VInt (fn_Timeout x));
    ("idle_timeout", VInt (fn_IdleTimeout x)); ("config", Config_Value (fn_Config x)); ("annotations", ann);
    ("created_at", DateTime_Value (fn_CreatedAt x)); ("updated_at", DateTime_Value (fn_UpdatedAt x))]%string) as -> by reflexivity end.
  unfold scan_fn. repeat (erewrite field_some; [|reflexivity]). rewrite !scan_int_in by (unfold w64; lia).
  by rewrite config_kept, (ann_kept _ _ Ha), (proj1 (time_kept _ Hc)), (proj1 (time_kept _ Hu)).
Qed.

Lemma read_trigger r t : stored_trigger r t -> scan_trigger (project trigger_cols r) = Ok t.
Proof.
  intros (x & ann & Ha & Hc & Hu & -> & ->). unfold trigger_row.
  match goal with |- scan_trigger (project _ ?m) = _ => assert (project trigger_cols m = [("id", VText (tr_ID x)); ("name", VText (tr_Name x));
    ("app_id", VText (tr_AppID x)); ("fn_id", VText (tr_FnID x)); ("type", VText (tr_Type x)); ("source", VText (tr_Source x)); ("annotations", ann);
    ("created_at", DateTime_Value (tr_CreatedAt x)); ("updated_at", DateTime_Value (tr_UpdatedAt x))]%string) as -> by reflexivity end.
  unfold scan_trigger. repeat (erewrite field_some; [|reflexivity]).
  by rewrite (ann_kept _ _ Ha), (proj1 (time_kept _ Hc)), (proj1 (time_kept _ Hu)).
Qed.

(** The columns that conditions and keys look at. *)
Lemma app_col r a : stored_app r a -> r !! "id"%string = Some (VText (app_ID a)) /\ r !! "name"%string = Some (VText (app_Name a)).
Proof. by intros (x & ann & _ & _ & _ & -> & ->). Qed.
Lemma fn_col r f : stored_fn r f -> r !! "id"%string = Some (VText (fn_ID f)) /\ r !! "name"%string = Some (VText (fn_Name f)) /\
  r !! "app_id"%string = Some (VText (fn_AppID f)).
Proof. by intros (x & ann & _ & _ & _ & _ & -> & ->). Qed.
Lemma trigger_col r t : stored_trigger r t -> r !! "id"%string = Some (VText (tr_ID t)) /\ r !! "name"%string = Some (VText (tr_Name t)) /\
  r !! "app_id"%string = Some (VText (tr_AppID t)) /\ r !! "fn_id"%string = Some (VText (tr_FnID t)) /\
  r !! "type"%string = Some (VText (tr_Type t)) /\ r !! "source"%string = Some (VText (tr_Source t)).
Proof. by intros (x & ann & _ & _ & _ & -> & ->). Qed.

(** What is stored is its own normal form. *)
Lemma norm_config_idem c : norm_config (norm_config c) = norm_config c.
Proof.
  unfold norm_config at 2 3. case_bool_decide as E; [done|]. unfold norm_config. change (entries (Some ?m)) with m.
  destruct (config_utf8_ok (entries c)) as [Hi He]. rewrite bool_decide_eq_false_2; [by rewrite Hi|]. intros E'. by apply E, He.
Qed.
Lemma norm_ann_idem m : norm_ann (norm_ann m) = norm_ann m.
Proof.
  unfold norm_ann at 2 3. case_bool_decide as E; [done|]. unfold norm_ann. change (entries (Some ?m)) with m.
  destruct (ann_utf8_ok (entries m)) as [Hi He]. rewrite bool_decide_eq_false_2; [by rewrite Hi|]. intros E'. by apply E, He.
Qed.
Lemma norm_app_idem x : time_ok (app_CreatedAt x) -> time_ok (app_UpdatedAt x) -> norm_app (norm_app x) = norm_app x.
Proof.
  intros Hc Hu. unfold norm_app. cbn. rewrite norm_config_idem, norm_ann_idem, (proj2 (trunc_ok _ Hc)), (proj2 (trunc_ok _ Hu)).
  by destruct (app_SyslogURL x).
Qed.
End Stored.

(** ** The three tables *)

Definition app_keys : list (App -> list string) := [fun a => [app_ID a]; fun a => [app_Name a]].
Definition fn_keys : list (Fn -> list string) := [fun f => [fn_ID f]; fun f => [fn_AppID f; fn_Name f]].
Definition trigger_keys : list (Trigger -> list string) := [fun t => [tr_ID t]; fun t => [tr_AppID t; tr_FnID t; tr_Name t]].

Definition app_schema : schema := Schema app_cols [["id"]; ["name"]]%string.
Definition fn_schema : schema := Schema fn_cols [["id"]; ["app_id"; "name"]]%string.
Definition trigger_schema : schema := Schema ["id"; "name"; "app_id"; "fn_id"; "created_at"; "updated_at"; "type"; "source"; "annotations"]%string
  [["id"]; ["app_id"; "fn_id"; "name"]]%string.

Lemma schemas : sql_schema !! "apps"%string = Some app_schema /\ sql_schema !! "fns"%string = Some fn_schema /\
  sql_schema !! "triggers"%string = Some trigger_schema.
Proof. vm_compute. done. Qed.

Lemma text_key (c : string) (r r' : row) x y l l' k : r !! c = Some (VText x) -> r' !! c = Some (VText y) ->
  same_key k r r' = bool_decide (l = l') -> same_key (c :: k) r r' = bool_decide (x :: l = y :: l').
Proof.
  intros E E' Hk. unfold same_key in *. cbn [forallb]. rewrite Hk, E, E'. rewrite bool_decide_eq_true_2 by done. cbn [andb].
  apply eq_true_iff_eq. rewrite andb_true_iff, !bool_decide_eq_true. split; [intros [[= ->] ->]; done|intros [= -> ->]; done].
Qed.

Section Tables.
Context {ST : StoreText} (addr : nat).

Lemma app_keys_ok : Forall2 (fun k kf => forall r a r' a', stored_app addr r a -> stored_app addr r' a' -> same_key k r r' = bool_decide (kf a = kf a'))
  (sch_keys app_schema) app_keys.
Proof.
  repeat constructor; intros r a r' a' [H1 H2]%app_col [H3 H4]%app_col; (eapply text_key; [done|done|]; done).
Qed.
Lemma fn_keys_ok : Forall2 (fun k kf => forall r a r' a', stored_fn r a -> stored_fn r' a' -> same_key k r r' = bool_decide (kf a = kf a'))
  (sch_keys fn_schema) fn_keys.
Proof.
  repeat constructor; intros r a r' a' (H1 & H2 & H3)%fn_col (H4 & H5 & H6)%fn_col; repeat (eapply text_key; [done|done|]); done.
Qed.
Lemma trigger_keys_ok : Forall2 (fun k kf => forall r a r' a', stored_trigger r a -> stored_trigger r' a' -> same_key k r r' = bool_decide (kf a = kf a'))
  (sch_keys trigger_schema) trigger_keys.
Proof.
  repeat constructor; intros r a r' a' (H1 & H2 & H3 & H4 & _)%trigger_col (H5 & H6 & H7 & H8 & _)%trigger_col;
    repeat (eapply text_key; [done|done|]); done.
Qed.

(** The tables hold the resources of [m]. *)
Record holds_store (T : tabs) (m : mock) : Prop := {
  hs_apps : rep "apps" (stored_app addr) app_keys T (m_Apps m);
  hs_fns : rep "fns" stored_fn fn_keys T (m_Fns m);
  hs_trs : rep "triggers" stored_trigger trigger_keys T (m_Triggers m)
}.

Lemma uniq_ids {A} (f : A -> string) kfs l : uniq ((fun a => [f a]) :: kfs) l -> NoDup (f <$> l).
Proof.
  intros H. apply Forall_cons in H as [H _]. apply NoDup_alt. intros i j x Hi Hj. rewrite list_lookup_fmap in Hi, Hj.
  apply fmap_Some in Hi as (a & Hi & ->). apply fmap_Some in Hj as (b & Hj & E). rewrite NoDup_alt in H.
  apply (H i j [f a]); rewrite list_lookup_fmap; [by rewrite Hi|rewrite Hj; cbn; by rewrite E].
Qed.

Lemma rep_other {A} t stored kfs (l : list A) T T' : rows_of T' t = rows_of T t -> rep t stored kfs T l -> rep t stored kfs T' l.
Proof. intros E (Hu & rows & HP & HF). split; [done|]. exists rows. by rewrite E. Qed.

Lemma empty_tables : holds_store ∅ NewMock.
Proof. split; (split; [repeat constructor|exists []; split; [done|constructor]]). Qed.
End Tables.

(** ** The specification *)

Section Spec.
Context {MR : MapRange} {U : UnicodeTables} {ST : StoreText}.
Context (url_scheme : string -> outcome string string) (lim : Limits) (addr : nat).

(** A resource that can be written is put into the store, in the form in which it is
    kept; the caller gets it as it was made. *)
Definition written {A} (f : A -> ds_val) (c : outcome gerr A) (rc : A -> outcome gerr record) (s : store) (put : A -> store)
    (r : outcome gerr ds_val) (s' : store) : Prop :=
  match (let! c := c in let! _ := rc c in Ok c) with
  | Ok c => s' = put c /\ r = Ok (f c)
  | Err e => s' = s /\ r = Err e
  | Panic => s' = s /\ r = Panic
  end.

Definition sql_new_app (a : App) (now : Z) (i : string) : App :=
  MkApp i (app_Name a) (match app_Config a with None => Some ∅ | c => c end) (app_Annotations a) (app_SyslogURL a) now now.
(** An update of a trigger leaves the application that is stored. *)
Definition kept_trigger (c u : Trigger) : Trigger :=
  MkTrigger (tr_ID c) (tr_Name c) (tr_AppID u) (tr_FnID c) (tr_CreatedAt c) (tr_UpdatedAt c) (tr_Type c) (tr_Source c) (tr_Annotations c).

Definition sql_app_kept (f : AppFilter) (c : string) (a : App) : bool := (streq c "" || strlt c (app_Name a)) && matches (af_Name f) (app_Name a).
Definition sql_fn_kept (f : FnFilter) (c : string) (x : Fn) : bool :=
  matches (ff_AppID f) (fn_AppID x) && (streq c "" || strlt c (fn_Name x)) && matches (ff_Name f) (fn_Name x).

(** The operations that differ from those of the in-memory store. *)
Definition sql_spec (s : store) (now : Z) (new_id : string) (o : ds_op) (r : outcome gerr ds_val) (s' : store) : Prop :=
  match o with
  | OInsertApp a =>
      let a1 := sql_new_app a now new_id in
      let P b := app_Name b = app_Name a in
      match app_record a1 with
      | Ok _ =>
          (somebody P (s_apps s) /\ s' = s /\ r = Err (EVar ErrAppsAlreadyExists)) \/
          (nobody P (s_apps s) /\ s' = Store (<[new_id := norm_app addr a1]> (s_apps s)) (s_fns s) (s_trs s) /\ r = Ok (VApp a1))
      | Err e => s' = s /\ r = Err e
      | Panic => False
      end
  | OUpdateApp a =>
      match s_apps s !! app_ID a with
      | None => s' = s /\ r = Err (EVar ErrAppsNotFound)
      | Some b =>
          if negb (streq (app_Name a) "") && negb (streq (app_Name b) (app_Name a))
          then s' = s /\ r = Err (EVar ErrAppsNameImmutable)
          else written VApp (let! c := App_Update b a now in let! _ := App_Validate url_scheme c in Ok c) app_record s
                 (fun c => Store (<[app_ID a := norm_app addr c]> (s_apps s)) (s_fns s) (s_trs s)) r s'
      end
  | OInsertFn f =>
      let f1 := new_fn f now new_id in
      let P g := fn_AppID g = fn_AppID f /\ fn_Name g = fn_Name f in
      match Fn_Validate lim f, s_apps s !! fn_AppID f, fn_record f1 with
      | Err e, _, _ => s' = s /\ r = Err e
      | Panic, _, _ => s' = s /\ r = Panic
      | Ok _, None, _ => s' = s /\ r = Err (EVar ErrAppsNotFound)
      | Ok _, Some _, Err e => s' = s /\ r = Err e
      | Ok _, Some _, Panic => False
      | Ok _, Some _, Ok _ =>
          (somebody P (s_fns s) /\ s' = s /\ r = Err (EVar ErrFnsExists)) \/
          (nobody P (s_fns s) /\ s' = Store (s_apps s) (<[new_id := norm_fn f1]> (s_fns s)) (s_trs s) /\ r = Ok (VFn f1))
      end
  | OUpdateFn f =>
      match s_fns s !! fn_ID f with
      | None => s' = s /\ r = Err (EVar ErrFnsNotFound)
      | Some g => written VFn (let! c := Fn_Update g f now in let! _ := Fn_Validate lim c in Ok c) fn_record s
                    (fun c => Store (s_apps s) (<[fn_ID f := norm_fn c]> (s_fns s)) (s_trs s)) r s'
      end
  | OInsertTrigger t =>
      let t1 := new_trigger t now new_id in
      let P u := tr_AppID u = tr_AppID t /\ tr_FnID u = tr_FnID t /\ tr_Name u = tr_Name t in
      match Trigger_Validate t1, s_apps s !! tr_AppID t, s_fns s !! tr_FnID t with
      | Err e, _, _ => s' = s /\ r = Err e
      | Panic, _, _ => s' = s /\ r = Panic
      | Ok _, None, _ => s' = s /\ r = Err (EVar ErrAppsNotFound)
      | Ok _, Some _, None => s' = s /\ r = Err (EVar ErrFnsNotFound)
      | Ok _, Some _, Some f =>
          if negb (streq (fn_AppID f) (tr_AppID t)) then s' = s /\ r = Err (EVar ErrTriggerFnIDNotSameApp)
          else (somebody (same_source t) (s_trs s) /\ s' = s /\ r = Err (EVar ErrTriggerSourceExists)) \/
               (nobody (same_source t) (s_trs s) /\
                match trigger_record t1 with
                | Ok _ =>
                    (somebody P (s_trs s) /\ s' = s /\ r = Err (EVar ErrTriggerExists)) \/
                    (nobody P (s_trs s) /\ s' = Store (s_apps s) (s_fns s) (<[new_id := norm_trigger t1]> (s_trs s)) /\ r = Ok (VTrigger t1))
                | Err e => s' = s /\ r = Err e
                | Panic => False
                end)
      end
  | OUpdateTrigger t =>
      match s_trs s !! tr_ID t with
      | None => s' = s /\ r = Err (EVar ErrTriggerNotFound)
      | Some u =>
          let c := (let! c := Trigger_Update u t now in let! _ := Trigger_Validate c in Ok c) in
          let P c v := tr_ID v <> tr_ID t /\ tr_AppID v = tr_AppID u /\ tr_FnID v = tr_FnID c /\ tr_Name v = tr_Name c in
          match c, (let! c := c in trigger_record c) with
          | Ok c, Ok _ =>
              (somebody (P c) (s_trs s) /\ s' = s /\ exists msg, r = Err (EPlain msg)) \/
              (nobody (P c) (s_trs s) /\ s' = Store (s_apps s) (s_fns s) (<[tr_ID t := norm_trigger (kept_trigger c u)]> (s_trs s)) /\
               r = Ok (VTrigger c))
          | _, Err e => s' = s /\ r = Err e
          | _, _ => s' = s /\ r = Panic
          end
      end
  | OGetApps f => s' = s /\
      listed VApps (page_cursor (af_Cursor f))
        (fun c => is_page app_Name (sql_app_kept f c) (fun n => n =? af_PerPage f) (af_PerPage f) (s_apps s)) r
  | OGetFns f => s' = s /\
      listed VFns (page_cursor (ff_Cursor f))
        (fun c => is_page fn_Name (sql_fn_kept f c) (bounded (ff_PerPage f)) (ff_PerPage f) (s_fns s)) r
  | o => ds_spec url_scheme lim s now new_id o r s'
  end.
End Spec.

(** ** Transactions *)

Section Transactions.
Context {DB : Type} `{Engine sql_schema DB}.

(** A program that stays in its transaction. *)
Definition safe {A} (m : DB -> DB * outcome serr A) : Prop := forall db db' r, m db = (db', r) -> executed db db'.

Lemma executed_refl (db : DB) : executed db db.
Proof. by split_and!. Qed.
Lemma executed_trans (a b c : DB) : executed a b -> executed b c -> executed a c.
Proof. intros (H1 & H2 & H3) (H4 & H5 & H6). split_and!; [congruence| |auto]. intros Ht. rewrite H5, H2; congruence. Qed.

Lemma safe_ret {A} (r : outcome serr A) : safe (ret r).
Proof. intros db db' r' [= <- <-]. apply executed_refl. Qed.
Lemma safe_bind {A B} (m : DB -> DB * outcome serr A) (k : outcome serr A -> DB -> DB * outcome serr B) :
  safe m -> (forall r, safe (k r)) -> safe (bind m k).
Proof.
  intros Hm Hk db db' r. unfold bind. destruct (m db) as [db1 r1] eqn:E. intros E'. eapply executed_trans; [by eapply Hm|by eapply Hk].
Qed.
Lemma safe_then {A B} (m : DB -> DB * outcome serr A) (k : A -> DB -> DB * outcome serr B) :
  safe m -> (forall a, safe (k a)) -> safe (then_ m k).
Proof. intros Hm Hk. apply safe_bind; [done|]. intros [a|e|]; [apply Hk|apply safe_ret..]. Qed.
Lemma safe_Query text args : safe (Query text args).
Proof.
  intros db db' r. unfold Query. destruct (parse text) as [[q|t w|t cs|t set w]|]; try (intros [= <- <-]; apply executed_refl).
  destruct (db_query db q args) as [db1 r1] eqn:E. intros [= <- <-]. destruct (query_law db q args db1 r1 E) as (H1 & H2 & H3 & _ & _ & H4).
  split_and!; [done|done|]. intros Hb. by apply H4.
Qed.
Lemma safe_QueryRow {A} (scan : record -> outcome gerr A) text args : safe (QueryRow scan text args).
Proof. apply safe_then; [apply safe_Query|]. intros p. apply safe_ret. Qed.
Lemma safe_Exec text args : safe (Exec text args).
Proof.
  intros db db' r. unfold Exec. destruct (parse text) as [st|]; [|intros [= <- <-]; apply executed_refl].
  destruct (db_exec db st args) as [db1 r1] eqn:E. intros [= <- <-]. destruct (exec_law db st args db1 r1 E) as (H1 & _ & H2 & _ & _ & H3).
  split_and!; [done|done|]. intros Hb. by apply H3.
Qed.
Lemma safe_NamedExec text fields : safe (NamedExec text fields).
Proof. unfold NamedExec. destruct fields as [rc|e|]; [destruct (mapM _ _); [apply safe_Exec|]|..]; apply safe_ret. Qed.
Lemma safe_exec_all l args : safe (exec_all l args).
Proof. induction l as [|s l IH]; [apply safe_ret|]. apply safe_then; [apply safe_Exec|by intros _]. Qed.

Lemma Tx_run {A} (f : DB -> DB * outcome serr A) db db' r : in_tx db = false -> Tx f db = (db', r) -> safe f ->
  (broken db = true /\ in_tx db' = false /\ committed db' = committed db /\ exists e, r = Err e) \/
  exists db1 db2 r2, in_tx db1 = true /\ current db1 = committed db /\ (broken db = false -> broken db1 = false) /\ f db1 = (db2, r2) /\
    (broken db = false -> broken db' = false) /\
    match r2 with
    | Ok a => in_tx db' = false /\ ((r = Ok a /\ committed db' = current db2) \/
                (broken db = true /\ (exists e, r = Err e) /\ (committed db' = committed db \/ committed db' = current db2)))
    | Err e => in_tx db' = false /\ committed db' = committed db /\ r = Err e
    | Panic => committed db' = committed db /\ r = Panic
    end.
Proof.
  intros Htx HT Hsafe. unfold Tx in HT. destruct (db_begin db) as [db1 e1] eqn:Eb. destruct (begin_law db db1 e1 Eb Htx) as (Hc1 & Hcur & Ht1 & Hb1).
  destruct e1 as [e|].
  { injection HT as <- <-. left. split; [|split_and!; [done|done|by eexists]]. destruct (broken db); [done|]. by destruct (Hb1 eq_refl). }
  right. destruct (f db1) as [db2 r2] eqn:Ef. destruct (Hsafe db1 db2 r2 Ef) as (Ht2 & Hc2 & Hb2). cbn in Ht1. specialize (Hc2 Ht1).
  exists db1, db2, r2. split; [done|]. split; [congruence|]. split; [by intros ?; apply Hb1|]. split; [done|]. destruct r2 as [a|e|].
  - destruct (db_commit db2) as [db3 e3] eqn:Ec. injection HT as <- <-. destruct (commit_law db2 db3 e3 Ec) as (Ht3 & Hok & Hor & Hb3); [congruence|].
    split; [intros ?; apply Hb3, Hb2, Hb1; done|]. split; [done|]. destruct e3 as [e|]; [|left; split; [done|by apply Hok]].
    right. split; [|split; [by eexists|by rewrite <- Hc1, <- Hc2]]. destruct (broken db); [done|]. destruct Hb3 as [_ ?]; [by apply Hb2, Hb1|done].
  - injection HT as <- <-. destruct (rollback_law db2) as (? & ? & Hb3). rewrite Hb3. split; [intros ?; apply Hb2, Hb1; done|]. split_and!; [done|congruence|done].
  - injection HT as <- <-. split; [intros ?; apply Hb2, Hb1; done|]. split; [congruence|done].
Qed.
End Transactions.

Create HintDb sql.
#[export] Hint Resolve safe_ret safe_bind safe_then safe_Query safe_QueryRow safe_Exec safe_NamedExec safe_exec_all : sql.
