(* ===== verification/SqlTexts.v ===== *)
(** * The texts of the SQL store's statements (src/api/datastore/sql/sql.go)

    What [Sql.parse] makes of each text that [SqlStore] sends, for every filter of a
    list, that the tables have what the statement needs, and the rows that changes
    write. *)
From S2P Require Import Prelude Errors Annotations Models GoStrings Base64 Datastore Sql SqlStore SqlRefine.

Definition one_app : select := Select false app_cols "apps" [("id", Ceq)]%string None false.
Definition one_fn : select := Select false fn_cols "fns" [("id", Ceq)]%string None false.
Definition one_trigger : select := Select false trigger_cols "triggers" [("id", Ceq)]%string None false.

Lemma parse_appID : parse appIDSelector = Some (SSelect one_app). Proof. reflexivity. Qed.
Lemma parse_fnID : parse fnIDSelector = Some (SSelect one_fn). Proof. reflexivity. Qed.
Lemma parse_triggerID : parse triggerIDSelector = Some (SSelect one_trigger). Proof. reflexivity. Qed.

Lemma run_app x : runnable sql_schema (SSelect one_app) [VText x] = true. Proof. reflexivity. Qed.
Lemma run_fn x : runnable sql_schema (SSelect one_fn) [VText x] = true. Proof. reflexivity. Qed.
Lemma run_trigger x : runnable sql_schema (SSelect one_trigger) [VText x] = true. Proof. reflexivity. Qed.

Definition app_id_by_name : select := Select false ["id"]%string "apps" [("name", Ceq)]%string None false.
Lemma parse_ensureApp : parse ensureAppSelector = Some (SSelect app_id_by_name). Proof. reflexivity. Qed.
Lemma run_ensureApp x : runnable sql_schema (SSelect app_id_by_name) [VText x] = true. Proof. reflexivity. Qed.
Definition by_source : select := Select false trigger_cols "triggers" [("app_id", Ceq); ("type", Ceq); ("source", Ceq)]%string None false.
Lemma parse_bySource : parse triggerIDSourceSelector = Some (SSelect by_source). Proof. reflexivity. Qed.
Lemma run_bySource x y z : runnable sql_schema (SSelect by_source) [VText x; VText y; VText z] = true. Proof. reflexivity. Qed.

(** Whether there is a row, and the application of a function. *)
Definition app_there : select := Select false ["1"]%string "apps" [("id", Ceq)]%string None false.
Definition fn_app : select := Select false ["app_id"]%string "fns" [("id", Ceq)]%string None false.
Definition source_there : select := Select false ["1"]%string "triggers" [("app_id", Ceq); ("type", Ceq); ("source", Ceq)]%string None false.
Lemma parse_app_there : parse "SELECT 1 FROM apps WHERE id=?" = Some (SSelect app_there). Proof. reflexivity. Qed.
Lemma parse_fn_app : parse "SELECT app_id FROM fns WHERE id=?" = Some (SSelect fn_app). Proof. reflexivity. Qed.
Lemma parse_source_there : parse "SELECT 1 FROM triggers WHERE app_id=? AND type=? and source=?" = Some (SSelect source_there). Proof. reflexivity. Qed.
Lemma run_there x y z : runnable sql_schema (SSelect app_there) [VText x] = true /\ runnable sql_schema (SSelect fn_app) [VText x] = true /\
  runnable sql_schema (SSelect source_there) [VText x; VText y; VText z] = true.
Proof. split_and!; reflexivity. Qed.

(** The text and the arguments of a list, by which conditions it has. *)
Definition cond (c : string) (p : string * cmp) : list (string * cmp) := if streq c "" then [] else [p].
Definition carg (c : string) : list value := if streq c "" then [] else [VText c].

Definition apps_query (c name : string) : select :=
  Select true app_cols "apps" (cond c ("name"%string, Cgt) ++ cond name ("name"%string, Ceq)) (Some "name"%string) true.
Definition fns_query (app c name : string) (lim : bool) : select :=
  Select false fn_cols "fns" (cond app ("app_id"%string, Ceq) ++ cond c ("name"%string, Cgt) ++ cond name ("name"%string, Ceq)) (Some "name"%string) lim.
Definition triggers_query (fn name : string) (cur lim : bool) : select :=
  Select false trigger_cols "triggers" ([("app_id"%string, Ceq)] ++ cond fn ("fn_id"%string, Ceq) ++ cond name ("name"%string, Ceq) ++
    (if cur then [("name"%string, Cgt)] else [])) (Some "name"%string) lim.
Definition limit_arg (per : Z) : list value := if 0 <? per then [VInt per] else [].

Lemma where_cond b args op c : where_ (b, args) op c =
  if streq c "" then (b, args) else ((b ++ (if Nat.eqb (length (args ++ [VText c])) 1 then "WHERE " else " AND ") ++ op)%string, args ++ [VText c]).
Proof. done. Qed.

Lemma apps_text f c : page_cursor (af_Cursor f) = Ok c -> exists q, buildFilterAppQuery f = Ok (q, carg c ++ carg (af_Name f) ++ [VInt (af_PerPage f)]) /\
  parse ("SELECT DISTINCT id, name, config, annotations, syslog_url, created_at, updated_at FROM apps " ++ q) = Some (SSelect (apps_query c (af_Name f))).
Proof.
  intros Hc. unfold buildFilterAppQuery. change (cursor_of (af_Cursor f)) with (page_cursor (af_Cursor f)). rewrite Hc. cbn [obind].
  unfold page_cursor in Hc. unfold apps_query, carg, cond. rewrite !where_cond. destruct (streq (af_Cursor f) "").
  - injection Hc as <-. destruct (streq (af_Name f) "") eqn:En; (eexists; split; [rewrite ?where_cond, ?En; reflexivity|reflexivity]).
  - destruct (streq c "") eqn:Ec; destruct (streq (af_Name f) "") eqn:En; (eexists; split; [rewrite ?where_cond, ?En; reflexivity|reflexivity]).
Qed.

Lemma fns_text f c : page_cursor (ff_Cursor f) = Ok c -> exists q, buildFilterFnQuery f =
    Ok (q, (carg (ff_AppID f) ++ carg c ++ carg (ff_Name f)) ++ limit_arg (ff_PerPage f)) /\
  parse (fnSelector ++ " " ++ q) = Some (SSelect (fns_query (ff_AppID f) c (ff_Name f) (0 <? ff_PerPage f))).
Proof.
  intros Hc. unfold buildFilterFnQuery. change (cursor_of (ff_Cursor f)) with (page_cursor (ff_Cursor f)). rewrite Hc. cbn [obind].
  unfold page_cursor in Hc. unfold fns_query, carg, cond, limit_arg. rewrite !where_cond.
  assert (streq (ff_Cursor f) "" = true -> streq c "" = true) as Hcc by (intros E; rewrite E in Hc; by injection Hc as <-).
  destruct (streq (ff_Cursor f) ""); [pose proof (Hcc eq_refl) as Ec; rewrite Ec|destruct (streq c "") eqn:Ec];
    destruct (streq (ff_AppID f) ""), (streq (ff_Name f) "") eqn:En, (0 <? ff_PerPage f);
    (eexists; split; [rewrite ?where_cond, ?Ec, ?where_cond, ?En; reflexivity|reflexivity]).
Qed.

Lemma triggers_text f c : page_cursor (tf_Cursor f) = Ok c -> exists q, buildFilterTriggerQuery f =
    Ok (q, ([VText (tf_AppID f)] ++ carg (tf_FnID f) ++ carg (tf_Name f) ++ (if streq (tf_Cursor f) "" then [] else [VText c])) ++ limit_arg (tf_PerPage f)) /\
  parse (triggerSelector ++ " WHERE " ++ q) =
    Some (SSelect (triggers_query (tf_FnID f) (tf_Name f) (negb (streq (tf_Cursor f) "")) (0 <? tf_PerPage f))).
Proof.
  intros Hc. unfold buildFilterTriggerQuery. change (cursor_of (tf_Cursor f)) with (page_cursor (tf_Cursor f)). rewrite Hc. cbn [obind].
  unfold triggers_query, carg, cond, limit_arg.
  destruct (streq (tf_Cursor f) ""), (streq (tf_FnID f) ""), (streq (tf_Name f) ""), (0 <? tf_PerPage f); (eexists; split; reflexivity).
Qed.

Lemma run_apps c n per : runnable sql_schema (SSelect (apps_query c n)) (carg c ++ carg n ++ [VInt per]) = (0 <=? per).
Proof. unfold apps_query, carg, cond. destruct (streq c ""), (streq n ""); reflexivity. Qed.
Lemma run_fns a c n per : runnable sql_schema (SSelect (fns_query a c n (0 <? per))) ((carg a ++ carg c ++ carg n) ++ limit_arg per) = true.
Proof.
  unfold fns_query, carg, cond, limit_arg. destruct (0 <? per) eqn:E; [apply Z.ltb_lt, Z.lt_le_incl, Z.leb_le in E|];
    destruct (streq a ""), (streq c ""), (streq n ""); try reflexivity; etransitivity; try exact E; reflexivity.
Qed.
Lemma run_triggers a f n cur c per : runnable sql_schema (SSelect (triggers_query f n cur (0 <? per)))
  (([VText a] ++ carg f ++ carg n ++ (if negb cur then [] else [VText c])) ++ limit_arg per) = true.
Proof.
  unfold triggers_query, carg, cond, limit_arg. destruct (0 <? per) eqn:E; [apply Z.ltb_lt, Z.lt_le_incl, Z.leb_le in E|];
    destruct (streq f ""), (streq n ""), cur; try reflexivity; etransitivity; try exact E; reflexivity.
Qed.

(** ** The rows that changes write *)

Definition app_set : list string := ["config"; "annotations"; "syslog_url"; "updated_at"]%string.
Definition fn_set : list string := ["name"; "image"; "memory"; "timeout"; "idle_timeout"; "config"; "annotations"; "updated_at"]%string.
Definition trigger_set : list string := ["name"; "fn_id"; "updated_at"; "source"; "annotations"]%string.
Definition trigger_ins : list string := ["id"; "name"; "app_id"; "fn_id"; "created_at"; "updated_at"; "type"; "source"; "annotations"]%string.

Lemma parse_insert_app : parse insert_app = Some (SInsert "apps" app_cols). Proof. reflexivity. Qed.
Lemma parse_insert_fn : parse insert_fn = Some (SInsert "fns" fn_cols). Proof. reflexivity. Qed.
Lemma parse_insert_trigger : parse insert_trigger = Some (SInsert "triggers" trigger_ins). Proof. reflexivity. Qed.
Lemma parse_update_app : parse update_app = Some (SUpdate "apps" app_set [("name", Ceq)]%string). Proof. reflexivity. Qed.
Lemma parse_update_fn : parse update_fn = Some (SUpdate "fns" fn_set [("id", Ceq)]%string). Proof. reflexivity. Qed.
Lemma parse_update_trigger : parse update_trigger = Some (SUpdate "triggers" trigger_set [("id", Ceq)]%string). Proof. reflexivity. Qed.

Lemma parse_delete_app : parse "DELETE FROM apps WHERE id=?" = Some (SDelete "apps" [("id", Ceq)]%string). Proof. reflexivity. Qed.
Lemma parse_delete_app_fns : parse "DELETE FROM fns WHERE app_id=?" = Some (SDelete "fns" [("app_id", Ceq)]%string). Proof. reflexivity. Qed.
Lemma parse_delete_app_trs : parse "DELETE FROM triggers WHERE app_id=?" = Some (SDelete "triggers" [("app_id", Ceq)]%string). Proof. reflexivity. Qed.
Lemma parse_delete_fn : parse "DELETE FROM fns WHERE id=?" = Some (SDelete "fns" [("id", Ceq)]%string). Proof. reflexivity. Qed.
Lemma parse_delete_fn_trs : parse "DELETE FROM triggers WHERE fn_id=?" = Some (SDelete "triggers" [("fn_id", Ceq)]%string). Proof. reflexivity. Qed.
Lemma parse_delete_trigger : parse "DELETE FROM triggers WHERE id = ?;" = Some (SDelete "triggers" [("id", Ceq)]%string). Proof. reflexivity. Qed.

Definition deletes : list (string * string) :=
  [("apps", "id"); ("fns", "app_id"); ("triggers", "app_id"); ("fns", "id"); ("triggers", "fn_id"); ("triggers", "id")]%string.
Lemma run_delete t c x : bool_decide ((t, c) ∈ deletes) = true -> runnable sql_schema (SDelete t [(c, Ceq)]) [VText x] = true.
Proof.
  intros Hin%bool_decide_eq_true_1. assert (Forall (fun p => runnable sql_schema (SDelete p.1 [(p.2, Ceq)]) [VText x] = true) deletes) as HF
    by (repeat constructor). rewrite Forall_forall in HF. exact (HF _ Hin).
Qed.

Section Rows.
Context {MR : MapRange} {ST : StoreText} (addr : nat).

Definition app_args (a : App) (ann : value) : list value :=
  [VText (app_ID a); VText (app_Name a); Config_Value (app_Config a); ann; pointer_value (app_SyslogURL a);
   DateTime_Value (app_CreatedAt a); DateTime_Value (app_UpdatedAt a)].
Definition app_set_args (a : App) (ann : value) : list value :=
  [Config_Value (app_Config a); ann; pointer_value (app_SyslogURL a); DateTime_Value (app_UpdatedAt a); VText (app_Name a)].
Definition fn_args (f : Fn) (ann : value) : list value :=
  [VText (fn_ID f); VText (fn_Name f); VText (fn_AppID f); VText (fn_Image f); VInt (fn_Memory f); VInt (fn_Timeout f);
   VInt (fn_IdleTimeout f); Config_Value (fn_Config f); ann; DateTime_Value (fn_CreatedAt f); DateTime_Value (fn_UpdatedAt f)].
Definition fn_set_args (f : Fn) (ann : value) : list value :=
  [VText (fn_Name f); VText (fn_Image f); VInt (fn_Memory f); VInt (fn_Timeout f); VInt (fn_IdleTimeout f); Config_Value (fn_Config f);
   ann; DateTime_Value (fn_UpdatedAt f); VText (fn_ID f)].
Definition trigger_args (t : Trigger) (ann : value) : list value :=
  [VText (tr_ID t); VText (tr_Name t); VText (tr_AppID t); VText (tr_FnID t); DateTime_Value (tr_CreatedAt t); DateTime_Value (tr_UpdatedAt t);
   VText (tr_Type t); VText (tr_Source t); ann].
Definition trigger_set_args (t : Trigger) (ann : value) : list value :=
  [VText (tr_Name t); VText (tr_FnID t); DateTime_Value (tr_UpdatedAt t); VText (tr_Source t); ann; VText (tr_ID t)].

Lemma app_run a ann : runnable sql_schema (SInsert "apps" app_cols) (app_args a ann) = true /\
  runnable sql_schema (SUpdate "apps" app_set [("name", Ceq)]%string) (app_set_args a ann) = true.
Proof. split; reflexivity. Qed.
Lemma fn_run f ann : runnable sql_schema (SInsert "fns" fn_cols) (fn_args f ann) = true /\
  runnable sql_schema (SUpdate "fns" fn_set [("id", Ceq)]%string) (fn_set_args f ann) = true.
Proof. split; reflexivity. Qed.
Lemma trigger_run t ann : runnable sql_schema (SInsert "triggers" trigger_ins) (trigger_args t ann) = true /\
  runnable sql_schema (SUpdate "triggers" trigger_set [("id", Ceq)]%string) (trigger_set_args t ann) = true.
Proof. split; reflexivity. Qed.

(** The arguments are those the texts name. *)
Section Named.
Context {DB : Type} `{Engine sql_schema DB}.

Lemma app_named a rc : app_record a = Ok rc -> exists ann, Annotations_Value (app_Annotations a) = Ok ann /\
  NamedExec insert_app (Ok rc) = Exec insert_app (app_args a ann) /\ NamedExec update_app (Ok rc) = Exec update_app (app_set_args a ann).
Proof. intros (ann & Ha & [= <-])%obind_Ok. exists ann. split; [done|]. split; reflexivity. Qed.
Lemma fn_named f rc : fn_record f = Ok rc -> fn_Memory f < 9223372036854775808 /\ exists ann, Annotations_Value (fn_Annotations f) = Ok ann /\
  NamedExec insert_fn (Ok rc) = Exec insert_fn (fn_args f ann) /\ NamedExec update_fn (Ok rc) = Exec update_fn (fn_set_args f ann).
Proof.
  intros (ann & Ha & Hr)%obind_Ok. destruct (fn_Memory f <? 9223372036854775808) eqn:E; [|done]. injection Hr as <-.
  split; [by apply Z.ltb_lt|]. exists ann. split; [done|]. split; reflexivity.
Qed.
Lemma trigger_named t rc : trigger_record t = Ok rc -> exists ann, Annotations_Value (tr_Annotations t) = Ok ann /\
  NamedExec insert_trigger (Ok rc) = Exec insert_trigger (trigger_args t ann) /\
  NamedExec update_trigger (Ok rc) = Exec update_trigger (trigger_set_args t ann).
Proof. intros (ann & Ha & [= <-])%obind_Ok. exists ann. split; [done|]. split; reflexivity. Qed.
End Named.

Lemma app_inserted a ann : Annotations_Value (app_Annotations a) = Ok ann -> time_ok (app_CreatedAt a) -> time_ok (app_UpdatedAt a) ->
  stored_app addr (new_row app_cols (app_args a ann)) (norm_app addr a).
Proof. intros Ha Hc Hu. by exists a, ann. Qed.
Lemma fn_inserted f ann : Annotations_Value (fn_Annotations f) = Ok ann -> time_ok (fn_CreatedAt f) -> time_ok (fn_UpdatedAt f) -> fn_ints f ->
  stored_fn (new_row fn_cols (fn_args f ann)) (norm_fn f).
Proof. intros Ha Hc Hu Hi. by exists f, ann. Qed.
Lemma trigger_inserted t ann : Annotations_Value (tr_Annotations t) = Ok ann -> time_ok (tr_CreatedAt t) -> time_ok (tr_UpdatedAt t) ->
  stored_trigger (new_row trigger_ins (trigger_args t ann)) (norm_trigger t).
Proof. intros Ha Hc Hu. by exists t, ann. Qed.

Lemma app_set_stored r b c ann : stored_app addr r b -> app_ID c = app_ID b -> app_Name c = app_Name b -> app_CreatedAt c = app_CreatedAt b ->
  Annotations_Value (app_Annotations c) = Ok ann -> time_ok (app_UpdatedAt c) ->
  stored_app addr (set_row app_set (app_set_args c ann) r) (norm_app addr c).
Proof.
  intros (x & ann0 & _ & Hc & _ & -> & ->) Ei En Ec Ha Hu. cbn in Ei, En, Ec. destruct (trunc_ok _ Hc) as [Hct _].
  exists c, ann. split_and!; [done|by rewrite Ec|done..|]. rewrite Ei, En, Ec, (proj2 (time_kept _ Hc)). reflexivity.
Qed.
Lemma fn_set_stored r g c ann : stored_fn r g -> fn_ID c = fn_ID g -> fn_AppID c = fn_AppID g -> fn_CreatedAt c = fn_CreatedAt g ->
  Annotations_Value (fn_Annotations c) = Ok ann -> time_ok (fn_UpdatedAt c) -> fn_ints c ->
  stored_fn (set_row fn_set (fn_set_args c ann) r) (norm_fn c).
Proof.
  intros (x & ann0 & _ & Hc & _ & _ & -> & ->) Ei En Ec Ha Hu Hn. cbn in Ei, En, Ec. destruct (trunc_ok _ Hc) as [Hct _].
  exists c, ann. split_and!; [done|by rewrite Ec|done..|]. rewrite Ei, En, Ec, (proj2 (time_kept _ Hc)). reflexivity.
Qed.
Lemma trigger_set_stored r u c ann : stored_trigger r u -> tr_ID c = tr_ID u -> tr_Type c = tr_Type u -> tr_CreatedAt c = tr_CreatedAt u ->
  Annotations_Value (tr_Annotations c) = Ok ann -> time_ok (tr_UpdatedAt c) ->
  stored_trigger (set_row trigger_set (trigger_set_args c ann) r) (norm_trigger (kept_trigger c u)).
Proof.
  intros (x & ann0 & _ & Hc & _ & -> & ->) Ei En Ec Ha Hu. cbn in Ei, En, Ec. destruct (trunc_ok _ Hc) as [Hct _].
  exists (kept_trigger c (norm_trigger x)), ann. split_and!; [done|cbn; by rewrite Ec|done..|]. cbn. rewrite Ei, En, Ec, (proj2 (time_kept _ Hc)). reflexivity.
Qed.

(** A row is written or there is an error. *)
Lemma app_record_fine a : app_record a <> Panic.
Proof.
  unfold app_record, Annotations_Value. destruct (Nat.ltb _ _); [done|]. pose proof (ann_no_panic (entries (app_Annotations a))) as Hn.
  by destruct (ann_json _).
Qed.
Lemma fn_record_fine f : fn_record f <> Panic.
Proof.
  unfold fn_record, Annotations_Value. pose proof (ann_no_panic (entries (fn_Annotations f))) as Hn.
  destruct (Nat.ltb _ _); [|destruct (ann_json _); [|done..]]; cbn; by destruct (_ <? _).
Qed.
Lemma trigger_record_fine t : trigger_record t <> Panic.
Proof.
  unfold trigger_record, Annotations_Value. destruct (Nat.ltb _ _); [done|]. pose proof (ann_no_panic (entries (tr_Annotations t))) as Hn.
  by destruct (ann_json _).
Qed.

(** A function that is valid has numbers that fit. *)
Lemma Fn_Validate_ints lim f : MaxTimeout lim <= 2147483647 /\ MaxIdleTimeout lim <= 2147483647 -> Fn_Validate lim f = Ok tt ->
  fn_Memory f < 9223372036854775808 -> fn_ints f.
Proof.
  intros Hlim. unfold Fn_Validate. intros (_ & _ & Hv)%obind_Ok Hm. unfold fn_ints.
  do 2 apply guard_Ok in Hv as [_ Hv]. do 3 apply guard_Ok in Hv as [?%negb_true_iff Hv]. lia.
Qed.

(** When a resource was changed. *)
Lemma App_Update_times now a p c : App_Update a p now = Ok c -> app_UpdatedAt c = now \/ app_UpdatedAt c = app_UpdatedAt a.
Proof. unfold App_Update. intros (ann & _ & (eq & _ & H1)%obind_Ok)%obind_Ok. destruct (negb eq); injection H1 as <-; [by left|by right]. Qed.
Lemma Fn_Update_times now a p c : Fn_Update a p now = Ok c -> fn_CreatedAt c = fn_CreatedAt a /\ (fn_UpdatedAt c = now \/ fn_UpdatedAt c = fn_UpdatedAt a).
Proof. unfold Fn_Update. intros (ann & _ & (eq & _ & H1)%obind_Ok)%obind_Ok. injection H1 as <-. destruct (negb eq); (split; [done|]); [by left|by right]. Qed.
Lemma Trigger_Update_times now a p c : Trigger_Update a p now = Ok c -> tr_CreatedAt c = tr_CreatedAt a /\ (tr_UpdatedAt c = now \/ tr_UpdatedAt c = tr_UpdatedAt a).
Proof. unfold Trigger_Update. intros (ann & _ & (eq & _ & H1)%obind_Ok)%obind_Ok. injection H1 as <-. destruct (negb eq); (split; [done|]); [by left|by right]. Qed.

End Rows.
