(* ===== verification/SqlOps.v ===== *)
(** * Every operation of the SQL store (src/api/datastore/sql/sql.go)

    The operations of [SqlStore], one by one, against [SqlRefine.sql_spec]: on a
    database that works each does what the specification says; on one that fails
    its transaction leaves the store as it was or as the specification says, but
    for two operations that do not look at the error of their first query. *)
From S2P Require Import Prelude Errors Annotations Models GoStrings Base64 Datastore Sql SqlStore SqlRefine SqlTexts.
From Stdlib Require Import Ascii.

#[local] Opaque parse runnable sql_schema insert_app update_app insert_fn update_fn insert_trigger update_trigger
  appIDSelector fnIDSelector triggerIDSelector tables App_Update App_Validate Fn_Update Fn_Validate Trigger_Update Trigger_Validate ann_json app_record fn_record trigger_record.

Lemma streq_and_true x y : streq x y && true = streq x y.
Proof. apply andb_true_r. Qed.

Lemma or_3 (P Q P' Q' R R' : Prop) : (P -> P') -> (Q -> Q') -> (R -> R') -> P \/ Q \/ R -> P' \/ Q' \/ R'.
Proof. tauto. Qed.

(** The row of an id. *)
Section ById.
Context {A B DB : Type} `{Engine sql_schema DB} (t : string) (stored : row -> A -> Prop) (f : A -> string) (kfs : list (A -> list string)).
Context (Hid : forall r a, stored r a -> r !! "id"%string = Some (VText (f a))).
Context (q : select) (scan : record -> outcome gerr B) (g : A -> B) (text : string) (x : string) (l : list A) (db : DB).
Context (Hq : sel_table q = t) (Hw : sel_where q = [("id"%string, Ceq)]) (Hd : sel_distinct q = false) (Hl : sel_limit q = false).
Context (Hscan : forall r a, stored r a -> scan (project (sel_cols q) r) = Ok (g a)).
Context (Hp : parse text = Some (SSelect q)) (Hrun : runnable sql_schema (SSelect q) [VText x] = true).
Context (Hrep : rep t stored ((fun a => [f a]) :: kfs) (current db) l).

Lemma row_of_id db' r : QueryRow scan text [VText x] db = (db', r) -> queried db db' /\
  ((exists a, by_id f l !! x = Some a /\ r = Ok (g a)) \/ (by_id f l !! x = None /\ r = Err SNoRows) \/
   (broken db = true /\ exists e, r = Err (SDb e))).
Proof.
  intros E. assert (forall r0 a, stored r0 a -> where_ok (sel_where q) [VText x] r0 = streq (f a) x) as Hwh.
  { intros r0 a Hr. rewrite Hw. cbn. rewrite (Hid r0 a Hr). apply streq_and_true. }
  destruct (QueryRow_run t stored _ q [VText x] (fun a => streq (f a) x) Hq Hwh scan g Hscan text l db Hp Hrun Hrep db' r Hd Hl E) as [Hqd Hc].
  split; [done|]. destruct Hrep as [Hu _]. pose proof (uniq_ids f kfs l Hu) as Hn. revert Hc. apply or_3; [| |done].
  - intros (a & Ha & Hb & ->). exists a. split; [|done]. apply by_id_elem; [done|]. split; [done|by apply streq_spec].
  - intros [Hno ->]. split; [|done]. rewrite by_id_find. apply find_first_None. intros a Ha. by apply Hno.
Qed.
End ById.

(** A list as a page. *)
Lemma sorted_images {A} (nm : A -> string) (recs : list record) (all : list A) : Forall2 (fun rc a => text_of (col rc "name") = nm a) recs all ->
  StronglySorted (fun x y => str_le (text_of (col x "name")) (text_of (col y "name"))) recs -> StronglySorted (fun x y => str_le (nm x) (nm y)) all.
Proof.
  induction 1 as [|rc a recs all E HF IH]; intros Hs; [constructor|]. apply StronglySorted_inv in Hs as [Hs Hle]. constructor; [by apply IH|].
  clear IH Hs. induction HF as [|rc' a' recs all E' _ IH]; [constructor|]. apply Forall_cons in Hle as [H1 H2]. constructor; [|by apply IH].
  by rewrite <- E, <- E'.
Qed.

Section Pages.
Context {A : Type} (t : string) (stored : row -> A -> Prop) (f nm : A -> string) (kfs : list (A -> list string)).
Context (q : select) (args : list value) (b : A -> bool) (scan : record -> outcome gerr A) (T : tabs) (l : list A).
Context (Hq : sel_table q = t) (Hw : forall r a, stored r a -> where_ok (sel_where q) args r = b a).
Context (Hscan : forall r a, stored r a -> scan (project (sel_cols q) r) = Ok a).
Context (Hname : forall r a, stored r a -> text_of (col (project (sel_cols q) r) "name") = nm a).
Context (Hord : sel_order q = Some "name"%string) (Hrep : rep t stored ((fun a => [f a]) :: kfs) T l).
Context (Hdis : sel_distinct q = true -> NoDup (project (sel_cols q) <$> rows_of T t)).
Context (full : Z -> bool) (per : Z).
Context (Hlim : sel_limit q = true -> 0 <= per /\ args !! length (sel_where q) = Some (VInt per) /\ full per = true).

Lemma page_of_answer ans : selected T q args ans -> exists items, scan_all scan ans = Ok items /\ scan_some scan ans = items /\
  is_page nm b full per (by_id f l) (page_of nm per items).
Proof.
  intros Hs. destruct (selected_all t stored _ q args b Hq Hw T l ans Hrep Hdis Hs) as (all & HP & recs & HF & Hso & Hans).
  assert (exists k, ans = take k recs /\ (length recs <= k \/ (sel_limit q = true /\ k = Z.to_nat per))%nat) as (k & -> & Hk).
  { destruct (sel_limit q) eqn:El; [|exists (length recs); split; [by rewrite take_ge|left; lia]].
    destruct (Hlim eq_refl) as (_ & Ha & _). rewrite Ha in Hans. exists (Z.to_nat per). split; [done|right; done]. }
  assert (Forall2 (fun rc a => exists r, stored r a /\ rc = project (sel_cols q) r) (take k recs) (take k all)) as HFk by (by apply Forall2_take).
  destruct (scans stored q scan id Hscan _ _ HFk) as [S1 S2]. rewrite list_fmap_id in S1, S2. exists (take k all). split; [done|]. split; [done|].
  assert (NoDup (f <$> all)) as Hnd.
  { destruct Hrep as [Hu _]. apply uniq_ids in Hu. rewrite <- HP. eapply sublist_NoDup; [exact Hu|]. apply fmap_sublist, sublist_filter. }
  assert (StronglySorted (fun x y => str_le (nm x) (nm y)) all) as Hsa.
  { eapply sorted_images; [|by apply Hso]. eapply Forall2_impl; [exact HF|]. intros rc a (r & Hr & ->). by apply Hname. }
  assert (NoDup (f <$> l)) as Hnl by (destruct Hrep as [Hu _]; by apply uniq_ids in Hu).
  unfold is_page. cbn [Items page_of]. split; [done|]. split; [eapply StronglySorted_sub; [apply sublist_take|done]|]. split; [|split].
  - eapply sublist_NoDup; [eapply NoDup_fmap_1; exact Hnd|]. apply sublist_take.
  - intros x Hx. assert (x ∈ all) as Hxa by (eapply subseteq_take, Hx). rewrite <- HP in Hxa. apply list_elem_of_filter in Hxa as [Hb Hin].
    split; [done|]. exists (f x). by apply by_id_elem.
  - intros j x [Hx _]%by_id_elem Hb; [|done]. assert (x ∈ all) as Hxa by (rewrite <- HP; by apply list_elem_of_filter).
    rewrite <- (take_drop k all) in Hxa. apply elem_of_app in Hxa as [Hxa|Hxd]; [by left|]. right.
    assert (length all = length recs) as Elen by (symmetry; by eapply Forall2_length).
    assert (k < length all)%nat as Hlt. { destruct (drop k all) eqn:Ed; [by apply not_elem_of_nil in Hxd|]. apply (f_equal length) in Ed. rewrite length_drop in Ed. cbn in Ed. lia. }
    destruct Hk as [?|[El ->]]; [lia|]. destruct (Hlim El) as (Hpos & _ & Hfull). split.
    + rewrite length_take. replace (Z.of_nat (Z.to_nat per `min` length all)) with per by lia. done.
    + intros y Hy. rewrite <- (take_drop (Z.to_nat per) all) in Hsa. exact (StronglySorted_app_le _ _ _ y x Hsa Hy Hxd).
Qed.
End Pages.

(** What the conditions of a list ask. *)
Lemma carg_holds c p o w args r x : r !! p = Some (VText x) ->
  where_ok (cond c (p, o) ++ w) (carg c ++ args) r =
  (streq c "" || match o with Ceq => streq x c | Cgt => strlt c x end) && where_ok w args r.
Proof. intros E. unfold cond, carg. destruct (streq c ""); [done|]. cbn. by rewrite E. Qed.
Lemma matches_swap w x : streq w "" || streq x w = matches w x.
Proof. unfold matches. f_equal. unfold streq. apply bool_decide_ext. split; congruence. Qed.
Lemma where_more w args more r : length w = length args -> where_ok w (args ++ more) r = where_ok w args r.
Proof. revert args. induction w as [|[c o] w IH]; intros [|v args] E; try done. cbn. rewrite IH; [done|]. by injection E. Qed.
Lemma cond_args c p : length (cond c p) = length (carg c).
Proof. unfold cond, carg. by destruct (streq c ""). Qed.

Section Filters.
Context {ST : StoreText} (addr : nat).

Lemma apps_where f c r a : stored_app addr r a ->
  where_ok (sel_where (apps_query c (af_Name f))) (carg c ++ carg (af_Name f) ++ [VInt (af_PerPage f)]) r = sql_app_kept f c a.
Proof.
  intros [Hi Hn]%app_col. cbn [sel_where apps_query]. rewrite <- (app_nil_r (cond (af_Name f) _)).
  rewrite (carg_holds _ _ _ _ _ _ _ Hn), (carg_holds _ _ _ _ _ _ _ Hn), matches_swap. unfold sql_app_kept. cbn. by rewrite andb_true_r.
Qed.
Lemma fns_where f c r a : stored_fn r a ->
  where_ok (sel_where (fns_query (ff_AppID f) c (ff_Name f) (0 <? ff_PerPage f))) ((carg (ff_AppID f) ++ carg c ++ carg (ff_Name f)) ++ limit_arg (ff_PerPage f)) r =
  sql_fn_kept f c a.
Proof.
  intros (Hi & Hn & Ha)%fn_col. cbn [sel_where fns_query]. rewrite where_more by (by rewrite !length_app, !cond_args).
  rewrite <- (app_nil_r (cond (ff_Name f) _)), <- (app_nil_r (carg (ff_Name f))).
  rewrite (carg_holds _ _ _ _ _ _ _ Ha), !(carg_holds _ _ _ _ _ _ _ Hn), !matches_swap. unfold sql_fn_kept. cbn. by rewrite andb_true_r, andb_assoc.
Qed.
Lemma triggers_where f c r a : stored_trigger r a ->
  where_ok (sel_where (triggers_query (tf_FnID f) (tf_Name f) (negb (streq (tf_Cursor f) "")) (0 <? tf_PerPage f)))
    (([VText (tf_AppID f)] ++ carg (tf_FnID f) ++ carg (tf_Name f) ++ (if streq (tf_Cursor f) "" then [] else [VText c])) ++ limit_arg (tf_PerPage f)) r =
  trigger_kept f c a.
Proof.
  intros (Hi & Hn & Ha & Hf & _)%trigger_col. cbn [sel_where triggers_query].
  rewrite where_more by (rewrite !length_app, !cond_args; by destruct (streq (tf_Cursor f) "")).
  cbn [app where_ok]. rewrite Ha. cbn [holds]. rewrite (carg_holds _ _ _ _ _ _ _ Hf), (carg_holds _ _ _ _ _ _ _ Hn), !matches_swap.
  unfold trigger_kept. destruct (streq (tf_Cursor f) ""); cbn [negb where_ok orb andb]; rewrite ?Hn; cbn [holds]; rewrite ?andb_true_r.
  - by rewrite andb_assoc.
  - rewrite !andb_assoc. destruct (strlt c (tr_Name a)), (streq (tr_AppID a) (tf_AppID f)), (matches (tf_FnID f) (tr_FnID a)), (matches (tf_Name f) (tr_Name a)); done.
Qed.

Lemma app_read_name r a : stored_app addr r a -> text_of (col (project app_cols r) "name") = app_Name a.
Proof. intros [_ Hn]%app_col. cbn. unfold column. cbn. by rewrite Hn. Qed.
Lemma fn_read_name r a : stored_fn r a -> text_of (col (project fn_cols r) "name") = fn_Name a.
Proof. intros (_ & Hn & _)%fn_col. cbn. unfold column. cbn. by rewrite Hn. Qed.
Lemma trigger_read_name r a : stored_trigger r a -> text_of (col (project trigger_cols r) "name") = tr_Name a.
Proof. intros (_ & Hn & _)%trigger_col. cbn. unfold column. cbn. by rewrite Hn. Qed.

(** No two applications give the same answer. *)
Lemma distinct_apps T l : rep "apps" (stored_app addr) app_keys T l -> NoDup (project app_cols <$> rows_of T "apps").
Proof.
  intros (Hu & rows & HP & HF). apply uniq_ids in Hu. rewrite HP. apply (NoDup_fmap_1 (scan_app addr)). rewrite <- list_fmap_compose.
  assert ((scan_app addr ∘ project app_cols) <$> rows = Ok <$> l) as ->.
  { clear Hu HP. induction HF as [|r a rows l Hr _ IH]; [done|]. rewrite !fmap_cons, IH. unfold compose. by rewrite (read_app _ _ _ Hr). }
  apply NoDup_fmap_2; [by intros ?? [= ->]|]. by apply NoDup_fmap_1 in Hu.
Qed.
End Filters.

(** *** Changes *)

Section Change.
Context {A DB : Type} `{Engine sql_schema DB} (t : string) (sch : schema) (stored : row -> A -> Prop) (f : A -> string) (kfs : list (A -> list string)).
Context (Ht : sql_schema !! t = Some sch).
Context (Hkeys : Forall2 (fun k kf => forall r a r' a', stored r a -> stored r' a' -> same_key k r r' = bool_decide (kf a = kf a')) (sch_keys sch) ((fun a => [f a]) :: kfs)).
Context (text : string) (args : list value) (l : list A) (db : DB) (Hrep : rep t stored ((fun a => [f a]) :: kfs) (current db) l).

(** The rows with a given value in a column go. *)
Lemma Exec_delete c x (g : A -> string) db' r : (forall r a, stored r a -> r !! c = Some (VText (g a))) ->
  parse text = Some (SDelete t [(c, Ceq)]) -> runnable sql_schema (SDelete t [(c, Ceq)]) [VText x] = true ->
  Exec text [VText x] db = (db', r) -> executed db db' /\
  ((r = Ok (Z.of_nat (length (base.filter (fun a => streq (g a) x = true) l))) /\
      rep t stored ((fun a => [f a]) :: kfs) (current db') (base.filter (fun a => streq (g a) x = false) l) /\ only_here t db db') \/
   (broken db = true /\ current db' = current db /\ exists e, r = Err (SDb e))).
Proof.
  intros Hg Hp Hrun E. assert (forall r a, stored r a -> where_ok [(c, Ceq)] [VText x] r = streq (g a) x) as Hw.
  { intros r0 a Hr. cbn. rewrite (Hg r0 a Hr). apply andb_true_r. }
  destruct (delete_rows t stored _ (current db) _ _ _ l Hrep Hw) as [Hu Hout].
  destruct (Exec_run t sch stored _ Ht Hkeys text _ _ _ db Hp Hrun (fun q => ltac:(discriminate)) Hout db' r E) as [He [(n & -> & Hd & Hr & Ho)|[(Hn & _)|Hb]]].
  - split; [done|]. left. split; [|exact (conj Hr Ho)]. f_equal. by eapply delete_count.
  - by destruct Hn.
  - split; [done|by right].
Qed.

Lemma Exec_insert cs a db' r : stored (new_row cs args) a -> parse text = Some (SInsert t cs) -> runnable sql_schema (SInsert t cs) args = true ->
  Exec text args db = (db', r) -> executed db db' /\
  ((exists n, r = Ok n /\ rep t stored ((fun a => [f a]) :: kfs) (current db') (a :: l) /\ only_here t db db') \/
   (~ uniq ((fun a => [f a]) :: kfs) (a :: l) /\ current db' = current db /\ exists e, r = Err (SDb e) /\ IsDuplicateKeyError eng_helper e = true) \/
   (broken db = true /\ current db' = current db /\ exists e, r = Err (SDb e))).
Proof.
  intros Ha Hp Hrun E. pose proof (insert_rows t stored _ (current db) cs args a l Hrep Ha) as Hout.
  destruct (Exec_run t sch stored _ Ht Hkeys text _ _ _ db Hp Hrun (fun q => ltac:(discriminate)) Hout db' r E) as [He [(n & Hr & _ & Ho)|Hor]]; (split; [done|]).
  - left. exists n. exact (conj Hr Ho).
  - by right.
Qed.

(** The row with a given value in a key column becomes another. *)
Lemma Exec_update set c x (g : A -> string) (a : A) db' r : (forall r a, stored r a -> r !! c = Some (VText (g a))) ->
  (forall r b, stored r b -> b ∈ l -> g b = x -> stored (set_row set args r) a) -> drop (length set) args = [VText x] ->
  parse text = Some (SUpdate t set [(c, Ceq)]) -> runnable sql_schema (SUpdate t set [(c, Ceq)]) args = true ->
  Exec text args db = (db', r) -> executed db db' /\
  ((exists n, r = Ok n /\ rep t stored ((fun a => [f a]) :: kfs) (current db') ((fun b => if streq (g b) x then a else b) <$> l) /\ only_here t db db') \/
   (~ uniq ((fun a => [f a]) :: kfs) ((fun b => if streq (g b) x then a else b) <$> l) /\ current db' = current db /\
      exists e, r = Err (SDb e) /\ IsDuplicateKeyError eng_helper e = true) \/
   (broken db = true /\ current db' = current db /\ exists e, r = Err (SDb e))).
Proof.
  intros Hg Hset Hd Hp Hrun E. assert (forall r a, stored r a -> where_ok [(c, Ceq)] (drop (length set) args) r = streq (g a) x) as Hw.
  { intros r0 b Hr. rewrite Hd. cbn. rewrite (Hg r0 b Hr). apply andb_true_r. }
  pose proof (update_rows t stored _ (current db) set [(c, Ceq)] args (fun b => streq (g b) x) (fun _ => a) l Hrep Hw
    (fun r b Hr Hb Hx => Hset r b Hr Hb (proj1 (streq_spec _ _) Hx))) as Hout.
  destruct (Exec_run t sch stored _ Ht Hkeys text _ _ _ db Hp Hrun (fun q => ltac:(discriminate)) Hout db' r E) as [He [(n & Hr & _ & Ho)|Hor]]; (split; [done|]).
  - left. exists n. exact (conj Hr Ho).
  - by right.
Qed.
End Change.

(** What maps become. *)
Lemma by_id_cons {A} (f : A -> string) a l : by_id f (a :: l) = <[f a := a]> (by_id f l).
Proof. done. Qed.
Lemma by_id_set {A} (f : A -> string) i c l : NoDup (f <$> l) -> f c = i -> is_Some (by_id f l !! i) ->
  by_id f ((fun a => if streq (f a) i then c else a) <$> l) = <[i := c]> (by_id f l).
Proof.
  intros Hn Hc Hs. assert (f <$> ((fun a => if streq (f a) i then c else a) <$> l) = f <$> l) as Ef.
  { rewrite <- list_fmap_compose. apply list_fmap_ext. intros _ a _. unfold compose. destruct (streq (f a) i) eqn:E; [apply streq_spec in E; congruence|done]. }
  apply map_eq. intros j. apply option_eq. intros x. rewrite by_id_elem, lookup_insert_Some, by_id_elem by (rewrite ?Ef; done).
  rewrite list_elem_of_fmap. split.
  - intros [(a & -> & Ha) Hj]. destruct (streq (f a) i) eqn:E; [left; split; congruence|]. right. split_and!; [|done|done].
    intros <-. rewrite Hj, streq_refl in E. done.
  - intros [[<- <-]|(Hne & Hx & <-)].
    + split; [|done]. destruct Hs as [b [Hb <-]%by_id_elem]; [|done]. exists b. by rewrite streq_refl.
    + split; [|done]. exists x. split; [|done]. destruct (streq (f x) i) eqn:E; [apply streq_spec in E; congruence|done].
Qed.
Lemma by_id_delete {A} (f : A -> string) i l : NoDup (f <$> l) -> by_id f (base.filter (fun a => streq (f a) i = false) l) = base.delete i (by_id f l).
Proof.
  intros Hn. rewrite by_id_filter by done. apply map_eq. intros j. apply option_eq. intros x. rewrite map_lookup_filter_Some, lookup_delete_Some.
  assert (by_id f l !! j = Some x -> streq (f x) i = false <-> i <> j) as Hx.
  { intros [_ <-]%by_id_elem; [|done]. unfold streq. rewrite bool_decide_eq_false. split; congruence. }
  cbn. split; [intros [H1 H2]; split; [by apply Hx|done]|intros [H1 H2]; split; [done|by apply Hx]].
Qed.
Lemma by_id_without {A} (f g : A -> string) i l : NoDup (f <$> l) ->
  by_id f (base.filter (fun a => streq (g a) i = false) l) = base.filter (fun p => g p.2 <> i) (by_id f l).
Proof.
  intros Hn. rewrite by_id_filter by done. apply map_filter_ext. intros j x _. cbn. unfold streq. rewrite bool_decide_eq_false. done.
Qed.

(** Keys of lists that changed. *)
Lemma fmap_NoDup_inj {A B} (k : A -> B) l x y : NoDup (k <$> l) -> x ∈ l -> y ∈ l -> k x = k y -> x = y.
Proof.
  intros Hn [a Ha]%list_elem_of_lookup [b Hb]%list_elem_of_lookup E. rewrite NoDup_alt in Hn.
  assert (a = b) as -> by (apply (Hn a b (k x)); rewrite list_lookup_fmap; [by rewrite Ha|rewrite Hb; cbn; by rewrite E]). congruence.
Qed.

Section Keys.
Context {A : Type} (f : A -> string) (k : A -> list string) (l : list A) (c : A) (P : A -> Prop).
Context (Hu : uniq [fun a => [f a]; k] l).

Lemma keys_ids : NoDup (f <$> l).
Proof. by apply uniq_ids in Hu. Qed.
Lemma keys_second : NoDup (k <$> l).
Proof. apply Forall_cons in Hu as [_ H]. by apply Forall_cons in H as [H _]. Qed.

Lemma uniq_both l' : NoDup (f <$> l') -> NoDup (k <$> l') -> uniq [fun a => [f a]; k] l'.
Proof.
  intros H1 H2. repeat constructor; [|done]. change (fun a => [f a]) with ((fun x : string => [x]) ∘ f). rewrite list_fmap_compose.
  apply NoDup_fmap_2; [by intros ?? [= ->]|done].
Qed.

Lemma uniq_insert : (forall b, k b = k c <-> P b) -> by_id f l !! f c = None ->
  (uniq [fun a => [f a]; k] (c :: l) /\ nobody P (by_id f l)) \/ (~ uniq [fun a => [f a]; k] (c :: l) /\ somebody P (by_id f l)).
Proof.
  intros HP Hf. destruct (decide (k c ∈ k <$> l)) as [(b & E & Hb)%list_elem_of_fmap|Hn].
  - right. split; [|exists (f b), b; split; [apply by_id_elem; [apply keys_ids|done]|by apply HP]].
    intros [_ [H _]%Forall_cons]%Forall_cons. rewrite fmap_cons, NoDup_cons in H. destruct H as [H _]. apply H. rewrite E. by apply list_elem_of_fmap_2.
  - left. split.
    + apply uniq_both; rewrite fmap_cons; apply NoDup_cons; [split; [|apply keys_ids]|split; [done|apply keys_second]].
      intros (b & E & Hb)%list_elem_of_fmap. assert (by_id f l !! f c = Some b); [|congruence]. by apply by_id_elem; [apply keys_ids|].
    + intros j b [Hb _]%by_id_elem Hp; [|apply keys_ids]. apply Hn. apply HP in Hp. rewrite <- Hp. by apply list_elem_of_fmap_2.
Qed.

Lemma uniq_update i : (forall b, k b = k c <-> P b) -> f c = i -> is_Some (by_id f l !! i) ->
  let l' := (fun b => if streq (f b) i then c else b) <$> l in
  (uniq [fun a => [f a]; k] l' /\ nobody (fun b => f b <> i /\ P b) (by_id f l)) \/
  (~ uniq [fun a => [f a]; k] l' /\ somebody (fun b => f b <> i /\ P b) (by_id f l)).
Proof.
  intros HP Hc [a [Ha Hai]%by_id_elem] l'; [|apply keys_ids].
  assert (f <$> l' = f <$> l) as Ef.
  { unfold l'. rewrite <- list_fmap_compose. apply list_fmap_ext. intros _ b _. unfold compose. destruct (streq (f b) i) eqn:E; [apply streq_spec in E; congruence|done]. }
  assert (forall b, b ∈ l -> f b <> i -> b ∈ l') as Hin.
  { intros b Hb Hne. apply list_elem_of_fmap. exists b. split; [|done]. destruct (streq (f b) i) eqn:E; [by apply streq_spec in E|done]. }
  assert (c ∈ l') as Hcl. { apply list_elem_of_fmap. exists a. rewrite Hai, streq_refl. done. }
  assert (forall x, x ∈ l' -> x = c \/ (x ∈ l /\ f x <> i)) as Hout.
  { intros x (b & -> & Hb)%list_elem_of_fmap. destruct (streq (f b) i) eqn:E; [by left|]. right. split; [done|]. intros Hx. rewrite Hx, streq_refl in E. done. }
  destruct (decide (Exists (fun b => f b <> i /\ k b = k c) l)) as [(b & Hb & Hbi & Hbk)%Exists_exists|Hno].
  - right. split; [|exists (f b), b; split; [apply by_id_elem; [apply keys_ids|done]|split; [done|by apply HP]]].
    intros [_ [H _]%Forall_cons]%Forall_cons. pose proof (fmap_NoDup_inj k l' b c H (Hin b Hb Hbi) Hcl Hbk). congruence.
  - left. assert (forall b, b ∈ l -> f b <> i -> k b <> k c) as Hne. { intros b Hb Hbi Hbk. apply Hno, Exists_exists. by exists b. }
    split; [|intros j b [Hb _]%by_id_elem [Hbi Hp]; [|apply keys_ids]; apply HP in Hp; by apply (Hne b)].
    apply uniq_both; [rewrite Ef; apply keys_ids|]. apply NoDup_fmap_2_strong.
    + intros x y [->|[Hx Hxi]]%Hout [->|[Hy Hyi]]%Hout E; [done|by destruct (Hne y)|by destruct (Hne x)|].
      exact (fmap_NoDup_inj k l x y keys_second Hx Hy E).
    + apply (NoDup_fmap_1 f). rewrite Ef. apply keys_ids.
Qed.
End Keys.

(** Inserts and updates in a table with an id and one more key. *)
Section Keyed.
Context {A DB : Type} `{Engine sql_schema DB} (t : string) (sch : schema) (stored : row -> A -> Prop) (f : A -> string) (k : A -> list string).
Context (Ht : sql_schema !! t = Some sch).
Context (Hkeys : Forall2 (fun k kf => forall r a r' a', stored r a -> stored r' a' -> same_key k r r' = bool_decide (kf a = kf a')) (sch_keys sch) [fun a => [f a]; k]).
Context (text : string) (args : list value) (l : list A) (db : DB) (Hrep : rep t stored [fun a => [f a]; k] (current db) l).
Context (c : A) (P : A -> Prop) (HP : forall b, k b = k c <-> P b).

Lemma insert_new cs db' r : stored (new_row cs args) c -> by_id f l !! f c = None ->
  parse text = Some (SInsert t cs) -> runnable sql_schema (SInsert t cs) args = true -> Exec text args db = (db', r) -> executed db db' /\
  ((exists n, r = Ok n /\ nobody P (by_id f l) /\ rep t stored [fun a => [f a]; k] (current db') (c :: l) /\ only_here t db db') \/
   (somebody P (by_id f l) /\ current db' = current db /\ exists e, r = Err (SDb e) /\ IsDuplicateKeyError eng_helper e = true) \/
   (broken db = true /\ current db' = current db /\ exists e, r = Err (SDb e))).
Proof.
  intros Hs Hf Hp Hrun E. destruct (Exec_insert t sch stored f [k] Ht Hkeys text args l db Hrep cs c db' r Hs Hp Hrun E) as [He Ho].
  clear Ht Hp Hrun E. split; [done|]. destruct Hrep as [Hq _].
  destruct (uniq_insert f k l c P Hq HP Hf) as [[Hq2 Hn]|[Hnu Hsb]]; destruct Ho as [(n & -> & Hrn & Hon)|[(Hnu' & Hd)|Hb]].
  - left. exists n. by split_and!.
  - by destruct Hnu'.
  - by right; right.
  - destruct Hrn as [Hq2 _]. by destruct Hnu.
  - by right; left.
  - by right; right.
Qed.

Lemma update_new set col0 x i (g : A -> string) db' r : (forall r a, stored r a -> r !! col0 = Some (VText (g a))) ->
  (forall r b, stored r b -> b ∈ l -> g b = x -> stored (set_row set args r) c) -> drop (length set) args = [VText x] ->
  f c = i -> is_Some (by_id f l !! i) ->
  (fun b => if streq (g b) x then c else b) <$> l = (fun b => if streq (f b) i then c else b) <$> l ->
  parse text = Some (SUpdate t set [(col0, Ceq)]) -> runnable sql_schema (SUpdate t set [(col0, Ceq)]) args = true ->
  Exec text args db = (db', r) -> executed db db' /\
  ((exists n l', r = Ok n /\ nobody (fun b => f b <> i /\ P b) (by_id f l) /\ rep t stored [fun a => [f a]; k] (current db') l' /\ only_here t db db' /\
      by_id f l' = <[i := c]> (by_id f l)) \/
   (somebody (fun b => f b <> i /\ P b) (by_id f l) /\ exists e, r = Err (SDb e) /\ IsDuplicateKeyError eng_helper e = true) \/
   (broken db = true /\ exists e, r = Err (SDb e))).
Proof.
  intros Hg Hs Hd Hc Hi El Hp Hrun E.
  destruct (Exec_update t sch stored f [k] Ht Hkeys text args l db Hrep set col0 x g c db' r Hg Hs Hd Hp Hrun E) as [He Ho].
  clear Ht Hp Hrun E. split; [done|]. destruct Hrep as [Hq _]. rewrite El in Ho.
  destruct (uniq_update f k l c P Hq i HP Hc Hi) as [[Hq2 Hn]|[Hnu Hsb]]; destruct Ho as [(n & -> & Hrn & Hon)|[(Hnu' & _ & Hd')|(Hb & _ & Hd')]].
  - left. eexists n, _. split_and!; [done..|]. apply by_id_set; [by apply uniq_ids in Hq|done..].
  - by destruct Hnu'.
  - by right; right.
  - destruct Hrn as [Hq2 _]. by destruct Hnu.
  - by right; left.
  - by right; right.
Qed.
End Keyed.

Section Holds.
Context {ST : StoreText} (addr : nat) (T T' : tabs) (m : mock).
Context (Hm : holds_store addr T m).

Lemma holds_apps l : rep "apps" (stored_app addr) app_keys T' l -> (forall t', t' <> "apps"%string -> rows_of T' t' = rows_of T t') ->
  holds_store addr T' (Mock l (m_Fns m) (m_Triggers m)).
Proof. intros Hr Ho. destruct Hm as [_ Hf Htr]. split; [done|by eapply rep_other, Hf; apply Ho|by eapply rep_other, Htr; apply Ho]. Qed.
Lemma holds_fns l : rep "fns" stored_fn fn_keys T' l -> (forall t', t' <> "fns"%string -> rows_of T' t' = rows_of T t') ->
  holds_store addr T' (Mock (m_Apps m) l (m_Triggers m)).
Proof. intros Hr Ho. destruct Hm as [Ha _ Htr]. split; [by eapply rep_other, Ha; apply Ho|done|by eapply rep_other, Htr; apply Ho]. Qed.
Lemma holds_trs l : rep "triggers" stored_trigger trigger_keys T' l -> (forall t', t' <> "triggers"%string -> rows_of T' t' = rows_of T t') ->
  holds_store addr T' (Mock (m_Apps m) (m_Fns m) l).
Proof. intros Hr Ho. destruct Hm as [Ha Hf _]. split; [by eapply rep_other, Ha; apply Ho|by eapply rep_other, Hf; apply Ho|done]. Qed.
End Holds.

(** The programs stay in their transactions. *)
Ltac safe_tx := repeat match goal with
  | |- safe (ret _) => apply safe_ret
  | |- safe (check _) => apply safe_ret
  | |- safe (QueryRow _ _ _) => apply safe_QueryRow
  | |- safe (NamedExec _ _) => apply safe_NamedExec
  | |- safe (Exec _ _) => apply safe_Exec
  | |- safe (exec_all _ _) => apply safe_exec_all
  | |- safe (mapped _ _) => apply safe_bind; [|intros ?; apply safe_ret]
  | |- safe (then_ _ _) => apply safe_then; [|intros ?]
  | |- safe (bind _ _) => apply safe_bind; [|intros ?]
  | |- safe (match _ with _ => _ end) => case_match
  end.

Section Ops.
Context {MR : MapRange} {U : UnicodeTables} {ST : StoreText}.
Context {DB : Type} `{Engine sql_schema DB}.
Context (url_scheme : string -> outcome string string) (lim : Limits) (addr : nat).
#[local] Instance sql_store : Datastore DB := sql_Datastore url_scheme lim addr.

(** The two operations that go on after a query that failed. *)
Definition unchecked (o : ds_op) : bool := match o with OInsertFn _ | ORemoveFn _ => true | _ => false end.

(** What an operation has done to the store. *)
Definition meets (db : DB) (m : mock) (now : Z) (i : string) (o : ds_op) (db' : DB) (r : outcome gerr ds_val) : Prop :=
  (broken db = false -> broken db' = false) /\ (r <> Panic -> in_tx db' = false) /\
  exists m', holds_store addr (committed db') m' /\
    (sql_spec url_scheme lim addr (abs m) now i o r (abs m') \/
     (broken db = true /\ (unchecked o = true \/ abs m' = abs m \/ exists r', sql_spec url_scheme lim addr (abs m) now i o r' (abs m')))).

Context (db : DB) (m : mock) (Hrep : holds_store addr (committed db) m) (Htx : in_tx db = false).
Context (now : Z) (i : string) (Hnow : time_ok now).

Lemma cur_rep : holds_store addr (current db) m.
Proof. by rewrite <- (no_tx db Htx). Qed.

(** A query: the store is as it was. *)
Lemma meets_query o db' r : queried db db' ->
  (sql_spec url_scheme lim addr (abs m) now i o r (abs m) \/ broken db = true) -> meets db m now i o db' r.
Proof.
  intros (Hc & _ & Ht & Hb) Hs. split; [done|]. split; [by rewrite Ht|]. exists m. rewrite Hc. split; [done|].
  destruct Hs as [Hs|Hbr]; [by left|]. right. split; [done|]. right. by left.
Qed.

Lemma app_row_of_id dbx x db' r : holds_store addr (current dbx) m -> QueryRow (scan_app addr) appIDSelector [VText x] dbx = (db', r) ->
  queried dbx db' /\ ((exists a, s_apps (abs m) !! x = Some a /\ r = Ok a) \/ (s_apps (abs m) !! x = None /\ r = Err SNoRows) \/
    (broken dbx = true /\ exists e, r = Err (SDb e))).
Proof.
  intros Hh. refine (row_of_id "apps" (stored_app addr) app_ID [fun a => [app_Name a]] _ one_app (scan_app addr) id appIDSelector x (m_Apps m) dbx eq_refl eq_refl eq_refl eq_refl (read_app addr) parse_appID (run_app x) (hs_apps _ _ _ Hh) db' r).
  intros r0 a Hr. by apply (app_col addr r0 a).
Qed.
Lemma fn_row_of_id dbx x db' r : holds_store addr (current dbx) m -> QueryRow scan_fn fnIDSelector [VText x] dbx = (db', r) ->
  queried dbx db' /\ ((exists a, s_fns (abs m) !! x = Some a /\ r = Ok a) \/ (s_fns (abs m) !! x = None /\ r = Err SNoRows) \/
    (broken dbx = true /\ exists e, r = Err (SDb e))).
Proof.
  intros Hh. refine (row_of_id "fns" stored_fn fn_ID [fun f => [fn_AppID f; fn_Name f]] _ one_fn scan_fn id fnIDSelector x (m_Fns m) dbx eq_refl eq_refl eq_refl eq_refl read_fn parse_fnID (run_fn x) (hs_fns _ _ _ Hh) db' r).
  intros r0 a Hr. by apply (fn_col r0 a).
Qed.
Lemma trigger_row_of_id dbx x db' r : holds_store addr (current dbx) m -> QueryRow scan_trigger triggerIDSelector [VText x] dbx = (db', r) ->
  queried dbx db' /\ ((exists a, s_trs (abs m) !! x = Some a /\ r = Ok a) \/ (s_trs (abs m) !! x = None /\ r = Err SNoRows) \/
    (broken dbx = true /\ exists e, r = Err (SDb e))).
Proof.
  intros Hh. refine (row_of_id "triggers" stored_trigger tr_ID [fun t => [tr_AppID t; tr_FnID t; tr_Name t]] _ one_trigger scan_trigger id triggerIDSelector x (m_Triggers m) dbx eq_refl eq_refl eq_refl eq_refl read_trigger parse_triggerID (run_trigger x) (hs_trs _ _ _ Hh) db' r).
  intros r0 a Hr. by apply (trigger_col r0 a).
Qed.

(** *** Getting *)

Lemma meets_GetAppByID x db' r : ds_run db now i (OGetAppByID x) = (db', r) -> meets db m now i (OGetAppByID x) db' r.
Proof.
  cbn. unfold giving, sql_GetAppByID, outcome_of, mapped, bind, ret. destruct (QueryRow _ _ _ db) as [db1 r1] eqn:E. cbn. intros [= <- <-].
  destruct (app_row_of_id db x db1 r1 cur_rep E) as [Hq Hc]. apply meets_query; [done|].
  destruct Hc as [(a & Ha & ->)|[[Hn ->]|[Hb _]]]; [left|left|by right]; (split; [done|]); [by rewrite Ha|by rewrite Hn].
Qed.
Lemma meets_GetFnByID x db' r : ds_run db now i (OGetFnByID x) = (db', r) -> meets db m now i (OGetFnByID x) db' r.
Proof.
  cbn. unfold giving, sql_GetFnByID, outcome_of, mapped, bind, ret. destruct (QueryRow _ _ _ db) as [db1 r1] eqn:E. cbn. intros [= <- <-].
  destruct (fn_row_of_id db x db1 r1 cur_rep E) as [Hq Hc]. apply meets_query; [done|].
  destruct Hc as [(a & Ha & ->)|[[Hn ->]|[Hb _]]]; [left|left|by right]; (split; [done|]); [by rewrite Ha|by rewrite Hn].
Qed.
Lemma meets_GetTriggerByID x db' r : ds_run db now i (OGetTriggerByID x) = (db', r) -> meets db m now i (OGetTriggerByID x) db' r.
Proof.
  cbn. unfold giving, sql_GetTriggerByID, outcome_of, mapped, bind, ret. destruct (QueryRow _ _ _ db) as [db1 r1] eqn:E. cbn. intros [= <- <-].
  destruct (trigger_row_of_id db x db1 r1 cur_rep E) as [Hq Hc]. apply meets_query; [done|].
  destruct Hc as [(a & Ha & ->)|[[Hn ->]|[Hb _]]]; [left|left|by right]; (split; [done|]); [by rewrite Ha|by rewrite Hn].
Qed.

(** A resource with a property, by the list that holds it. *)
Lemma somebody_elem {A} (f : A -> string) (b : A -> bool) (P : A -> Prop) l a : NoDup (f <$> l) -> (forall x, b x = true <-> P x) ->
  a ∈ l -> b a = true -> by_id f l !! f a = Some a /\ P a.
Proof. intros Hn Hb Ha Hba. split; [by apply by_id_elem|by apply Hb]. Qed.
Lemma nobody_elem {A} (f : A -> string) (b : A -> bool) (P : A -> Prop) l : NoDup (f <$> l) -> (forall x, b x = true <-> P x) ->
  (forall a, a ∈ l -> b a = false) -> nobody P (by_id f l).
Proof. intros Hn Hb Hno j a [Ha _]%by_id_elem HP; [|done]. apply Hb in HP. by rewrite (Hno a Ha) in HP. Qed.

Lemma app_ids : NoDup (app_ID <$> m_Apps m).
Proof. destruct (hs_apps _ _ _ Hrep) as [Hu _]. by apply uniq_ids in Hu. Qed.
Lemma fn_ids : NoDup (fn_ID <$> m_Fns m).
Proof. destruct (hs_fns _ _ _ Hrep) as [Hu _]. by apply uniq_ids in Hu. Qed.
Lemma trigger_ids : NoDup (tr_ID <$> m_Triggers m).
Proof. destruct (hs_trs _ _ _ Hrep) as [Hu _]. by apply uniq_ids in Hu. Qed.

Lemma meets_GetAppID n db' r : ds_run db now i (OGetAppID n) = (db', r) -> meets db m now i (OGetAppID n) db' r.
Proof.
  cbn. unfold giving, sql_GetAppID, outcome_of, mapped, bind, then_, bind, ret. destruct (QueryRow _ _ _ db) as [db1 r1] eqn:E. intros Hr.
  assert (forall r0 a, stored_app addr r0 a -> where_ok (sel_where app_id_by_name) [VText n] r0 = streq (app_Name a) n) as Hw.
  { intros r0 a Ha. cbn. destruct (app_col addr r0 a Ha) as [_ ->]. apply streq_and_true. }
  assert (forall r0 a, stored_app addr r0 a -> scan_app addr (project (sel_cols app_id_by_name) r0) = Ok (MkApp (app_ID a) "" None None None 0 0)) as Hs.
  { intros r0 a Ha. destruct (app_col addr r0 a Ha) as [Hi _]. unfold project, column. cbn. by rewrite Hi. }
  destruct (QueryRow_run "apps" _ _ app_id_by_name _ _ eq_refl Hw _ _ Hs ensureAppSelector _ db parse_ensureApp (run_ensureApp n) (hs_apps _ _ _ cur_rep) db1 r1 eq_refl eq_refl E) as [Hq Hc].
  assert (forall x, streq (app_Name x) n = true <-> app_Name x = n) as Hb by (intros x; apply streq_spec).
  destruct Hc as [(a & Ha & Hb' & ->)|[[Hn ->]|(Hbr & e & ->)]]; injection Hr as <- <-; (apply meets_query; [done|]); [left|left|by right]; (split; [done|]).
  - left. destruct (somebody_elem app_ID _ _ _ a app_ids Hb Ha Hb') as [H1 H2]. exact (ex_intro _ _ (ex_intro _ a (conj H1 (conj H2 eq_refl)))).
  - right. split; [|done]. exact (nobody_elem app_ID _ _ _ app_ids Hb Hn).
Qed.

Lemma meets_GetTriggerBySource x y z db' r : ds_run db now i (OGetTriggerBySource x y z) = (db', r) -> meets db m now i (OGetTriggerBySource x y z) db' r.
Proof.
  cbn. unfold giving, sql_GetTriggerBySource, outcome_of, mapped, bind, ret. destruct (QueryRow _ _ _ db) as [db1 r1] eqn:E. intros Hr.
  set (b := fun t => streq (tr_AppID t) x && (streq (tr_Type t) y && (streq (tr_Source t) z && true))).
  assert (forall r0 t, stored_trigger r0 t -> where_ok (sel_where by_source) [VText x; VText y; VText z] r0 = b t) as Hw.
  { intros r0 t Ht. cbn. destruct (trigger_col r0 t Ht) as (_ & _ & -> & _ & -> & ->). done. }
  destruct (QueryRow_run "triggers" _ _ by_source _ _ eq_refl Hw _ _ read_trigger triggerIDSourceSelector _ db parse_bySource (run_bySource x y z) (hs_trs _ _ _ cur_rep) db1 r1 eq_refl eq_refl E) as [Hq Hc].
  assert (forall t, b t = true <-> tr_AppID t = x /\ tr_Type t = y /\ tr_Source t = z) as Hb.
  { intros t. unfold b. rewrite !andb_true_iff, !streq_spec. tauto. }
  destruct Hc as [(a & Ha & Hb' & ->)|[[Hn ->]|(Hbr & e & ->)]]; injection Hr as <- <-; (apply meets_query; [done|]); [left|left|by right]; (split; [done|]).
  - left. destruct (somebody_elem tr_ID _ _ _ a trigger_ids Hb Ha Hb') as [H1 H2]. exact (ex_intro _ _ (ex_intro _ a (conj H1 (conj H2 eq_refl)))).
  - right. split; [|done]. exact (nobody_elem tr_ID _ _ _ trigger_ids Hb Hn).
Qed.
(** *** Lists *)

Lemma limit_lookup (w : list (string * cmp)) args per : length w = length args -> (0 <? per) = true ->
  (args ++ limit_arg per) !! length w = Some (VInt per).
Proof. intros E Hp. rewrite E, lookup_app_r, Nat.sub_diag by done. unfold limit_arg. by rewrite Hp. Qed.

Lemma meets_GetApps f db' r : 0 <= af_PerPage f -> ds_run db now i (OGetApps f) = (db', r) -> meets db m now i (OGetApps f) db' r.
Proof.
  intros Hper. cbn. unfold giving, sql_GetApps. destruct (page_cursor (af_Cursor f)) as [c|e|] eqn:Hc.
  2,3: unfold buildFilterAppQuery; change (cursor_of (af_Cursor f)) with (page_cursor (af_Cursor f)); rewrite Hc; intros [= <- <-];
    (apply meets_query; [by split_and!|]); left; (split; [done|]); by rewrite Hc.
  destruct (apps_text f c Hc) as (q & -> & Hp). unfold outcome_of, then_, bind, ret. destruct (Query _ _ db) as [db1 r1] eqn:E. intros Hr.
  assert (runnable sql_schema (SSelect (apps_query c (af_Name f))) (carg c ++ carg (af_Name f) ++ [VInt (af_PerPage f)]) = true) as Hrun
    by (rewrite run_apps; by apply Z.leb_le).
  destruct (Query_run _ _ _ _ Hp Hrun _ _ E) as [Hq [(recs & -> & Hs)|[(recs & ans & e & -> & _ & _ & Hb)|(Hb & e & ->)]]].
  2: cbn in Hr; destruct (scan_all _ _); injection Hr as <- <-; (apply meets_query; [done|by right]).
  2: injection Hr as <- <-; (apply meets_query; [done|by right]).
  destruct (page_of_answer "apps" (stored_app addr) app_ID app_Name [fun a => [app_Name a]] (apps_query c (af_Name f)) _ _ (scan_app addr) _ _
    eq_refl (apps_where addr f c) (read_app addr) (app_read_name addr) eq_refl (hs_apps _ _ _ cur_rep)
    (fun _ => distinct_apps addr _ _ (hs_apps _ _ _ cur_rep)) (fun n => n =? af_PerPage f) (af_PerPage f)) with (2 := Hs) as (items & Hsc & _ & Hpg).
  - intros _. split; [done|]. split; [|by apply Z.eqb_refl]. cbn [sel_where apps_query]. rewrite app_assoc, length_app, !cond_args, <- length_app.
    by rewrite lookup_app_r, Nat.sub_diag.
  - cbn [fst snd] in Hr. rewrite Hsc in Hr. injection Hr as <- <-. apply meets_query; [done|]. left. split; [done|]. rewrite Hc. eexists. split; [reflexivity|exact Hpg].
Qed.

Lemma full_page per : (0 <? per) = true -> 0 <= per /\ bounded per per = true.
Proof. intros E. unfold bounded. rewrite E. apply Z.ltb_lt in E. split; [lia|apply Z.eqb_refl]. Qed.

Lemma meets_GetFns f db' r : ds_run db now i (OGetFns f) = (db', r) -> meets db m now i (OGetFns f) db' r.
Proof.
  cbn. unfold giving, sql_GetFns. destruct (page_cursor (ff_Cursor f)) as [c|e|] eqn:Hc.
  2,3: unfold buildFilterFnQuery; change (cursor_of (ff_Cursor f)) with (page_cursor (ff_Cursor f)); rewrite Hc; intros [= <- <-];
    (apply meets_query; [by split_and!|]); left; (split; [done|]); by rewrite Hc.
  destruct (fns_text f c Hc) as (q & -> & Hp). unfold outcome_of, then_, bind, ret. destruct (Query _ _ db) as [db1 r1] eqn:E. intros Hr.
  destruct (Query_run _ _ _ _ Hp (run_fns _ _ _ _) _ _ E) as [Hq [(recs & -> & Hs)|[(recs & ans & e & -> & _ & _ & Hb)|(Hb & e & ->)]]].
  2,3: injection Hr as <- <-; (apply meets_query; [done|by right]).
  destruct (page_of_answer "fns" stored_fn fn_ID fn_Name [fun f => [fn_AppID f; fn_Name f]] (fns_query _ _ _ _) _ _ scan_fn _ _
    eq_refl (fns_where f c) read_fn fn_read_name eq_refl (hs_fns _ _ _ cur_rep)
    (fun H0 : false = true => False_rect _ (diff_false_true H0)) (bounded (ff_PerPage f)) (ff_PerPage f)) with (2 := Hs) as (items & _ & Hsc & Hpg).
  - cbn [sel_limit fns_query]. intros El. destruct (full_page _ El) as [Hp0 Hf]. split_and!; [done| |done].
    apply limit_lookup; [|done]. cbn [sel_where fns_query]. by rewrite !length_app, !cond_args.
  - cbn [fst snd] in Hr. rewrite Hsc in Hr. injection Hr as <- <-. apply meets_query; [done|]. left. split; [done|]. rewrite Hc. eexists. split; [reflexivity|exact Hpg].
Qed.

Lemma meets_GetTriggers f db' r : ds_run db now i (OGetTriggers f) = (db', r) -> meets db m now i (OGetTriggers f) db' r.
Proof.
  cbn. unfold giving, sql_GetTriggers. destruct (page_cursor (tf_Cursor f)) as [c|e|] eqn:Hc.
  2,3: unfold buildFilterTriggerQuery; change (cursor_of (tf_Cursor f)) with (page_cursor (tf_Cursor f)); rewrite Hc; intros [= <- <-];
    (apply meets_query; [by split_and!|]); left; (split; [done|]); by rewrite Hc.
  destruct (triggers_text f c Hc) as (q & -> & Hp). unfold outcome_of, then_, bind, ret. destruct (Query _ _ db) as [db1 r1] eqn:E. intros Hr.
  pose proof (run_triggers (tf_AppID f) (tf_FnID f) (tf_Name f) (negb (streq (tf_Cursor f) "")) c (tf_PerPage f)) as Hrun.
  rewrite !if_negb in Hrun.
  destruct (Query_run _ _ _ _ Hp Hrun _ _ E) as [Hq [(recs & -> & Hs)|[(recs & ans & e & -> & _ & _ & Hb)|(Hb & e & ->)]]].
  2,3: injection Hr as <- <-; (apply meets_query; [done|by right]).
  destruct (page_of_answer "triggers" stored_trigger tr_ID tr_Name [fun t => [tr_AppID t; tr_FnID t; tr_Name t]] (triggers_query _ _ _ _) _ _ scan_trigger _ _
    eq_refl (triggers_where f c) read_trigger trigger_read_name eq_refl (hs_trs _ _ _ cur_rep)
    (fun H0 : false = true => False_rect _ (diff_false_true H0)) (bounded (tf_PerPage f)) (tf_PerPage f)) with (2 := Hs) as (items & _ & Hsc & Hpg).
  - cbn [sel_limit triggers_query]. intros El. destruct (full_page _ El) as [Hp0 Hf]. split_and!; [done| |done].
    apply limit_lookup; [|done]. cbn [sel_where triggers_query]. rewrite !length_app, !cond_args. by destruct (streq (tf_Cursor f) "").
  - cbn [fst snd] in Hr. rewrite Hsc in Hr. injection Hr as <- <-. apply meets_query; [done|]. left. split; [done|]. cbn [sql_spec ds_spec]. rewrite Hc. eexists. split; [reflexivity|exact Hpg].
Qed.
(** *** Changes in a transaction *)

(** What the program of a transaction has done to the store, from a state in which
    it is [m]. *)
Definition works {A} (o : ds_op) (post : outcome serr A -> outcome gerr ds_val) (db2 : DB) (r : outcome serr A) : Prop :=
  match r with
  | Ok a => exists m', holds_store addr (current db2) m' /\
      (sql_spec url_scheme lim addr (abs m) now i o (post (Ok a)) (abs m') \/ (broken db = true /\ (unchecked o = true \/ abs m' = abs m)))
  | r => sql_spec url_scheme lim addr (abs m) now i o (post r) (abs m) \/ broken db = true
  end.

Lemma meets_tx {A} o (f : DB -> DB * outcome serr A) (post : outcome serr A -> outcome gerr ds_val) db' r : safe f ->
  (forall r, post r <> Panic -> r <> Panic) -> Tx f db = (db', r) ->
  (forall db1 db2 r2, holds_store addr (current db1) m -> (broken db1 = true -> broken db = true) -> f db1 = (db2, r2) -> works o post db2 r2) ->
  meets db m now i o db' (post r).
Proof.
  intros Hs Hp E Hw. destruct (Tx_run f db db' r Htx E Hs) as [(Hb & Ht & Hc & e & ->)|(db1 & db2 & r2 & _ & Hcur & Hb1 & Ef & Hb' & Hr)].
  { split; [by rewrite Hb|]. split; [done|]. exists m. rewrite Hc. split; [done|]. right. split; [done|]. right. by left. }
  assert (holds_store addr (current db1) m) as Hh by (by rewrite Hcur). assert (broken db1 = true -> broken db = true) as Hbb.
  { intros Hbr. destruct (broken db); [done|]. by rewrite Hb1 in Hbr. }
  specialize (Hw db1 db2 r2 Hh Hbb Ef). unfold works in Hw. split; [done|]. destruct r2 as [a|e|].
  - destruct Hr as [Ht Hr]. split; [done|]. destruct Hw as (m' & Hm' & Hw). destruct Hr as [[-> Hc]|(Hb & [e ->] & [Hc|Hc])].
    + exists m'. rewrite Hc. split; [done|]. destruct Hw as [?|(? & [?|?])]; [by left| |]; right; (split; [done|]); [by left|by right; left].
    + exists m. rewrite Hc. split; [done|]. right. split; [done|]. right. by left.
    + exists m'. rewrite Hc. split; [done|]. right. split; [done|]. destruct Hw as [?|(_ & [?|?])]; [right; right; by eexists|by left|by right; left].
  - destruct Hr as (Ht & Hc & ->). split; [done|]. exists m. rewrite Hc. split; [done|]. destruct Hw as [?|?]; [by left|]. right. split; [done|]. right. by left.
  - destruct Hr as (Hc & ->). split; [intros Hpp; by apply Hp in Hpp|]. exists m. rewrite Hc. split; [done|].
    destruct Hw as [?|?]; [by left|]. right. split; [done|]. right. by left.
Qed.

Lemma final_fine {A} (f : A -> ds_val) (r : outcome serr A) : omap_ok f (final r) <> Panic -> r <> Panic.
Proof. by destruct r. Qed.

(** Deleting from a store. *)
Definition without {A} (g : A -> string) (x : string) (l : list A) : list A := base.filter (fun a => streq (g a) x = false) l.
Definition has {A} (g : A -> string) (x : string) (l : list A) : Z := Z.of_nat (length (base.filter (fun a => streq (g a) x = true) l)).

Definition deleting (da dz : DB) (r : outcome serr Z) (n : Z) (m' : mock) : Prop :=
  executed da dz /\ ((r = Ok n /\ holds_store addr (current dz) m') \/ (broken da = true /\ exists e, r = Err (SDb e))).

Section Deleting.
Context (da dz : DB) (m0 : mock) (x : string) (r : outcome serr Z) (Hh : holds_store addr (current da) m0).

Lemma deleting_apps c (g : App -> string) text : (forall r a, stored_app addr r a -> r !! c = Some (VText (g a))) ->
  parse text = Some (SDelete "apps" [(c, Ceq)]) -> bool_decide (("apps"%string, c) ∈ deletes) = true -> Exec text [VText x] da = (dz, r) ->
  deleting da dz r (has g x (m_Apps m0)) (Mock (without g x (m_Apps m0)) (m_Fns m0) (m_Triggers m0)).
Proof.
  intros Hg Hp Hin E. destruct (Exec_delete _ _ _ app_ID _ (proj1 schemas) (app_keys_ok addr) text _ da (hs_apps _ _ _ Hh) c x g dz r Hg Hp (run_delete _ _ x Hin) E)
    as [He [(-> & Hr & Ho)|(Hb & _ & Hx)]]; (split; [done|]); [left; split; [done|by eapply holds_apps]|by right].
Qed.
Lemma deleting_fns c (g : Fn -> string) text : (forall r a, stored_fn r a -> r !! c = Some (VText (g a))) ->
  parse text = Some (SDelete "fns" [(c, Ceq)]) -> bool_decide (("fns"%string, c) ∈ deletes) = true -> Exec text [VText x] da = (dz, r) ->
  deleting da dz r (has g x (m_Fns m0)) (Mock (m_Apps m0) (without g x (m_Fns m0)) (m_Triggers m0)).
Proof.
  intros Hg Hp Hin E. destruct (Exec_delete _ _ _ fn_ID _ (proj1 (proj2 schemas)) fn_keys_ok text _ da (hs_fns _ _ _ Hh) c x g dz r Hg Hp (run_delete _ _ x Hin) E)
    as [He [(-> & Hr & Ho)|(Hb & _ & Hx)]]; (split; [done|]); [left; split; [done|by eapply holds_fns]|by right].
Qed.
Lemma deleting_trs c (g : Trigger -> string) text : (forall r a, stored_trigger r a -> r !! c = Some (VText (g a))) ->
  parse text = Some (SDelete "triggers" [(c, Ceq)]) -> bool_decide (("triggers"%string, c) ∈ deletes) = true -> Exec text [VText x] da = (dz, r) ->
  deleting da dz r (has g x (m_Triggers m0)) (Mock (m_Apps m0) (m_Fns m0) (without g x (m_Triggers m0))).
Proof.
  intros Hg Hp Hin E. destruct (Exec_delete _ _ _ tr_ID _ (proj2 (proj2 schemas)) trigger_keys_ok text _ da (hs_trs _ _ _ Hh) c x g dz r Hg Hp (run_delete _ _ x Hin) E)
    as [He [(-> & Hr & Ho)|(Hb & _ & Hx)]]; (split; [done|]); [left; split; [done|by eapply holds_trs]|by right].
Qed.
End Deleting.

Lemma still_broken (a b : DB) : (broken a = false -> broken b = false) -> broken b = true -> broken a = true.
Proof. intros H1 H2. destruct (broken a); [done|]. by rewrite H1 in H2. Qed.

Lemma then_run {A B} (f : DB -> DB * outcome serr A) (k : A -> DB -> DB * outcome serr B) da dz rz : then_ f k da = (dz, rz) ->
  exists d1 r1, f da = (d1, r1) /\ match r1 with Ok a => k a d1 = (dz, rz) | Err e => dz = d1 /\ rz = Err e | Panic => dz = d1 /\ rz = Panic end.
Proof.
  unfold then_, bind, ret. destruct (f da) as [d1 r1]. intros E. exists d1, r1. split; [done|]. destruct r1; [done|by injection E as <- <-..].
Qed.

Lemma has_id {A} (f : A -> string) x l : NoDup (f <$> l) -> (has f x l =? 0) = bool_decide (by_id f l !! x = None).
Proof.
  intros Hn. unfold has. apply eq_true_iff_eq. rewrite Z.eqb_eq, bool_decide_eq_true. split.
  - intros El. destruct (base.filter _ l) eqn:Ef; [|done]. apply eq_None_not_Some. intros [a [Ha <-]%by_id_elem]; [|done].
    assert (a ∈ base.filter (fun b => streq (f b) (f a) = true) l) as Hin by (apply list_elem_of_filter; split; [apply streq_refl|done]).
    rewrite Ef in Hin. by apply not_elem_of_nil in Hin.
  - intros Hx. destruct (base.filter _ l) as [|a k] eqn:Ef; [done|]. assert (a ∈ a :: k) as Hin by (by left). rewrite <- Ef in Hin.
    apply list_elem_of_filter in Hin as [E%streq_spec Ha]. assert (by_id f l !! x = Some a) as Hs by (by apply by_id_elem). congruence.
Qed.

Lemma meets_RemoveApp x db' r : ds_run db now i (ORemoveApp x) = (db', r) -> meets db m now i (ORemoveApp x) db' r.
Proof.
  cbn. unfold giving, sql_RemoveApp, outcome_of. destruct (Tx _ db) as [db1 r1] eqn:E. cbn. intros [= <- <-].
  refine (meets_tx (ORemoveApp x) _ (fun r => omap_ok (fun _ => VUnit) (final r)) _ _ _ _ E _); [|apply final_fine|].
  { safe_tx. }
  clear E. intros da dz rz Hh Hb (d1 & r2 & E1 & E)%then_run.
  destruct (deleting_apps _ _ _ x _ Hh _ app_ID _ (fun r a Hr => proj1 (app_col addr r a Hr)) parse_delete_app eq_refl E1) as [(_ & _ & Hb1) [[-> Hh1]|[Hbr [e ->]]]].
  2: { destruct E as [-> ->]. right. by apply Hb. }
  rewrite (has_id _ _ _ app_ids) in E. case_bool_decide as Hn.
  { injection E as <- <-. left. cbn. change (s_apps (abs m)) with (by_id app_ID (m_Apps m)). by rewrite Hn. }
  cbn [exec_all] in E. apply then_run in E as (d2 & r3 & E2 & E).
  destruct (deleting_fns _ _ _ x _ Hh1 _ fn_AppID _ (fun r a Hr => proj2 (proj2 (fn_col r a Hr))) parse_delete_app_fns eq_refl E2) as [(_ & _ & Hb2) [[-> Hh2]|[Hbr [e ->]]]].
  2: { destruct E as [-> ->]. right. eauto using still_broken. }
  apply then_run in E as (d3 & r4 & E3 & E).
  destruct (deleting_trs _ _ _ x _ Hh2 _ tr_AppID _ (fun r a Hr => proj1 (proj2 (proj2 (trigger_col r a Hr)))) parse_delete_app_trs eq_refl E3) as [_ [[-> Hh3]|[Hbr [e ->]]]].
  2: { destruct E as [-> ->]. right. eauto using still_broken. }
  injection E as <- <-. eexists. split; [exact Hh3|]. left. cbn [sql_spec ds_spec]. change (s_apps (abs m)) with (by_id app_ID (m_Apps m)).
  destruct (by_id app_ID (m_Apps m) !! x); [|done]. split; [|done]. unfold abs, without. cbn [m_Apps m_Fns m_Triggers s_apps s_fns s_trs].
  by rewrite by_id_delete, !by_id_without by auto using app_ids, fn_ids, trigger_ids.
Qed.

Lemma meets_RemoveFn x db' r : ds_run db now i (ORemoveFn x) = (db', r) -> meets db m now i (ORemoveFn x) db' r.
Proof.
  cbn. unfold giving, sql_RemoveFn, outcome_of. destruct (Tx _ db) as [db1 r1] eqn:E. cbn. intros [= <- <-].
  refine (meets_tx (ORemoveFn x) _ (fun r => omap_ok (fun _ => VUnit) (final r)) _ _ _ _ E _); [|apply final_fine|].
  { safe_tx. }
  clear E. intros da dz rz Hh Hb. unfold bind at 1. destruct (QueryRow _ _ _ da) as [d1 r2] eqn:E1.
  destruct (fn_row_of_id da x d1 r2 Hh E1) as [(_ & Hcur & _ & Hb1) Hc]. clear E1. intros E.
  assert (s_fns (abs m) !! x = None /\ r2 = Err SNoRows \/ exec_all ["DELETE FROM triggers WHERE fn_id=?"; "DELETE FROM fns WHERE id=?"]%string [VText x] d1 = (dz, rz) /\
    (is_Some (s_fns (abs m) !! x) \/ broken da = true)) as [[Hn ->]|[E' Hok]].
  { destruct Hc as [(a & Ha & ->)|[[Hn ->]|(Hbr & e & ->)]]; [right; split; [done|left; by rewrite Ha]|by left|right; split; [done|by right]]. }
  { injection E as <- <-. left. cbn [sql_spec ds_spec]. by rewrite Hn. }
  clear E Hc. rewrite <- Hcur in Hh. cbn [exec_all] in E'. apply then_run in E' as (d2 & r3 & E2 & E).
  destruct (deleting_trs _ _ _ x _ Hh _ tr_FnID _ (fun r a Hr => proj1 (proj2 (proj2 (proj2 (trigger_col r a Hr))))) parse_delete_fn_trs eq_refl E2) as [(_ & _ & Hb2) [[-> Hh2]|[Hbr [e ->]]]].
  2: { destruct E as [-> ->]. right. eauto using still_broken. }
  apply then_run in E as (d3 & r4 & E3 & E).
  destruct (deleting_fns _ _ _ x _ Hh2 _ fn_ID _ (fun r a Hr => proj1 (fn_col r a Hr)) parse_delete_fn eq_refl E3) as [_ [[-> Hh3]|[Hbr [e ->]]]].
  2: { destruct E as [-> ->]. right. eauto using still_broken. }
  injection E as <- <-. eexists. split; [exact Hh3|]. destruct Hok as [[g Hg]|Hbr]; [left|right; split; [by apply Hb|by left]]. cbn [sql_spec ds_spec]. rewrite Hg.
  split; [|done]. unfold abs, without. cbn [m_Apps m_Fns m_Triggers s_apps s_fns s_trs].
  by rewrite by_id_delete, !by_id_without by auto using app_ids, fn_ids, trigger_ids.
Qed.

(** A change outside of a transaction. *)
Lemma meets_alone o db' r m' : executed db db' -> holds_store addr (current db') m' ->
  sql_spec url_scheme lim addr (abs m) now i o r (abs m') \/ (broken db = true /\ abs m' = abs m) -> meets db m now i o db' r.
Proof.
  intros (Ht & _ & Hb) Hh Hs. split; [done|]. split; [by rewrite Ht|]. exists m'. rewrite no_tx by (by rewrite Ht). split; [done|].
  destruct Hs as [?|[? ?]]; [by left|]. right. split; [done|]. right. by left.
Qed.

Lemma meets_RemoveTrigger x db' r : ds_run db now i (ORemoveTrigger x) = (db', r) -> meets db m now i (ORemoveTrigger x) db' r.
Proof.
  cbn. unfold giving, sql_RemoveTrigger, outcome_of. destruct (then_ _ _ db) as [db1 r1] eqn:E. cbn. intros [= <- <-].
  apply then_run in E as (d1 & r2 & E1 & E).
  destruct (Exec_delete _ _ _ tr_ID _ (proj2 (proj2 schemas)) trigger_keys_ok _ _ db (hs_trs _ _ _ cur_rep) "id" x tr_ID d1 r2
    (fun r a Hr => proj1 (trigger_col r a Hr)) parse_delete_trigger (run_delete "triggers" "id" x eq_refl) E1) as [He [(-> & Hr & Ho)|(Hb & Hcur & e & ->)]].
  - change (Z.of_nat _ =? 0) with (has tr_ID x (m_Triggers m) =? 0) in E. rewrite (has_id _ _ _ trigger_ids) in E. injection E as <- <-.
    eapply meets_alone; [exact He|exact (holds_trs _ _ _ _ cur_rep _ Hr Ho)|]. left. cbn [sql_spec ds_spec]. change (s_trs (abs m)) with (by_id tr_ID (m_Triggers m)).
    unfold abs. cbn [m_Apps m_Fns m_Triggers s_apps s_fns s_trs]. rewrite by_id_delete by apply trigger_ids.
    case_bool_decide as Hn; [rewrite Hn; split; [by rewrite delete_id|done]|]. by destruct (by_id tr_ID (m_Triggers m) !! x).
  - destruct E as [-> ->]. eapply (meets_alone _ _ _ m); [exact He|by rewrite Hcur; apply cur_rep|by right].
Qed.
(** *** Inserting and updating *)

(** The statements that insert, given a record. *)
Lemma app_keys_iff (a : App) b : [app_Name b] = [app_Name a] <-> app_Name b = app_Name a.
Proof. split; [by intros [=]|by intros ->]. Qed.
Lemma fn_keys_iff (g : Fn) b : [fn_AppID b; fn_Name b] = [fn_AppID g; fn_Name g] <-> fn_AppID b = fn_AppID g /\ fn_Name b = fn_Name g.
Proof. split; [by intros [=]|by intros [-> ->]]. Qed.
Lemma trigger_keys_iff (t : Trigger) b : [tr_AppID b; tr_FnID b; tr_Name b] = [tr_AppID t; tr_FnID t; tr_Name t] <->
  tr_AppID b = tr_AppID t /\ tr_FnID b = tr_FnID t /\ tr_Name b = tr_Name t.
Proof. split; [by intros [=]|by intros (-> & -> & ->)]. Qed.

(** What an insert has done: the resource is there, or another has its key, or the
    engine failed. *)
Definition inserting {A} (da dz : DB) (r : outcome serr Z) (P : A -> Prop) (old : gmap string A) (m' : mock) : Prop := executed da dz /\
  ((exists n, r = Ok n /\ nobody P old /\ holds_store addr (current dz) m') \/
   (somebody P old /\ current dz = current da /\ exists e, r = Err (SDb e) /\ IsDuplicateKeyError eng_helper e = true) \/
   (broken da = true /\ current dz = current da /\ exists e, r = Err (SDb e))).

Lemma insert_app_run a rc da dz r : app_record a = Ok rc -> time_ok (app_CreatedAt a) -> time_ok (app_UpdatedAt a) ->
  s_apps (abs m) !! app_ID a = None -> holds_store addr (current da) m -> NamedExec insert_app (Ok rc) da = (dz, r) ->
  inserting da dz r (fun b => app_Name b = app_Name a) (s_apps (abs m)) (Mock (norm_app addr a :: m_Apps m) (m_Fns m) (m_Triggers m)).
Proof.
  intros Hrc Hc Hu Hi Hh. destruct (app_named a rc Hrc) as (ann & Ha & -> & _). intros E.
  destruct (insert_new _ _ _ _ _ (proj1 schemas) (app_keys_ok addr) _ _ _ _ (hs_apps _ _ _ Hh) (norm_app addr a) _ (app_keys_iff (norm_app addr a)) _ dz r
    (app_inserted addr a ann Ha Hc Hu) Hi parse_insert_app (proj1 (app_run a ann)) E) as [He [(n & -> & Hn & Hr & Ho)|Hor]]; (split; [exact He|]); [left|right; exact Hor].
  exists n. split_and!; [done..|]. exact (holds_apps _ _ _ _ Hh _ Hr Ho).
Qed.
Lemma insert_fn_run f rc da dz r : fn_record f = Ok rc -> time_ok (fn_CreatedAt f) -> time_ok (fn_UpdatedAt f) -> fn_ints f ->
  s_fns (abs m) !! fn_ID f = None -> holds_store addr (current da) m -> NamedExec insert_fn (Ok rc) da = (dz, r) ->
  inserting da dz r (fun g => fn_AppID g = fn_AppID f /\ fn_Name g = fn_Name f) (s_fns (abs m)) (Mock (m_Apps m) (norm_fn f :: m_Fns m) (m_Triggers m)).
Proof.
  intros Hrc Hc Hu Hin Hi Hh. destruct (fn_named f rc Hrc) as (_ & ann & Ha & -> & _). intros E.
  destruct (insert_new _ _ _ _ _ (proj1 (proj2 schemas)) fn_keys_ok _ _ _ _ (hs_fns _ _ _ Hh) (norm_fn f) _ (fn_keys_iff (norm_fn f)) _ dz r
    (fn_inserted f ann Ha Hc Hu Hin) Hi parse_insert_fn (proj1 (fn_run f ann)) E) as [He [(n & -> & Hn & Hr & Ho)|Hor]]; (split; [exact He|]); [left|right; exact Hor].
  exists n. split_and!; [done..|]. exact (holds_fns _ _ _ _ Hh _ Hr Ho).
Qed.
Lemma insert_trigger_run t rc da dz r : trigger_record t = Ok rc -> time_ok (tr_CreatedAt t) -> time_ok (tr_UpdatedAt t) ->
  s_trs (abs m) !! tr_ID t = None -> holds_store addr (current da) m -> NamedExec insert_trigger (Ok rc) da = (dz, r) ->
  inserting da dz r (fun u => tr_AppID u = tr_AppID t /\ tr_FnID u = tr_FnID t /\ tr_Name u = tr_Name t) (s_trs (abs m))
    (Mock (m_Apps m) (m_Fns m) (norm_trigger t :: m_Triggers m)).
Proof.
  intros Hrc Hc Hu Hi Hh. destruct (trigger_named t rc Hrc) as (ann & Ha & -> & _). intros E.
  destruct (insert_new _ _ _ _ _ (proj2 (proj2 schemas)) trigger_keys_ok _ _ _ _ (hs_trs _ _ _ Hh) (norm_trigger t) _ (trigger_keys_iff (norm_trigger t)) _ dz r
    (trigger_inserted t ann Ha Hc Hu) Hi parse_insert_trigger (proj1 (trigger_run t ann)) E) as [He [(n & -> & Hn & Hr & Ho)|Hor]]; (split; [exact He|]); [left|right; exact Hor].
  exists n. split_and!; [done..|]. exact (holds_trs _ _ _ _ Hh _ Hr Ho).
Qed.

Lemma meets_InsertApp a db' r : s_apps (abs m) !! i = None -> ds_run db now i (OInsertApp a) = (db', r) -> meets db m now i (OInsertApp a) db' r.
Proof.
  intros Hi. change (ds_run db now i (OInsertApp a)) with (giving VApp (sql_InsertApp db now i (Some a))).
  unfold giving, sql_InsertApp. rewrite App_Clone_eq. unfold outcome_of, mapped, bind.
  change (MkApp i _ _ _ _ _ _) with (sql_new_app a now i). set (a1 := sql_new_app a now i).
  destruct (then_ _ _ db) as [db1 r1] eqn:E. cbn. intros [= <- <-]. apply then_run in E as (d1 & r2 & E1 & E). destruct (app_record a1) as [rc|e|] eqn:Hrc.
  - destruct (insert_app_run a1 rc db d1 r2 Hrc Hnow Hnow Hi cur_rep E1) as [He [(n & -> & Hn & Hh)|[(Hs & Hcur & e & -> & Hd)|(Hb & Hcur & e & ->)]]].
    + injection E as <- <-. eapply meets_alone; [exact He|exact Hh|]. left. cbn [sql_spec]. fold a1. rewrite Hrc. right. split; [exact Hn|]. split; [|done].
      reflexivity.
    + destruct E as [-> ->]. apply (meets_alone _ _ _ m); [exact He|rewrite Hcur; apply cur_rep|]. left. cbn [sql_spec]. fold a1. rewrite Hrc. left. split; [exact Hs|].
      split; [done|]. cbn. by rewrite Hd.
    + destruct E as [-> ->]. clear E1. apply (meets_alone _ _ _ m); [exact He|rewrite Hcur; apply cur_rep|by right].
  - injection E1 as <- <-. destruct E as [-> ->]. apply (meets_alone _ _ _ m); [apply executed_refl|apply cur_rep|]. left. cbn [sql_spec]. fold a1. by rewrite Hrc.
  - by destruct (app_record_fine a1).
Qed.

Lemma stored_app_times r a : stored_app addr r a -> time_ok (app_CreatedAt a) /\ time_ok (app_UpdatedAt a).
Proof. intros (x & ann & _ & Hc & Hu & -> & _). split; [by apply (trunc_ok _ Hc)|by apply (trunc_ok _ Hu)]. Qed.
Lemma stored_fn_times r f : stored_fn r f -> time_ok (fn_CreatedAt f) /\ time_ok (fn_UpdatedAt f).
Proof. intros (x & ann & _ & Hc & Hu & _ & -> & _). split; [by apply (trunc_ok _ Hc)|by apply (trunc_ok _ Hu)]. Qed.
Lemma stored_trigger_times r t : stored_trigger r t -> time_ok (tr_CreatedAt t) /\ time_ok (tr_UpdatedAt t).
Proof. intros (x & ann & _ & Hc & Hu & -> & _). split; [by apply (trunc_ok _ Hc)|by apply (trunc_ok _ Hu)]. Qed.

Lemma rep_stored {A} t (stored : row -> A -> Prop) kfs T l a : rep t stored kfs T l -> a ∈ l -> exists r, stored r a.
Proof.
  intros (_ & rows & _ & HF) [n Hn]%list_elem_of_lookup. destruct (Forall2_lookup_r _ _ _ _ _ HF Hn) as (r & _ & Hr). by exists r.
Qed.

(** A name is that of one application, so an update by name is one by id. *)
Lemma same_name a b : a ∈ m_Apps m -> b ∈ m_Apps m -> app_Name a = app_Name b -> a = b.
Proof.
  intros Ha Hb E. destruct (hs_apps _ _ _ Hrep) as [Hu _].
  apply (fmap_NoDup_inj (fun a => [app_Name a]) (m_Apps m)); [exact (keys_second app_ID _ _ Hu)|done..|congruence].
Qed.
Lemma by_name b c : b ∈ m_Apps m -> app_ID c = app_ID b -> app_Name c = app_Name b ->
  (fun a => if streq (app_Name a) (app_Name c) then norm_app addr c else a) <$> m_Apps m =
  (fun a => if streq (app_ID a) (app_ID b) then norm_app addr c else a) <$> m_Apps m.
Proof.
  intros Hb Hi Hn. apply list_fmap_ext. intros _ a Ha%list_elem_of_lookup_2. rewrite Hn.
  assert (streq (app_Name a) (app_Name b) = streq (app_ID a) (app_ID b)) as ->; [|done]. apply eq_true_iff_eq. rewrite !streq_spec. split.
  - intros E. f_equal. by apply same_name.
  - intros E. f_equal. exact (fmap_NoDup_inj app_ID (m_Apps m) a b app_ids Ha Hb E).
Qed.

(** The statements that update, given the record of the resource as it was read. *)
Definition updating {A} (da dz : DB) (r : outcome serr Z) (P : A -> Prop) (old : gmap string A) (s' : store) : Prop := executed da dz /\
  ((exists n m', r = Ok n /\ nobody P old /\ holds_store addr (current dz) m' /\ abs m' = s') \/
   (somebody P old /\ exists e, r = Err (SDb e) /\ IsDuplicateKeyError eng_helper e = true) \/
   (broken da = true /\ exists e, r = Err (SDb e))).

Lemma update_app_run b c rc da dz r : b ∈ m_Apps m -> app_ID c = app_ID b -> app_Name c = app_Name b -> app_CreatedAt c = app_CreatedAt b ->
  time_ok (app_UpdatedAt c) -> app_record c = Ok rc -> holds_store addr (current da) m -> NamedExec update_app (Ok rc) da = (dz, r) ->
  updating da dz r (fun a => app_ID a <> app_ID b /\ app_Name a = app_Name c) (s_apps (abs m))
    (Store (<[app_ID b := norm_app addr c]> (s_apps (abs m))) (s_fns (abs m)) (s_trs (abs m))).
Proof.
  intros Hb Hi Hn Hct Hu Hrc Hh. destruct (app_named c rc Hrc) as (ann & Ha & _ & ->). intros E. pose proof (hs_apps _ _ _ Hh) as Hr.
  assert (forall a, a ∈ m_Apps m -> app_Name a = app_Name c -> a = b) as Hsame by (intros a Hin Hna; apply same_name; [done..|congruence]).
  assert (is_Some (by_id app_ID (m_Apps m) !! app_ID b)) as Hl by (exists b; apply by_id_elem; [apply app_ids|done]).
  destruct (update_new _ _ _ _ _ (proj1 schemas) (app_keys_ok addr) _ (app_set_args c ann) _ _ Hr (norm_app addr c) _ (app_keys_iff (norm_app addr c)) app_set "name"
    (app_Name c) (app_ID b) app_Name dz r (fun r a Hs => proj2 (app_col addr r a Hs)) (fun r a Hs Hin Hna => app_set_stored addr r a c ann Hs
      (eq_trans Hi (f_equal app_ID (eq_sym (Hsame a Hin Hna)))) (eq_sym Hna) (eq_trans Hct (f_equal app_CreatedAt (eq_sym (Hsame a Hin Hna)))) Ha Hu)
    eq_refl Hi Hl (by_name b c Hb Hi Hn) parse_update_app (proj2 (app_run c ann)) E) as [He [(n & l' & -> & Hno & Hrn & Ho & El)|Hor]];
    (split; [exact He|]); [left|right; exact Hor].
  eexists n, _. split_and!; [done..|exact (holds_apps _ _ _ _ Hh _ Hrn Ho)|]. unfold abs. cbn [m_Apps m_Fns m_Triggers s_apps s_fns s_trs]. by rewrite El.
Qed.

Lemma update_fn_run g c rc da dz r : g ∈ m_Fns m -> fn_ID c = fn_ID g -> fn_AppID c = fn_AppID g -> fn_CreatedAt c = fn_CreatedAt g ->
  time_ok (fn_UpdatedAt c) -> fn_ints c -> fn_record c = Ok rc -> holds_store addr (current da) m -> NamedExec update_fn (Ok rc) da = (dz, r) ->
  updating da dz r (fun a => fn_ID a <> fn_ID g /\ fn_AppID a = fn_AppID c /\ fn_Name a = fn_Name c) (s_fns (abs m))
    (Store (s_apps (abs m)) (<[fn_ID g := norm_fn c]> (s_fns (abs m))) (s_trs (abs m))).
Proof.
  intros Hb Hi Hn Hct Hu Hint Hrc Hh. destruct (fn_named c rc Hrc) as (_ & ann & Ha & _ & ->). intros E. pose proof (hs_fns _ _ _ Hh) as Hr.
  assert (forall a, a ∈ m_Fns m -> fn_ID a = fn_ID g -> a = g) as Hsame by (intros a Hin Hia; exact (fmap_NoDup_inj fn_ID (m_Fns m) a g fn_ids Hin Hb Hia)).
  assert (is_Some (by_id fn_ID (m_Fns m) !! fn_ID g)) as Hl by (exists g; apply by_id_elem; [apply fn_ids|done]).
  assert (drop (length fn_set) (fn_set_args c ann) = [VText (fn_ID g)]) as Hd by (by rewrite <- Hi).
  destruct (update_new _ _ _ _ _ (proj1 (proj2 schemas)) fn_keys_ok _ (fn_set_args c ann) _ _ Hr (norm_fn c) _ (fn_keys_iff (norm_fn c)) fn_set "id"
    (fn_ID g) (fn_ID g) fn_ID dz r (fun r a Hs => proj1 (fn_col r a Hs)) (fun r a Hs Hin Hna => fn_set_stored r a c ann Hs
      (eq_trans Hi (eq_sym Hna)) (eq_trans Hn (f_equal fn_AppID (eq_sym (Hsame a Hin Hna)))) (eq_trans Hct (f_equal fn_CreatedAt (eq_sym (Hsame a Hin Hna)))) Ha Hu Hint)
    Hd Hi Hl eq_refl parse_update_fn (proj2 (fn_run c ann)) E) as [He [(n & l' & -> & Hno & Hrn & Ho & El)|Hor]];
    (split; [exact He|]); [left|right; exact Hor].
  eexists n, _. split_and!; [done..|exact (holds_fns _ _ _ _ Hh _ Hrn Ho)|]. unfold abs. cbn [m_Apps m_Fns m_Triggers s_apps s_fns s_trs]. by rewrite El.
Qed.

Lemma update_trigger_run u c rc da dz r : u ∈ m_Triggers m -> tr_ID c = tr_ID u -> tr_Type c = tr_Type u -> tr_CreatedAt c = tr_CreatedAt u ->
  time_ok (tr_UpdatedAt c) -> trigger_record c = Ok rc -> holds_store addr (current da) m -> NamedExec update_trigger (Ok rc) da = (dz, r) ->
  updating da dz r (fun v => tr_ID v <> tr_ID u /\ tr_AppID v = tr_AppID u /\ tr_FnID v = tr_FnID c /\ tr_Name v = tr_Name c) (s_trs (abs m))
    (Store (s_apps (abs m)) (s_fns (abs m)) (<[tr_ID u := norm_trigger (kept_trigger c u)]> (s_trs (abs m)))).
Proof.
  intros Hb Hi Hn Hct Hu Hrc Hh. destruct (trigger_named c rc Hrc) as (ann & Ha & _ & ->). intros E. pose proof (hs_trs _ _ _ Hh) as Hr.
  assert (forall a, a ∈ m_Triggers m -> tr_ID a = tr_ID u -> a = u) as Hsame by (intros a Hin Hia; exact (fmap_NoDup_inj tr_ID (m_Triggers m) a u trigger_ids Hin Hb Hia)).
  assert (is_Some (by_id tr_ID (m_Triggers m) !! tr_ID u)) as Hl by (exists u; apply by_id_elem; [apply trigger_ids|done]).
  assert (drop (length trigger_set) (trigger_set_args c ann) = [VText (tr_ID u)]) as Hd by (by rewrite <- Hi).
  assert (forall r a, stored_trigger r a -> a ∈ m_Triggers m -> tr_ID a = tr_ID u ->
    stored_trigger (set_row trigger_set (trigger_set_args c ann) r) (norm_trigger (kept_trigger c u))) as Hset.
  { intros r0 a Hs Hin Hia. rewrite (Hsame a Hin Hia) in Hs. by apply trigger_set_stored. }
  destruct (update_new _ _ _ _ _ (proj2 (proj2 schemas)) trigger_keys_ok _ (trigger_set_args c ann) _ _ Hr (norm_trigger (kept_trigger c u)) _
    (trigger_keys_iff (norm_trigger (kept_trigger c u))) trigger_set "id" (tr_ID u) (tr_ID u) tr_ID dz r (fun r a Hs => proj1 (trigger_col r a Hs)) Hset
    Hd Hi Hl eq_refl parse_update_trigger (proj2 (trigger_run c ann)) E) as [He [(n & l' & -> & Hno & Hrn & Ho & El)|Hor]];
    (split; [exact He|]); [left|right; exact Hor].
  eexists n, _. split_and!; [done..|exact (holds_trs _ _ _ _ Hh _ Hrn Ho)|]. unfold abs. cbn [m_Apps m_Fns m_Triggers s_apps s_fns s_trs]. by rewrite El.
Qed.

(** A row that must be there. *)
Lemma mapped_run {A B} (g : outcome serr A -> outcome serr B) (f : DB -> DB * outcome serr A) da dz r : mapped g f da = (dz, r) ->
  exists r0, f da = (dz, r0) /\ r = g r0.
Proof. unfold mapped, bind, ret. destruct (f da) as [d1 r1]. intros [= <- <-]. by exists r1. Qed.

Lemma meets_UpdateApp a db' r : ds_run db now i (OUpdateApp a) = (db', r) -> meets db m now i (OUpdateApp a) db' r.
Proof.
  change (ds_run db now i (OUpdateApp a)) with (giving VApp (sql_UpdateApp url_scheme addr db now (Some a))).
  unfold giving, sql_UpdateApp, outcome_of. destruct (Tx _ db) as [db1 r1] eqn:E. cbn [fst snd]. intros [= <- <-].
  refine (meets_tx (OUpdateApp a) _ (fun r => omap_ok VApp (final r)) _ _ _ _ E _); [safe_tx|apply final_fine|].
  clear E. intros da dz rz Hh Hb (d1 & r2 & (r3 & E1 & ->)%mapped_run & E)%then_run.
  destruct (app_row_of_id da _ d1 r3 Hh E1) as [(_ & Hcur & _ & Hb1) [(b & Hl & ->)|[[Hn ->]|(Hbr & e & ->)]]]; cbn [if_none] in E; clear E1.
  2: { destruct E as [-> ->]. left. cbn [sql_spec]. by rewrite Hn. }
  2: { destruct E as [-> ->]. right. by apply Hb. }
  destruct (negb (streq (app_Name a) "") && negb (streq (app_Name b) (app_Name a))) eqn:En.
  { injection E as <- <-. left. cbn [sql_spec]. by rewrite Hl, En. }
  assert (forall r', written VApp (let! c := App_Update b a now in let! _ := App_Validate url_scheme c in Ok c) app_record (abs m)
    (fun c => Store (<[app_ID a := norm_app addr c]> (s_apps (abs m))) (s_fns (abs m)) (s_trs (abs m))) r' (abs m) ->
    sql_spec url_scheme lim addr (abs m) now i (OUpdateApp a) r' (abs m)) as Hsame by (intros r' Hw; cbn [sql_spec]; by rewrite Hl, En).
  unfold written in Hsame. apply then_run in E as (d2 & r4 & [= <- <-] & E). destruct (App_Update b a now) as [c|e|] eqn:Ec; cbn [lift obind] in *;
    [|destruct E as [-> ->]; left; by apply Hsame..].
  apply then_run in E as (d2 & r4 & [= <- <-] & E). destruct (App_Validate url_scheme c) as [[]|e|] eqn:Ev; cbn [lift obind] in *;
    [|destruct E as [-> ->]; left; by apply Hsame..].
  apply then_run in E as (d2 & r4 & E2 & E). destruct (app_record c) as [rc|e|] eqn:Hrc.
  2: { injection E2 as <- <-. destruct E as [-> ->]. left. by apply Hsame. }
  2: { by destruct (app_record_fine c). }
  clear Hsame. change (s_apps (abs m)) with (by_id app_ID (m_Apps m)) in Hl. apply by_id_elem in Hl as [Hin Hi]; [|apply app_ids].
  destruct (App_Update_keeps _ _ _ _ Ec) as (Hci & Hcn & Hcc). rewrite <- Hcur in Hh.
  destruct (rep_stored _ _ _ _ _ _ (hs_apps _ _ _ Hh) Hin) as (r0 & Hr0). destruct (stored_app_times _ _ Hr0) as [_ Hbu].
  assert (time_ok (app_UpdatedAt c)) as Hcu by (destruct (App_Update_times _ _ _ _ Ec) as [->| ->]; done).
  destruct (update_app_run b c rc d1 d2 r4 Hin Hci Hcn Hcc Hcu Hrc Hh E2) as [_ [(n & m' & -> & _ & Hh' & Habs)|[[(j & x & [Hx _]%by_id_elem & Hne & Hxn) _]|(Hbr & e & ->)]]].
  - injection E as <- <-. exists m'. split; [done|]. left. cbn [sql_spec]. change (s_apps (abs m)) with (by_id app_ID (m_Apps m)).
    rewrite (proj2 (by_id_elem app_ID _ (app_ID a) b app_ids) (conj Hin Hi)), En. unfold written. rewrite Ec. cbn [obind]. rewrite Ev. cbn [obind]. rewrite Hrc.
    cbn [obind]. rewrite Habs, Hi. done.
  - destruct Hne. f_equal. apply same_name; [done..|congruence].
  - apply app_ids.
  - destruct E as [-> ->]. right. eauto using still_broken.
Qed.

Lemma app_there_run dbx x db' r : holds_store addr (current dbx) m -> QueryRow scan_one_int "SELECT 1 FROM apps WHERE id=?" [VText x] dbx = (db', r) ->
  queried dbx db' /\ ((exists a, s_apps (abs m) !! x = Some a /\ r = Ok 1) \/ (s_apps (abs m) !! x = None /\ r = Err SNoRows) \/
    (broken dbx = true /\ exists e, r = Err (SDb e))).
Proof.
  intros Hh. refine (row_of_id "apps" (stored_app addr) app_ID [fun a => [app_Name a]] _ app_there scan_one_int (fun _ => 1) _ x (m_Apps m) dbx eq_refl eq_refl eq_refl eq_refl _ parse_app_there (proj1 (run_there x x x)) (hs_apps _ _ _ Hh) db' r).
  - intros r0 a Hr. by apply (app_col addr r0 a).
  - done.
Qed.
Lemma fn_app_run dbx x db' r : holds_store addr (current dbx) m -> QueryRow scan_one_string "SELECT app_id FROM fns WHERE id=?" [VText x] dbx = (db', r) ->
  queried dbx db' /\ ((exists f, s_fns (abs m) !! x = Some f /\ r = Ok (fn_AppID f)) \/ (s_fns (abs m) !! x = None /\ r = Err SNoRows) \/
    (broken dbx = true /\ exists e, r = Err (SDb e))).
Proof.
  intros Hh. refine (row_of_id "fns" stored_fn fn_ID [fun f => [fn_AppID f; fn_Name f]] _ fn_app scan_one_string fn_AppID _ x (m_Fns m) dbx eq_refl eq_refl eq_refl eq_refl _ parse_fn_app (proj1 (proj2 (run_there x x x))) (hs_fns _ _ _ Hh) db' r).
  - intros r0 a Hr. by apply (fn_col r0 a).
  - intros r0 a Hr. cbn. unfold column. cbn. destruct (fn_col r0 a Hr) as (_ & _ & ->). done.
Qed.
Lemma source_there_run t dbx db' r : holds_store addr (current dbx) m ->
  QueryRow scan_one_int "SELECT 1 FROM triggers WHERE app_id=? AND type=? and source=?" [VText (tr_AppID t); VText (tr_Type t); VText (tr_Source t)] dbx = (db', r) ->
  queried dbx db' /\ ((somebody (same_source t) (s_trs (abs m)) /\ r = Ok 1) \/ (nobody (same_source t) (s_trs (abs m)) /\ r = Err SNoRows) \/
    (broken dbx = true /\ exists e, r = Err (SDb e))).
Proof.
  intros Hh E. set (b := fun u => streq (tr_AppID u) (tr_AppID t) && (streq (tr_Type u) (tr_Type t) && (streq (tr_Source u) (tr_Source t) && true))).
  assert (forall r0 u, stored_trigger r0 u -> where_ok (sel_where source_there) [VText (tr_AppID t); VText (tr_Type t); VText (tr_Source t)] r0 = b u) as Hw.
  { intros r0 u Hu. cbn. destruct (trigger_col r0 u Hu) as (_ & _ & -> & _ & -> & ->). done. }
  destruct (QueryRow_run "triggers" _ _ source_there _ _ eq_refl Hw scan_one_int (fun _ => 1) (fun _ _ _ => eq_refl) _ _ dbx parse_source_there (proj2 (proj2 (run_there _ _ _)))
    (hs_trs _ _ _ Hh) db' r eq_refl eq_refl E) as [Hq Hc].
  split; [done|]. assert (forall u, b u = true <-> same_source t u) as Hb. { intros u. unfold b, same_source. rewrite !andb_true_iff, !streq_spec. tauto. }
  destruct Hc as [(a & Ha & Hb' & ->)|[[Hn ->]|Hbr]]; [left|right; left|by right; right]; (split; [|done]).
  - destruct (somebody_elem tr_ID _ _ _ a trigger_ids Hb Ha Hb') as [H1 H2]. exact (ex_intro _ _ (ex_intro _ a (conj H1 H2))).
  - exact (nobody_elem tr_ID _ _ _ trigger_ids Hb Hn).
Qed.

Context (Hlim : MaxTimeout lim <= 2147483647 /\ MaxIdleTimeout lim <= 2147483647).

Lemma meets_InsertFn f db' r : s_fns (abs m) !! i = None -> ds_run db now i (OInsertFn f) = (db', r) -> meets db m now i (OInsertFn f) db' r.
Proof.
  intros Hi. change (ds_run db now i (OInsertFn f)) with (giving VFn (sql_InsertFn lim db now i (Some f))).
  unfold giving, sql_InsertFn. rewrite Fn_Clone_eq. change (MkFn i _ _ _ _ _ _ _ _ _ _) with (new_fn f now i). set (f1 := new_fn f now i).
  destruct (Fn_Validate lim f) as [[]|e|] eqn:Hv.
  2,3: intros [= <- <-]; (apply meets_query; [by split_and!|]); left; cbn [sql_spec]; by rewrite Hv.
  unfold outcome_of. destruct (mapped _ _ db) as [db1 r1] eqn:E. cbn [fst snd]. intros [= <- <-]. apply mapped_run in E as (r2 & E & ->).
  refine (meets_tx (OInsertFn f) _ (fun r => omap_ok VFn (final (or_exists ErrFnsExists r))) _ _ _ _ E _); [safe_tx|by intros []|].
  clear E. intros da dz rz Hh Hb. unfold bind at 1. destruct (QueryRow _ _ _ da) as [d1 r3] eqn:E1.
  destruct (app_there_run da _ d1 r3 Hh E1) as [(_ & Hcur & _ & Hb1) Hc]. clear E1. intros E. change (fn_AppID f1) with (fn_AppID f) in Hc.
  assert (s_apps (abs m) !! fn_AppID f = None /\ r3 = Err SNoRows \/ then_ (NamedExec insert_fn (fn_record f1)) (fun _ => ret (Ok f1)) d1 = (dz, rz) /\
    (is_Some (s_apps (abs m) !! fn_AppID f) \/ broken da = true)) as [[Hn ->]|[E' Hok]].
  { destruct Hc as [(a & Ha & ->)|[[Hn ->]|(Hbr & e & ->)]]; [right; split; [exact E|left; rewrite Ha; by eexists]|left; exact (conj Hn eq_refl)|right; exact (conj E (or_intror Hbr))]. }
  { injection E as <- <-. left. cbn [sql_spec]. by rewrite Hv, Hn. }
  clear E Hc. rewrite <- Hcur in Hh. apply then_run in E' as (d2 & r4 & E2 & E). destruct (fn_record f1) as [rc|e|] eqn:Hrc.
  2: { injection E2 as <- <-. destruct E as [-> ->]. destruct Hok as [[a Ha]|Hbr]; [left|right; by apply Hb]. cbn [sql_spec]. rewrite Hv, Ha. fold f1. by rewrite Hrc. }
  2: { by destruct (fn_record_fine f1). }
  assert (fn_ints f1) as Hints by (apply (Fn_Validate_ints lim); [exact Hlim|exact Hv|by eapply (fn_named (DB:=DB))]).
  destruct (insert_fn_run f1 rc d1 d2 r4 Hrc Hnow Hnow Hints Hi Hh E2) as [_ [(n & -> & Hn & Hh')|[(Hs & Hcd & e & -> & Hd)|(Hbr & _ & e & ->)]]]; clear E2.
  - injection E as <- <-. eexists. split; [exact Hh'|]. destruct Hok as [[a Ha]|Hbr]; [left|right; split; [by apply Hb|by left]].
    cbn [sql_spec]. rewrite Hv, Ha. fold f1. rewrite Hrc. right. split; [exact Hn|]. by split.
  - destruct E as [-> ->]. destruct Hok as [[a Ha]|Hbr]; [left|right; by apply Hb]. cbn [sql_spec or_exists duplicate]. rewrite Hv, Ha. fold f1. rewrite Hrc, Hd.
    left. split; [exact Hs|]. by split.
  - destruct E as [-> ->]. right. eauto using still_broken.
Qed.

Lemma meets_UpdateFn f db' r : ds_run db now i (OUpdateFn f) = (db', r) -> meets db m now i (OUpdateFn f) db' r.
Proof.
  change (ds_run db now i (OUpdateFn f)) with (giving VFn (sql_UpdateFn lim db now (Some f))).
  unfold giving, sql_UpdateFn, outcome_of. destruct (Tx _ db) as [db1 r1] eqn:E. cbn [fst snd]. intros [= <- <-].
  refine (meets_tx (OUpdateFn f) _ (fun r => omap_ok VFn (final r)) _ _ _ _ E _); [safe_tx|apply final_fine|].
  clear E. intros da dz rz Hh Hb (d1 & r2 & (r3 & E1 & ->)%mapped_run & E)%then_run.
  destruct (fn_row_of_id da _ d1 r3 Hh E1) as [(_ & Hcur & _ & Hb1) [(b & Hl & ->)|[[Hn ->]|(Hbr & e & ->)]]]; cbn [if_none] in E; clear E1.
  2: { destruct E as [-> ->]. left. cbn [sql_spec]. by rewrite Hn. }
  2: { destruct E as [-> ->]. right. by apply Hb. }
  assert (forall r' s', written VFn (let! c := Fn_Update b f now in let! _ := Fn_Validate lim c in Ok c) fn_record (abs m)
    (fun c => Store (s_apps (abs m)) (<[fn_ID f := norm_fn c]> (s_fns (abs m))) (s_trs (abs m))) r' s' ->
    sql_spec url_scheme lim addr (abs m) now i (OUpdateFn f) r' s') as Hsame by (intros r' s' Hw; cbn [sql_spec]; by rewrite Hl).
  unfold written in Hsame. apply then_run in E as (d2 & r4 & [= <- <-] & E). destruct (Fn_Update b f now) as [c|e|] eqn:Ec; cbn [lift obind] in *;
    [|destruct E as [-> ->]; left; by apply Hsame..].
  apply then_run in E as (d2 & r4 & [= <- <-] & E). destruct (Fn_Validate lim c) as [[]|e|] eqn:Ev; cbn [lift obind] in *;
    [|destruct E as [-> ->]; left; by apply Hsame..].
  apply then_run in E as (d2 & r4 & E2 & E). destruct (fn_record c) as [rc|e|] eqn:Hrc.
  2: { injection E2 as <- <-. destruct E as [-> ->]. left. by apply Hsame. }
  2: { by destruct (fn_record_fine c). }
  apply by_id_elem in Hl as [Hin Hi]; [|apply fn_ids].
  destruct (Fn_Update_keeps _ _ _ _ Ec) as (Hci & Hcn & Hca). destruct (Fn_Update_times _ _ _ _ Ec) as [Hcc Hcu]. rewrite <- Hcur in Hh.
  destruct (rep_stored _ _ _ _ _ _ (hs_fns _ _ _ Hh) Hin) as (r0 & Hr0). destruct (stored_fn_times _ _ Hr0) as [_ Hbu].
  assert (time_ok (fn_UpdatedAt c)) as Hct by (destruct Hcu as [->| ->]; done).
  assert (fn_ints c) as Hints by (apply (Fn_Validate_ints lim); [exact Hlim|exact Ev|by eapply (fn_named (DB:=DB))]).
  destruct (update_fn_run b c rc d1 d2 r4 Hin Hci Hca Hcc Hct Hints Hrc Hh E2) as [_ [(n & m' & -> & _ & Hh' & Habs)|[[(j & x & [Hx _]%by_id_elem & Hne & Hxa & Hxn) _]|(Hbr & e & ->)]]].
  - injection E as <- <-. exists m'. split; [done|]. left. rewrite Habs. apply Hsame. cbn [obind]. by rewrite Hi.
  - destruct Hne. f_equal. destruct (hs_fns _ _ _ Hh) as [Hu _]. apply (fmap_NoDup_inj (fun f => [fn_AppID f; fn_Name f]) (m_Fns m)); [exact (keys_second fn_ID _ _ Hu)|done..|congruence].
  - apply fn_ids.
  - destruct E as [-> ->]. right. eauto using still_broken.
Qed.

Lemma meets_UpdateTrigger t db' r : ds_run db now i (OUpdateTrigger t) = (db', r) -> meets db m now i (OUpdateTrigger t) db' r.
Proof.
  change (ds_run db now i (OUpdateTrigger t)) with (giving VTrigger (sql_UpdateTrigger db now (Some t))).
  unfold giving, sql_UpdateTrigger, outcome_of. destruct (Tx _ db) as [db1 r1] eqn:E. cbn [fst snd]. intros [= <- <-].
  refine (meets_tx (OUpdateTrigger t) _ (fun r => omap_ok VTrigger (final r)) _ _ _ _ E _); [safe_tx|apply final_fine|].
  clear E. intros da dz rz Hh Hb (d1 & r2 & (r3 & E1 & ->)%mapped_run & E)%then_run.
  destruct (trigger_row_of_id da _ d1 r3 Hh E1) as [(_ & Hcur & _ & Hb1) [(u & Hl & ->)|[[Hn ->]|(Hbr & e & ->)]]]; cbn [if_none] in E; clear E1.
  2: { destruct E as [-> ->]. left. cbn [sql_spec]. by rewrite Hn. }
  2: { destruct E as [-> ->]. right. by apply Hb. }
  unfold works. cbn [sql_spec]. rewrite Hl. apply then_run in E as (d2 & r4 & [= <- <-] & E).
  destruct (Trigger_Update u t now) as [c|e|] eqn:Ec; cbn [lift obind] in *; [|destruct E as [-> ->]; by left..].
  apply then_run in E as (d2 & r4 & [= <- <-] & E). destruct (Trigger_Validate c) as [[]|e|] eqn:Ev; cbn [lift obind] in *; [|destruct E as [-> ->]; by left..].
  apply then_run in E as (d2 & r4 & E2 & E). destruct (trigger_record c) as [rc|e|] eqn:Hrc.
  2: { injection E2 as <- <-. destruct E as [-> ->]. by left. }
  2: { by destruct (trigger_record_fine c). }
  apply by_id_elem in Hl as [Hin Hi]; [|apply trigger_ids].
  destruct (Trigger_Update_keeps _ _ _ _ Ec) as (Hci & Hcty & _). destruct (Trigger_Update_times _ _ _ _ Ec) as [Hcc Hcu]. rewrite <- Hcur in Hh.
  destruct (rep_stored _ _ _ _ _ _ (hs_trs _ _ _ Hh) Hin) as (r0 & Hr0). destruct (stored_trigger_times _ _ Hr0) as [_ Hbu].
  assert (time_ok (tr_UpdatedAt c)) as Hct by (destruct Hcu as [->| ->]; done). rewrite <- Hi.
  destruct (update_trigger_run u c rc d1 d2 r4 Hin Hci Hcty Hcc Hct Hrc Hh E2) as [_ [(n & m' & -> & Hno & Hh' & Habs)|[[Hs (e & -> & _)]|(Hbr & e & ->)]]]; clear E2.
  - injection E as <- <-. exists m'. split; [exact Hh'|]. left. right. exact (conj Hno (conj Habs eq_refl)).
  - destruct E as [-> ->]. left. left. split; [exact Hs|]. split; [done|]. by eexists.
  - destruct E as [-> ->]. right. eauto using still_broken.
Qed.

Lemma meets_InsertTrigger t db' r : s_trs (abs m) !! i = None -> ds_run db now i (OInsertTrigger t) = (db', r) -> meets db m now i (OInsertTrigger t) db' r.
Proof.
  intros Hi. change (ds_run db now i (OInsertTrigger t)) with (giving VTrigger (sql_InsertTrigger db now i (Some t))).
  unfold giving, sql_InsertTrigger. change (MkTrigger i _ _ _ _ _ _ _ _) with (new_trigger t now i). set (t1 := new_trigger t now i).
  destruct (Trigger_Validate t1) as [[]|e|] eqn:Hv.
  2,3: intros [= <- <-]; (apply meets_query; [by split_and!|]); left; cbn [sql_spec]; fold t1; by rewrite Hv.
  unfold outcome_of. destruct (mapped _ _ db) as [db1 r1] eqn:E. cbn [fst snd]. intros [= <- <-]. apply mapped_run in E as (r2 & E & ->).
  refine (meets_tx (OInsertTrigger t) _ (fun r => omap_ok VTrigger (final (or_exists ErrTriggerExists r))) _ _ _ _ E _); [safe_tx|by intros []|].
  clear E. intros da dz rz Hh Hb (d1 & r3 & (r4 & E1 & ->)%mapped_run & E)%then_run.
  destruct (app_there_run da _ d1 r4 Hh E1) as [(_ & Hcur & _ & Hb1) Hc]. clear E1. change (tr_AppID t1) with (tr_AppID t) in Hc.
  unfold works. cbn [sql_spec]. fold t1. rewrite Hv. destruct Hc as [(a & Ha & ->)|[[Hn ->]|(Hbr & e & ->)]]; cbn [if_none] in E.
  2: { destruct E as [-> ->]. left. by rewrite Hn. }
  2: { destruct E as [-> ->]. right. by apply Hb. }
  rewrite Ha. rewrite <- Hcur in Hh. apply then_run in E as (d2 & r5 & (r6 & E1 & ->)%mapped_run & E).
  destruct (fn_app_run d1 _ d2 r6 Hh E1) as [(_ & Hcur2 & _ & Hb2) Hc]. clear E1. change (tr_FnID t1) with (tr_FnID t) in Hc.
  destruct Hc as [(f & Hf & ->)|[[Hn ->]|(Hbr & e & ->)]]; cbn [if_none] in E.
  2: { destruct E as [-> ->]. left. by rewrite Hn. }
  2: { destruct E as [-> ->]. right. eauto using still_broken. }
  rewrite Hf. rewrite <- Hcur2 in Hh. change (tr_AppID t1) with (tr_AppID t) in E. destruct (negb (streq (fn_AppID f) (tr_AppID t))) eqn:Es.
  { injection E as <- <-. left. done. }
  unfold bind in E. destruct (QueryRow _ _ _ d2) as [d3 r7] eqn:E1. destruct (source_there_run t d2 d3 r7 Hh E1) as [(_ & Hcur3 & _ & Hb3) Hc]. clear E1.
  destruct Hc as [[Hs ->]|[[Hno ->]|(Hbr & e & ->)]].
  { injection E as <- <-. left. left. exact (conj Hs (conj eq_refl eq_refl)). }
  2: { injection E as <- <-. right. eauto using still_broken. }
  rewrite <- Hcur3 in Hh. apply then_run in E as (d4 & r8 & E2 & E). destruct (trigger_record t1) as [rc|e|] eqn:Hrc.
  2: { injection E2 as <- <-. destruct E as [-> ->]. left. right. exact (conj Hno (conj eq_refl eq_refl)). }
  2: { by destruct (trigger_record_fine t1). }
  destruct (insert_trigger_run t1 rc d3 d4 r8 Hrc Hnow Hnow Hi Hh E2) as [_ [(n & -> & Hn & Hh')|[(Hs & _ & e & -> & Hd)|(Hbr & _ & e & ->)]]]; clear E2.
  - injection E as <- <-. eexists. split; [exact Hh'|]. left. right. split; [exact Hno|]. right. exact (conj Hn (conj eq_refl eq_refl)).
  - destruct E as [-> ->]. left. right. split; [exact Hno|]. left. split; [exact Hs|]. split; [done|]. cbn [or_exists duplicate]. by rewrite Hd.
  - destruct E as [-> ->]. right. eauto 6 using still_broken.
Qed.
End Ops.

(** ** The store as a whole *)

(** What an operation takes for granted: a new id is new (id.New), and a page of
    applications does not have a negative size (the server's default is positive). *)
Definition op_fits (s : store) (new_id : string) (o : ds_op) : Prop :=
  match o with
  | OInsertApp _ => s_apps s !! new_id = None
  | OInsertFn _ => s_fns s !! new_id = None
  | OInsertTrigger _ => s_trs s !! new_id = None
  | OGetApps f => 0 <= af_PerPage f
  | _ => True
  end.

Section Whole.
Context {MR : MapRange} {U : UnicodeTables} {ST : StoreText} {DB : Type} `{Engine sql_schema DB}.
Context (url_scheme : string -> outcome string string) (lim : Limits) (addr : nat).

End Whole.

(** *** A query that cannot work *)

Section GetTrigger.
Context {ST : StoreText} {DB : Type} `{Engine sql_schema DB}.

Definition by_fn_id : select := Select false fn_cols "fns" [("name", Ceq); ("app_id", Ceq); ("fn_id", Ceq)]%string None false.
#[local] Transparent parse runnable sql_schema.
Lemma parse_GetTrigger : parse (fnSelector ++ " WHERE name=? AND app_id=? AND fn_id=?") = Some (SSelect by_fn_id).
Proof. reflexivity. Qed.
Lemma GetTrigger_unrunnable x y z : runnable sql_schema (SSelect by_fn_id) [VText x; VText y; VText z] = false.
Proof. reflexivity. Qed.
#[local] Opaque parse runnable sql_schema.

(** C40: [GetTrigger] asks the table of the functions for a column that only the
    table of the triggers has, so on every database, whatever it holds, it returns
    an error and changes nothing. *)
Theorem sql_GetTrigger_fails db appId fnId name :
  (exists e, (sql_GetTrigger db appId fnId name).2 = Err e) /\ committed (sql_GetTrigger db appId fnId name).1 = committed db.
Proof.
  unfold sql_GetTrigger, outcome_of, mapped, QueryRow, then_, bind, ret, Query. rewrite parse_GetTrigger.
  destruct (db_query db by_fn_id _) as [db1 r1] eqn:E. destruct (query_law db by_fn_id _ db1 r1 E) as (Hc & _ & _ & Hp & Hok & _).
  destruct r1 as [[rows e]|e|]; [|by split; [eexists|]|done].
  destruct (Hok rows e eq_refl) as [Hr _]. by rewrite GetTrigger_unrunnable in Hr.
Qed.
End GetTrigger.

(** ** An example *)

Fixpoint bits (p : positive) : string :=
  match p with xH => "."%string | xO p => String "0"%char (bits p) | xI p => String "1"%char (bits p) end.
Fixpoint unbits (s : string) : option positive :=
  match s with
  | EmptyString => None
  | String c s => if Ascii.eqb c "."%char then Some xH else if Ascii.eqb c "0"%char then xO <$> unbits s else xI <$> unbits s
  end.
Lemma unbits_bits p : unbits (bits p) = Some p /\ bits p <> ""%string.
Proof. induction p as [p [IH _]|p [IH _]|]; cbn; rewrite ?IH; done. Qed.

Definition read_bits {A} `{Countable A} (s : string) : outcome gerr A :=
  match unbits s ≫= decode with Some a => Ok a | None => Err (EPlain "not a text") end.
Lemma read_bits_ok {A} `{Countable A} (a : A) : read_bits (bits (encode a)) = Ok a.
Proof. unfold read_bits. rewrite (proj1 (unbits_bits _)). cbn. by rewrite decode_encode. Qed.

#[refine] Definition demo_text : StoreText := {|
  config_json m := bits (encode m);
  config_parse s := let! m := read_bits s in Ok (Some m);
  config_utf8 m := m;
  ann_json m := Ok (bits (encode m));
  ann_parse s := let! m := read_bits s in Ok (Some m);
  ann_utf8 m := m;
  time_Format layout t := bits (encode (trunc_ms t));
  time_Parse layout s := if streq layout RFC3339Millis then read_bits s else Err (EPlain "cannot parse")
|}.
Proof.
  - intros m. split; [apply unbits_bits|]. by rewrite read_bits_ok.
  - done.
  - intros m t [= <-]. split; [apply unbits_bits|]. by rewrite read_bits_ok.
  - done.
  - done.
  - intros t Ht. split; [apply unbits_bits|]. split; [by rewrite read_bits_ok|]. split; [by eexists|]. by rewrite (proj2 (trunc_ok t Ht)).
Defined.

Definition demo_rel : Engine sql_schema rel := Rel sql_schema sqliteHelper.
Definition demo_db : rel := MkRel ∅ None.
Definition demo_sql : Datastore rel :=
  sql_Datastore (MR := canonical_range) (U := demo_tables) (ST := demo_text) (H := demo_rel) demo_scheme default_limits 0.

#[local] Transparent parse runnable sql_schema insert_app update_app insert_fn update_fn insert_trigger update_trigger
  appIDSelector fnIDSelector triggerIDSelector tables App_Update App_Validate Fn_Update Fn_Validate Trigger_Update Trigger_Validate ann_json app_record fn_record trigger_record.

